(** * struct-rx: the reactive state tree of [packages/struct-rx/src/index.tsx]

    A shallow embedding of the Topic / Subscriber / Branch / Node classes and of
    the State facade, over an explicit object store.  Every class instance is a
    cell of the store, addressed by a location; a method is a function that
    takes the store and returns the store it leaves behind. *)

From stdpp Require Import base option list gmap strings pretty.
From Stdlib Require Import PrimFloat.

Set Default Proof Using "Type".
Set Warnings "-register-all".
Open Scope nat_scope.

(** ** Values handed to [update] and returned by [read] *)

(** [type Atomic = boolean | string | number | (() => any)].  A number is an
    IEEE double; a function is known by its identity only. *)
Inductive Atomic :=
| ABoolean (b : bool)
| AString (s : string)
| ANumber (x : float)
| AFunction (f : nat).

(** A JavaScript value as far as the library looks at it.  The fields of a
    record are listed in [Object.keys] order.  [VInstance] is an object whose
    prototype's constructor is not [Object] (a [Date], a class instance). *)
Inductive Value :=
| VUndefined
| VNull
| VAtomic (a : Atomic)
| VArray (xs : list Value)
| VRecord (fs : list (string * Value))
| VInstance (cls : string) (fs : list (string * Value)).

(** [a === b] on atomic values: numbers compare as doubles (so [NaN] differs
    from itself), functions by identity. *)
Definition atomic_strict_eq (a b : Atomic) : bool :=
  match a, b with
  | ABoolean x, ABoolean y => Bool.eqb x y
  | AString x, AString y => String.eqb x y
  | ANumber x, ANumber y => PrimFloat.eqb x y
  | AFunction f, AFunction g => Nat.eqb f g
  | _, _ => false
  end.

(** ** The object store *)

(** Locations and Subscriber identities are natural numbers. *)
Abbreviation loc := nat (only parsing).
Abbreviation Sub := nat (only parsing).

(** What a [Node] holds: [Topic<any> | Branch | undefined]. *)
Inductive Content :=
| CUndefined
| CTopic (t : loc)
| CBranch (b : loc).

(** A reference to a [Topic] object.  A [Node] is a Topic; the [Topic] that
    [getOrCreateTopic] makes is a leaf; the [keys] Topic of a [Branch] is
    created with the Branch and never replaced, so it is addressed through
    its Branch. *)
Inductive TopicRef :=
| TNode (l : loc)
| TLeaf (t : loc)
| TKeys (b : loc).

(** The [value] field of a Topic, by the kind of Topic. *)
Inductive TopicValue :=
| XContent (c : Content)
| XAtomic (a : option Atomic)
| XKeys (ks : list string).

(** [class Topic] instantiated by [getOrCreateTopic] (no detach). *)
Record LeafCell := MkLeaf {
  t_value : option Atomic;
  t_subscribers : list Sub }.

(** [class Node extends Topic].  The detach closure made by
    [Branch.createChild] captures the Branch and the key; it is kept as that
    pair. *)
Record NodeCell := MkNode {
  n_value : Content;
  n_subscribers : list Sub;
  n_detach : option (string * loc);
  n_parent : option (string * loc) }.

(** [class Branch], with the fields of its [keys] Topic inlined.  An
    [Im.OrderedSet<string>] is a duplicate-free list in insertion order. *)
Record BranchCell := MkBranch {
  b_isArray : bool;
  b_keys : list string;
  b_keys_subscribers : list Sub;
  b_nodes : gmap string loc }.

Inductive Cell :=
| ONode (n : NodeCell)
| OLeaf (t : LeafCell)
| OBranch (b : BranchCell).

(** [type Keys = Key[]]; a key is used through [toString()] only. *)
Record StateRef := MkStateRef { root : loc; keys : list string }.

(** The four tracked reads of the facade; a Subscriber's reaction re-runs
    the one it was made for. *)
Inductive Produce := PUse | PUseKind | PUseKeys | PUseSize.

(** [class Subscriber]; [reaction] is the closure built by [useTopics],
    given by the tracked read it re-runs and the reference it reads. *)
Record SubscriberCell := MkSubscriber {
  s_reaction : Produce * StateRef;
  s_subscribed : bool;
  s_topics : list TopicRef }.

(** Ghost events: a [set] that found a different value, and a call of a
    detach callback.  Nothing reads the log. *)
Inductive Event :=
| Fired (t : TopicRef)
| Detached (t : TopicRef).

Record Heap := MkHeap {
  cells : gmap loc Cell;
  next : loc;
  subs : gmap Sub SubscriberCell;
  notified : list Sub;          (* Subscriber.notified *)
  log : list Event }.

Global Instance Atomic_inhabited : Inhabited Atomic := populate (ABoolean false).
Global Instance TopicRef_eq_dec : EqDecision TopicRef.
Proof. solve_decision. Defined.
Global Instance Content_eq_dec : EqDecision Content.
Proof. solve_decision. Defined.
Global Instance Event_eq_dec : EqDecision Event.
Proof. solve_decision. Defined.

Definition with_cells (f : gmap loc Cell → gmap loc Cell) (h : Heap) : Heap :=
  MkHeap (f (cells h)) (next h) (subs h) (notified h) (log h).
Definition with_subs (f : gmap Sub SubscriberCell → gmap Sub SubscriberCell)
    (h : Heap) : Heap :=
  MkHeap (cells h) (next h) (f (subs h)) (notified h) (log h).
Definition with_notified (f : list Sub → list Sub) (h : Heap) : Heap :=
  MkHeap (cells h) (next h) (subs h) (f (notified h)) (log h).
Definition record (e : Event) (h : Heap) : Heap :=
  MkHeap (cells h) (next h) (subs h) (notified h) (log h ++ [e]).

(** [new C(...)]: the object goes to the next free location. *)
Definition alloc (c : Cell) (h : Heap) : loc * Heap :=
  (next h, MkHeap (<[next h := c]> (cells h)) (S (next h)) (subs h)
                  (notified h) (log h)).

Definition empty_node : NodeCell := MkNode CUndefined [] None None.
Definition empty_leaf : LeafCell := MkLeaf None [].
Definition empty_branch : BranchCell := MkBranch false [] [] ∅.

(** Reading a field through a reference.  A reference always denotes an
    allocated object of its class; the default is for locations that are
    not. *)
Definition node (l : loc) (h : Heap) : NodeCell :=
  match cells h !! l with Some (ONode n) => n | _ => empty_node end.
Definition leaf (t : loc) (h : Heap) : LeafCell :=
  match cells h !! t with Some (OLeaf c) => c | _ => empty_leaf end.
Definition branch (b : loc) (h : Heap) : BranchCell :=
  match cells h !! b with Some (OBranch c) => c | _ => empty_branch end.

Definition on_node (f : NodeCell → NodeCell) (c : Cell) : Cell :=
  match c with ONode n => ONode (f n) | _ => c end.
Definition on_leaf (f : LeafCell → LeafCell) (c : Cell) : Cell :=
  match c with OLeaf t => OLeaf (f t) | _ => c end.
Definition on_branch (f : BranchCell → BranchCell) (c : Cell) : Cell :=
  match c with OBranch b => OBranch (f b) | _ => c end.

Definition modify_node (l : loc) (f : NodeCell → NodeCell) : Heap → Heap :=
  with_cells (alter (on_node f) l).
Definition modify_leaf (t : loc) (f : LeafCell → LeafCell) : Heap → Heap :=
  with_cells (alter (on_leaf f) t).
Definition modify_branch (b : loc) (f : BranchCell → BranchCell) : Heap → Heap :=
  with_cells (alter (on_branch f) b).

(** ** [Set<Subscriber>] and [Im.OrderedSet<string>] *)

(** A JavaScript [Set] keeps insertion order and ignores a second [add]. *)
Definition set_add {A} `{EqDecision A} (x : A) (s : list A) : list A :=
  if decide (x ∈ s) then s else s ++ [x].
Definition set_delete {A} `{EqDecision A} (x : A) (s : list A) : list A :=
  filter (λ y, y ≠ x) s.

(** Immutable.js ordered sets: [add] appends a new element, [delete] and
    [intersect] keep the order of what remains, and each returns the very
    same set object when it changes nothing, so that two successive values
    of a [keys] Topic are the same object exactly when they have the same
    elements. *)
Definition oset_has (k : string) (s : list string) : bool := bool_decide (k ∈ s).
Definition oset_add (k : string) (s : list string) : list string := set_add k s.
Definition oset_delete (k : string) (s : list string) : list string := set_delete k s.
Definition oset_intersect (s other : list string) : list string :=
  filter (λ k, k ∈ other) s.

(** ** class Subscriber: notify *)

Module Subscriber.
(** [notify() { Subscriber.notified.add(this) }] *)
Definition notify (s : Sub) : Heap → Heap := with_notified (set_add s).
End Subscriber.

(** ** class Topic *)

Module Topic.

Definition get (t : TopicRef) (h : Heap) : TopicValue :=
  match t with
  | TNode l => XContent (n_value (node l h))
  | TLeaf l => XAtomic (t_value (leaf l h))
  | TKeys b => XKeys (b_keys (branch b h))
  end.

Definition subscribers (t : TopicRef) (h : Heap) : list Sub :=
  match t with
  | TNode l => n_subscribers (node l h)
  | TLeaf l => t_subscribers (leaf l h)
  | TKeys b => b_keys_subscribers (branch b h)
  end.

(** The [detach] field: only a Node made by [Branch.createChild] has one. *)
Definition detach (t : TopicRef) (h : Heap) : option (string * loc) :=
  match t with
  | TNode l => n_detach (node l h)
  | _ => None
  end.

Definition write_value (t : TopicRef) (v : TopicValue) : Heap → Heap :=
  match t, v with
  | TNode l, XContent c =>
      modify_node l (λ n, MkNode c (n_subscribers n) (n_detach n) (n_parent n))
  | TLeaf l, XAtomic a => modify_leaf l (λ c, MkLeaf a (t_subscribers c))
  | TKeys b, XKeys ks =>
      modify_branch b (λ c, MkBranch (b_isArray c) ks (b_keys_subscribers c) (b_nodes c))
  | _, _ => id
  end.

Definition write_subscribers (t : TopicRef) (f : list Sub → list Sub) : Heap → Heap :=
  match t with
  | TNode l =>
      modify_node l (λ n, MkNode (n_value n) (f (n_subscribers n)) (n_detach n) (n_parent n))
  | TLeaf l => modify_leaf l (λ c, MkLeaf (t_value c) (f (t_subscribers c)))
  | TKeys b =>
      modify_branch b (λ c, MkBranch (b_isArray c) (b_keys c) (f (b_keys_subscribers c)) (b_nodes c))
  end.

(** [prevValue === this.value]: object references compare by identity,
    atomic values by [===]; two key sets are the same object exactly when
    equal as lists (see the ordered-set operations above). *)
Definition strict_eq (x y : TopicValue) : bool :=
  match x, y with
  | XContent c, XContent d => bool_decide (c = d)
  | XAtomic None, XAtomic None => true
  | XAtomic (Some a), XAtomic (Some b) => atomic_strict_eq a b
  | XKeys ks, XKeys ks' => bool_decide (ks = ks')
  | _, _ => false
  end.

(** [this.value === undefined] *)
Definition is_undefined (x : TopicValue) : bool :=
  match x with
  | XContent CUndefined | XAtomic None => true
  | _ => false
  end.

(** The closure [() => { this.nodes.delete(key) }] of [createChild]. *)
Definition call_detach (d : string * loc) : Heap → Heap :=
  modify_branch d.2
    (λ c, MkBranch (b_isArray c) (b_keys c) (b_keys_subscribers c) (delete d.1 (b_nodes c))).

Definition tryDetach (t : TopicRef) (h : Heap) : Heap :=
  match detach t h with
  | Some d =>
      if (length (subscribers t h) =? 0) && is_undefined (get t h)
      then call_detach d (record (Detached t) h)
      else h
  | None => h
  end.

(** [this.subscribers.forEach((s) => s.notify())] *)
Definition notify_subscribers (t : TopicRef) (h : Heap) : Heap :=
  foldl (λ h s, Subscriber.notify s h) (record (Fired t) h) (subscribers t h).

Definition set (t : TopicRef) (value : TopicValue) (h : Heap) : Heap :=
  let prevValue := get t h in
  let h := write_value t value h in
  let h := if strict_eq prevValue value then h else notify_subscribers t h in
  tryDetach t h.

Definition subscribe (t : TopicRef) (s : Sub) : Heap → Heap :=
  write_subscribers t (set_add s).

Definition unsubscribe (t : TopicRef) (s : Sub) (h : Heap) : Heap :=
  tryDetach t (write_subscribers t (set_delete s) h).

End Topic.

(** ** class Branch *)

Module Branch.

Definition createChild (key : string) (this : loc) (h : Heap) : loc * Heap :=
  alloc (ONode (MkNode CUndefined [] (Some (key, this)) (Some (key, this)))) h.

Definition set_node (key : string) (child : loc) (this : loc) : Heap → Heap :=
  modify_branch this
    (λ c, MkBranch (b_isArray c) (b_keys c) (b_keys_subscribers c) (<[key := child]> (b_nodes c))).

Definition getOrCreateNode (key : string) (this : loc) (h : Heap) : loc * Heap :=
  let '(child, h) :=
    match b_nodes (branch this h) !! key with
    | Some child => (child, h)
    | None => let '(child, h) := createChild key this h in
              (child, set_node key child this h)
    end in
  let h :=
    if oset_has key (b_keys (branch this h)) then h
    else Topic.set (TKeys this) (XKeys (oset_add key (b_keys (branch this h)))) h in
  (child, h).

Definition createVolatileNode (key : string) (this : loc) (h : Heap) : loc * Heap :=
  let '(child, h) := createChild key this h in
  (child, set_node key child this h).

Definition removeKey (key : string) (this : loc) (h : Heap) : Heap :=
  let h := Topic.set (TKeys this) (XKeys (oset_delete key (b_keys (branch this h)))) h in
  match b_nodes (branch this h) !! key with
  | Some child => Topic.set (TNode child) (XContent CUndefined) h
  | None => h
  end.

End Branch.

(** ** class Node *)

(** What a method leaves: a returned value, a thrown error, or, for the
    functions that walk the store, an exhausted step budget. *)
Inductive Error := InvalidStateInput | TypeError.
Inductive Outcome (A : Type) :=
| Return (a : A)
| Throws (e : Error)
| NoFuel.
Arguments Return {A} a.
Arguments Throws {A} e.
Arguments NoFuel {A}.

Definition obind {A B} (o : Outcome A) (f : A → Outcome B) : Outcome B :=
  match o with
  | Return a => f a
  | Throws e => Throws e
  | NoFuel => NoFuel
  end.

(** [Object.keys] of an array: its indices in decimal. *)
Definition index_keys {A} (xs : list A) : list string :=
  imap (λ i _, pretty i) xs.

(** [Object.keys(value)] for an object. *)
Definition object_keys (value : Value) : list string :=
  match value with
  | VArray xs => index_keys xs
  | VRecord fs | VInstance _ fs => fs.*1
  | _ => []
  end.

Module Node.

Definition set (l : loc) (c : Content) : Heap → Heap :=
  Topic.set (TNode l) (XContent c).

(** [extractValue]; the recursion follows the store, so it is bounded by
    a step budget.  [x.nodes.get(k)!] of a missing child is a TypeError at
    the call of [extractValue] on it. *)
Fixpoint extractValue (fuel : nat) (this : loc) (h : Heap) : Outcome Value :=
  match fuel with
  | 0 => NoFuel
  | S fuel =>
      match n_value (node this h) with
      | CUndefined => Return VUndefined
      | CTopic t =>
          Return (match t_value (leaf t h) with
                  | Some a => VAtomic a
                  | None => VUndefined
                  end)
      | CBranch x =>
          let child k :=
            match b_nodes (branch x h) !! k with
            | Some c => extractValue fuel c h
            | None => Throws TypeError
            end in
          if b_isArray (branch x h) then
            obind
              (foldl (λ result k,
                        obind result (λ r, obind (child k) (λ v, Return (r ++ [v]))))
                     (Return []) (b_keys (branch x h)))
              (λ r, Return (VArray r))
          else
            obind
              (foldl (λ result k,
                        obind result (λ r, obind (child k) (λ v, Return (r ++ [(k, v)]))))
                     (Return []) (b_keys (branch x h)))
              (λ r, Return (VRecord r))
      end
  end.

Fixpoint getNode (keys : list string) (actual : loc) (h : Heap) : option loc :=
  match keys with
  | [] => Some actual
  | k :: keys =>
      match n_value (node actual h) with
      | CBranch x =>
          match b_nodes (branch x h) !! k with
          | Some next => getNode keys next h
          | None => None
          end
      | _ => None
      end
  end.

Fixpoint getNodeAndTopics_from (keys : list string) (actual : loc)
    (topics : list TopicRef) (h : Heap) : option loc * list TopicRef * Heap :=
  match keys with
  | [] => (Some actual, topics, h)
  | k :: keys =>
      match n_value (node actual h) with
      | CBranch x =>
          let '(next, h) :=
            match b_nodes (branch x h) !! k with
            | Some next => (next, h)
            | None => Branch.createVolatileNode k x h
            end in
          getNodeAndTopics_from keys next (topics ++ [TNode next]) h
      | _ => (None, topics, h)
      end
  end.

Definition getNodeAndTopics (keys : list string) (this : loc) (h : Heap)
    : option loc * list TopicRef * Heap :=
  getNodeAndTopics_from keys this [TNode this] h.

(** [collectTopicsInto]: the topics pushed, in order.  The children are
    visited as the [nodes] map lists them. *)
Fixpoint collectTopicsInto (fuel : nat) (this : loc) (h : Heap) : list TopicRef :=
  match fuel with
  | 0 => []
  | S fuel =>
      match n_value (node this h) with
      | CUndefined => []
      | CTopic t => [TLeaf t]
      | CBranch x =>
          TKeys x ::
          mbind (λ kn : string * loc, TNode kn.2 :: collectTopicsInto fuel kn.2 h)
                (map_to_list (b_nodes (branch x h)))
      end
  end.

Definition getOrCreateBranch (this : loc) (h : Heap) : loc * Heap :=
  match n_value (node this h) with
  | CBranch b => (b, h)
  | _ => let '(b, h) := alloc (OBranch empty_branch) h in
         (b, set this (CBranch b) h)
  end.

Definition getOrCreateTopic (this : loc) (h : Heap) : loc * Heap :=
  match n_value (node this h) with
  | CTopic t => (t, h)
  | _ => let '(t, h) := alloc (OLeaf empty_leaf) h in
         (t, set this (CTopic t) h)
  end.

Fixpoint getOrCreateNode (keys : list string) (actual : loc) (h : Heap) : loc * Heap :=
  match keys with
  | [] => (actual, h)
  | k :: keys =>
      let '(b, h) := getOrCreateBranch actual h in
      let '(next, h) := Branch.getOrCreateNode k b h in
      getOrCreateNode keys next h
  end.

(** The [value === undefined || value === null] arm of [update]. *)
Definition update_empty (this : loc) (h : Heap) : Heap :=
  match n_parent (node this h) with
  | Some (key, b) => Branch.removeKey key b h
  | None => set this CUndefined h
  end.

(** [n.keys.get().forEach((k) => { if (!keys.has(k)) n.nodes.get(k)?.set(undefined) })] *)
Definition clear_dropped (keys : list string) (n : loc) (h : Heap) : Heap :=
  foldl (λ h k,
           if oset_has k keys then h
           else match b_nodes (branch n h) !! k with
                | Some c => set c CUndefined h
                | None => h
                end)
        h (b_keys (branch n h)).

(** The [typeof value === "object"] arm of [update] up to the loop over
    the new keys; it returns the Branch [n]. *)
Definition update_branch (isArray : bool) (keys : list string) (this : loc) (h : Heap)
    : loc * Heap :=
  let '(n, h) := getOrCreateBranch this h in
  let h := modify_branch n
             (λ c, MkBranch isArray (b_keys c) (b_keys_subscribers c) (b_nodes c)) h in
  let h := clear_dropped keys n h in
  let h := Topic.set (TKeys n) (XKeys (oset_intersect (b_keys (branch n h)) keys)) h in
  (n, h).

(** One round of [keys.forEach((k) => n.getOrCreateNode(k).update(value[k]))],
    [upd] being [update(value[k])]. *)
Definition update_child (upd : loc → Heap → Heap) (k : string) (n : loc) (h : Heap) : Heap :=
  let '(c, h) := Branch.getOrCreateNode k n h in
  upd c h.

Fixpoint update (value : Value) (this : loc) (h : Heap) : Heap :=
  match value with
  | VUndefined | VNull => update_empty this h
  | VArray xs =>
      let '(n, h) := update_branch true (index_keys xs) this h in
      (foldl (λ (st : nat * Heap) x,
                (S st.1, update_child (update x) (pretty st.1) n st.2))
             (0, h) xs).2
  | VRecord fs | VInstance _ fs =>
      let '(n, h) := update_branch false fs.*1 this h in
      foldl (λ h (kv : string * Value),
               let '(k, x) := kv in update_child (update x) k n h)
            h fs
  | VAtomic a =>
      let '(t, h) := getOrCreateTopic this h in
      Topic.set (TLeaf t) (XAtomic (Some a)) h
  end.

End Node.

(** ** class Subscriber: subscribe and unsubscribe *)

Definition subscriber (s : Sub) (h : Heap) : SubscriberCell :=
  match subs h !! s with
  | Some c => c
  | None => MkSubscriber (PUse, MkStateRef 0 []) false []
  end.

Definition subscribe_all (s : Sub) (h : Heap) : Heap :=
  let h := with_subs (alter (λ c, MkSubscriber (s_reaction c) true (s_topics c)) s) h in
  foldl (λ h a, Topic.subscribe a s h) h (s_topics (subscriber s h)).

Definition unsubscribe_all (s : Sub) (h : Heap) : Heap :=
  let h := with_subs (alter (λ c, MkSubscriber (s_reaction c) false (s_topics c)) s) h in
  foldl (λ h a, Topic.unsubscribe a s h) h (s_topics (subscriber s h)).

(** ** The State facade *)

(** [type StateKind = "atomic" | "object" | "array" | "undefined"] *)
Inductive StateKind := KAtomic | KObject | KArray | KUndefined.

Definition isAtomicValue (value : Value) : bool :=
  match value with VAtomic _ => true | _ => false end.

Fixpoint validateStateInput (value : Value) : Outcome unit :=
  match value with
  | VUndefined | VNull => Return ()
  | VAtomic _ => Return ()
  | VArray xs =>
      foldl (λ r x, obind r (λ _, validateStateInput x)) (Return ()) xs
  | VRecord fs =>
      foldl (λ r (kv : string * Value),
               let '(_, x) := kv in obind r (λ _, validateStateInput x))
            (Return ()) fs
  | VInstance _ _ => Throws InvalidStateInput
  end.

Definition getStateKind (value : Content) (h : Heap) : StateKind :=
  match value with
  | CTopic _ => KAtomic
  | CBranch b => if b_isArray (branch b h) then KArray else KObject
  | CUndefined => KUndefined
  end.

(** What a tracked read hands to the host's [setValue]. *)
Inductive Tracked :=
| TrValue (v : Outcome Value)
| TrKind (k : StateKind)
| TrKeys (ks : list string)
| TrSize (n : nat).

Module State.

(** [this.root.getNode(this.keys)?.get()] *)
Definition content_at (this : StateRef) (h : Heap) : Content :=
  match Node.getNode (keys this) (root this) h with
  | Some n => n_value (node n h)
  | None => CUndefined
  end.

Definition get (key : string) (this : StateRef) : StateRef :=
  MkStateRef (root this) (keys this ++ [key]).

Definition read (fuel : nat) (this : StateRef) (h : Heap) : Outcome Value :=
  match Node.getNode (keys this) (root this) h with
  | Some n => Node.extractValue fuel n h
  | None => Return VUndefined
  end.

Definition readKind (this : StateRef) (h : Heap) : StateKind :=
  getStateKind (content_at this h) h.

Definition readKeys (this : StateRef) (h : Heap) : list string :=
  match content_at this h with
  | CBranch x => b_keys (branch x h)
  | _ => []
  end.

Definition readSize (this : StateRef) (h : Heap) : nat :=
  match content_at this h with
  | CBranch x => length (b_keys (branch x h))
  | _ => 0
  end.

(** The [produce] closures of [use], [useKind], [useKeys], [useSize]:
    the value and the topics to depend on. *)
Definition produce (fuel : nat) (p : Produce) (this : StateRef) (h : Heap)
    : Tracked * list TopicRef * Heap :=
  let '(n, topics, h) := Node.getNodeAndTopics (keys this) (root this) h in
  let x := match n with Some n => n_value (node n h) | None => CUndefined end in
  match p with
  | PUse =>
      match n with
      | Some n => (TrValue (Node.extractValue fuel n h),
                   topics ++ Node.collectTopicsInto fuel n h, h)
      | None => (TrValue (Return VUndefined), topics, h)
      end
  | PUseKind => (TrKind (getStateKind x h), topics, h)
  | PUseKeys =>
      match x with
      | CBranch b => (TrKeys (b_keys (branch b h)), topics ++ [TKeys b], h)
      | _ => (TrKeys [], topics, h)
      end
  | PUseSize =>
      match x with
      | CBranch b => (TrSize (length (b_keys (branch b h))), topics ++ [TKeys b], h)
      | _ => (TrSize 0, topics, h)
      end
  end.

Definition set_topics (s : Sub) (topics : list TopicRef) : Heap → Heap :=
  with_subs (alter (λ c, MkSubscriber (s_reaction c) (s_subscribed c) topics) s).

(** [useTopics] at the first render and its mount effect: a new
    Subscriber, the first [produce], [subscribe] (twice, the second time
    from [useEffect]).  The host keeps the value. *)
Definition useTopics (fuel : nat) (p : Produce) (this : StateRef) (h : Heap)
    : Tracked * Sub * Heap :=
  let s := next h in
  let h := MkHeap (cells h) (S (next h))
                  (<[s := MkSubscriber (p, this) false []]> (subs h))
                  (notified h) (log h) in
  let '(firstValue, nextTopics, h) := produce fuel p this h in
  let h := subscribe_all s (set_topics s nextTopics h) in
  (firstValue, s, subscribe_all s h).

(** The reaction closure of [useTopics]; [setValue] belongs to the host. *)
Definition reaction (fuel : nat) (s : Sub) (h : Heap) : Heap :=
  let h := unsubscribe_all s h in
  let '(p, this) := s_reaction (subscriber s h) in
  let '(_, nextTopics, h) := produce fuel p this h in
  subscribe_all s (set_topics s nextTopics h).

(** [Subscriber.flush] *)
Definition flush (fuel : nat) (h : Heap) : Heap :=
  let called := notified h in
  let h := with_notified (λ _, []) h in
  foldl (λ h s, if s_subscribed (subscriber s h) then reaction fuel s h else h)
        h called.

(** The mutation of the facade's [update], before the flush. *)
Definition update_unflushed (value : Value) (this : StateRef) (h : Heap)
    : Outcome unit * Heap :=
  match validateStateInput value with
  | Return _ =>
      let '(n, h) := Node.getOrCreateNode (keys this) (root this) h in
      (Return (), Node.update value n h)
  | Throws e => (Throws e, h)
  | NoFuel => (NoFuel, h)
  end.

Definition update (fuel : nat) (value : Value) (this : StateRef) (h : Heap)
    : Outcome unit * Heap :=
  match update_unflushed value this h with
  | (Return _, h) => (Return (), flush fuel h)
  | r => r
  end.

Definition removeKey_unflushed (key : string) (this : StateRef) (h : Heap) : Heap :=
  match content_at this h with
  | CBranch x => Branch.removeKey key x h
  | _ => h
  end.

Definition removeKey (fuel : nat) (key : string) (this : StateRef) (h : Heap) : Heap :=
  flush fuel (removeKey_unflushed key this h).

End State.

Definition empty_heap : Heap := MkHeap ∅ 0 ∅ [] [].

(** [createState]: a facade over a new root Node, updated with [value]. *)
Definition createState (fuel : nat) (value : Value) (h : Heap)
    : Outcome unit * StateRef * Heap :=
  let '(r, h) := alloc (ONode empty_node) h in
  let state := MkStateRef r [] in
  let '(o, h) := State.update fuel value state h in
  (o, state, h).

(** * The vocabulary of the proofs *)

(** ** Specification vocabulary *)

(** *** Values *)

(** [value === undefined || value === null] *)
Definition is_empty (v : Value) : bool :=
  match v with VUndefined | VNull => true | _ => false end.

(** A value [validateStateInput] accepts, whose records list each key once. *)
Inductive wf_value : Value → Prop :=
| wf_undefined : wf_value VUndefined
| wf_null : wf_value VNull
| wf_atomic a : wf_value (VAtomic a)
| wf_array xs : Forall wf_value xs → wf_value (VArray xs)
| wf_record fs : NoDup fs.*1 → Forall (λ kv, wf_value kv.2) fs → wf_value (VRecord fs).

(** No [undefined] or [null] anywhere, and no atom that differs from itself
    under [===] (a [NaN]). *)
Inductive stable : Value → Prop :=
| stable_atomic a : atomic_strict_eq a a = true → stable (VAtomic a)
| stable_array xs : Forall stable xs → stable (VArray xs)
| stable_record fs : Forall (λ kv, stable kv.2) fs → stable (VRecord fs).


(** The entries [(k, value[k])] for [k] in [Object.keys(value)]. *)
Definition array_entries (xs : list Value) : list (string * Value) :=
  imap (λ i x, (pretty i, x)) xs.




(** *** The shape of the tree under a Node *)

(** The tree under a Node: nothing, a leaf Topic, or a Branch with, for
    each entry of its [nodes] map, the key, the child Node and the tree under
    it. *)
Inductive Shape :=
| SUndefined
| STopic (t : loc)
| SBranch (b : loc) (kids : list (string * (loc * Shape))).

(** The objects under a Node (the Node itself excluded). *)
Fixpoint fp (S : Shape) : list loc :=
  match S with
  | SUndefined => []
  | STopic t => [t]
  | SBranch b kids =>
      b :: (fix go (kids : list (string * (loc * Shape))) : list loc :=
              match kids with
              | [] => []
              | (_, (c, Sc)) :: kids => (c :: fp Sc) ++ go kids
              end) kids
  end.

(** The objects of a child and of all the children. *)
Definition kid_fp (kid : string * (loc * Shape)) : list loc := kid.2.1 :: fp kid.2.2.
Definition kids_fp (kids : list (string * (loc * Shape))) : list loc :=
  kids ≫= kid_fp.

(** [rep h l S]: in [h], the Node [l] heads a tree of shape [S]; the
    children listed are exactly those of the [nodes] map, each with the
    detach closure and parent link [createChild] gave it. *)
Inductive rep (h : Heap) : loc → Shape → Prop :=
| rep_undefined l n :
    cells h !! l = Some (ONode n) → n_value n = CUndefined → rep h l SUndefined
| rep_topic l n t c :
    cells h !! l = Some (ONode n) → n_value n = CTopic t →
    cells h !! t = Some (OLeaf c) → rep h l (STopic t)
| rep_branch l n b bc kids :
    cells h !! l = Some (ONode n) → n_value n = CBranch b →
    cells h !! b = Some (OBranch bc) →
    (∀ k c, b_nodes bc !! k = Some c ↔ ∃ Sc, (k, (c, Sc)) ∈ kids) →
    Forall (λ kid : string * (loc * Shape),
              n_detach (node kid.2.1 h) = Some (kid.1, b) ∧
              n_parent (node kid.2.1 h) = Some (kid.1, b) ∧
              rep h kid.2.1 kid.2.2) kids →
    rep h l (SBranch b kids).

(** Every allocated object lies below [next]. *)
Definition bounded (h : Heap) : Prop := ∀ x, next h ≤ x → cells h !! x = None.

(** A proper tree: the objects of the shape are pairwise distinct. *)
Definition tree (h : Heap) (l : loc) (S : Shape) : Prop :=
  bounded h ∧ rep h l S ∧ NoDup (l :: fp S).

(** *** What an operation may change *)

(** The Topic of an event and the object it lives in. *)
Definition ev_topic (e : Event) : TopicRef :=
  match e with Fired t | Detached t => t end.
Definition topic_loc (t : TopicRef) : loc :=
  match t with TNode l | TLeaf l | TKeys l => l end.
Definition ev_loc (e : Event) : loc := topic_loc (ev_topic e).

(** The fields no operation of the tree changes. *)
Definition static_eq (c c' : Cell) : Prop :=
  match c, c' with
  | ONode n, ONode n' =>
      n_subscribers n = n_subscribers n' ∧ n_detach n = n_detach n' ∧
      n_parent n = n_parent n'
  | OLeaf t, OLeaf t' => t_subscribers t = t_subscribers t'
  | OBranch b, OBranch b' => b_keys_subscribers b = b_keys_subscribers b'
  | _, _ => False
  end.

(** A new object has no subscriber. *)
Definition fresh_cell (c : Cell) : Prop :=
  match c with
  | ONode n => n_subscribers n = []
  | OLeaf t => t_subscribers t = []
  | OBranch b => b_keys_subscribers b = []
  end.

(** [mods A E h h']: from [h] to [h'] only objects in [A] and new objects
    differ, nobody's subscribers change, the events logged satisfy [E], and
    the subscribers marked dirty are those of the topics that fired. *)
Record mods (A : loc → Prop) (E : Event → Prop) (h h' : Heap) : Prop := {
  mods_next : next h ≤ next h';
  mods_bounded : bounded h';
  mods_subs : subs h' = subs h;
  mods_frame : ∀ x, x < next h → ¬ A x → cells h' !! x = cells h !! x;
  mods_static : ∀ x c, cells h !! x = Some c →
                       ∃ c', cells h' !! x = Some c' ∧ static_eq c c';
  mods_fresh : ∀ x c', cells h !! x = None → cells h' !! x = Some c' →
                       next h ≤ x ∧ fresh_cell c';
  mods_log : ∃ evs, log h' = log h ++ evs ∧ Forall E evs ∧
                    ∀ s, s ∈ notified h' ↔
                         s ∈ notified h ∨ ∃ t, Fired t ∈ evs ∧ s ∈ Topic.subscribers t h }.

(** *** A Node holding a value *)

(** The key set [ks] is [new]: as ordered sets, or as sets. *)
Definition key_rel (exact : bool) (ks new : list string) : Prop :=
  if exact then ks = new else ∀ k, k ∈ ks ↔ k ∈ new.

(** The keys of the entries that are not empty. *)
Definition live_keys (es : list (string * Value)) : list string :=
  (filter (λ kx : string * Value, is_empty kx.2 = false) es).*1.

(** [holds exact h l v]: the Node [l] is as [update v] leaves it: an atom in
    a leaf Topic, or a Branch whose key set is that of the non-empty entries
    of [v] (in the same order when [exact]) and whose children hold those
    entries. *)
Inductive holds (exact : bool) (h : Heap) : loc → Value → Prop :=
| holds_atomic l t a :
    n_value (node l h) = CTopic t → t_value (leaf t h) = Some a →
    holds exact h l (VAtomic a)
| holds_array l b xs :
    n_value (node l h) = CBranch b → b_isArray (branch b h) = true →
    key_rel exact (b_keys (branch b h)) (live_keys (array_entries xs)) →
    Forall (λ kx : string * Value,
              is_empty kx.2 = false →
              ∃ c, b_nodes (branch b h) !! kx.1 = Some c ∧ holds exact h c kx.2)
           (array_entries xs) →
    holds exact h l (VArray xs)
| holds_record l b fs :
    n_value (node l h) = CBranch b → b_isArray (branch b h) = false →
    key_rel exact (b_keys (branch b h)) (live_keys fs) →
    Forall (λ kx : string * Value,
              is_empty kx.2 = false →
              ∃ c, b_nodes (branch b h) !! kx.1 = Some c ∧ holds exact h c kx.2)
           fs →
    holds exact h l (VRecord fs).

(** The loop of [update] over the new keys. *)
Definition update_entries (es : list (string * Value)) (n : loc) (h : Heap) : Heap :=
  foldl (λ h (kv : string * Value), Node.update_child (Node.update kv.2) kv.1 n h) h es.

(** ** The field updates of the writes *)

(** The field updates the writes perform. *)
Definition with_keys (ks : list string) (c : BranchCell) : BranchCell :=
  MkBranch (b_isArray c) ks (b_keys_subscribers c) (b_nodes c).
Definition with_nodes (f : gmap string loc → gmap string loc) (c : BranchCell) : BranchCell :=
  MkBranch (b_isArray c) (b_keys c) (b_keys_subscribers c) (f (b_nodes c)).
Definition with_isArray (a : bool) (c : BranchCell) : BranchCell :=
  MkBranch a (b_keys c) (b_keys_subscribers c) (b_nodes c).
Definition with_value (v : Content) (n : NodeCell) : NodeCell :=
  MkNode v (n_subscribers n) (n_detach n) (n_parent n).

(** Emptying a Node, and what its detach callback then does. *)
Definition detaches (n : NodeCell) : bool :=
  bool_decide (n_subscribers n = []) && bool_decide (is_Some (n_detach n)).

(** ** Children *)

(** The parts of a Branch cell that [rep] asks about. *)
Definition kid_ok (h : Heap) (b : loc) (kid : string * (loc * Shape)) : Prop :=
  n_detach (node kid.2.1 h) = Some (kid.1, b) ∧
  n_parent (node kid.2.1 h) = Some (kid.1, b) ∧
  rep h kid.2.1 kid.2.2.

(** The children listed are those of the [nodes] map. *)
Definition kids_cover (bc : BranchCell) (kids : list (string * (loc * Shape))) : Prop :=
  ∀ k c, b_nodes bc !! k = Some c ↔ ∃ Sc, (k, (c, Sc)) ∈ kids.

(** A child in a shape: its key, its Node and the tree under it. *)
Abbreviation Kid := (string * (loc * Shape))%type (only parsing).

(** The children under the other keys. *)
Definition others (k : string) (kids : list Kid) : list Kid :=
  filter (λ kid : Kid, kid.1 ≠ k) kids.

(** ** Proper trees *)

(** A Node holding a Branch, as a proper tree. *)
Definition btree (h : Heap) (l b : loc) (kids : list Kid) : Prop :=
  bounded h ∧ rep h l (SBranch b kids) ∧ NoDup (l :: b :: kids_fp kids).

(** ** What [update] establishes *)

(** What [update x] does to any proper tree: the induction hypothesis of
    the main theorem. *)
Definition update_post (exact : bool) (x : Value) : Prop :=
  ∀ h l S, tree h l S → (exact = true → ∀ b kids, S ≠ SBranch b kids) →
    ∃ S', tree (Node.update x l h) l S' ∧
          (∀ y, y ∈ fp S' → y ∈ fp S ∨ next h ≤ y) ∧
          mods (λ y, y ∈ l :: fp S)
               (λ e, ev_loc e ∈ l :: fp S ∨ next h ≤ ev_loc e)
               h (Node.update x l h) ∧
          holds exact (Node.update x l h) l x.

(** ** The loop over the new keys *)

(** The keys of the entries that are empty. *)
Definition dead_keys (es : list (string * Value)) : list string :=
  (filter (λ kx : string * Value, is_empty kx.2 = true) es).*1.

(** The objects the loop over the entries [es] may change and the events
    it may log, the children under the keys that [Q] marks left aside. *)
Definition loop_A (Q : string → bool) (b : loc) (kids : list Kid)
    (es : list (string * Value)) (y : loc) : Prop :=
  y = b ∨ ∃ kid : Kid, kid ∈ kids ∧ kid.1 ∈ es.*1 ∧ Q kid.1 = false ∧ y ∈ kid_fp kid.

Definition loop_E (Q : string → bool) (h : Heap) (b : loc) (kids : list Kid)
    (es : list (string * Value)) (e : Event) : Prop :=
  (e = Fired (TKeys b) ∧
   ∃ kx : string * Value, kx ∈ es ∧ Q kx.1 = false ∧
      (kx.1 ∉ b_keys (branch b h) ∨ is_empty kx.2 = true)) ∨
  (∃ kid : Kid, kid ∈ kids ∧ kid.1 ∈ es.*1 ∧ Q kid.1 = false ∧ ev_loc e ∈ kid_fp kid) ∨
  next h ≤ ev_loc e.

(** A key marked by [Q] has an entry without empty part and without
    [NaN], which its child already holds. *)
Definition quiet_ok (exact : bool) (Q : string → bool) (h : Heap) (b : loc)
    (kids : list Kid) (es : list (string * Value)) : Prop :=
  ∀ kx : string * Value, kx ∈ es → Q kx.1 = true →
    exact = false ∧ stable kx.2 ∧ kx.1 ∈ b_keys (branch b h) ∧
    ∃ c Sc, (kx.1, (c, Sc)) ∈ kids ∧ holds false h c kx.2.

(** ** The children whose keys are dropped *)

(** [kids'] is [kids] with every child whose key satisfies [D] either
    emptied (it has subscribers) or removed (it has none). *)
Definition cleared (D : string → Prop) (h : Heap) (kids kids' : list Kid) : Prop :=
  (∀ kid : Kid, ¬ D kid.1 → kid ∈ kids' ↔ kid ∈ kids) ∧
  (∀ kid : Kid, D kid.1 →
     kid ∈ kids' ↔ kid.2.2 = SUndefined ∧ n_subscribers (node kid.2.1 h) ≠ [] ∧
                   ∃ Sc, (kid.1, (kid.2.1, Sc)) ∈ kids).

(** One round of the loop of [clear_dropped]. *)
Definition clear_step (keys : list string) (n : loc) (h : Heap) (k : string) : Heap :=
  if oset_has k keys then h
  else match b_nodes (branch n h) !! k with
       | Some c => Node.set c CUndefined h
       | None => h
       end.

(** The objects that loop may change and the events it may log, for the
    keys in [D]. *)
Definition clear_A (b : loc) (kids : list Kid) (D : string → Prop) (y : loc) : Prop :=
  y = b ∨ ∃ kid : Kid, kid ∈ kids ∧ D kid.1 ∧ y = kid.2.1.

Definition clear_E (kids : list Kid) (D : string → Prop) (e : Event) : Prop :=
  ∃ kid : Kid, kid ∈ kids ∧ D kid.1 ∧
    ((e = Fired (TNode kid.2.1) ∧ kid.2.2 ≠ SUndefined) ∨ e = Detached (TNode kid.2.1)).

(** ** The structural arm of [update] *)

(** The arm after [getOrCreateBranch], up to the loop over the new keys. *)
Definition prepare_branch (isArray : bool) (new : list string) (n : loc) (h : Heap) : Heap :=
  let h := modify_branch n (with_isArray isArray) h in
  let h := Node.clear_dropped new n h in
  Topic.set (TKeys n) (XKeys (oset_intersect (b_keys (branch n h)) new)) h.

(** A key of the Branch that the new value does not have. *)
Definition dropped (h : Heap) (b : loc) (new : list string) (k : string) : Prop :=
  k ∈ b_keys (branch b h) ∧ k ∉ new.

(** The objects the structural arm may change and the events it may log. *)
Definition object_A (Q : string → bool) (h : Heap) (b : loc) (kids : list Kid)
    (es : list (string * Value)) (y : loc) : Prop :=
  clear_A b kids (dropped h b es.*1) y ∨ loop_A Q b kids es y.

Definition object_E (Q : string → bool) (h : Heap) (b : loc) (kids : list Kid)
    (es : list (string * Value)) (e : Event) : Prop :=
  (e = Fired (TKeys b) ∧
   ((∃ k, dropped h b es.*1 k) ∨
    ∃ kx : string * Value, kx ∈ es ∧ Q kx.1 = false ∧
       (kx.1 ∉ b_keys (branch b h) ∨ is_empty kx.2 = true))) ∨
  clear_E kids (dropped h b es.*1) e ∨
  (∃ kid : Kid, kid ∈ kids ∧ kid.1 ∈ es.*1 ∧ Q kid.1 = false ∧ ev_loc e ∈ kid_fp kid) ∨
  next h ≤ ev_loc e.

(** Whether a key is dropped can be decided. *)
Global Instance dropped_dec h b new k : Decision (dropped h b new k).
Proof. unfold dropped. apply _. Defined.

(** ** Round trip *)


(** A fresh root: [new Node(undefined)] in an empty store. *)
Definition fresh_root : Heap := (alloc (ONode empty_node) empty_heap).2.

(** ** Parent links *)

(** What [createChild] and [new Node(undefined)] establish for a Node: a
    root has no detach callback, and the Node registered under the key of a
    child's parent link detaches from that Branch at that key. *)
Definition linked (h : Heap) (l : loc) : Prop :=
  match n_parent (node l h) with
  | Some (k, b) =>
      ∀ c, b_nodes (branch b h) !! k = Some c →
           ∃ nc, cells h !! c = Some (ONode nc) ∧ n_detach nc = Some (k, b)
  | None => n_detach (node l h) = None
  end.

(** ** Structural values *)

(** The entries [update] walks over: [Object.keys(value)] with the values
    under them. *)
Definition entries (v : Value) : list (string * Value) :=
  match v with
  | VArray xs => array_entries xs
  | VRecord fs | VInstance _ fs => fs
  | _ => []
  end.

(** [Array.isArray(value)] *)
Definition is_array (v : Value) : bool :=
  match v with VArray _ => true | _ => false end.

(** An array or a plain object. *)
Definition structural (v : Value) : Prop :=
  match v with VArray _ | VRecord _ => True | _ => False end.

(** ** Computing the shape of a store *)

(** The shape under a Node, read off the store: the children are those of
    the [nodes] maps, checked for their detach closure and parent link. *)
Fixpoint shape_of (fuel : nat) (h : Heap) (l : loc) : option Shape :=
  match fuel with
  | 0 => None
  | S fuel =>
      match cells h !! l with
      | Some (ONode n) =>
          match n_value n with
          | CUndefined => Some SUndefined
          | CTopic t =>
              match cells h !! t with
              | Some (OLeaf _) => Some (STopic t)
              | _ => None
              end
          | CBranch b =>
              match cells h !! b with
              | Some (OBranch bc) =>
                  kids ← mapM (λ kc : string * loc,
                                 if bool_decide (n_detach (node kc.2 h) = Some (kc.1, b) ∧
                                                 n_parent (node kc.2 h) = Some (kc.1, b))
                                 then Sc ← shape_of fuel h kc.2; Some (kc.1, (kc.2, Sc))
                                 else None)
                              (map_to_list (b_nodes bc));
                  Some (SBranch b kids)
              | _ => None
              end
          end
      | _ => None
      end
  end.

(** The shape, when it is that of a proper tree in a bounded store. *)
Definition tree_of (fuel : nat) (h : Heap) (l : loc) : option Shape :=
  S ← shape_of fuel h l;
  if forallb (λ kv : loc * Cell, kv.1 <? next h) (map_to_list (cells h))
     && bool_decide (NoDup (l :: fp S))
  then Some S else None.

(** The value with [undefined] for every [null]. *)
Fixpoint undefined_for_null (v : Value) : Value :=
  match v with
  | VNull => VUndefined
  | VArray xs => VArray (undefined_for_null <$> xs)
  | VRecord fs => VRecord (prod_map id undefined_for_null <$> fs)
  | VInstance c fs => VInstance c (prod_map id undefined_for_null <$> fs)
  | _ => v
  end.

(** ** Operations on a Topic *)

(** The operations of a Topic, here on a Node. *)
Inductive TopicOp :=
| OpSet (c : Content)
| OpSubscribe (s : Sub)
| OpUnsubscribe (s : Sub).

(** An operation, and a sequence of operations, on the Node [l]. *)
Definition run_op (l : loc) (op : TopicOp) (h : Heap) : Heap :=
  match op with
  | OpSet c => Topic.set (TNode l) (XContent c) h
  | OpSubscribe s => Topic.subscribe (TNode l) s h
  | OpUnsubscribe s => Topic.unsubscribe (TNode l) s h
  end.

Definition run_ops (l : loc) (ops : list TopicOp) (h : Heap) : Heap :=
  foldl (λ h op, run_op l op h) h ops.

(** The calls of the detach callback of the Node [l] so far. *)
Definition detach_calls (l : loc) (h : Heap) : nat :=
  length (filter (λ e, e = Detached (TNode l)) (log h)).

(** The value and the subscribers of a Topic after an operation. *)
Definition op_state (op : TopicOp) (st : Content * list Sub) : Content * list Sub :=
  match op with
  | OpSet c => (c, st.2)
  | OpSubscribe s => (st.1, set_add s st.2)
  | OpUnsubscribe s => (st.1, set_delete s st.2)
  end.

(** [tryDetach] runs at the end of [set] and of [unsubscribe], and calls
    the callback when it finds no subscriber and no value. *)
Definition op_detaches (op : TopicOp) (st : Content * list Sub) : bool :=
  match op with
  | OpSubscribe _ => false
  | _ => bool_decide ((op_state op st).1 = CUndefined) &&
         bool_decide ((op_state op st).2 = [])
  end.

(** The operations of [ops] at which the callback is called, counted from
    the state before them. *)
Fixpoint count_detaches (ops : list TopicOp) (st : Content * list Sub) : nat :=
  match ops with
  | [] => 0
  | op :: ops => (if op_detaches op st then 1 else 0) + count_detaches ops (op_state op st)
  end.

(** ** Paths *)

(** Nothing is stored at [path] under [l]: the walk of [getNode] stops, or
    it ends at a Node without content. *)
Definition empty_at (path : list string) (l : loc) (h : Heap) : Prop :=
  match Node.getNode path l h with
  | Some n => n_value (node n h) = CUndefined
  | None => True
  end.

(** The Node [l] is a root, or it is the child its parent link names. *)
Definition attached (h : Heap) (l : loc) (S : Shape) : Prop :=
  match n_parent (node l h) with
  | Some (k, b) =>
      n_detach (node l h) = Some (k, b) ∧ (b ∉ l :: fp S) ∧
      ∃ bc, cells h !! b = Some (OBranch bc) ∧ b_nodes bc !! k = Some l
  | None => n_detach (node l h) = None
  end.

(** ** What a flush leaves in place *)

(** From [h] to [h'] no content, atom or key set changes; a [nodes] map
    loses entries or gains new empty Nodes; the new objects are empty
    Nodes. *)
Record keeps (h h' : Heap) : Prop := {
  keeps_bounded : bounded h';
  keeps_next : next h ≤ next h';
  keeps_node : ∀ y n, cells h !! y = Some (ONode n) →
                      ∃ n', cells h' !! y = Some (ONode n') ∧ n_value n' = n_value n;
  keeps_leaf : ∀ y c, cells h !! y = Some (OLeaf c) →
                      ∃ c', cells h' !! y = Some (OLeaf c') ∧ t_value c' = t_value c;
  keeps_branch : ∀ y bc, cells h !! y = Some (OBranch bc) →
                   ∃ bc', cells h' !! y = Some (OBranch bc') ∧
                          b_keys bc' = b_keys bc ∧ b_isArray bc' = b_isArray bc ∧
                          ∀ k, b_nodes bc' !! k = b_nodes bc !! k ∨
                               b_nodes bc' !! k = None ∨
                               ∃ c, b_nodes bc' !! k = Some c ∧ next h ≤ c;
  keeps_new : ∀ y c', cells h !! y = None → cells h' !! y = Some c' →
                      next h ≤ y ∧ ∃ n', c' = ONode n' ∧ n_value n' = CUndefined }.

(** Two cells of the same class that agree on what [keeps] protects. *)
Definition cell_kept (c c' : Cell) : Prop :=
  match c, c' with
  | ONode n, ONode n' => n_value n' = n_value n
  | OLeaf t, OLeaf t' => t_value t' = t_value t
  | OBranch b, OBranch b' =>
      b_keys b' = b_keys b ∧ b_isArray b' = b_isArray b ∧
      ∀ k, b_nodes b' !! k = b_nodes b !! k ∨ b_nodes b' !! k = None
  | _, _ => False
  end.

(** ** Example stores *)

(** A number and a string as values. *)
Definition num (x : float) : Value := VAtomic (ANumber x).
Definition str (s : string) : Value := VAtomic (AString s).

(** The facade [createState] returns. *)
Definition top : StateRef := MkStateRef 0 [].

(** The store after [createState(v)]. *)
Definition store_of (v : Value) : Heap := (createState 9 v empty_heap).2.


(** [{a: ["x", null], b: "y"}] *)
Definition nested_value : Value :=
  VRecord [("a", VArray [str "x"; VNull]); ("b", str "y")].

(** [{a: ["x"], b: "y"}] *)
Definition stable_value : Value := VRecord [("a", VArray [str "x"]); ("b", str "y")].

(** [NaN] in a store with one component that called [use()] on the root,
    after a first [update(NaN)]. *)
Definition nan_use := State.useTopics 9 PUse top (store_of (num nan)).
Definition nan_store : Heap := (State.update 9 (num nan) top nan_use.2).2.


(** No [null] anywhere in a value. *)
Fixpoint null_free (v : Value) : bool :=
  match v with
  | VNull => false
  | VArray xs => forallb null_free xs
  | VRecord fs | VInstance _ fs =>
      (fix go (fs : list (string * Value)) : bool :=
         match fs with
         | [] => true
         | (_, x) :: fs => null_free x && go fs
         end) fs
  | _ => true
  end.

(** A child Node under the key ["k"] of an empty record. *)
Definition child_store : Heap := (Branch.createVolatileNode "k" 1 (store_of (VRecord []))).2.

(** [{a: {x: 1, y: 2}, b: 3}] and [{a: {x: 1, y: 9}, b: 3}] *)
Definition local_before : Value :=
  VRecord [("a", VRecord [("x", num 1); ("y", num 2)]); ("b", num 3)].
Definition local_after : Value :=
  VRecord [("a", VRecord [("x", num 1); ("y", num 9)]); ("b", num 3)].

(** Four components call [use()]: on [a.y], on [a], on [a.x] and on [b]. *)
Definition use_ay := State.useTopics 9 PUse (State.get "y" (State.get "a" top)) (store_of local_before).
Definition use_a := State.useTopics 9 PUse (State.get "a" top) use_ay.2.
Definition use_ax := State.useTopics 9 PUse (State.get "x" (State.get "a" top)) use_a.2.
Definition use_b := State.useTopics 9 PUse (State.get "b" top) use_ax.2.
Definition local_store : Heap := use_b.2.
Definition local_kids : list (string * (loc * Shape)) :=
  [("a", (2, SBranch 3 [("y", (6, STopic 7)); ("x", (4, STopic 5))]));
   ("b", (8, STopic 9))].

(** [{a: NaN, b: 3}] and [{a: {c: null}, b: 3}], each with one subscriber
    on a Topic under [a] alone. *)
Definition nan_child_store : Heap :=
  Topic.subscribe (TLeaf 3) 7 (store_of (VRecord [("a", num nan); ("b", num 3)])).
Definition null_child_store : Heap :=
  Topic.subscribe (TKeys 3) 7
    (store_of (VRecord [("a", VRecord [("c", VNull)]); ("b", num 3)])).

(** [{a: {x: 1}, b: 2}] *)
Definition drop_before : Value := VRecord [("a", VRecord [("x", num 1)]); ("b", num 2)].
Definition drop_after : Value := VRecord [("b", num 2)].
Definition drop_kids : list (string * (loc * Shape)) :=
  [("a", (2, SBranch 3 [("x", (4, STopic 5))])); ("b", (6, STopic 7))].

(** [["a", "b"]] with one component calling [useSize()] on it. *)
Definition size_use := State.useTopics 9 PUseSize top (store_of (VArray [str "a"; str "b"])).
Definition size_store : Heap := size_use.2.
Definition size_sub : Sub := size_use.1.2.
Definition size_kids : list (string * (loc * Shape)) :=
  [("1", (4, STopic 5)); ("0", (2, STopic 3))].

(** The subscriptions of [s] on the object at [y]. *)
Definition subscribed_at (s : Sub) (h : Heap) (y : loc) : Prop :=
  s ∈ n_subscribers (node y h) ∨ s ∈ t_subscribers (leaf y h) ∨
  s ∈ b_keys_subscribers (branch y h).

(** ** Operations inside a tree *)

(** From [h] to [h'] only the objects of the tree [S] under [l] and new
    objects differ, and the events are theirs. *)
Definition within (S : Shape) (l : loc) (h h' : Heap) : Prop :=
  mods (λ y, y ∈ l :: fp S) (λ e, ev_loc e ∈ l :: fp S ∨ next h ≤ ev_loc e) h h'.

(** The objects of [S'] are objects of [S] or new ones. *)
Definition grown (h : Heap) (S S' : Shape) : Prop :=
  ∀ y, y ∈ fp S' → y ∈ fp S ∨ next h ≤ y.

(** [upd] keeps every proper tree proper and stays inside it. *)
Definition within_tree (upd : loc → Heap → Heap) : Prop :=
  ∀ h l S, tree h l S →
    ∃ S', tree (upd l h) l S' ∧ grown h S S' ∧ within S l h (upd l h).

(** A Node no Branch made: it has no parent link and no detach callback. *)
Definition is_root (l : loc) (h : Heap) : Prop :=
  n_parent (node l h) = None ∧ n_detach (node l h) = None.

(** ** The operations of the facade at a Node *)

(** [getOrCreateBranch().getOrCreateNode(k).update(x)] at the Node [n]: the
    last step of the facade's [update] at a path ending in [k]. *)
Definition update_under (x : Value) (k : string) (n : loc) (h : Heap) : Heap :=
  Node.update_child (Node.update x) k
    (Node.getOrCreateBranch n h).1 (Node.getOrCreateBranch n h).2.


(** The kind of a value, as [getStateKind] finds it once stored. *)
Definition kind_of (v : Value) : StateKind :=
  match v with
  | VUndefined | VNull => KUndefined
  | VAtomic _ => KAtomic
  | VArray _ => KArray
  | VRecord _ | VInstance _ _ => KObject
  end.

(** The shape of the store after [createState({a: ["x"], b: "y"})]. *)
Definition stable_shape : Shape :=
  SBranch 1 [("a", (2, SBranch 3 [("0", (4, STopic 5))])); ("b", (6, STopic 7))].

(** ** Steps that fire nothing *)

(** The event of a detach callback. *)
Definition is_detached (e : Event) : Prop :=
  match e with Detached _ => True | Fired _ => False end.

(** From [h] to [h'] nobody is marked dirty and no Topic fires: the log
    grows by detach events alone. *)
Record quiet (h h' : Heap) : Prop := {
  quiet_notified : notified h' = notified h;
  quiet_log : ∃ evs, log h' = log h ++ evs ∧ Forall is_detached evs }.

(** [["a", "b"]] with a component on [useSize()], after the mutation of
    [update(["c"])]: the component is dirty. *)
Definition dirty_store : Heap :=
  (State.update_unflushed (VArray [str "c"]) top size_store).2.

(** ** A sound store *)

(** The Node registered in the [nodes] map at the key and Branch that a
    detach closure captured. *)
Definition slot (d : string * loc) (h : Heap) : option loc :=
  b_nodes (branch d.2 h) !! d.1.

(** Calling the detach callback of [l] removes [l] itself or nothing. *)
Definition safe (l : loc) (h : Heap) : Prop :=
  match n_detach (node l h) with
  | Some d => slot d h = Some l ∨ slot d h = None
  | None => True
  end.

(** What the classes keep true of a store, whatever is reachable from where:
    objects lie below [next]; a Node has a parent link exactly when it has a
    detach callback, for the same key and Branch; an entry of a [nodes] map
    is a Node made for that key and Branch; a child Node with a subscriber
    is registered where its callback would remove it; a subscribed
    Subscriber is in the subscriber set of each Node among its topics; and
    the facade a Subscriber reads through has as its root a Node without
    detach callback. *)
Record sound (h : Heap) : Prop := {
  sound_bounded : bounded h;
  sound_links : ∀ c nc, cells h !! c = Some (ONode nc) → n_parent nc = n_detach nc;
  sound_nodes : ∀ b bc k c, cells h !! b = Some (OBranch bc) → b_nodes bc !! k = Some c →
                  ∃ nc, cells h !! c = Some (ONode nc) ∧ n_detach nc = Some (k, b);
  sound_subscribed : ∀ c nc d, cells h !! c = Some (ONode nc) → n_detach nc = Some d →
                  n_subscribers nc ≠ [] → slot d h = Some c;
  sound_topics : ∀ s sc c, subs h !! s = Some sc → s_subscribed sc = true →
                  TNode c ∈ s_topics sc → s ∈ n_subscribers (node c h);
  sound_roots : ∀ s sc, subs h !! s = Some sc →
                  ∃ n, cells h !! root (s_reaction sc).2 = Some (ONode n) ∧
                       n_detach n = None }.

(** Two cells of the same class with the same links: subscribers, detach
    callback and parent of a Node, [nodes] map of a Branch. *)
Definition same_links (c c' : option Cell) : Prop :=
  match c, c' with
  | Some (ONode n), Some (ONode n') =>
      n_subscribers n' = n_subscribers n ∧ n_detach n' = n_detach n ∧
      n_parent n' = n_parent n
  | Some (OLeaf _), Some (OLeaf _) => True
  | Some (OBranch b), Some (OBranch b') => b_nodes b' = b_nodes b
  | None, None => True
  | _, _ => False
  end.

(** A new object: a leaf Topic, an empty Branch, or a Node without
    subscribers whose parent link is its detach callback. *)
Definition new_cell (c : Cell) : Prop :=
  match c with
  | ONode n => n_subscribers n = [] ∧ n_parent n = n_detach n
  | OLeaf _ => True
  | OBranch b => b_nodes b = ∅
  end.

(** ** Subscribing and unsubscribing in a sound store *)

(** The Node [c] is there, and registered where its detach callback would
    remove it. *)
Definition reg (c : loc) (h : Heap) : Prop :=
  ∃ nc, cells h !! c = Some (ONode nc) ∧
        match n_detach nc with Some d => slot d h = Some c | None => True end.

(** The Subscriber [s] is not subscribed. *)
Definition muted (s : Sub) (h : Heap) : Prop :=
  ∀ sc, subs h !! s = Some sc → s_subscribed sc = false.

(** From [h] to [h'] nothing a read looks at changes ([keeps]), and a child
    Node that holds a value stays registered. *)
Record still (h h' : Heap) : Prop := {
  still_keeps : keeps h h';
  still_nodes : ∀ x k c, b_nodes (branch x h) !! k = Some c →
                  n_value (node c h) ≠ CUndefined → b_nodes (branch x h') !! k = Some c }.

(** Two cells of the same class that differ in their subscribers at most. *)
Definition same_slots (c c' : option Cell) : Prop :=
  match c, c' with
  | Some (ONode n), Some (ONode n') =>
      n_detach n' = n_detach n ∧ n_parent n' = n_parent n ∧ n_value n' = n_value n
  | Some (OLeaf _), Some (OLeaf _) => True
  | Some (OBranch b), Some (OBranch b') => b_nodes b' = b_nodes b
  | None, None => True
  | _, _ => False
  end.

(** ** The tree after a step that keeps the values *)

(** The objects of [S'] are objects of [S], or new child Nodes made under a
    Branch of [S]. *)
Definition sprung (h h' : Heap) (S S' : Shape) : Prop :=
  ∀ y, y ∈ fp S' →
    (y < next h ∧ y ∈ fp S) ∨
    (next h ≤ y ∧ ∃ d, n_detach (node y h') = Some d ∧ d.2 ∈ fp S).

(** The child [kid] of the tree after the step: a child of [kids] with what
    has sprung under it, or a new empty Node. *)
Definition regrown (h h' : Heap) (kids : list Kid) (kid : Kid) : Prop :=
  rep h' kid.2.1 kid.2.2 ∧ NoDup (kid_fp kid) ∧
  ((kid.2.1 < next h ∧
    ∃ Sc, (kid.1, (kid.2.1, Sc)) ∈ kids ∧ sprung h h' Sc kid.2.2) ∨
   (next h ≤ kid.2.1 ∧ kid.2.2 = SUndefined)).

(** ** The state behind a facade *)

(** Every Subscriber reads through a facade of the root [r]. *)
Definition rooted (r : loc) (h : Heap) : Prop :=
  ∀ s sc, subs h !! s = Some sc → root (s_reaction sc).2 = r.

(** The store of a state with root [r], between two calls of its facade:
    the store is sound, the Subscribers are those of this state, and the
    root is a root that heads a proper tree. *)
Definition proper (r : loc) (h : Heap) : Prop :=
  sound h ∧ rooted r h ∧ is_root r h ∧ ∃ S, tree h r S.

(** From [h] to [h'] no Node that is there changes its detach callback. *)
Definition fixed (h h' : Heap) : Prop :=
  next h ≤ next h' ∧ ∀ l, l < next h → n_detach (node l h') = n_detach (node l h).






(** * Proofs *)

(** ** Elementary facts about the store *)

Lemma heap_eq (h h' : Heap) :
  cells h = cells h' → next h = next h' → subs h = subs h' →
  notified h = notified h' → log h = log h' → h = h'.
Proof. destruct h, h'; simpl; congruence. Qed.

Lemma elem_of_set_add {A} `{EqDecision A} (x y : A) (s : list A) :
  y ∈ set_add x s ↔ y = x ∨ y ∈ s.
Proof.
  unfold set_add. case_decide as Hx.
  - split; [by right|]. by intros [->|?].
  - rewrite elem_of_app, list_elem_of_singleton. tauto.
Qed.

Lemma elem_of_set_delete {A} `{EqDecision A} (x y : A) (s : list A) :
  y ∈ set_delete x s ↔ y ≠ x ∧ y ∈ s.
Proof. unfold set_delete. by rewrite list_elem_of_filter. Qed.

Lemma set_delete_id {A} `{EqDecision A} (x : A) (s : list A) :
  x ∉ s → set_delete x s = s.
Proof.
  intros Hx. unfold set_delete. induction s as [|y s IH]; [done|].
  rewrite not_elem_of_cons in Hx. destruct Hx as [? ?].
  rewrite filter_cons_True by done. f_equal. by apply IH.
Qed.

Lemma filter_id {A} (P : A → Prop) `{∀ x, Decision (P x)} (s : list A) :
  (∀ x, x ∈ s → P x) → filter P s = s.
Proof.
  induction s as [|y s IH]; intros Hs; [done|].
  rewrite filter_cons_True by (apply Hs; left).
  f_equal. apply IH. intros x Hx. apply Hs. by right.
Qed.

Lemma filter_eq_inv {A} (P : A → Prop) `{∀ x, Decision (P x)} (s : list A) :
  filter P s = s → ∀ x, x ∈ s → P x.
Proof.
  intros Heq x Hx. rewrite <- Heq in Hx. by apply list_elem_of_filter in Hx as [? _].
Qed.

(** Reading after a write. *)

Lemma node_lookup l h n : cells h !! l = Some (ONode n) → node l h = n.
Proof. unfold node. by intros ->. Qed.
Lemma leaf_lookup l h c : cells h !! l = Some (OLeaf c) → leaf l h = c.
Proof. unfold leaf. by intros ->. Qed.
Lemma branch_lookup l h c : cells h !! l = Some (OBranch c) → branch l h = c.
Proof. unfold branch. by intros ->. Qed.

Lemma node_agree l h h' : cells h' !! l = cells h !! l → node l h' = node l h.
Proof. unfold node. by intros ->. Qed.
Lemma leaf_agree l h h' : cells h' !! l = cells h !! l → leaf l h' = leaf l h.
Proof. unfold leaf. by intros ->. Qed.
Lemma branch_agree l h h' : cells h' !! l = cells h !! l → branch l h' = branch l h.
Proof. unfold branch. by intros ->. Qed.

(** *** Notification *)

Lemma notify_fold_fields (ss : list Sub) (h : Heap) :
  let h' := foldl (λ h s, Subscriber.notify s h) h ss in
  cells h' = cells h ∧ next h' = next h ∧ subs h' = subs h ∧ log h' = log h ∧
  (∀ s, s ∈ notified h' ↔ s ∈ notified h ∨ s ∈ ss).
Proof.
  revert h. induction ss as [|s ss IH]; intros h; simpl.
  { split_and!; try done. intros s; split; [by left|].
    intros [?|Hs]; [done|]. by apply elem_of_nil in Hs. }
  destruct (IH (Subscriber.notify s h)) as (Hc & Hn & Hs & Hl & Hm).
  split_and!; try (etrans; [eassumption|done]).
  intros s'; split.
  - intros Hx. apply Hm in Hx as [Hx|Hx].
    + apply elem_of_set_add in Hx as [->|?]; [right; left|by left].
    + right. by right.
  - intros Hx. apply Hm. destruct Hx as [Hx|Hx].
    + left. simpl. apply elem_of_set_add. by right.
    + apply elem_of_cons in Hx as [->|?]; [|by right].
      left. simpl. apply elem_of_set_add. by left.
Qed.

Lemma notify_subscribers_fields t h :
  let h' := Topic.notify_subscribers t h in
  cells h' = cells h ∧ next h' = next h ∧ subs h' = subs h ∧
  log h' = log h ++ [Fired t] ∧
  (∀ s, s ∈ notified h' ↔ s ∈ notified h ∨ s ∈ Topic.subscribers t h).
Proof.
  unfold Topic.notify_subscribers.
  destruct (notify_fold_fields (Topic.subscribers t h) (record (Fired t) h))
    as (Hc & Hn & Hs & Hl & Hm).
  split_and!; try done.
Qed.

(** ** The frame relation *)

Lemma static_eq_refl c : static_eq c c.
Proof. by destruct c. Qed.

Lemma static_eq_trans c1 c2 c3 : static_eq c1 c2 → static_eq c2 c3 → static_eq c1 c3.
Proof.
  destruct c1, c2, c3; simpl; try done; try naive_solver congruence.
Qed.

Lemma static_eq_fresh c c' : static_eq c c' → fresh_cell c → fresh_cell c'.
Proof. destruct c, c'; simpl; try done; naive_solver congruence. Qed.

Lemma mods_refl A E h : bounded h → mods A E h h.
Proof.
  intros Hb. split; try done.
  - intros x c Hx. exists c. split; [done|apply static_eq_refl].
  - intros x c' Hx Hx'. congruence.
  - exists []. rewrite app_nil_r. split_and!; [done|constructor|].
    intros s. split; [by left|]. intros [?|(t & Ht & _)]; [done|].
    by apply elem_of_nil in Ht.
Qed.

Lemma mods_subscribers A E h h' t :
  mods A E h h' → Topic.subscribers t h' = Topic.subscribers t h.
Proof.
  intros Hm. set (x := topic_loc t).
  assert (Topic.subscribers t h = match cells h !! x, t with
            | Some (ONode n), TNode _ => n_subscribers n
            | Some (OLeaf c), TLeaf _ => t_subscribers c
            | Some (OBranch c), TKeys _ => b_keys_subscribers c
            | _, _ => [] end) as Hh.
  { destruct t; simpl; unfold node, leaf, branch; subst x; simpl;
      repeat case_match; done. }
  assert (Topic.subscribers t h' = match cells h' !! x, t with
            | Some (ONode n), TNode _ => n_subscribers n
            | Some (OLeaf c), TLeaf _ => t_subscribers c
            | Some (OBranch c), TKeys _ => b_keys_subscribers c
            | _, _ => [] end) as Hh'.
  { destruct t; simpl; unfold node, leaf, branch; subst x; simpl;
      repeat case_match; done. }
  rewrite Hh, Hh'. clear Hh Hh'.
  destruct (cells h !! x) as [c|] eqn:Hc.
  - destruct (mods_static _ _ _ _ Hm _ _ Hc) as (c' & -> & Hs).
    destruct c, c', t; simpl in Hs; try done; naive_solver.
  - destruct (cells h' !! x) as [c'|] eqn:Hc'; [|by destruct t].
    destruct (mods_fresh _ _ _ _ Hm _ _ Hc Hc') as [_ Hf].
    destruct c', t; simpl in Hf; done.
Qed.

Lemma mods_trans A E A' E' h h' h'' :
  mods A E h h' → mods A' E' h' h'' →
  (∀ x, x < next h → A' x → A x) → (∀ e, E' e → E e) →
  mods A E h h''.
Proof.
  intros H1 H2 HA HE. split.
  - etrans; [apply H1|apply H2].
  - apply H2.
  - etrans; [apply H2|apply H1].
  - intros x Hx HnA. rewrite (mods_frame _ _ _ _ H2).
    + by apply H1.
    + pose proof (mods_next _ _ _ _ H1). lia.
    + intros ?. apply HnA. by apply HA.
  - intros x c Hc.
    destruct (mods_static _ _ _ _ H1 _ _ Hc) as (c' & Hc' & Hs).
    destruct (mods_static _ _ _ _ H2 _ _ Hc') as (c'' & Hc'' & Hs').
    exists c''. split; [done|]. by eapply static_eq_trans.
  - intros x c'' Hx Hx''.
    destruct (cells h' !! x) as [c'|] eqn:Hx'.
    + destruct (mods_fresh _ _ _ _ H1 _ _ Hx Hx') as [? Hf]. split; [done|].
      destruct (mods_static _ _ _ _ H2 _ _ Hx') as (c3 & Hc3 & Hs).
      rewrite Hx'' in Hc3. injection Hc3 as <-. by eapply static_eq_fresh.
    + destruct (mods_fresh _ _ _ _ H2 _ _ Hx' Hx'') as [? Hf]. split; [|done].
      pose proof (mods_next _ _ _ _ H1). lia.
  - destruct (mods_log _ _ _ _ H1) as (evs & Hl & HEs & Hn).
    destruct (mods_log _ _ _ _ H2) as (evs' & Hl' & HEs' & Hn').
    exists (evs ++ evs'). split_and!.
    + rewrite Hl', Hl. by rewrite app_assoc.
    + apply Forall_app. split; [done|]. eapply Forall_impl; [done|]. apply HE.
    + intros s. rewrite Hn', Hn. setoid_rewrite elem_of_app.
      split.
      * intros [[?|(t & ? & ?)]|(t & ? & Ht)]; [by left|right; exists t; tauto|].
        right. exists t. rewrite <- (mods_subscribers _ _ _ _ t H1). tauto.
      * intros [?|(t & [?|?] & Ht)]; [by left; left|left; right; by exists t|].
        right. exists t. rewrite (mods_subscribers _ _ _ _ t H1). tauto.
Qed.

Lemma mods_weaken A E A' E' h h' :
  mods A E h h' → (∀ x, x < next h → A x → A' x) → (∀ e, E e → E' e) → mods A' E' h h'.
Proof.
  intros H HA HE. split; try apply H.
  - intros x Hx HnA. apply H; [done|]. intros ?. apply HnA. by apply HA.
  - destruct (mods_log _ _ _ _ H) as (evs & Hl & HEs & Hn).
    exists evs. split_and!; [done| |done].
    eapply Forall_impl; [done|]. apply HE.
Qed.

Lemma mods_seq A E A1 E1 A2 E2 h h' h'' :
  mods A1 E1 h h' → mods A2 E2 h' h'' →
  (∀ x, x < next h → A1 x → A x) → (∀ x, x < next h → A2 x → A x) →
  (∀ e, E1 e → E e) → (∀ e, E2 e → E e) →
  mods A E h h''.
Proof.
  intros H1 H2 HA1 HA2 HE1 HE2.
  eapply mods_trans; [by eapply mods_weaken|exact H2|done|done].
Qed.

(** Building [mods] for an operation that allocates nothing. *)
Lemma mods_intro A E h h' evs :
  bounded h → next h' = next h → subs h' = subs h →
  (∀ x, ¬ A x → cells h' !! x = cells h !! x) →
  (∀ x c, cells h !! x = Some c → ∃ c', cells h' !! x = Some c' ∧ static_eq c c') →
  (∀ x, cells h !! x = None → cells h' !! x = None) →
  log h' = log h ++ evs → Forall E evs →
  (∀ s, s ∈ notified h' ↔
        s ∈ notified h ∨ ∃ t, Fired t ∈ evs ∧ s ∈ Topic.subscribers t h) →
  mods A E h h'.
Proof.
  intros Hb Hn Hs Hf Hst Hnone Hl HE Hnt. split; try done.
  - lia.
  - intros x Hx. apply Hnone, Hb. lia.
  - intros x _. apply Hf.
  - intros x c' Hx Hx'. rewrite (Hnone _ Hx) in Hx'. done.
  - by exists evs.
Qed.

(** ** The primitive writes *)

Lemma bounded_lookup_lt h x c : bounded h → cells h !! x = Some c → x < next h.
Proof.
  intros Hb Hx. destruct (decide (x < next h)) as [|Hn]; [done|].
  rewrite Hb in Hx by lia. done.
Qed.

Lemma length_zero_nil {A} (l : list A) : (length l =? 0) = bool_decide (l = []).
Proof.
  by destruct l.
Qed.

Lemma set_keys_fields b bc ks h :
  cells h !! b = Some (OBranch bc) →
  let h' := Topic.set (TKeys b) (XKeys ks) h in
  cells h' = <[b := OBranch (with_keys ks bc)]> (cells h) ∧
  next h' = next h ∧ subs h' = subs h ∧
  log h' = log h ++ (if decide (b_keys bc = ks) then [] else [Fired (TKeys b)]) ∧
  (∀ s, s ∈ notified h' ↔ s ∈ notified h ∨ (b_keys bc ≠ ks ∧ s ∈ b_keys_subscribers bc)).
Proof.
  intros Hb. unfold Topic.set. cbn [Topic.get Topic.write_value].
  rewrite (branch_lookup _ _ _ Hb).
  set (h1 := modify_branch b _ h).
  assert (cells h1 = <[b := OBranch (with_keys ks bc)]> (cells h)) as Hc1.
  { unfold h1. simpl. by rewrite (alter_alt_Some _ _ _ _ Hb). }
  unfold Topic.tryDetach. cbn [Topic.detach Topic.strict_eq].
  destruct (decide (b_keys bc = ks)) as [Heq|Hne].
  - rewrite bool_decide_eq_true_2 by done. rewrite app_nil_r.
    split_and!; try done. intros s. split; [by left|]. by intros [?|[? _]].
  - rewrite bool_decide_eq_false_2 by done.
    destruct (notify_subscribers_fields (TKeys b) h1) as (Hc & Hn & Hs & Hl & Hm).
    split_and!; try done.
    + by rewrite Hc.
    + intros s. rewrite Hm. simpl. unfold branch. rewrite Hc1, lookup_insert_eq. simpl.
      unfold h1. simpl. tauto.
Qed.

Lemma set_leaf_fields t tc a h :
  cells h !! t = Some (OLeaf tc) →
  let h' := Topic.set (TLeaf t) (XAtomic a) h in
  cells h' = <[t := OLeaf (MkLeaf a (t_subscribers tc))]> (cells h) ∧
  next h' = next h ∧ subs h' = subs h ∧
  log h' = log h ++ (if Topic.strict_eq (XAtomic (t_value tc)) (XAtomic a) then []
                     else [Fired (TLeaf t)]) ∧
  (∀ s, s ∈ notified h' ↔
        s ∈ notified h ∨
        (Topic.strict_eq (XAtomic (t_value tc)) (XAtomic a) = false ∧ s ∈ t_subscribers tc)).
Proof.
  intros Hb. unfold Topic.set. cbn [Topic.get Topic.write_value].
  rewrite (leaf_lookup _ _ _ Hb).
  set (h1 := modify_leaf t _ h).
  assert (cells h1 = <[t := OLeaf (MkLeaf a (t_subscribers tc))]> (cells h)) as Hc1.
  { unfold h1. simpl. by rewrite (alter_alt_Some _ _ _ _ Hb). }
  unfold Topic.tryDetach. cbn [Topic.detach].
  destruct (Topic.strict_eq _ _) eqn:Heq.
  - rewrite app_nil_r.
    split_and!; try done. intros s. split; [by left|]. by intros [?|[? _]].
  - destruct (notify_subscribers_fields (TLeaf t) h1) as (Hc & Hn & Hs & Hl & Hm).
    split_and!; try done.
    + by rewrite Hc.
    + intros s. rewrite Hm. simpl. unfold leaf. rewrite Hc1, lookup_insert_eq. simpl.
      unfold h1. simpl. tauto.
Qed.

(** Giving a Node a Topic or a Branch never detaches it. *)
Lemma node_set_fields l n c h :
  cells h !! l = Some (ONode n) → c ≠ CUndefined →
  let h' := Node.set l c h in
  cells h' = <[l := ONode (with_value c n)]> (cells h) ∧
  next h' = next h ∧ subs h' = subs h ∧
  log h' = log h ++ (if decide (n_value n = c) then [] else [Fired (TNode l)]) ∧
  (∀ s, s ∈ notified h' ↔ s ∈ notified h ∨ (n_value n ≠ c ∧ s ∈ n_subscribers n)).
Proof.
  intros Hl Hc. unfold Node.set, Topic.set. cbn [Topic.get Topic.write_value].
  rewrite (node_lookup _ _ _ Hl).
  set (h1 := modify_node l _ h).
  assert (cells h1 = <[l := ONode (with_value c n)]> (cells h)) as Hc1.
  { unfold h1. simpl. by rewrite (alter_alt_Some _ _ _ _ Hl). }
  assert (∀ h2, cells h2 = cells h1 → Topic.tryDetach (TNode l) h2 = h2) as Hdet.
  { intros h2 Hh2. unfold Topic.tryDetach.
    cbn [Topic.detach Topic.subscribers Topic.get].
    assert (cells h2 !! l = cells h1 !! l) as Hh2ref by (by rewrite Hh2).
    rewrite (node_agree l h1 h2 Hh2ref).
    unfold node. rewrite Hc1, lookup_insert_eq. simpl.
    destruct (n_detach n); [|done].
    destruct c; [done| |]; by rewrite andb_false_r. }
  cbn [Topic.strict_eq].
  destruct (decide (n_value n = c)) as [Heq|Hne].
  - rewrite bool_decide_eq_true_2 by done. rewrite Hdet by done. rewrite app_nil_r.
    split_and!; try done. intros s. split; [by left|]. by intros [?|[? _]].
  - rewrite bool_decide_eq_false_2 by done.
    destruct (notify_subscribers_fields (TNode l) h1) as (Hc' & Hn & Hs & Hl' & Hm).
    rewrite Hdet by done.
    split_and!; try done.
    + by rewrite Hc'.
    + intros s. rewrite Hm. simpl. unfold node. rewrite Hc1, lookup_insert_eq. simpl.
      unfold h1. simpl. tauto.
Qed.

Lemma node_clear_fields l n h :
  cells h !! l = Some (ONode n) →
  let h' := Node.set l CUndefined h in
  cells h' =
    (if detaches n
     then alter (on_branch (with_nodes (delete (default ("", 0) (n_detach n)).1)))
                (default ("", 0) (n_detach n)).2
     else id) (<[l := ONode (with_value CUndefined n)]> (cells h)) ∧
  next h' = next h ∧ subs h' = subs h ∧
  log h' = log h ++ (if decide (n_value n = CUndefined) then [] else [Fired (TNode l)])
                 ++ (if detaches n then [Detached (TNode l)] else []) ∧
  (∀ s, s ∈ notified h' ↔ s ∈ notified h ∨ (n_value n ≠ CUndefined ∧ s ∈ n_subscribers n)).
Proof.
  intros Hl. unfold Node.set, Topic.set. cbn [Topic.get Topic.write_value].
  rewrite (node_lookup _ _ _ Hl).
  set (h1 := modify_node l _ h).
  assert (cells h1 = <[l := ONode (with_value CUndefined n)]> (cells h)) as Hc1.
  { unfold h1. simpl. by rewrite (alter_alt_Some _ _ _ _ Hl). }
  assert (∀ h2, cells h2 = cells h1 →
     let h3 := Topic.tryDetach (TNode l) h2 in
     cells h3 = (if detaches n
       then alter (on_branch (with_nodes (delete (default ("", 0) (n_detach n)).1)))
                (default ("", 0) (n_detach n)).2
       else id) (cells h1) ∧ next h3 = next h2 ∧ subs h3 = subs h2 ∧
     log h3 = log h2 ++ (if detaches n then [Detached (TNode l)] else []) ∧
     notified h3 = notified h2) as Hdet.
  { intros h2 Hh2. unfold Topic.tryDetach.
    cbn [Topic.detach Topic.subscribers Topic.get].
    assert (cells h2 !! l = cells h1 !! l) as Hh2ref by (by rewrite Hh2).
    rewrite (node_agree l h1 h2 Hh2ref).
    unfold node. rewrite Hc1, lookup_insert_eq. simpl.
    unfold detaches. rewrite length_zero_nil, andb_true_r.
    destruct (n_detach n) as [[k b]|]; simpl.
    - rewrite andb_true_r.
      case_bool_decide; simpl; rewrite ?app_nil_r, ?Hh2, ?Hc1; done.
    - rewrite andb_false_r. simpl. by rewrite app_nil_r, Hh2, Hc1. }
  cbn [Topic.strict_eq].
  destruct (decide (n_value n = CUndefined)) as [Heq|Hne].
  - rewrite bool_decide_eq_true_2 by done.
    destruct (Hdet h1 eq_refl) as (Hc3 & Hn3 & Hs3 & Hl3 & Hm3).
    split_and!; try done.
    + by rewrite Hc3, Hc1.
    + rewrite Hm3. intros s. split; [by left|]. by intros [?|[? _]].
  - rewrite bool_decide_eq_false_2 by done.
    destruct (notify_subscribers_fields (TNode l) h1) as (Hc' & Hn & Hs & Hl' & Hm).
    destruct (Hdet _ Hc') as (Hc3 & Hn3 & Hs3 & Hl3 & Hm3).
    split_and!.
    + by rewrite Hc3, Hc1.
    + by rewrite Hn3, Hn.
    + by rewrite Hs3, Hs.
    + rewrite Hl3, Hl'. simpl. by rewrite <- app_assoc.
    + intros s. rewrite Hm3, Hm. simpl. unfold node. rewrite Hc1, lookup_insert_eq. simpl.
      unfold h1. simpl. tauto.
Qed.

(** *** The primitive writes as [mods] steps *)

Lemma mods_set_keys b bc ks h :
  bounded h → cells h !! b = Some (OBranch bc) →
  mods (λ x, x = b) (λ e, e = Fired (TKeys b) ∧ b_keys bc ≠ ks)
       h (Topic.set (TKeys b) (XKeys ks) h).
Proof.
  intros Hbd Hb.
  destruct (set_keys_fields b bc ks h Hb) as (Hc & Hn & Hs & Hl & Hm).
  eapply mods_intro; try done.
  - intros x Hx. rewrite Hc. by rewrite lookup_insert_ne.
  - intros x c Hx. rewrite Hc. destruct (decide (x = b)) as [->|Hne].
    + rewrite lookup_insert_eq. eexists; split; [done|].
      rewrite Hb in Hx. injection Hx as <-. done.
    + rewrite lookup_insert_ne by done. exists c. split; [done|apply static_eq_refl].
  - intros x Hx. rewrite Hc. rewrite lookup_insert_ne; [done|]. intros ->. congruence.
  - case_decide; [constructor|]. by repeat constructor.
  - intros s. rewrite Hm. simpl.
    case_decide as Hk.
    + split; [intros [?|[? ?]]; [by left|done]|].
      intros [?|(t & Ht & _)]; [by left|]. by apply elem_of_nil in Ht.
    + split.
      * intros [?|[_ ?]]; [by left|]. right. exists (TKeys b). split; [by left|].
        simpl. by rewrite (branch_lookup _ _ _ Hb).
      * intros [?|(t & Ht & Hs')]; [by left|]. right. split; [done|].
        apply list_elem_of_singleton in Ht. injection Ht as ->.
        simpl in Hs'. by rewrite (branch_lookup _ _ _ Hb) in Hs'.
Qed.

Lemma mods_set_leaf t tc a h :
  bounded h → cells h !! t = Some (OLeaf tc) →
  mods (λ x, x = t)
       (λ e, e = Fired (TLeaf t) ∧ Topic.strict_eq (XAtomic (t_value tc)) (XAtomic a) = false)
       h (Topic.set (TLeaf t) (XAtomic a) h).
Proof.
  intros Hbd Hb.
  destruct (set_leaf_fields t tc a h Hb) as (Hc & Hn & Hs & Hl & Hm).
  eapply mods_intro; try done.
  - intros x Hx. rewrite Hc. by rewrite lookup_insert_ne.
  - intros x c Hx. rewrite Hc. destruct (decide (x = t)) as [->|Hne].
    + rewrite lookup_insert_eq. eexists; split; [done|].
      rewrite Hb in Hx. injection Hx as <-. done.
    + rewrite lookup_insert_ne by done. exists c. split; [done|apply static_eq_refl].
  - intros x Hx. rewrite Hc. rewrite lookup_insert_ne; [done|]. intros ->. congruence.
  - destruct (Topic.strict_eq _ _); [constructor|]. by repeat constructor.
  - intros s. rewrite Hm.
    destruct (Topic.strict_eq (XAtomic (t_value tc)) (XAtomic a)) eqn:Heq.
    + split; [intros [?|[? ?]]; [by left|done]|].
      intros [?|(t' & Ht & _)]; [by left|]. by apply elem_of_nil in Ht.
    + split.
      * intros [?|[_ ?]]; [by left|]. right. exists (TLeaf t). split; [by left|].
        simpl. by rewrite (leaf_lookup _ _ _ Hb).
      * intros [?|(t' & Ht & Hs')]; [by left|]. right. split; [done|].
        apply list_elem_of_singleton in Ht. injection Ht as ->.
        simpl in Hs'. by rewrite (leaf_lookup _ _ _ Hb) in Hs'.
Qed.

Lemma mods_node_set l n c h :
  bounded h → cells h !! l = Some (ONode n) → c ≠ CUndefined →
  mods (λ x, x = l) (λ e, e = Fired (TNode l) ∧ n_value n ≠ c) h (Node.set l c h).
Proof.
  intros Hbd Hb Hc0.
  destruct (node_set_fields l n c h Hb Hc0) as (Hc & Hn & Hs & Hl & Hm).
  eapply mods_intro; try done.
  - intros x Hx. rewrite Hc. by rewrite lookup_insert_ne.
  - intros x c' Hx. rewrite Hc. destruct (decide (x = l)) as [->|Hne].
    + rewrite lookup_insert_eq. eexists; split; [done|].
      rewrite Hb in Hx. injection Hx as <-. done.
    + rewrite lookup_insert_ne by done. exists c'. split; [done|apply static_eq_refl].
  - intros x Hx. rewrite Hc. rewrite lookup_insert_ne; [done|]. intros ->. congruence.
  - case_decide; [constructor|]. by repeat constructor.
  - intros s. rewrite Hm. simpl.
    case_decide as Hk.
    + split; [intros [?|[? ?]]; [by left|done]|].
      intros [?|(t' & Ht & _)]; [by left|]. by apply elem_of_nil in Ht.
    + split.
      * intros [?|[_ ?]]; [by left|]. right. exists (TNode l). split; [by left|].
        simpl. by rewrite (node_lookup _ _ _ Hb).
      * intros [?|(t' & Ht & Hs')]; [by left|]. right. split; [done|].
        apply list_elem_of_singleton in Ht. injection Ht as ->.
        simpl in Hs'. by rewrite (node_lookup _ _ _ Hb) in Hs'.
Qed.

Lemma lookup_alter_on_branch (f : BranchCell → BranchCell) b (m : gmap nat Cell) x c :
  (∀ bc, b_keys_subscribers (f bc) = b_keys_subscribers bc) →
  m !! x = Some c →
  ∃ c', alter (on_branch f) b m !! x = Some c' ∧ static_eq c c'.
Proof.
  intros Hf Hx. rewrite lookup_alter. case_decide as Hd.
  - subst. rewrite Hx. simpl. eexists; split; [done|].
    destruct c; simpl; auto.
  - exists c. split; [done|apply static_eq_refl].
Qed.

Lemma lookup_alter_None {A} (f : A → A) b (m : gmap nat A) x :
  m !! x = None → alter f b m !! x = None.
Proof.
  intros Hx. rewrite lookup_alter. case_decide; [|done]. subst. by rewrite Hx.
Qed.

Lemma mods_node_clear l n h :
  bounded h → cells h !! l = Some (ONode n) →
  mods (λ x, x = l ∨ (detaches n = true ∧ ∃ k, n_detach n = Some (k, x)))
       (λ e, (e = Fired (TNode l) ∧ n_value n ≠ CUndefined) ∨
             (e = Detached (TNode l) ∧ detaches n = true))
       h (Node.set l CUndefined h).
Proof.
  intros Hbd Hb.
  destruct (node_clear_fields l n h Hb) as (Hc & Hn & Hs & Hl & Hm).
  eapply mods_intro; try done.
  - intros x Hx. rewrite Hc.
    destruct (detaches n) eqn:Hd; simpl.
    + rewrite lookup_alter_ne.
      * rewrite lookup_insert_ne; [done|]. intros ->. apply Hx. by left.
      * intros <-. apply Hx. right. split; [done|].
        unfold detaches in Hd. apply andb_true_iff in Hd as [_ Hd].
        apply bool_decide_eq_true in Hd as [[k b] Hkb]. rewrite Hkb. simpl. by exists k.
    + rewrite lookup_insert_ne; [done|]. intros ->. apply Hx. by left.
  - intros x c Hx. rewrite Hc.
    assert (∃ c', <[l:=ONode (with_value CUndefined n)]> (cells h) !! x = Some c' ∧
                  static_eq c c') as (c1 & Hc1 & Hs1).
    { destruct (decide (x = l)) as [->|Hne].
      - rewrite lookup_insert_eq. eexists; split; [done|].
        rewrite Hb in Hx. injection Hx as <-. done.
      - rewrite lookup_insert_ne by done. exists c. split; [done|apply static_eq_refl]. }
    destruct (detaches n); simpl; [|by exists c1].
    destruct (lookup_alter_on_branch
      (with_nodes (delete (default ("", 0) (n_detach n)).1))
      (default ("", 0) (n_detach n)).2 _ x c1 ltac:(done) Hc1) as (c2 & Hc2 & Hs2).
    exists c2. split; [done|]. by eapply static_eq_trans.
  - intros x Hx. rewrite Hc.
    assert (<[l:=ONode (with_value CUndefined n)]> (cells h) !! x = None) as Hx1.
    { rewrite lookup_insert_ne; [done|]. intros ->. congruence. }
    destruct (detaches n); simpl; [|done]. by apply lookup_alter_None.
  - apply Forall_app. split.
    + case_decide; [constructor|]. constructor; [by left|constructor].
    + destruct (detaches n); [|constructor]. constructor; [by right|constructor].
  - intros s. rewrite Hm. simpl. setoid_rewrite elem_of_app.
    split.
    + intros [?|[Hne ?]]; [by left|]. right. exists (TNode l).
      rewrite decide_False by done. split; [left; by left|].
      simpl. by rewrite (node_lookup _ _ _ Hb).
    + intros [?|(t' & [Ht|Ht] & Hs')]; [by left| |].
      * case_decide; [by apply elem_of_nil in Ht|].
        apply list_elem_of_singleton in Ht. injection Ht as ->.
        right. split; [done|]. simpl in Hs'. by rewrite (node_lookup _ _ _ Hb) in Hs'.
      * destruct (detaches n); [|by apply elem_of_nil in Ht].
        apply list_elem_of_singleton in Ht. done.
Qed.

Lemma mods_modify_branch b f h :
  bounded h → (∀ bc, b_keys_subscribers (f bc) = b_keys_subscribers bc) →
  mods (λ x, x = b) (λ _, False) h (modify_branch b f h).
Proof.
  intros Hbd Hf. eapply (mods_intro _ _ _ _ []); try done.
  - intros x Hx. simpl. by rewrite lookup_alter_ne.
  - intros x c Hx. simpl. by apply lookup_alter_on_branch.
  - intros x Hx. simpl. by apply lookup_alter_None.
  - simpl. by rewrite app_nil_r.
  - intros s. simpl. split; [by left|].
    intros [?|(t & Ht & _)]; [done|]. by apply elem_of_nil in Ht.
Qed.

Lemma mods_alloc c h :
  bounded h → fresh_cell c → mods (λ _, False) (λ _, False) h (alloc c h).2.
Proof.
  intros Hbd Hc. unfold alloc. split; simpl.
  - lia.
  - intros x Hx. simpl in *. rewrite lookup_insert_ne by lia. apply Hbd. lia.
  - done.
  - intros x Hx _. rewrite lookup_insert_ne by lia. done.
  - intros x c' Hx. exists c'. split; [|apply static_eq_refl].
    rewrite lookup_insert_ne; [done|]. intros <-. rewrite Hbd in Hx by lia. done.
  - intros x c' Hx Hx'. destruct (decide (x = next h)) as [->|Hne].
    + rewrite lookup_insert_eq in Hx'. injection Hx' as <-. split; [lia|done].
    + rewrite lookup_insert_ne in Hx' by done. congruence.
  - exists []. rewrite app_nil_r. split_and!; [done|constructor|].
    intros s. split; [by left|].
    intros [?|(t & Ht & _)]; [done|]. by apply elem_of_nil in Ht.
Qed.

(** ** Shapes and the trees they describe *)

Lemma Shape_ind' (P : Shape → Prop) :
  P SUndefined → (∀ t, P (STopic t)) →
  (∀ b kids, Forall (λ kid : string * (loc * Shape), P kid.2.2) kids → P (SBranch b kids)) →
  ∀ S, P S.
Proof.
  intros HU HT HB. fix IH 1. intros [|t|b kids]; [done|done|].
  apply HB. induction kids as [|[k [c Sc]] kids IHk]; constructor; [apply IH|apply IHk].
Qed.

Lemma fp_branch b kids : fp (SBranch b kids) = b :: kids_fp kids.
Proof.
  simpl. f_equal. unfold kids_fp.
  induction kids as [|[k [c Sc]] kids IH]; [done|].
  simpl. f_equal. f_equal. apply IH.
Qed.

Lemma elem_of_kids_fp x kids :
  x ∈ kids_fp kids ↔ ∃ kid, kid ∈ kids ∧ x ∈ kid_fp kid.
Proof. unfold kids_fp. rewrite list_elem_of_bind. naive_solver. Qed.

Lemma kids_fp_cons kid kids : kids_fp (kid :: kids) = kid_fp kid ++ kids_fp kids.
Proof. done. Qed.

Lemma kids_fp_app kids kids' : kids_fp (kids ++ kids') = kids_fp kids ++ kids_fp kids'.
Proof. unfold kids_fp. by rewrite bind_app. Qed.

Lemma rep_node h l S : rep h l S → ∃ n, cells h !! l = Some (ONode n).
Proof. destruct 1; eauto. Qed.

Lemma rep_frame h h' l S :
  rep h l S → (∀ x, x ∈ l :: fp S → cells h' !! x = cells h !! x) → rep h' l S.
Proof.
  revert l. induction S as [|t|b kids IH] using Shape_ind'; intros l Hr Hf.
  - inversion Hr; subst. eapply rep_undefined; [|done]. rewrite Hf; [done|]. by left.
  - inversion Hr; subst. eapply rep_topic; [|done|].
    + rewrite Hf; [done|]. by left.
    + rewrite Hf; [done|]. right. by left.
  - inversion Hr as [| |? n ? bc ? Hl Hv Hb Hk Hkids]; subst.
    rewrite fp_branch in Hf.
    eapply rep_branch; [| done | | done |].
    + rewrite Hf; [done|]. by left.
    + rewrite Hf; [done|]. right. by left.
    + rewrite Forall_forall in IH, Hkids. apply Forall_forall.
      intros kid Hkid. destruct (Hkids _ Hkid) as (Hd & Hp & Hrk).
      assert (∀ x, x ∈ kid_fp kid → cells h' !! x = cells h !! x) as Hfk.
      { intros x Hx. apply Hf. right. right. apply elem_of_kids_fp. eauto. }
      rewrite (node_agree _ h h') by (apply Hfk; by left).
      split_and!; [done|done|]. apply IH; [done|done|]. apply Hfk.
Qed.

Lemma rep_is_Some h l S x : rep h l S → x ∈ l :: fp S → is_Some (cells h !! x).
Proof.
  revert l. induction S as [|t|b kids IH] using Shape_ind'; intros l Hr Hx.
  - inversion Hr; subst. apply elem_of_cons in Hx as [->|Hx]; [eauto|].
    by apply elem_of_nil in Hx.
  - inversion Hr; subst. apply elem_of_cons in Hx as [->|Hx]; [eauto|].
    apply list_elem_of_singleton in Hx as ->. eauto.
  - inversion Hr as [| |? n ? bc ? Hl Hv Hb Hk Hkids]; subst.
    rewrite fp_branch in Hx.
    apply elem_of_cons in Hx as [->|Hx]; [eauto|].
    apply elem_of_cons in Hx as [->|Hx]; [eauto|].
    apply elem_of_kids_fp in Hx as (kid & Hkid & Hx).
    rewrite Forall_forall in IH, Hkids.
    destruct (Hkids _ Hkid) as (_ & _ & Hrk). by eapply IH.
Qed.

Lemma rep_lt h l S x : bounded h → rep h l S → x ∈ l :: fp S → x < next h.
Proof.
  intros Hb Hr Hx. destruct (rep_is_Some _ _ _ _ Hr Hx) as [c Hc].
  by eapply bounded_lookup_lt.
Qed.

(** The frame of an operation away from a tree keeps the tree. *)
Lemma rep_mods A E h h' l S :
  bounded h → rep h l S → mods A E h h' → (∀ x, x ∈ l :: fp S → ¬ A x) → rep h' l S.
Proof.
  intros Hb Hr Hm HA. eapply rep_frame; [done|].
  intros x Hx. apply Hm; [by eapply rep_lt|by apply HA].
Qed.

Lemma rep_branch_inv h l b kids :
  rep h l (SBranch b kids) →
  ∃ n bc, cells h !! l = Some (ONode n) ∧ n_value n = CBranch b ∧
          cells h !! b = Some (OBranch bc) ∧ kids_cover bc kids ∧
          Forall (kid_ok h b) kids.
Proof. inversion 1; subst. eauto 10. Qed.

Lemma rep_branch_intro h l n b bc kids :
  cells h !! l = Some (ONode n) → n_value n = CBranch b →
  cells h !! b = Some (OBranch bc) → kids_cover bc kids →
  Forall (kid_ok h b) kids → rep h l (SBranch b kids).
Proof. intros. by eapply rep_branch. Qed.

Lemma kid_ok_frame h h' b kid :
  kid_ok h b kid → (∀ x, x ∈ kid_fp kid → cells h' !! x = cells h !! x) →
  kid_ok h' b kid.
Proof.
  intros (Hd & Hp & Hr) Hf. unfold kid_ok.
  rewrite (node_agree _ h h') by (apply Hf; by left).
  split_and!; [done|done|]. by eapply rep_frame.
Qed.

Lemma kid_ok_mods A E h h' b kid :
  bounded h → kid_ok h b kid → mods A E h h' → (∀ x, x ∈ kid_fp kid → ¬ A x) →
  kid_ok h' b kid.
Proof.
  intros Hb Hk Hm HA. eapply kid_ok_frame; [done|].
  intros x Hx. apply Hm; [|by apply HA].
  destruct Hk as (_ & _ & Hr). by eapply rep_lt.
Qed.

(** Distinct children of a proper tree share no object. *)
Lemma kids_fp_disjoint kids kid kid' x :
  NoDup (kids_fp kids) → kid ∈ kids → kid' ∈ kids →
  x ∈ kid_fp kid → x ∈ kid_fp kid' → kid = kid'.
Proof.
  induction kids as [|k0 kids IH]; intros Hnd Hk Hk' Hx Hx'.
  { by apply elem_of_nil in Hk. }
  rewrite kids_fp_cons in Hnd. apply NoDup_app in Hnd as (Hnd0 & Hdisj & Hnd1).
  apply elem_of_cons in Hk as [->|Hk], Hk' as [->|Hk'].
  - done.
  - exfalso. apply (Hdisj x Hx). apply elem_of_kids_fp. eauto.
  - exfalso. apply (Hdisj x Hx'). apply elem_of_kids_fp. eauto.
  - by apply IH.
Qed.

Lemma kid_fp_NoDup kids kid :
  NoDup (kids_fp kids) → kid ∈ kids → NoDup (kid_fp kid).
Proof.
  induction kids as [|k0 kids IH]; intros Hnd Hk.
  { by apply elem_of_nil in Hk. }
  rewrite kids_fp_cons in Hnd. apply NoDup_app in Hnd as (Hnd0 & Hdisj & Hnd1).
  apply elem_of_cons in Hk as [->|Hk]; [done|by apply IH].
Qed.

(** ** [update] by cases, and updating with the value already held *)

Lemma Value_ind' (P : Value → Prop) :
  P VUndefined → P VNull → (∀ a, P (VAtomic a)) →
  (∀ xs, Forall P xs → P (VArray xs)) →
  (∀ fs, Forall (λ kv : string * Value, P kv.2) fs → P (VRecord fs)) →
  (∀ c fs, Forall (λ kv : string * Value, P kv.2) fs → P (VInstance c fs)) →
  ∀ v, P v.
Proof.
  intros HU HN HA HAr HR HI. fix IH 1.
  intros [| |a|xs|fs|c fs]; [apply HU|apply HN|apply HA| | |].
  - apply HAr. induction xs as [|x xs IHx]; constructor; [apply IH|apply IHx].
  - apply HR. induction fs as [|[k x] fs IHf]; constructor; [apply IH|apply IHf].
  - apply HI. induction fs as [|[k x] fs IHf]; constructor; [apply IH|apply IHf].
Qed.

Lemma array_entries_fst (xs : list Value) : (array_entries xs).*1 = index_keys xs.
Proof.
  unfold array_entries, index_keys. rewrite fmap_imap. by apply imap_ext.
Qed.

Lemma update_array_loop xs n i h :
  (foldl (λ (st : nat * Heap) x,
            (S st.1, Node.update_child (Node.update x) (pretty st.1) n st.2))
         (i, h) xs).2
  = update_entries (imap (λ j x, (pretty (i + j), x)) xs) n h.
Proof.
  revert i h. induction xs as [|x xs IH]; intros i h; [done|].
  rewrite imap_cons. cbn [foldl fst snd]. rewrite IH.
  unfold update_entries. cbn [foldl fst snd]. rewrite Nat.add_0_r. f_equal.
  apply imap_ext. intros j y _. simpl. do 2 f_equal. lia.
Qed.

Lemma update_VArray xs l h :
  Node.update (VArray xs) l h =
  update_entries (array_entries xs) (Node.update_branch true (array_entries xs).*1 l h).1
                 (Node.update_branch true (array_entries xs).*1 l h).2.
Proof.
  rewrite array_entries_fst. simpl.
  destruct (Node.update_branch true (index_keys xs) l h) as [n h1]. simpl.
  apply (update_array_loop xs n 0 h1).
Qed.

Lemma update_VRecord fs l h :
  Node.update (VRecord fs) l h =
  update_entries fs (Node.update_branch false fs.*1 l h).1
                 (Node.update_branch false fs.*1 l h).2.
Proof.
  simpl. destruct (Node.update_branch false fs.*1 l h) as [n h1]. simpl.
  unfold update_entries. revert h1. induction fs as [|[k x] fs IH]; intros h1; [done|].
  simpl. apply IH.
Qed.

Lemma with_cells_id f h : f (cells h) = cells h → with_cells f h = h.
Proof. intros Hf. apply heap_eq; simpl; done. Qed.

Lemma set_leaf_same t a h :
  t_value (leaf t h) = Some a → atomic_strict_eq a a = true →
  Topic.set (TLeaf t) (XAtomic (Some a)) h = h.
Proof.
  intros Hv Ha. unfold Topic.set. cbn [Topic.get Topic.write_value]. rewrite Hv.
  cbn [Topic.strict_eq]. rewrite Ha. unfold Topic.tryDetach. cbn [Topic.detach].
  apply with_cells_id, alter_id. intros c Hc.
  unfold leaf in Hv. rewrite Hc in Hv.
  destruct c as [|tc|]; try done. simpl. destruct tc; simpl in *. congruence.
Qed.

Lemma set_keys_same b h :
  Topic.set (TKeys b) (XKeys (b_keys (branch b h))) h = h.
Proof.
  unfold Topic.set. cbn [Topic.get Topic.write_value Topic.strict_eq].
  rewrite bool_decide_eq_true_2 by done.
  unfold Topic.tryDetach. cbn [Topic.detach].
  apply with_cells_id, alter_id. intros c Hc.
  destruct c as [| |bc]; try done. simpl.
  rewrite (branch_lookup _ _ _ Hc). by destruct bc.
Qed.

Lemma set_isArray_same b a h :
  b_isArray (branch b h) = a →
  modify_branch b (λ c, MkBranch a (b_keys c) (b_keys_subscribers c) (b_nodes c)) h = h.
Proof.
  intros Ha. apply with_cells_id, alter_id. intros c Hc.
  destruct c as [| |bc]; try done. simpl.
  rewrite (branch_lookup _ _ _ Hc) in Ha. destruct bc; simpl in *. by subst.
Qed.

Lemma clear_dropped_same new b h :
  (∀ k, k ∈ b_keys (branch b h) → k ∈ new) → Node.clear_dropped new b h = h.
Proof.
  unfold Node.clear_dropped. generalize (b_keys (branch b h)) as ks.
  induction ks as [|k ks IH]; intros Hks; [done|].
  simpl. unfold oset_has. rewrite bool_decide_eq_true_2 by (apply Hks; by left).
  apply IH. intros k' Hk'. apply Hks. by right.
Qed.

Lemma getOrCreateNode_present k c b h :
  b_nodes (branch b h) !! k = Some c → k ∈ b_keys (branch b h) →
  Branch.getOrCreateNode k b h = (c, h).
Proof.
  intros Hc Hk. unfold Branch.getOrCreateNode. rewrite Hc.
  unfold oset_has. by rewrite bool_decide_eq_true_2.
Qed.

Lemma update_branch_id isArr ks l b h :
  n_value (node l h) = CBranch b → b_isArray (branch b h) = isArr →
  (∀ k, k ∈ b_keys (branch b h) → k ∈ ks) →
  Node.update_branch isArr ks l h = (b, h).
Proof.
  intros Hv Ha Hks. unfold Node.update_branch, Node.getOrCreateBranch. rewrite Hv.
  rewrite set_isArray_same by done.
  rewrite clear_dropped_same by done.
  unfold oset_intersect. rewrite (filter_id _ (b_keys (branch b h))) by done.
  by rewrite set_keys_same.
Qed.

Lemma update_entries_id es b h :
  Forall (λ kx : string * Value,
            ∃ c, b_nodes (branch b h) !! kx.1 = Some c ∧
                 kx.1 ∈ b_keys (branch b h) ∧ Node.update kx.2 c h = h) es →
  update_entries es b h = h.
Proof.
  unfold update_entries. induction 1 as [|[k x] es (c & Hc & Hk & Hu) _ IH]; [done|].
  simpl in *. unfold Node.update_child.
  rewrite (getOrCreateNode_present k c) by done. by rewrite Hu.
Qed.

Lemma stable_not_empty v : stable v → is_empty v = false.
Proof. by destruct 1. Qed.

Lemma live_keys_all es :
  Forall (λ kx : string * Value, is_empty kx.2 = false) es → live_keys es = es.*1.
Proof.
  intros Hes. unfold live_keys. f_equal. apply filter_id.
  by apply Forall_forall.
Qed.

(** Updating a Node with the value it holds changes nothing at all. *)
Lemma holds_update_id h l v :
  holds false h l v → stable v → Node.update v l h = h.
Proof.
  revert l. induction v as [| |a|xs IH|fs IH|c fs IH] using Value_ind';
    intros l Hh Hs; inversion Hh as [? t ? Hv Ht|? b ? Hv Ha Hk Hc|? b ? Hv Ha Hk Hc];
    inversion Hs as [? Hsa|? Hsx|? Hsf]; subst.
  - simpl. unfold Node.getOrCreateTopic. rewrite Hv. by apply set_leaf_same.
  - assert (Forall (λ kx : string * Value, stable kx.2) (array_entries xs)) as Hse.
    { apply Forall_forall. intros [k x] Hx.
      apply elem_of_lookup_imap in Hx as (i & z & Heq & Hz). injection Heq as -> ->.
      rewrite Forall_forall in Hsx. apply Hsx. by eapply list_elem_of_lookup_2. }
    rewrite live_keys_all in Hk
      by (eapply Forall_impl; [done|]; intros ?; apply stable_not_empty).
    rewrite update_VArray.
    rewrite (update_branch_id true _ l b) by (done || intros k; apply Hk). simpl.
    apply update_entries_id. apply Forall_forall. intros [k x] Hx.
    rewrite Forall_forall in Hc, Hse. pose proof (Hse _ Hx) as Hsx'.
    destruct (Hc _ Hx (stable_not_empty _ Hsx')) as (c & Hcn & Hch).
    exists c. split_and!; [done| |].
    + apply Hk. by apply (list_elem_of_fmap_2 fst) in Hx.
    + apply elem_of_lookup_imap in Hx as (i & z & Heq & Hz). injection Heq as -> ->.
      apply list_elem_of_lookup_2 in Hz.
      rewrite Forall_forall in IH. apply IH; done.
  - rewrite live_keys_all in Hk
      by (eapply Forall_impl; [done|]; intros ?; apply stable_not_empty).
    rewrite update_VRecord.
    rewrite (update_branch_id false _ l b) by (done || intros k; apply Hk). simpl.
    apply update_entries_id. apply Forall_forall. intros [k x] Hx.
    rewrite Forall_forall in Hc, Hsf. pose proof (Hsf _ Hx) as Hsx'.
    destruct (Hc _ Hx (stable_not_empty _ Hsx')) as (c & Hcn & Hch).
    exists c. split_and!; [done| |].
    + apply Hk. by apply (list_elem_of_fmap_2 fst) in Hx.
    + rewrite Forall_forall in IH. apply (IH _ Hx); done.
Qed.

(** ** The children of a Branch *)

Lemma elem_of_others k kids kid : kid ∈ others k kids ↔ kid.1 ≠ k ∧ kid ∈ kids.
Proof. unfold others. by rewrite list_elem_of_filter. Qed.

Lemma kid_fp_head (kid : Kid) : kid.2.1 ∈ kid_fp kid.
Proof. by left. Qed.

(** Under a covering Branch cell a key names one child. *)
Lemma kid_unique bc kids k c Sc c' Sc' :
  kids_cover bc kids → NoDup (kids_fp kids) →
  (k, (c, Sc)) ∈ kids → (k, (c', Sc')) ∈ kids → c' = c ∧ Sc' = Sc.
Proof.
  intros Hcov Hnd H1 H2.
  assert (b_nodes bc !! k = Some c) as Hc by (apply Hcov; eauto).
  assert (b_nodes bc !! k = Some c') as Hc' by (apply Hcov; eauto).
  assert (c' = c) as -> by congruence. split; [done|].
  assert ((k, (c, Sc')) = (k, (c, Sc))) as Heq; [|congruence].
  eapply (kids_fp_disjoint kids _ _ c); [done|done|done|by left|by left].
Qed.

Lemma kids_fp_others_sublist k kids : kids_fp (others k kids) `sublist_of` kids_fp kids.
Proof.
  induction kids as [|kid kids IH]; [done|].
  unfold others. rewrite filter_cons. case_decide.
  - rewrite !kids_fp_cons. by apply sublist_app.
  - rewrite kids_fp_cons. by apply sublist_inserts_l.
Qed.

Lemma elem_of_kids_fp_others k kids x :
  x ∈ kids_fp (others k kids) → x ∈ kids_fp kids.
Proof. intros Hx. eapply elem_of_sublist; [done|apply kids_fp_others_sublist]. Qed.

Lemma others_id k kids : (∀ kid, kid ∈ kids → kid.1 ≠ k) → others k kids = kids.
Proof. apply filter_id. Qed.

(** Taking one child out of the footprint. *)
Lemma kids_fp_split bc kids k c Sc :
  kids_cover bc kids → NoDup (kids_fp kids) → (k, (c, Sc)) ∈ kids →
  kids_fp kids ≡ₚ kid_fp (k, (c, Sc)) ++ kids_fp (others k kids).
Proof.
  intros Hcov Hnd Hin.
  assert (∀ kid : Kid, kid ∈ kids → kid.1 = k → kid = (k, (c, Sc))) as Huniq.
  { intros [k' [c' Sc']] Hk' Heq. simpl in Heq. subst k'.
    destruct (kid_unique _ _ _ _ _ _ _ Hcov Hnd Hin Hk') as [-> ->]. done. }
  clear Hcov. induction kids as [|kid kids IH]; [by apply elem_of_nil in Hin|].
  rewrite kids_fp_cons in Hnd. apply NoDup_app in Hnd as (Hnd0 & Hdisj & Hnd1).
  unfold others. rewrite filter_cons. case_decide as Hk.
  - (* another child first *)
    apply elem_of_cons in Hin as [Heq|Hin]; [by subst kid|].
    rewrite !kids_fp_cons. rewrite IH; [|done|done|].
    + by rewrite !app_assoc, (Permutation_app_comm (kid_fp kid)).
    + intros kid' Hk' Heq. apply Huniq; [by right|done].
  - (* the child itself *)
    assert (kid = (k, (c, Sc))) as ->.
    { apply Huniq; [by left|]. by destruct (decide (kid.1 = k)); [|exfalso; auto]. }
    rewrite kids_fp_cons. f_equiv.
    fold (others k kids). rewrite others_id; [done|].
    intros kid' Hk' Heq.
    assert (kid' = (k, (c, Sc))) as -> by (apply Huniq; [by right|done]).
    apply (Hdisj c); [by left|]. apply elem_of_kids_fp. eexists. split; [done|by left].
Qed.

(** Replacing one child keeps the tree proper when what the new child owns
    is its old property or new. *)
Lemma NoDup_replace_kid bc kids k c Sc Sc' (X : list loc) :
  kids_cover bc kids → NoDup (X ++ kids_fp kids) → (k, (c, Sc)) ∈ kids →
  NoDup (c :: fp Sc') →
  (∀ y, y ∈ fp Sc' → y ∈ fp Sc ∨ ((y ∉ X) ∧ y ∉ kids_fp kids)) →
  NoDup (X ++ kids_fp ((k, (c, Sc')) :: others k kids)).
Proof.
  intros Hcov Hnd Hin Hnd' Hprov.
  apply NoDup_app in Hnd as (HX & Hdisj & Hk).
  pose proof (kids_fp_split _ _ _ _ _ Hcov Hk Hin) as Hperm.
  rewrite Hperm in Hk. apply NoDup_app in Hk as (Hk0 & Hdisj0 & Hk1).
  assert (∀ y, y ∈ kid_fp (k, (c, Sc)) → y ∈ kids_fp kids) as Hsub.
  { intros y Hy. rewrite Hperm. apply elem_of_app. by left. }
  apply NoDup_app. split_and!; [done| |].
  - intros x Hx. rewrite kids_fp_cons. rewrite elem_of_app. intros [Hx'|Hx'].
    + unfold kid_fp in Hx'. simpl in Hx'. apply elem_of_cons in Hx' as [->|Hx'].
      * apply (Hdisj c Hx). apply Hsub. by left.
      * destruct (Hprov _ Hx') as [?|[? _]]; [|done].
        apply (Hdisj x Hx). apply Hsub. by right.
    + apply (Hdisj x Hx). by apply elem_of_kids_fp_others in Hx'.
  - rewrite kids_fp_cons. apply NoDup_app. split_and!; [done| |done].
    intros x Hx Hx'. unfold kid_fp in Hx. simpl in Hx.
    apply elem_of_cons in Hx as [->|Hx].
    + apply (Hdisj0 c); [by left|done].
    + destruct (Hprov _ Hx) as [?|[_ Hn]].
      * apply (Hdisj0 x); [by right|done].
      * apply Hn. by apply elem_of_kids_fp_others in Hx'.
Qed.

Lemma NoDup_remove_kid k kids (X : list loc) :
  NoDup (X ++ kids_fp kids) → NoDup (X ++ kids_fp (others k kids)).
Proof.
  intros Hnd. eapply sublist_NoDup; [done|].
  apply sublist_app; [done|apply kids_fp_others_sublist].
Qed.

(** *** A held value survives changes elsewhere *)

Lemma holds_frame exact h h' v :
  ∀ l S, rep h l S → holds exact h l v →
         (∀ y, y ∈ l :: fp S → cells h' !! y = cells h !! y) → holds exact h' l v.
Proof.
  induction v as [| |a|xs IH|fs IH|c fs IH] using Value_ind';
    intros l S Hr Hh Hf;
    inversion Hh as [? t ? Hv Ht|? b ? Hv Ha Hk Hc|? b ? Hv Ha Hk Hc]; subst.
  - inversion Hr as [? n Hl Hn|? n t' tc Hl Hn Htc|? n b' bc kids Hl Hn];
      subst; rewrite (node_lookup _ _ _ Hl) in Hv; try congruence.
    assert (t' = t) as -> by congruence.
    eapply holds_atomic.
    + rewrite (node_agree l h h') by (apply Hf; by left).
      by rewrite (node_lookup _ _ _ Hl).
    + rewrite (leaf_agree t h h'); [done|]. apply Hf. right. by left.
  - inversion Hr as [? n Hl Hn|? n t' tc Hl Hn Htc|? n b' bc kids Hl Hn Hb Hcov Hkids];
      subst; rewrite (node_lookup _ _ _ Hl) in Hv; try congruence.
    assert (b' = b) as -> by congruence.
    rewrite fp_branch in Hf.
    assert (branch b h' = branch b h) as Hbb.
    { apply branch_agree. apply Hf. right. by left. }
    eapply holds_array; rewrite ?Hbb; try done.
    + rewrite (node_agree l h h') by (apply Hf; by left).
      by rewrite (node_lookup _ _ _ Hl).
    + apply Forall_forall. intros [k x] Hx.
      intros Hne. rewrite Forall_forall in Hc. destruct (Hc _ Hx Hne) as (c' & Hc' & Hhc).
      exists c'. split; [done|]. simpl in *.
      rewrite (branch_lookup _ _ _ Hb) in Hc'.
      apply Hcov in Hc' as (Sc & Hkid).
      rewrite Forall_forall in Hkids. destruct (Hkids _ Hkid) as (_ & _ & Hrc).
      apply elem_of_lookup_imap in Hx as (i & z & Heq & Hz). injection Heq as -> ->.
      apply list_elem_of_lookup_2 in Hz.
      rewrite Forall_forall in IH. eapply (IH _ Hz); [done|done|].
      intros y Hy. apply Hf. right. right. apply elem_of_kids_fp. eauto.
  - inversion Hr as [? n Hl Hn|? n t' tc Hl Hn Htc|? n b' bc kids Hl Hn Hb Hcov Hkids];
      subst; rewrite (node_lookup _ _ _ Hl) in Hv; try congruence.
    assert (b' = b) as -> by congruence.
    rewrite fp_branch in Hf.
    assert (branch b h' = branch b h) as Hbb.
    { apply branch_agree. apply Hf. right. by left. }
    eapply holds_record; rewrite ?Hbb; try done.
    + rewrite (node_agree l h h') by (apply Hf; by left).
      by rewrite (node_lookup _ _ _ Hl).
    + apply Forall_forall. intros [k x] Hx.
      intros Hne. rewrite Forall_forall in Hc. destruct (Hc _ Hx Hne) as (c' & Hc' & Hhc).
      exists c'. split; [done|]. simpl in *.
      rewrite (branch_lookup _ _ _ Hb) in Hc'.
      apply Hcov in Hc' as (Sc & Hkid).
      rewrite Forall_forall in Hkids. destruct (Hkids _ Hkid) as (_ & _ & Hrc).
      rewrite Forall_forall in IH. eapply (IH _ Hx); [done|done|].
      intros y Hy. apply Hf. right. right. apply elem_of_kids_fp. eauto.
Qed.

(** ** The steps of [update] on a proper tree *)

Lemma btree_tree h l b kids : btree h l b kids ↔ tree h l (SBranch b kids).
Proof. unfold btree, tree. by rewrite fp_branch. Qed.

Lemma btree_inv h l b kids :
  btree h l b kids →
  ∃ n bc, cells h !! l = Some (ONode n) ∧ n_value n = CBranch b ∧
          cells h !! b = Some (OBranch bc) ∧ kids_cover bc kids ∧
          Forall (kid_ok h b) kids ∧ l ≠ b ∧ (b ∉ kids_fp kids) ∧ (l ∉ kids_fp kids) ∧
          NoDup (kids_fp kids).
Proof.
  intros (Hbd & Hr & Hnd).
  destruct (rep_branch_inv _ _ _ _ Hr) as (n & bc & Hl & Hv & Hb & Hcov & Hk).
  apply NoDup_cons in Hnd as [Hl' Hnd]. apply NoDup_cons in Hnd as [Hb' Hnd].
  exists n, bc. split_and!; try done.
  - intros ->. apply Hl'. by left.
  - intros ?. apply Hl'. by right.
Qed.

Lemma btree_kid h l b kids k c Sc :
  btree h l b kids → (k, (c, Sc)) ∈ kids →
  ∃ nc, cells h !! c = Some (ONode nc) ∧ n_detach nc = Some (k, b) ∧
        n_parent nc = Some (k, b) ∧ rep h c Sc ∧ NoDup (c :: fp Sc) ∧
        c ≠ l ∧ c ≠ b ∧ (l ∉ fp Sc) ∧ b ∉ fp Sc.
Proof.
  intros Hbt Hin.
  destruct (btree_inv _ _ _ _ Hbt) as (n & bc & Hl & Hv & Hb & Hcov & Hk & Hlb & Hbk & Hlk & Hnd).
  rewrite Forall_forall in Hk. destruct (Hk _ Hin) as (Hd & Hp & Hr). simpl in *.
  destruct (rep_node _ _ _ Hr) as [nc Hc]. rewrite (node_lookup _ _ _ Hc) in Hd, Hp.
  assert (∀ y, y ∈ c :: fp Sc → y ∈ kids_fp kids) as Hsub.
  { intros y Hy. apply elem_of_kids_fp. eexists. split; [done|done]. }
  exists nc. split_and!; try done.
  - by apply (kid_fp_NoDup kids (k, (c, Sc))).
  - intros ->. apply Hlk, Hsub. by left.
  - intros ->. apply Hbk, Hsub. by left.
  - intros ?. apply Hlk, Hsub. by right.
  - intros ?. apply Hbk, Hsub. by right.
Qed.

(** Rewriting the Branch cell only. *)
Lemma rep_branch_cell h h' l b kids bc' :
  btree h l b kids →
  (∀ y, y ≠ b → cells h' !! y = cells h !! y) →
  cells h' !! b = Some (OBranch bc') → kids_cover bc' kids →
  rep h' l (SBranch b kids).
Proof.
  intros Hbt Hf Hb' Hcov'.
  destruct (btree_inv _ _ _ _ Hbt) as (n & bc & Hl & Hv & Hb & Hcov & Hk & Hlb & Hbk & Hlk & Hnd).
  eapply rep_branch_intro; try done.
  - by rewrite Hf.
  - apply Forall_forall. intros kid Hkid. rewrite Forall_forall in Hk.
    eapply kid_ok_frame; [by apply Hk|].
    intros y Hy. apply Hf. intros ->. apply Hbk. apply elem_of_kids_fp. eauto.
Qed.

(** [n.isArray = ...] *)
Lemma set_isArray_spec a h l b kids :
  btree h l b kids →
  let h' := modify_branch b (with_isArray a) h in
  btree h' l b kids ∧ mods (λ y, y = b) (λ _, False) h h' ∧
  b_keys (branch b h') = b_keys (branch b h) ∧ b_isArray (branch b h') = a.
Proof.
  intros Hbt h'.
  destruct (btree_inv _ _ _ _ Hbt) as (n & bc & Hl & Hv & Hb & Hcov & Hk & Hlb & Hbk & Hlk & Hnd).
  assert (mods (λ y, y = b) (λ _, False) h h') as Hm.
  { apply mods_modify_branch; [apply Hbt|done]. }
  assert (cells h' !! b = Some (OBranch (with_isArray a bc))) as Hb'.
  { unfold h'. simpl. rewrite lookup_alter_eq, Hb. done. }
  split_and!; [|done| |].
  - split_and!; [apply Hm| |apply Hbt].
    eapply rep_branch_cell; [done| |done|done].
    intros y Hy. unfold h'. simpl. by rewrite lookup_alter_ne.
  - by rewrite (branch_lookup _ _ _ Hb'), (branch_lookup _ _ _ Hb).
  - by rewrite (branch_lookup _ _ _ Hb').
Qed.

(** [n.keys.set(...)] *)
Lemma set_keys_spec ks h l b kids :
  btree h l b kids →
  let h' := Topic.set (TKeys b) (XKeys ks) h in
  btree h' l b kids ∧
  mods (λ y, y = b) (λ e, e = Fired (TKeys b) ∧ b_keys (branch b h) ≠ ks) h h' ∧
  b_keys (branch b h') = ks ∧ b_isArray (branch b h') = b_isArray (branch b h) ∧
  b_nodes (branch b h') = b_nodes (branch b h).
Proof.
  intros Hbt h'.
  destruct (btree_inv _ _ _ _ Hbt) as (n & bc & Hl & Hv & Hb & Hcov & Hk & Hlb & Hbk & Hlk & Hnd).
  pose proof (mods_set_keys b bc ks h (proj1 Hbt) Hb) as Hm.
  destruct (set_keys_fields b bc ks h Hb) as (Hc & _).
  assert (cells h' !! b = Some (OBranch (with_keys ks bc))) as Hb'.
  { unfold h'. by rewrite Hc, lookup_insert_eq. }
  rewrite (branch_lookup _ _ _ Hb'), (branch_lookup _ _ _ Hb).
  split_and!; try done.
  split_and!; [apply Hm| |apply Hbt].
  eapply rep_branch_cell; [done| |done|done].
  intros y Hy. unfold h'. by rewrite Hc, lookup_insert_ne.
Qed.

(** [getOrCreateBranch] *)
Lemma getOrCreateBranch_spec h l S :
  tree h l S →
  let r := Node.getOrCreateBranch l h in
  (∃ kids, S = SBranch r.1 kids ∧ r.2 = h) ∨
  ((∀ b kids, S ≠ SBranch b kids) ∧ r.1 = next h ∧ btree r.2 l r.1 [] ∧
   mods (λ y, y = l) (λ e, e = Fired (TNode l)) h r.2 ∧
   branch r.1 r.2 = empty_branch).
Proof.
  intros (Hbd & Hr & Hnd) r.
  destruct (rep_node _ _ _ Hr) as [n Hl].
  pose proof (bounded_lookup_lt _ _ _ Hbd Hl) as Hlt.
  assert ((∀ b kids, S ≠ SBranch b kids) → (∀ b, n_value n ≠ CBranch b) →
          r = (next h, Node.set l (CBranch (next h)) (alloc (OBranch empty_branch) h).2) →
          (∀ b kids, S ≠ SBranch b kids) ∧ r.1 = next h ∧ btree r.2 l r.1 [] ∧
          mods (λ y, y = l) (λ e, e = Fired (TNode l)) h r.2 ∧
          branch r.1 r.2 = empty_branch) as Hnew.
  { intros HS Hn ->. cbn [fst snd].
    set (h1 := (alloc (OBranch empty_branch) h).2).
    assert (mods (λ _, False) (λ _, False) h h1) as Hm1 by (by apply mods_alloc).
    assert (cells h1 !! l = Some (ONode n)) as Hl1.
    { unfold h1. simpl. rewrite lookup_insert_ne by lia. done. }
    assert (cells h1 !! next h = Some (OBranch empty_branch)) as Hb1.
    { unfold h1. simpl. by rewrite lookup_insert_eq. }
    pose proof (mods_node_set l n (CBranch (next h)) h1 (mods_bounded _ _ _ _ Hm1) Hl1
                  ltac:(done)) as Hm2.
    destruct (node_set_fields l n (CBranch (next h)) h1 Hl1 ltac:(done)) as (Hc2 & _).
    set (h2 := Node.set l (CBranch (next h)) h1) in *.
    assert (cells h2 !! next h = Some (OBranch empty_branch)) as Hb2.
    { rewrite Hc2, lookup_insert_ne by lia. done. }
    split_and!; [done|done| | |by apply branch_lookup].
    - split_and!; [apply Hm2| |].
      + eapply rep_branch_intro; [by rewrite Hc2, lookup_insert_eq|done|done| |constructor].
        intros k c. simpl. rewrite lookup_empty. split; [done|].
        intros [Sc HSc]. by apply elem_of_nil in HSc.
      + simpl. apply NoDup_cons. split; [|apply NoDup_singleton].
        rewrite list_elem_of_singleton. lia.
    - eapply mods_seq; [exact Hm1|exact Hm2|done|done|done|].
      intros e [-> _]. done. }
  unfold r, Node.getOrCreateBranch in *. rewrite (node_lookup _ _ _ Hl) in *.
  inversion Hr as [? n' Hl' Hn|? n' t' tc Hl' Hn Htc|? n' b' bc kids Hl' Hn Hb Hcov Hkids];
    subst; assert (n' = n) as -> by congruence; rewrite Hn in *.
  - right. apply Hnew; [done|done|done].
  - right. apply Hnew; [done|done|done].
  - left. by exists kids.
Qed.

Lemma rep_undefined_iff h c Sc n :
  rep h c Sc → cells h !! c = Some (ONode n) → (n_value n = CUndefined ↔ Sc = SUndefined).
Proof.
  intros Hr Hc. inversion Hr; subst; (assert (n0 = n) as -> by congruence);
    split; congruence.
Qed.

(** Emptying the child at [k]: [n.nodes.get(k)?.set(undefined)]. *)
Lemma clear_kid_spec h l b kids k c Sc :
  btree h l b kids → (k, (c, Sc)) ∈ kids →
  let h' := Node.set c CUndefined h in
  let gone := bool_decide (n_subscribers (node c h) = []) in
  let kids' := if gone then others k kids else (k, (c, SUndefined)) :: others k kids in
  btree h' l b kids' ∧
  mods (λ y, y = c ∨ y = b)
       (λ e, (e = Fired (TNode c) ∧ Sc ≠ SUndefined) ∨ e = Detached (TNode c)) h h' ∧
  b_keys (branch b h') = b_keys (branch b h) ∧
  b_isArray (branch b h') = b_isArray (branch b h) ∧
  n_value (node c h') = CUndefined ∧
  b_nodes (branch b h') =
    (if gone then delete k (b_nodes (branch b h)) else b_nodes (branch b h)).
Proof.
  intros Hbt Hin h' gone kids'.
  destruct (btree_inv _ _ _ _ Hbt)
    as (n & bc & Hl & Hv & Hb & Hcov & Hk & Hlb & Hbk & Hlk & Hnd).
  destruct (btree_kid _ _ _ _ _ _ _ Hbt Hin)
    as (nc & Hc & Hdet & Hpar & Hrc & Hndc & Hcl & Hcb & _).
  destruct Hbt as (Hbd & Hr & Hndt).
  pose proof (mods_node_clear c nc h Hbd Hc) as Hm.
  destruct (node_clear_fields c nc h Hc) as (Hcells & _).
  fold h' in Hm, Hcells.
  assert (detaches nc = gone) as Hg.
  { unfold detaches, gone. rewrite (node_lookup _ _ _ Hc), Hdet.
    rewrite (bool_decide_eq_true_2 (is_Some _)) by eauto. by rewrite andb_true_r. }
  rewrite Hg, Hdet in Hcells. simpl in Hcells.
  set (bc' := if gone then with_nodes (delete k) bc else bc).
  assert (cells h' !! c = Some (ONode (with_value CUndefined nc))) as Hc'.
  { rewrite Hcells. destruct gone; simpl.
    - rewrite lookup_alter_ne by done. by rewrite lookup_insert_eq.
    - by rewrite lookup_insert_eq. }
  assert (cells h' !! b = Some (OBranch bc')) as Hb'.
  { rewrite Hcells. unfold bc'. destruct gone; simpl.
    - rewrite lookup_alter_eq. rewrite lookup_insert_ne by done. by rewrite Hb.
    - rewrite lookup_insert_ne by done. done. }
  assert (∀ y, y ≠ c → y ≠ b → cells h' !! y = cells h !! y) as Hframe.
  { intros y Hyc Hyb. rewrite Hcells. destruct gone; simpl.
    - rewrite lookup_alter_ne by done. by rewrite lookup_insert_ne.
    - by rewrite lookup_insert_ne. }
  assert (∀ kid : Kid, kid ∈ others k kids → kid_ok h' b kid) as Hothers.
  { intros kid Hkid. apply elem_of_others in Hkid as [Hne Hkid].
    rewrite Forall_forall in Hk. eapply kid_ok_frame; [by apply Hk|].
    intros y Hy. apply Hframe.
    - intros ->. apply Hne.
      assert (kid = (k, (c, Sc))) as ->; [|done].
      eapply (kids_fp_disjoint kids _ _ c); [done|done|done|done|by left].
    - intros ->. apply Hbk. apply elem_of_kids_fp. eauto. }
  assert (kids_cover bc' kids') as Hcov'.
  { intros k' c'. unfold bc', kids'. pose proof Hcov as Hcov0.
    unfold kids_cover in Hcov0. destruct gone; simpl.
    - rewrite lookup_delete. case_decide as Hkk.
      + subst k'. split; [done|]. intros [S' HS']. apply elem_of_others in HS' as [? _]. done.
      + rewrite Hcov0. split; intros [S' HS']; exists S'.
        * apply elem_of_others. split; [simpl; congruence|done].
        * by apply elem_of_others in HS' as [_ ?].
    - rewrite Hcov0. split.
      + intros [S' HS']. destruct (decide (k' = k)) as [->|Hne].
        * destruct (kid_unique _ _ _ _ _ _ _ Hcov Hnd Hin HS') as [-> ->].
          exists SUndefined. by left.
        * exists S'. right. apply elem_of_others. split; [done|done].
      + intros [S' HS']. apply elem_of_cons in HS' as [Heq|HS'].
        * injection Heq as -> -> ->. by exists Sc.
        * apply elem_of_others in HS' as [_ ?]. by exists S'. }
  assert (btree h' l b kids') as Hbt'.
  { split_and!; [apply Hm| |].
    - eapply rep_branch_intro; [|done|done|done|].
      + rewrite Hframe; done.
      + unfold kids'. destruct gone; [by apply Forall_forall|].
        apply Forall_cons. split; [|by apply Forall_forall].
        unfold kid_ok. simpl. rewrite (node_lookup _ _ _ Hc'). simpl.
        split_and!; [done|done|]. by eapply rep_undefined.
    - unfold kids'. destruct gone.
      + by apply (NoDup_remove_kid k kids [l; b]).
      + apply (NoDup_replace_kid bc kids k c Sc SUndefined [l; b]); try done.
        * apply NoDup_singleton.
        * intros y Hy. by apply elem_of_nil in Hy. }
  split_and!; [done| | | | |].
  - eapply mods_weaken; [done| |].
    + intros y _ [->|[_ [k' Hk']]]; [by left|]. right. congruence.
    + intros e [[-> Hne]|[-> _]]; [|by right]. left. split; [done|].
      intros ->. apply Hne. by eapply rep_undefined_iff.
  - rewrite (branch_lookup _ _ _ Hb'), (branch_lookup _ _ _ Hb). unfold bc'. by destruct gone.
  - rewrite (branch_lookup _ _ _ Hb'), (branch_lookup _ _ _ Hb). unfold bc'. by destruct gone.
  - by rewrite (node_lookup _ _ _ Hc').
  - rewrite (branch_lookup _ _ _ Hb'), (branch_lookup _ _ _ Hb). unfold bc'. by destruct gone.
Qed.

(** [createChild] followed by [this.nodes.set(key, child)]. *)
Lemma create_kid_spec k h l b kids :
  btree h l b kids → (∀ kid : Kid, kid ∈ kids → kid.1 ≠ k) →
  let h' := Branch.set_node k (next h) b (Branch.createChild k b h).2 in
  (Branch.createChild k b h).1 = next h ∧
  btree h' l b ((k, (next h, SUndefined)) :: kids) ∧
  mods (λ y, y = b) (λ _, False) h h' ∧
  b_keys (branch b h') = b_keys (branch b h) ∧
  b_isArray (branch b h') = b_isArray (branch b h) ∧
  b_nodes (branch b h') = <[k := next h]> (b_nodes (branch b h)).
Proof.
  intros Hbt Hfresh h'.
  destruct (btree_inv _ _ _ _ Hbt)
    as (n & bc & Hl & Hv & Hb & Hcov & Hk & Hlb & Hbk & Hlk & Hnd).
  destruct Hbt as (Hbd & Hr & Hndt).
  set (nc := MkNode CUndefined [] (Some (k, b)) (Some (k, b))).
  set (h1 := (Branch.createChild k b h).2).
  assert (mods (λ _, False) (λ _, False) h h1) as Hm1 by (by apply mods_alloc).
  assert (mods (λ y, y = b) (λ _, False) h1 h') as Hm2.
  { apply mods_modify_branch; [apply Hm1|done]. }
  pose proof (bounded_lookup_lt _ _ _ Hbd Hl) as Hllt.
  pose proof (bounded_lookup_lt _ _ _ Hbd Hb) as Hblt.
  assert (cells h' !! next h = Some (ONode nc)) as Hc'.
  { unfold h', h1. simpl. rewrite lookup_alter_ne by lia. by rewrite lookup_insert_eq. }
  assert (cells h' !! b = Some (OBranch (with_nodes (insert k (next h)) bc))) as Hb'.
  { unfold h', h1. simpl. rewrite lookup_alter_eq. rewrite lookup_insert_ne by lia.
    by rewrite Hb. }
  assert (∀ y, y ≠ b → y ≠ next h → cells h' !! y = cells h !! y) as Hframe.
  { intros y Hyb Hyc. unfold h', h1. simpl. rewrite lookup_alter_ne by done.
    by rewrite lookup_insert_ne. }
  assert (∀ y, y ∈ kids_fp kids → y < next h) as Hlt.
  { intros y Hy. eapply (rep_lt h l (SBranch b kids)); [done|done|].
    rewrite fp_branch. right. by right. }
  rewrite (branch_lookup _ _ _ Hb'), (branch_lookup _ _ _ Hb).
  split_and!; try done.
  - split_and!; [apply Hm2| |].
    + eapply rep_branch_intro; [|done|done| |].
      * rewrite Hframe; [done|done|lia].
      * intros k' c'. simpl. rewrite lookup_insert. case_decide as Hkk.
        -- subst k'. split.
           ++ intros [= <-]. exists SUndefined. by left.
           ++ intros [Sc HSc]. apply elem_of_cons in HSc as [Heq|HSc]; [congruence|].
              by apply Hfresh in HSc.
        -- rewrite (Hcov k' c'). split; intros [Sc HSc]; exists Sc.
           ++ by right.
           ++ apply elem_of_cons in HSc as [Heq|HSc]; [congruence|done].
      * apply Forall_cons. split.
        -- unfold kid_ok. simpl. rewrite (node_lookup _ _ _ Hc'). simpl.
           split_and!; [done|done|]. by eapply rep_undefined.
        -- apply Forall_forall. intros kid Hkid. rewrite Forall_forall in Hk.
           eapply kid_ok_frame; [by apply Hk|].
           intros y Hy. assert (y ∈ kids_fp kids) as Hy'.
           { apply elem_of_kids_fp. eauto. }
           apply Hframe; [by intros ->|]. apply Hlt in Hy'. lia.
    + rewrite kids_fp_cons. unfold kid_fp. simpl.
      apply NoDup_cons in Hndt as [Hl1 Hndt]. apply NoDup_cons in Hndt as [Hb1 _].
      apply NoDup_cons. split.
      { rewrite !not_elem_of_cons. split_and!; [done|lia|done]. }
      apply NoDup_cons. split.
      { rewrite !not_elem_of_cons. split_and!; [lia|done]. }
      apply NoDup_cons. split; [|done].
      intros Hy. apply Hlt in Hy. lia.
  - eapply mods_seq; [exact Hm1|exact Hm2|done|done|done|done].
Qed.

(** The second half of [Branch.getOrCreateNode]: the key joins [keys]. *)
Lemma ensure_key_spec k h l b kids :
  btree h l b kids →
  let h' := if oset_has k (b_keys (branch b h)) then h
            else Topic.set (TKeys b) (XKeys (oset_add k (b_keys (branch b h)))) h in
  btree h' l b kids ∧
  mods (λ y, y = b) (λ e, e = Fired (TKeys b) ∧ k ∉ b_keys (branch b h)) h h' ∧
  b_keys (branch b h') = set_add k (b_keys (branch b h)) ∧
  b_isArray (branch b h') = b_isArray (branch b h) ∧
  b_nodes (branch b h') = b_nodes (branch b h).
Proof.
  intros Hbt h'. unfold h', oset_has, oset_add, set_add.
  case_bool_decide as Hin.
  - rewrite decide_True by done. split_and!; try done. apply mods_refl, Hbt.
  - rewrite decide_False by done.
    destruct (set_keys_spec (b_keys (branch b h) ++ [k]) h l b kids Hbt)
      as (Hbt' & Hm & Hks & Ha & Hn).
    split_and!; try done.
    eapply mods_weaken; [done|done|]. intros e [-> _]. done.
Qed.

Lemma getOrCreateNode_spec k h l b kids :
  btree h l b kids →
  let r := Branch.getOrCreateNode k b h in
  ∃ Sc kids1,
    btree r.2 l b kids1 ∧ (k, (r.1, Sc)) ∈ kids1 ∧
    (((k, (r.1, Sc)) ∈ kids ∧ kids1 = kids) ∨
     ((∀ kid : Kid, kid ∈ kids → kid.1 ≠ k) ∧ r.1 = next h ∧ Sc = SUndefined ∧
      kids1 = (k, (next h, SUndefined)) :: kids)) ∧
    mods (λ y, y = b) (λ e, e = Fired (TKeys b) ∧ k ∉ b_keys (branch b h)) h r.2 ∧
    b_keys (branch b r.2) = set_add k (b_keys (branch b h)) ∧
    b_isArray (branch b r.2) = b_isArray (branch b h) ∧
    b_nodes (branch b r.2) !! k = Some r.1.
Proof.
  intros Hbt r.
  destruct (btree_inv _ _ _ _ Hbt)
    as (n & bc & Hl & Hv & Hb & Hcov & Hk & Hlb & Hbk & Hlk & Hnd).
  unfold r, Branch.getOrCreateNode.
  destruct (b_nodes (branch b h) !! k) as [c|] eqn:Hc.
  - destruct (ensure_key_spec k h l b kids Hbt) as (Hbt' & Hm & Hks & Ha & Hn).
    rewrite (branch_lookup _ _ _ Hb) in Hc. pose proof Hc as Hc0.
    apply Hcov in Hc as [Sc HSc].
    exists Sc, kids. cbn [fst snd]. split_and!; try done.
    + by left.
    + by rewrite Hn, (branch_lookup _ _ _ Hb).
  - assert (∀ kid : Kid, kid ∈ kids → kid.1 ≠ k) as Hfresh.
    { intros [k' [c' Sc']] Hkid Heq. simpl in Heq. subst k'.
      rewrite (branch_lookup _ _ _ Hb) in Hc.
      assert (b_nodes bc !! k = Some c') by (apply Hcov; eauto). congruence. }
    destruct (create_kid_spec k h l b kids Hbt Hfresh) as (Hc1 & Hbt1 & Hm1 & Hks1 & Ha1 & Hn1).
    unfold Branch.createChild in *. unfold alloc in *. cbn [fst snd] in *.
    set (h1 := Branch.set_node k (next h) b _) in *.
    destruct (ensure_key_spec k h1 l b _ Hbt1) as (Hbt' & Hm & Hks & Ha & Hn).
    exists SUndefined, ((k, (next h, SUndefined)) :: kids). cbn [fst snd].
    split_and!; try done.
    + by left.
    + right. done.
    + eapply mods_seq; [exact Hm1|exact Hm|done|done|done|].
      rewrite Hks1. done.
    + by rewrite Hks, Hks1.
    + by rewrite Ha, Ha1.
    + by rewrite Hn, Hn1, lookup_insert_eq.
Qed.

(** ** One round of the loop over the new keys *)

Lemma cover_replace bc kids k c Sc Sc' :
  kids_cover bc kids → NoDup (kids_fp kids) → (k, (c, Sc)) ∈ kids →
  kids_cover bc ((k, (c, Sc')) :: others k kids).
Proof.
  intros Hcov Hnd Hin k' c'. unfold kids_cover in Hcov. rewrite Hcov. split.
  - intros [S' HS']. destruct (decide (k' = k)) as [->|Hne].
    + destruct (kid_unique _ _ _ _ _ _ _ Hcov Hnd Hin HS') as [-> ->].
      exists Sc'. by left.
    + exists S'. right. apply elem_of_others. done.
  - intros [S' HS']. apply elem_of_cons in HS' as [Heq|HS'].
    + injection Heq as -> -> ->. by exists Sc.
    + apply elem_of_others in HS' as [_ ?]. by exists S'.
Qed.

Lemma set_delete_add {A} `{EqDecision A} (k : A) (s : list A) :
  set_delete k (set_add k s) = set_delete k s.
Proof.
  unfold set_add, set_delete. case_decide; [done|].
  rewrite filter_app. rewrite filter_cons_False by (by intros ?).
  rewrite filter_nil. by rewrite app_nil_r.
Qed.

Lemma is_empty_update x c h : is_empty x = true → Node.update x c h = Node.update_empty c h.
Proof. by destruct x. Qed.

Lemma update_child_spec exact k x h l b kids :
  (is_empty x = false → update_post exact x) →
  btree h l b kids →
  (exact = true → ∀ kid : Kid, kid ∈ kids → kid.1 ≠ k) →
  let h' := Node.update_child (Node.update x) k b h in
  ∃ kids', btree h' l b kids' ∧
    (∀ y, y ∈ kids_fp kids' → y ∈ kids_fp kids ∨ next h ≤ y) ∧
    mods (λ y, y = b ∨ ∃ kid : Kid, kid ∈ kids ∧ kid.1 = k ∧ y ∈ kid_fp kid)
         (λ e, (e = Fired (TKeys b) ∧ (k ∉ b_keys (branch b h) ∨ is_empty x = true)) ∨
               (∃ kid : Kid, kid ∈ kids ∧ kid.1 = k ∧ ev_loc e ∈ kid_fp kid) ∨
               next h ≤ ev_loc e) h h' ∧
    b_isArray (branch b h') = b_isArray (branch b h) ∧
    b_keys (branch b h') =
      (if is_empty x then set_delete k (b_keys (branch b h))
       else set_add k (b_keys (branch b h))) ∧
    (is_empty x = false → ∃ c Sc, (k, (c, Sc)) ∈ kids' ∧ holds exact h' c x) ∧
    (∀ kid : Kid, kid.1 ≠ k → kid ∈ kids' ↔ kid ∈ kids).
Proof.
  intros Hpost Hbt Hex h'. unfold h', Node.update_child.
  destruct (getOrCreateNode_spec k h l b kids Hbt)
    as (Sc & kids1 & Hbt1 & Hin1 & Hcase & Hm1 & Hks1 & Ha1 & Hn1).
  destruct (Branch.getOrCreateNode k b h) as [c h1]. cbn [fst snd] in *.
  (* where the child came from *)
  assert (∀ y, y ∈ kid_fp (k, (c, Sc)) → y < next h →
               ∃ kid : Kid, kid ∈ kids ∧ kid.1 = k ∧ y ∈ kid_fp kid) as Hold.
  { intros y Hy Hlt. destruct Hcase as [[Hin ->]|(_ & -> & -> & _)].
    - by exists (k, (c, Sc)).
    - unfold kid_fp in Hy. simpl in Hy. apply list_elem_of_singleton in Hy.
      exfalso. lia. }
  assert (∀ y, y ∈ kid_fp (k, (c, Sc)) →
               (∃ kid : Kid, kid ∈ kids ∧ kid.1 = k ∧ y ∈ kid_fp kid) ∨ next h ≤ y) as Hold'.
  { intros y Hy. destruct (decide (y < next h)); [left; by apply Hold|right; lia]. }
  assert (∀ y, y ∈ kids_fp kids1 → y ∈ kids_fp kids ∨ next h ≤ y) as Hprov1.
  { intros y Hy. destruct Hcase as [[Hin ->]|(_ & -> & -> & ->)]; [by left|].
    rewrite kids_fp_cons in Hy. apply elem_of_app in Hy as [Hy|Hy]; [|by left].
    unfold kid_fp in Hy. simpl in Hy.
    apply list_elem_of_singleton in Hy. right. lia. }
  assert (∀ kid : Kid, kid.1 ≠ k → kid ∈ others k kids1 ↔ kid ∈ kids) as Hoth.
  { intros kid Hne. rewrite elem_of_others.
    destruct Hcase as [[Hin ->]|(_ & -> & -> & ->)]; [tauto|].
    rewrite elem_of_cons. split; [|tauto].
    intros [_ [->|?]]; [done|done]. }
  destruct (btree_inv _ _ _ _ Hbt1)
    as (n1 & bc1 & Hl1 & Hv1 & Hb1 & Hcov1 & Hk1 & Hlb & Hbk1 & Hlk1 & Hnd1).
  destruct (btree_kid _ _ _ _ _ _ _ Hbt1 Hin1)
    as (nc & Hc1 & Hdet & Hpar & Hrc & Hndc & Hcl & Hcb & Hlc & Hbc).
  pose proof (mods_next _ _ _ _ Hm1) as Hnext1.
  destruct (is_empty x) eqn:Hemp.
  - (* the entry is empty: removeKey *)
    rewrite is_empty_update by done.
    destruct (set_keys_spec (oset_delete k (b_keys (branch b h1))) h1 l b kids1 Hbt1)
      as (Hbt2 & Hm2 & Hks2 & Ha2 & Hn2).
    set (h2 := Topic.set (TKeys b) _ h1) in *.
    destruct (clear_kid_spec h2 l b kids1 k c Sc Hbt2 Hin1)
      as (Hbt3 & Hm3 & Hks3 & Ha3 & Hv3 & Hn3).
    set (h3 := Node.set c CUndefined h2) in *.
    assert (Node.update_empty c h1 = h3) as ->.
    { unfold Node.update_empty. rewrite (node_lookup _ _ _ Hc1), Hpar.
      unfold Branch.removeKey. cbv zeta. fold h2. by rewrite Hn2, Hn1. }
    set (kids3 := if bool_decide (n_subscribers (node c h2) = []) then others k kids1
                  else (k, (c, SUndefined)) :: others k kids1) in *.
    pose proof (mods_next _ _ _ _ Hm2) as Hnext2.
    exists kids3. split_and!; [done| | | | |done|].
    + intros y Hy. apply Hprov1. unfold kids3 in Hy.
      destruct (bool_decide _); [by apply elem_of_kids_fp_others in Hy|].
      rewrite kids_fp_cons in Hy. apply elem_of_app in Hy as [Hy|Hy].
      * apply list_elem_of_singleton in Hy as ->.
        apply elem_of_kids_fp. eexists. split; [exact Hin1|by left].
      * by apply elem_of_kids_fp_others in Hy.
    + eapply mods_seq; [exact Hm1| |by (intros ? _ ->; left)| | |].
      * eapply (mods_seq (λ y, y = c ∨ y = b)
                  (λ e, e = Fired (TKeys b) ∨ ev_loc e = c));
          [exact Hm2|exact Hm3|by right|done| |].
        -- intros e [-> _]. by left.
        -- intros e [[-> _]| ->]; by right.
      * intros y Hy [->| ->]; [|by left]. right. apply Hold; [by left|done].
      * intros e [-> Hk]. left. split; [done|by left].
      * intros e [->|Hc]; [left; split; [done|by right]|].
        right. rewrite Hc. apply Hold'. by left.
    + by rewrite Ha3, Ha2, Ha1.
    + rewrite Hks3, Hks2, Hks1. apply set_delete_add.
    + intros kid Hne. rewrite <- (Hoth kid Hne). unfold kids3.
      destruct (bool_decide _); [done|].
      rewrite elem_of_cons. split; [|tauto]. intros [->|?]; done.
  - (* the entry is a value: update the child *)
    specialize (Hpost eq_refl).
    destruct (Hpost h1 c Sc) as (Sc' & (Hbd2 & Hr2 & Hnd2) & Hprov & Hm2 & Hh).
    { split_and!; [apply Hbt1|done|done]. }
    { intros He b' kids' ->. destruct Hcase as [[Hin _]|(_ & _ & ? & _)]; [|done].
      by apply (Hex He _ Hin). }
    set (h2 := Node.update x c h1) in *.
    destruct Hbt1 as (Hbd1 & Hr1 & Hndt1).
    assert (∀ y, y ∈ l :: b :: kids_fp kids1 → y < next h1) as Hlt1.
    { intros y Hy. eapply (rep_lt h1 l (SBranch b kids1)); [done|done|].
      by rewrite fp_branch. }
    assert (∀ y, y ∉ c :: fp Sc → y < next h1 → cells h2 !! y = cells h1 !! y) as Hframe.
    { intros y Hy Hlt. by apply Hm2. }
    exists ((k, (c, Sc')) :: others k kids1). split_and!.
    + split_and!; [done| |].
      * eapply rep_branch_intro; [|exact Hv1| | |].
        -- rewrite Hframe; [done| |apply Hlt1; by left].
           rewrite not_elem_of_cons. split; [done|done].
        -- rewrite Hframe; [done| |apply Hlt1; right; by left].
           rewrite not_elem_of_cons. split; [done|done].
        -- by eapply cover_replace.
        -- apply Forall_cons. split.
           ++ destruct (mods_static _ _ _ _ Hm2 _ _ Hc1) as (c' & Hc' & Hst).
              destruct c' as [nc'| |]; try done. destruct Hst as (_ & Hd' & Hp').
              unfold kid_ok. simpl. rewrite (node_lookup _ _ _ Hc'). split_and!; congruence.
           ++ apply Forall_forall. intros kid Hkid.
              apply elem_of_others in Hkid as [Hne Hkid].
              rewrite Forall_forall in Hk1.
              eapply (kid_ok_mods _ _ h1 h2); [exact Hbd1|by apply Hk1|exact Hm2|].
              intros y Hy Hy'. apply Hne.
              assert (kid = (k, (c, Sc))) as ->; [|done].
              by eapply (kids_fp_disjoint kids1 _ _ y).
      * apply (NoDup_replace_kid bc1 kids1 k c Sc Sc' [l; b]); try done.
        intros y Hy. destruct (Hprov _ Hy) as [?|Hge]; [by left|right].
        split.
        -- intros Hy'. assert (y < next h1); [|lia]. apply Hlt1.
           apply elem_of_cons in Hy' as [->|Hy']; [by left|].
           apply list_elem_of_singleton in Hy' as ->. right. by left.
        -- intros Hy'. assert (y < next h1); [|lia]. apply Hlt1. right. by right.
    + intros y Hy. rewrite kids_fp_cons in Hy. apply elem_of_app in Hy as [Hy|Hy].
      * unfold kid_fp in Hy. simpl in Hy.
        assert (y ∈ kid_fp (k, (c, Sc)) ∨ next h1 ≤ y) as [Hy'|Hy'].
        { apply elem_of_cons in Hy as [->|Hy]; [left; by left|].
          destruct (Hprov _ Hy); [left; by right|by right]. }
        -- apply Hprov1. apply elem_of_kids_fp. eauto.
        -- right. lia.
      * apply Hprov1. by apply elem_of_kids_fp_others in Hy.
    + eapply mods_seq; [exact Hm1|exact Hm2|by (intros ? _ ->; left)| | |].
      * intros y Hlt Hy. right. by apply Hold.
      * intros e [-> Hk]. left. split; [done|by left].
      * intros e [Hy|Hge]; [|right; right; lia]. right. by apply Hold'.
    + rewrite <- Ha1. f_equal. apply branch_agree. apply Hframe.
      * rewrite not_elem_of_cons. split; [done|done].
      * apply Hlt1. right. by left.
    + rewrite <- Hks1. f_equal. apply branch_agree. apply Hframe.
      * rewrite not_elem_of_cons. split; [done|done].
      * apply Hlt1. right. by left.
    + intros _. exists c, Sc'. split; [by left|done].
    + intros kid Hne. rewrite <- (Hoth kid Hne).
      rewrite elem_of_cons. split; [|tauto]. intros [->|?]; done.
Qed.

(** ** The loop over the new keys *)

Lemma live_keys_cons k x es :
  live_keys ((k, x) :: es) = if is_empty x then live_keys es else k :: live_keys es.
Proof.
  unfold live_keys. rewrite filter_cons. simpl. by destruct (is_empty x).
Qed.

Lemma dead_keys_cons k x es :
  dead_keys ((k, x) :: es) = if is_empty x then k :: dead_keys es else dead_keys es.
Proof.
  unfold dead_keys. rewrite filter_cons. simpl. by destruct (is_empty x).
Qed.

Lemma live_keys_sub es k : k ∈ live_keys es → k ∈ es.*1.
Proof.
  unfold live_keys. intros Hk. apply list_elem_of_fmap in Hk as (kx & -> & Hkx).
  apply list_elem_of_filter in Hkx as [_ ?]. by apply list_elem_of_fmap_2.
Qed.

Lemma dead_keys_sub es k : k ∈ dead_keys es → k ∈ es.*1.
Proof.
  unfold dead_keys. intros Hk. apply list_elem_of_fmap in Hk as (kx & -> & Hkx).
  apply list_elem_of_filter in Hkx as [_ ?]. by apply list_elem_of_fmap_2.
Qed.

Lemma holds_mods exact A E h h' c S v :
  bounded h → rep h c S → holds exact h c v → mods A E h h' →
  (∀ y, y ∈ c :: fp S → ¬ A y) → holds exact h' c v.
Proof.
  intros Hb Hr Hh Hm HA. eapply holds_frame; [done|done|].
  intros y Hy. apply Hm; [by eapply rep_lt|by apply HA].
Qed.

Lemma holds_false_of exact h c v : holds exact h c v → holds false h c v.
Proof.
  revert c. induction v as [| |a|xs IH|fs IH|cl fs IH] using Value_ind';
    intros c Hh; inversion Hh as [? t ? Hv Ht|? b ? Hv Ha Hk Hc|? b ? Hv Ha Hk Hc]; subst.
  - by eapply holds_atomic.
  - eapply holds_array; [done|done| |].
    + destruct exact; [|done]. simpl in *. by rewrite Hk.
    + apply Forall_forall. intros [k x] Hx Hne.
      rewrite Forall_forall in Hc. destruct (Hc _ Hx Hne) as (c' & Hc' & Hhc).
      exists c'. split; [done|].
      apply elem_of_lookup_imap in Hx as (i & z & Heq & Hz). injection Heq as -> ->.
      apply list_elem_of_lookup_2 in Hz. rewrite Forall_forall in IH. by apply IH.
  - eapply holds_record; [done|done| |].
    + destruct exact; [|done]. simpl in *. by rewrite Hk.
    + apply Forall_forall. intros [k x] Hx Hne.
      rewrite Forall_forall in Hc. destruct (Hc _ Hx Hne) as (c' & Hc' & Hhc).
      exists c'. split; [done|].
      rewrite Forall_forall in IH. by apply (IH _ Hx).
Qed.

Section loop.
Context (exact : bool) (Q : string → bool).

Lemma update_entries_spec es :
  NoDup es.*1 →
  Forall (λ kx : string * Value, is_empty kx.2 = false → update_post exact kx.2) es →
  ∀ h l b kids,
  btree h l b kids →
  (exact = true → ∀ kid : Kid, kid ∈ kids → kid.1 ∉ es.*1) →
  quiet_ok exact Q h b kids es →
  let h' := update_entries es b h in
  ∃ kids', btree h' l b kids' ∧
    (∀ y, y ∈ kids_fp kids' → y ∈ kids_fp kids ∨ next h ≤ y) ∧
    mods (loop_A Q b kids es) (loop_E Q h b kids es) h h' ∧
    b_isArray (branch b h') = b_isArray (branch b h) ∧
    (∀ k, k ∈ b_keys (branch b h') ↔
          (k ∈ b_keys (branch b h) ∧ k ∉ dead_keys es) ∨ k ∈ live_keys es) ∧
    ((∀ k, k ∈ es.*1 → k ∉ b_keys (branch b h)) →
     b_keys (branch b h') = b_keys (branch b h) ++ live_keys es) ∧
    (∀ kx : string * Value, kx ∈ es → is_empty kx.2 = false →
       ∃ c Sc, (kx.1, (c, Sc)) ∈ kids' ∧ holds exact h' c kx.2) ∧
    (∀ kid : Kid, kid.1 ∉ es.*1 → kid ∈ kids' ↔ kid ∈ kids).
Proof.
  induction es as [|[k x] es IH]; intros Hnd Hposts h l b kids Hbt Hex Hq h'.
  { exists kids. unfold h'. simpl. split_and!; try done.
    - by left.
    - apply mods_refl, Hbt.
    - intros k. unfold dead_keys, live_keys. simpl.
      split; [intros ?; left; split; [done|apply not_elem_of_nil]|].
      intros [[? _]|Hk]; [done|]. by apply elem_of_nil in Hk.
    - intros _. unfold live_keys. simpl. by rewrite app_nil_r.
    - intros kx Hkx. by apply elem_of_nil in Hkx. }
  simpl in Hnd. apply NoDup_cons in Hnd as [Hk Hnd].
  apply Forall_cons in Hposts as [Hpost Hposts]. simpl in Hpost.
  (* the first round *)
  assert (∃ kids1, let h1 := Node.update_child (Node.update x) k b h in
    btree h1 l b kids1 ∧
    (∀ y, y ∈ kids_fp kids1 → y ∈ kids_fp kids ∨ next h ≤ y) ∧
    mods (λ y, Q k = false ∧ (y = b ∨ ∃ kid : Kid, kid ∈ kids ∧ kid.1 = k ∧ y ∈ kid_fp kid))
         (λ e, Q k = false ∧
               ((e = Fired (TKeys b) ∧ (k ∉ b_keys (branch b h) ∨ is_empty x = true)) ∨
                (∃ kid : Kid, kid ∈ kids ∧ kid.1 = k ∧ ev_loc e ∈ kid_fp kid) ∨
                next h ≤ ev_loc e)) h h1 ∧
    b_isArray (branch b h1) = b_isArray (branch b h) ∧
    b_keys (branch b h1) =
      (if is_empty x then set_delete k (b_keys (branch b h))
       else set_add k (b_keys (branch b h))) ∧
    (is_empty x = false → ∃ c Sc, (k, (c, Sc)) ∈ kids1 ∧ holds exact h1 c x) ∧
    (∀ kid : Kid, kid.1 ≠ k → kid ∈ kids1 ↔ kid ∈ kids)) as (kids1 & Hstep).
  { destruct (Q k) eqn:HQ.
    - (* a quiet entry: nothing happens *)
      destruct (Hq (k, x) ltac:(by left) HQ) as (Hexf & Hst & Hkin & c & Sc & Hkid & Hh).
      destruct (btree_inv _ _ _ _ Hbt)
        as (n & bc & Hl & Hv & Hb & Hcov & Hkk & Hlb & Hbk & Hlk & Hndk).
      assert (Node.update_child (Node.update x) k b h = h) as Hid.
      { unfold Node.update_child.
        rewrite (getOrCreateNode_present k c).
        - by apply holds_update_id.
        - rewrite (branch_lookup _ _ _ Hb). apply Hcov. eauto.
        - done. }
      exists kids. simpl in *. rewrite Hid. split_and!; try done.
      + by left.
      + apply mods_refl, Hbt.
      + rewrite (stable_not_empty _ Hst). unfold set_add. by rewrite decide_True.
      + intros _. exists c, Sc. split; [done|]. by rewrite Hexf.
    - destruct (update_child_spec exact k x h l b kids Hpost Hbt)
        as (kids1 & H1 & H2 & H3 & H4 & H5 & H6 & H7).
      { intros He kid Hkid Heq. apply (Hex He kid Hkid). rewrite Heq. by left. }
      exists kids1. split_and!; try done.
      eapply mods_weaken; [exact H3|done|done]. }
  set (h1 := Node.update_child (Node.update x) k b h) in *.
  destruct Hstep as (Hbt1 & Hprov1 & Hm1 & Ha1 & Hks1 & Hh1 & Hkids1).
  assert (∀ k', k' ≠ k → k' ∈ b_keys (branch b h1) ↔ k' ∈ b_keys (branch b h)) as Hkeys1.
  { intros k' Hne. rewrite Hks1. destruct (is_empty x).
    - rewrite elem_of_set_delete. tauto.
    - rewrite elem_of_set_add. tauto. }
  assert (∀ kx : string * Value, kx ∈ es → kx.1 ≠ k) as Hnek.
  { intros kx Hkx Heq. apply Hk. rewrite <- Heq. by apply list_elem_of_fmap_2. }
  pose proof (mods_next _ _ _ _ Hm1) as Hnext1.
  (* the remaining rounds *)
  destruct (IH Hnd Hposts h1 l b kids1 Hbt1) as
    (kids' & Hbt' & Hprov' & Hm' & Ha' & Hks' & Hkse' & Hh' & Hkids').
  { intros He kid Hkid Hin. destruct (decide (kid.1 = k)) as [Heq|Hne].
    - apply Hk. by rewrite <- Heq.
    - apply Hkids1 in Hkid; [|done]. apply (Hex He kid Hkid). by right. }
  { intros kx Hkx HQ.
    destruct (Hq kx ltac:(by right) HQ) as (Hexf & Hst & Hkin & c & Sc & Hkid & Hh).
    pose proof (Hnek _ Hkx) as Hne.
    split_and!; [done|done|by apply Hkeys1|].
    exists c, Sc. split; [by apply Hkids1|].
    destruct (btree_kid _ _ _ _ _ _ _ Hbt Hkid)
      as (nc & Hc & _ & _ & Hrc & _ & _ & Hcb & _ & Hbc).
    destruct (btree_inv _ _ _ _ Hbt)
      as (n & bc & Hl & Hv & Hb & Hcov & Hkk & Hlb & Hbk & Hlk & Hndk).
    eapply holds_mods; [apply Hbt|done|done|exact Hm1|].
    intros y Hy [_ [->|(kid & Hkid' & Heq & Hy')]].
    - apply Hbk. apply elem_of_kids_fp. eexists. split; [exact Hkid|done].
    - apply Hne. rewrite <- Heq.
      by rewrite (kids_fp_disjoint kids _ _ y Hndk Hkid' Hkid Hy' Hy). }
  fold (update_entries es b h1) in *.
  assert (h' = update_entries es b h1) as -> by done.
  set (h2 := update_entries es b h1) in *.
  exists kids'. split_and!; [done| | |by rewrite Ha', Ha1| | | |].
  - intros y Hy. destruct (Hprov' _ Hy) as [Hy'|?]; [|right; lia].
    by apply Hprov1.
  - eapply mods_seq; [exact Hm1|exact Hm'| | | |].
    + intros y _ [HQ [->|(kid & Hkid & Heq & Hy)]]; [by left|].
      right. exists kid. rewrite Heq. split_and!; [done|by left|done|done].
    + intros y Hlt [->|(kid & Hkid & Hin & HQ & Hy)]; [by left|].
      right. exists kid. split_and!; [|by right|done|done].
      apply Hkids1; [|done]. intros Heq. apply Hk. by rewrite <- Heq.
    + intros e [HQ [[-> Hc]|[(kid & Hkid & Heq & Hy)|?]]].
      * left. split; [done|]. exists (k, x). split_and!; [by left|done|done].
      * right. left. exists kid. rewrite Heq. split_and!; [done|by left|done|done].
      * right. by right.
    + intros e [[-> (kx & Hkx & HQ & Hc)]|[(kid & Hkid & Hin & HQ & Hy)|?]].
      * left. split; [done|]. exists kx. split_and!; [by right|done|].
        destruct Hc as [Hc|?]; [left|by right].
        intros ?. apply Hc. apply Hkeys1; [by apply Hnek|done].
      * right. left. exists kid. split_and!; [|by right|done|done].
        apply Hkids1; [|done]. intros Heq. apply Hk. by rewrite <- Heq.
      * right. right. lia.
  - intros k'. rewrite Hks', live_keys_cons, dead_keys_cons.
    assert (k ∉ dead_keys es) as Hkd by (intros ?; by apply Hk, dead_keys_sub).
    assert (k ∉ live_keys es) as Hkl by (intros ?; by apply Hk, live_keys_sub).
    rewrite Hks1. destruct (is_empty x).
    + rewrite elem_of_set_delete, not_elem_of_cons. tauto.
    + rewrite elem_of_set_add, elem_of_cons.
      destruct (decide (k' = k)) as [->|?]; tauto.
  - intros Hfresh. rewrite live_keys_cons. rewrite Hkse'.
    + rewrite Hks1. destruct (is_empty x).
      * rewrite set_delete_id; [done|]. apply Hfresh. by left.
      * unfold set_add. rewrite decide_False by (apply Hfresh; by left).
        by rewrite <- app_assoc.
    + intros k' Hk'. rewrite Hkeys1.
      * apply Hfresh. by right.
      * intros ->. done.
  - intros kx Hkx Hne. apply elem_of_cons in Hkx as [->|Hkx]; [|by apply Hh'].
    destruct (Hh1 Hne) as (c & Sc & Hkid & Hh). simpl.
    exists c, Sc. split; [by apply Hkids'|].
    destruct (btree_kid _ _ _ _ _ _ _ Hbt1 Hkid)
      as (nc & Hc & _ & _ & Hrc & _ & _ & Hcb & _ & Hbc).
    destruct (btree_inv _ _ _ _ Hbt1)
      as (n & bc & Hl & Hv & Hb & Hcov & Hkk & Hlb & Hbk & Hlk & Hndk).
    eapply holds_mods; [apply Hbt1|done|done|exact Hm'|].
    intros y Hy [->|(kid & Hkid' & Hin & _ & Hy')].
    + apply Hbk. apply elem_of_kids_fp. eexists. split; [exact Hkid|done].
    + apply Hk.
      rewrite <- (kids_fp_disjoint kids1 _ _ y Hndk Hkid Hkid' Hy Hy') in Hin. done.
  - intros kid Hkid. simpl in Hkid. rewrite not_elem_of_cons in Hkid.
    destruct Hkid as [Hne Hkid]. rewrite (Hkids' _ Hkid). by apply Hkids1.
Qed.
End loop.

(** ** Emptying the children whose keys are dropped *)

Lemma cleared_refl D h kids :
  (∀ kid : Kid, kid ∈ kids → ¬ D kid.1) → cleared D h kids kids.
Proof.
  intros HD. split; [done|]. intros [k [c Sc]] Hk. simpl in *. split.
  - intros Hin. by apply HD in Hin.
  - intros (_ & _ & Sc' & Hin). by apply HD in Hin.
Qed.

Lemma cleared_trans (D1 D2 : string → Prop) `{∀ k, Decision (D1 k)} `{∀ k, Decision (D2 k)}
    h h1 kids kids1 kids' :
  (∀ c, n_subscribers (node c h1) = n_subscribers (node c h)) →
  cleared D1 h kids kids1 → cleared D2 h1 kids1 kids' →
  cleared (λ k, D1 k ∨ D2 k) h kids kids'.
Proof.
  intros Hsubs [H11 H12] [H21 H22]. split.
  - intros kid Hn. rewrite H21 by tauto. apply H11. tauto.
  - intros [k [c Sc]] HD. simpl in *.
    destruct (decide (D2 k)) as [Hd2|Hd2].
    + rewrite (H22 (k, (c, Sc)) Hd2). simpl. rewrite Hsubs.
      destruct (decide (D1 k)) as [Hd1|Hd1].
      * split; intros (-> & Hs & Sc' & Hin); split_and!; try done.
        -- apply (H12 (k, (c, Sc')) Hd1) in Hin as (_ & _ & Hin). exact Hin.
        -- exists SUndefined. apply (H12 (k, (c, SUndefined)) Hd1). simpl. eauto.
      * split; intros (-> & Hs & Sc' & Hin); split_and!; try done.
        -- exists Sc'. by apply (H11 (k, (c, Sc')) Hd1).
        -- exists Sc'. by apply (H11 (k, (c, Sc')) Hd1).
    + destruct HD as [Hd1|?]; [|done].
      rewrite (H21 (k, (c, Sc)) Hd2). apply (H12 (k, (c, Sc)) Hd1).
Qed.

Lemma cleared_ext (D D' : string → Prop) h kids kids' :
  (∀ k, D k ↔ D' k) → cleared D h kids kids' → cleared D' h kids kids'.
Proof.
  intros HD [H1 H2]. split.
  - intros kid Hn. apply H1. by rewrite HD.
  - intros kid Hd. apply H2. by rewrite HD.
Qed.

Lemma node_after_clear c nc y h :
  cells h !! c = Some (ONode nc) →
  node y (Node.set c CUndefined h) =
    if decide (y = c) then with_value CUndefined nc else node y h.
Proof.
  intros Hc. destruct (node_clear_fields c nc h Hc) as (Hcells & _).
  unfold node. rewrite Hcells.
  assert (∀ (f : BranchCell → BranchCell) bb (m : gmap nat Cell),
            match alter (on_branch f) bb m !! y with Some (ONode n) => n | _ => empty_node end
            = match m !! y with Some (ONode n) => n | _ => empty_node end) as Halt.
  { intros f bb m. rewrite lookup_alter. case_decide as Hd; [|done]. subst.
    by destruct (m !! y) as [[]|]. }
  destruct (detaches nc); simpl; rewrite ?Halt.
  - case_decide as Hd; [subst; by rewrite lookup_insert_eq|by rewrite lookup_insert_ne].
  - case_decide as Hd; [subst; by rewrite lookup_insert_eq|by rewrite lookup_insert_ne].
Qed.

Lemma clear_dropped_fold keys n h :
  Node.clear_dropped keys n h = foldl (clear_step keys n) h (b_keys (branch n h)).
Proof. done. Qed.

Lemma clear_loop_spec new ks :
  ∀ h l b kids, btree h l b kids →
  let D := λ k, k ∈ ks ∧ k ∉ new in
  let h' := foldl (clear_step new b) h ks in
  ∃ kids', btree h' l b kids' ∧ cleared D h kids kids' ∧
    (∀ y, y ∈ kids_fp kids' → y ∈ kids_fp kids) ∧
    mods (clear_A b kids D) (clear_E kids D) h h' ∧
    next h' = next h ∧
    b_keys (branch b h') = b_keys (branch b h) ∧
    b_isArray (branch b h') = b_isArray (branch b h) ∧
    (∀ y, n_value (node y h) = CUndefined → n_value (node y h') = CUndefined) ∧
    (∀ k c Sc, (k, (c, Sc)) ∈ kids → D k → n_value (node c h') = CUndefined).
Proof.
  induction ks as [|k0 ks IH]; intros h l b kids Hbt D h'.
  { exists kids. unfold h', D. simpl. split_and!; try done.
    - apply cleared_refl. intros kid _ [Hk _]. by apply elem_of_nil in Hk.
    - apply mods_refl, Hbt.
    - intros k c Sc _ [Hk _]. by apply elem_of_nil in Hk. }
  destruct (btree_inv _ _ _ _ Hbt)
    as (n & bc & Hl & Hv & Hb & Hcov & Hkk & Hlb & Hbk & Hlk & Hndk).
  set (D1 := λ k, k = k0 ∧ k0 ∉ new).
  (* the first key *)
  assert (∃ kids1, let h1 := clear_step new b h k0 in
     btree h1 l b kids1 ∧ cleared D1 h kids kids1 ∧
     (∀ y, y ∈ kids_fp kids1 → y ∈ kids_fp kids) ∧
     mods (clear_A b kids D1) (clear_E kids D1) h h1 ∧
     next h1 = next h ∧
     b_keys (branch b h1) = b_keys (branch b h) ∧
     b_isArray (branch b h1) = b_isArray (branch b h) ∧
     (∀ y, n_value (node y h) = CUndefined → n_value (node y h1) = CUndefined) ∧
     (∀ k c Sc, (k, (c, Sc)) ∈ kids → D1 k → n_value (node c h1) = CUndefined))
    as (kids1 & Hstep).
  { unfold clear_step, oset_has. case_bool_decide as Hin.
    { exists kids. simpl. split_and!; try done.
      - apply cleared_refl. intros kid _ [_ ?]. done.
      - apply mods_refl, Hbt.
      - intros k c Sc _ [_ ?]. done. }
    destruct (b_nodes (branch b h) !! k0) as [c|] eqn:Hc.
    - rewrite (branch_lookup _ _ _ Hb) in Hc. apply Hcov in Hc as [Sc Hkid].
      destruct (clear_kid_spec h l b kids k0 c Sc Hbt Hkid)
        as (Hbt1 & Hm1 & Hks1 & Ha1 & Hv1 & Hn1).
      destruct (btree_kid _ _ _ _ _ _ _ Hbt Hkid)
        as (nc & Hcc & _ & _ & Hrc & _ & _ & Hcb & _ & _).
      destruct (node_clear_fields c nc h Hcc) as (Hcells & Hnx & _).
      eexists. simpl. split_and!; [exact Hbt1| | | |done|done|done| |].
      + split.
        * intros kid Hn. assert (kid.1 ≠ k0) as Hne by (intros ?; by apply Hn).
          destruct (bool_decide _).
          -- rewrite elem_of_others. tauto.
          -- rewrite elem_of_cons, elem_of_others. split; [|tauto].
             intros [->|?]; [done|tauto].
        * intros [k [cc Scc]] [Heq _]. simpl in *. subst k.
          case_bool_decide as Hg.
          -- rewrite elem_of_others. simpl. split; [tauto|].
             intros (_ & Hs & Sc' & Hin').
             destruct (kid_unique _ _ _ _ _ _ _ Hcov Hndk Hkid Hin') as [-> _]. done.
          -- rewrite elem_of_cons, elem_of_others. simpl. split.
             ++ intros [Heq|[? _]]; [|done]. injection Heq as -> ->. eauto.
             ++ intros (-> & Hs & Sc' & Hin').
                destruct (kid_unique _ _ _ _ _ _ _ Hcov Hndk Hkid Hin') as [-> _].
                by left.
      + intros y Hy. destruct (bool_decide _).
        * by apply elem_of_kids_fp_others in Hy.
        * rewrite kids_fp_cons in Hy. apply elem_of_app in Hy as [Hy|Hy].
          -- unfold kid_fp in Hy. simpl in Hy. apply list_elem_of_singleton in Hy as ->.
             apply elem_of_kids_fp. eexists. split; [exact Hkid|by left].
          -- by apply elem_of_kids_fp_others in Hy.
      + eapply mods_weaken; [exact Hm1| |].
        * intros y _ [->| ->]; [|by left]. right. by exists (k0, (c, Sc)).
        * intros e He. exists (k0, (c, Sc)). split_and!; [done|done|done].
      + intros y Hy. rewrite (node_after_clear c nc y h Hcc).
        by case_decide.
      + intros k c' Sc' Hin' [-> _].
        destruct (kid_unique _ _ _ _ _ _ _ Hcov Hndk Hkid Hin') as [-> _]. done.
    - exists kids. simpl. split_and!; try done.
      + apply cleared_refl. intros [k [c Sc]] Hkid [Heq _]. simpl in *. subst k.
        rewrite (branch_lookup _ _ _ Hb) in Hc.
        assert (b_nodes bc !! k0 = Some c) by (apply Hcov; eauto). congruence.
      + apply mods_refl, Hbt.
      + intros k c Sc Hkid [-> _].
        rewrite (branch_lookup _ _ _ Hb) in Hc.
        assert (b_nodes bc !! k0 = Some c) by (apply Hcov; eauto). congruence. }
  set (h1 := clear_step new b h k0) in *.
  destruct Hstep as (Hbt1 & Hcl1 & Hprov1 & Hm1 & Hnx1 & Hks1 & Ha1 & Hund1 & Hv1).
  destruct (IH h1 l b kids1 Hbt1)
    as (kids' & Hbt' & Hcl' & Hprov' & Hm' & Hnx' & Hks' & Ha' & Hund' & Hv').
  assert (h' = foldl (clear_step new b) h1 ks) as -> by done.
  set (h2 := foldl (clear_step new b) h1 ks) in *.
  set (D2 := λ k, k ∈ ks ∧ k ∉ new) in *.
  assert (∀ k, D1 k ∨ D2 k ↔ D k) as HD.
  { intros k. unfold D, D1, D2. rewrite elem_of_cons. split.
    - intros [[-> ?]|[? ?]]; tauto.
    - intros [[->|?] ?]; tauto. }
  assert (∀ c, n_subscribers (node c h1) = n_subscribers (node c h)) as Hsubs.
  { intros c. apply (mods_subscribers _ _ _ _ (TNode c) Hm1). }
  (* every child of [kids1] stems from one of [kids] with the same key and node *)
  assert (∀ kid : Kid, kid ∈ kids1 → ∃ Sc, (kid.1, (kid.2.1, Sc)) ∈ kids ∧
            (kid.2.2 = Sc ∨ kid.2.2 = SUndefined)) as Horig.
  { intros [k [c Sc]] Hin. simpl. destruct Hcl1 as [H11 H12].
    destruct (decide (D1 k)) as [Hd|Hd].
    - apply (H12 (k, (c, Sc)) Hd) in Hin as (Hs & _ & Sc' & Hin). simpl in *. eauto.
    - apply (H11 (k, (c, Sc)) Hd) in Hin. eauto. }
  exists kids'. split_and!; [done| | | |lia|by rewrite Hks', Hks1|by rewrite Ha', Ha1| |].
  - eapply cleared_ext; [exact HD|].
    eapply (cleared_trans D1 D2); [exact Hsubs|done|done].
  - intros y Hy. by apply Hprov1, Hprov'.
  - eapply mods_seq; [exact Hm1|exact Hm'| | | |].
    + intros y _ [->|(kid & Hkid & Hd & ->)]; [by left|].
      right. exists kid. split_and!; [done| |done]. apply HD. by left.
    + intros y _ [->|(kid & Hkid & Hd & ->)]; [by left|].
      destruct (Horig _ Hkid) as (Sc & Hin & _).
      right. exists (kid.1, (kid.2.1, Sc)). split_and!; [done| |done]. apply HD. by right.
    + intros e (kid & Hkid & Hd & He). exists kid. split_and!; [done| |done].
      apply HD. by left.
    + intros e (kid & Hkid & Hd & He).
      destruct (Horig _ Hkid) as (Sc & Hin & HSc).
      exists (kid.1, (kid.2.1, Sc)). simpl. split_and!; [done|apply HD; by right|].
      destruct He as [[-> Hne]| ->]; [left|by right]. split; [done|].
      destruct HSc as [<-|Heq]; [done|]. by rewrite Heq in Hne.
  - intros y Hy. by apply Hund', Hund1.
  - intros k c Sc Hkid Hd. apply HD in Hd.
    destruct (decide (D1 k)) as [Hd1|Hd1].
    + apply Hund'. by eapply Hv1.
    + destruct Hd as [?|Hd2]; [done|].
      eapply Hv'; [|exact Hd2]. apply (proj1 Hcl1 (k, (c, Sc)) Hd1). done.
Qed.

(** ** The structural arm of [update] *)

Lemma update_branch_unfold isArray new l h :
  Node.update_branch isArray new l h =
  ((Node.getOrCreateBranch l h).1,
   prepare_branch isArray new (Node.getOrCreateBranch l h).1 (Node.getOrCreateBranch l h).2).
Proof.
  unfold Node.update_branch. by destruct (Node.getOrCreateBranch l h).
Qed.

Lemma prepare_branch_spec isArray new h l b kids :
  btree h l b kids →
  let D := dropped h b new in
  let h' := prepare_branch isArray new b h in
  ∃ kids', btree h' l b kids' ∧ cleared D h kids kids' ∧
    (∀ y, y ∈ kids_fp kids' → y ∈ kids_fp kids) ∧
    mods (clear_A b kids D)
         (λ e, (e = Fired (TKeys b) ∧ ∃ k, D k) ∨ clear_E kids D e) h h' ∧
    next h' = next h ∧
    b_keys (branch b h') = oset_intersect (b_keys (branch b h)) new ∧
    b_isArray (branch b h') = isArray ∧
    (∀ k c Sc, (k, (c, Sc)) ∈ kids → D k → n_value (node c h') = CUndefined).
Proof.
  intros Hbt D h'. unfold h', prepare_branch.
  destruct (set_isArray_spec isArray h l b kids Hbt) as (Hbt1 & Hm1 & Hks1 & Ha1).
  set (h1 := modify_branch b (with_isArray isArray) h) in *.
  rewrite clear_dropped_fold.
  destruct (clear_loop_spec new (b_keys (branch b h1)) h1 l b kids Hbt1)
    as (kids2 & Hbt2 & Hcl2 & Hprov2 & Hm2 & Hnx2 & Hks2 & Ha2 & Hund2 & Hv2).
  set (h2 := foldl (clear_step new b) h1 (b_keys (branch b h1))) in *.
  destruct (set_keys_spec (oset_intersect (b_keys (branch b h2)) new) h2 l b kids2 Hbt2)
    as (Hbt3 & Hm3 & Hks3 & Ha3 & Hn3).
  set (h3 := Topic.set (TKeys b) _ h2) in *.
  assert (∀ k, (k ∈ b_keys (branch b h1) ∧ k ∉ new) ↔ D k) as HD.
  { intros k. unfold D, dropped. by rewrite Hks1. }
  assert (∀ c, n_subscribers (node c h1) = n_subscribers (node c h)) as Hsubs.
  { intros c. apply (mods_subscribers _ _ _ _ (TNode c) Hm1). }
  exists kids2. split_and!; [done| |done| | | | |].
  - destruct Hcl2 as [H1 H2]. split.
    + intros kid Hn. apply H1. by rewrite HD.
    + intros kid Hd. rewrite <- Hsubs. apply H2. by rewrite HD.
  - eapply mods_seq; [exact Hm1| | | | |].
    + eapply (mods_seq (clear_A b kids D)
               (λ e, (e = Fired (TKeys b) ∧ ∃ k, D k) ∨ clear_E kids D e));
        [exact Hm2|exact Hm3| | | |].
      * intros y _ [->|(kid & ? & ? & ?)]; [by left|]. right. exists kid. by rewrite <- HD.
      * intros y _ ->. by left.
      * intros e (kid & ? & ? & ?). right. exists kid. by rewrite <- HD.
      * intros e [-> Hne]. left. split; [done|].
        destruct (decide (Forall (λ k, k ∈ new) (b_keys (branch b h2)))) as [Hall|Hnall].
        { exfalso. apply Hne. symmetry. apply filter_id. by apply Forall_forall. }
        apply not_Forall_Exists in Hnall; [|apply _].
        apply Exists_exists in Hnall as (k & Hk & Hnk).
        exists k. unfold D, dropped. by rewrite <- Hks1, <- Hks2.
    + intros y _ ->. by left.
    + done.
    + done.
    + done.
  - unfold h1 in Hnx2. simpl in *. pose proof (mods_next _ _ _ _ Hm3) as Hn.
    destruct (set_keys_fields b (branch b h2)
                (oset_intersect (b_keys (branch b h2)) new) h2) as (_ & Hnx3 & _).
    { destruct (btree_inv _ _ _ _ Hbt2) as (? & bc & _ & _ & Hb & _).
      by rewrite (branch_lookup _ _ _ Hb). }
    fold h3 in Hnx3. by rewrite Hnx3, Hnx2.
  - by rewrite Hks3, Hks2, Hks1.
  - by rewrite Ha3, Ha2, Ha1.
  - intros k c Sc Hkid Hd.
    assert (n_value (node c h2) = CUndefined) as Hc2.
    { eapply Hv2; [done|]. by apply HD. }
    destruct (btree_kid _ _ _ _ _ _ _ Hbt Hkid) as (nc & Hc & _ & _ & _ & _ & _ & Hcb & _).
    rewrite (node_agree c h2 h3); [done|].
    apply Hm3; [|done].
    rewrite Hnx2. unfold h1. simpl. by eapply bounded_lookup_lt; [apply Hbt|].
Qed.

Lemma elem_of_oset_intersect k s new : k ∈ oset_intersect s new ↔ k ∈ s ∧ k ∈ new.
Proof. unfold oset_intersect. rewrite list_elem_of_filter. tauto. Qed.

Lemma keys_live_or_dead es k : k ∈ es.*1 → k ∈ live_keys es ∨ k ∈ dead_keys es.
Proof.
  intros Hk. apply list_elem_of_fmap in Hk as ([k' x] & -> & Hkx). simpl.
  destruct (is_empty x) eqn:He.
  - right. unfold dead_keys. apply list_elem_of_fmap. exists (k', x). split; [done|].
    by apply list_elem_of_filter.
  - left. unfold live_keys. apply list_elem_of_fmap. exists (k', x). split; [done|].
    by apply list_elem_of_filter.
Qed.

Section object.
Context (Q : string → bool).

(** [update] with an object on a Node that already holds a Branch. *)
Lemma update_object_branch_spec isArray es h l b kids :
  NoDup es.*1 →
  Forall (λ kx : string * Value, is_empty kx.2 = false → update_post false kx.2) es →
  btree h l b kids →
  quiet_ok false Q h b kids es →
  let D := dropped h b es.*1 in
  let h' := update_entries es b (prepare_branch isArray es.*1 b h) in
  ∃ kids0 kids',
    cleared D h kids kids0 ∧
    btree h' l b kids' ∧
    (∀ y, y ∈ kids_fp kids' → y ∈ kids_fp kids ∨ next h ≤ y) ∧
    mods (object_A Q h b kids es) (object_E Q h b kids es) h h' ∧
    b_isArray (branch b h') = isArray ∧
    (∀ k, k ∈ b_keys (branch b h') ↔ k ∈ live_keys es) ∧
    (∀ kx : string * Value, kx ∈ es → is_empty kx.2 = false →
       ∃ c Sc, (kx.1, (c, Sc)) ∈ kids' ∧ holds false h' c kx.2) ∧
    (∀ kid : Kid, kid.1 ∉ es.*1 → kid ∈ kids' ↔ kid ∈ kids0) ∧
    (∀ k c Sc, (k, (c, Sc)) ∈ kids → D k → n_value (node c h') = CUndefined).
Proof.
  intros Hnd Hposts Hbt Hq D h'.
  destruct (btree_inv _ _ _ _ Hbt)
    as (n & bc & Hl & Hv & Hb & Hcov & Hkk & Hlb & Hbk & Hlk & Hndk).
  destruct (prepare_branch_spec isArray es.*1 h l b kids Hbt)
    as (kids0 & Hbt0 & Hcl0 & Hprov0 & Hm0 & Hnx0 & Hks0 & Ha0 & Hv0).
  set (h0 := prepare_branch isArray es.*1 b h) in *.
  fold D in Hcl0, Hm0, Hv0.
  assert (∀ kid : Kid, kid.1 ∈ es.*1 → kid ∈ kids0 ↔ kid ∈ kids) as Hkeep.
  { intros kid Hin. apply (proj1 Hcl0). intros [_ ?]. done. }
  (* an object of a child that is kept is not touched by the clearing *)
  assert (∀ (kid : Kid) y, kid ∈ kids → kid.1 ∈ es.*1 → y ∈ kid_fp kid →
            ¬ clear_A b kids D y) as Hkept.
  { intros kid y Hkid Hin Hy [->|(kid' & Hkid' & [_ Hd] & ->)].
    - apply Hbk. apply elem_of_kids_fp. eauto.
    - apply Hd.
      by rewrite (kids_fp_disjoint kids kid' kid _ Hndk Hkid' Hkid
                    (kid_fp_head kid') Hy). }
  destruct (update_entries_spec false Q es Hnd Hposts h0 l b kids0 Hbt0)
    as (kids' & Hbt' & Hprov' & Hm' & Ha' & Hks' & _ & Hh' & Hkids').
  { done. }
  { intros kx Hkx HQ.
    destruct (Hq kx Hkx HQ) as (_ & Hst & Hkin & c & Sc & Hkid & Hh).
    assert (kx.1 ∈ es.*1) as Hin by (by apply list_elem_of_fmap_2).
    split_and!; [done|done| |].
    - rewrite Hks0. by apply elem_of_oset_intersect.
    - exists c, Sc. split; [by apply Hkeep|].
      destruct (btree_kid _ _ _ _ _ _ _ Hbt Hkid) as (nc & Hc & _ & _ & Hrc & _).
      eapply holds_mods; [apply Hbt|done|done|exact Hm0|].
      intros y Hy. by eapply (Hkept (kx.1, (c, Sc))). }
  fold h' in Hbt', Hm', Ha', Hks', Hh'.
  exists kids0, kids'. split_and!; [done|done| | |by rewrite Ha'| |done|done|].
  - intros y Hy. destruct (Hprov' _ Hy) as [?|?]; [left; by apply Hprov0|right; lia].
  - eapply mods_seq; [exact Hm0|exact Hm'| | | |].
    + intros y _ ?. by left.
    + intros y _ [->|(kid & Hkid & Hin & HQ & Hy)]; [left; by left|].
      right. right. exists kid. split_and!; try done. by apply Hkeep.
    + intros e [[-> ?]|?]; [left; split; [done|by left]|right; by left].
    + intros e [[-> (kx & Hkx & HQ & Hc)]|[(kid & Hkid & Hin & HQ & Hy)|?]].
      * left. split; [done|]. right. exists kx. split_and!; [done|done|].
        destruct Hc as [Hc|?]; [left|by right].
        intros ?. apply Hc. rewrite Hks0. apply elem_of_oset_intersect.
        split; [done|]. by apply list_elem_of_fmap_2.
      * right. right. left. exists kid. split_and!; try done. by apply Hkeep.
      * right. right. right. lia.
  - intros k. rewrite Hks', Hks0, elem_of_oset_intersect. split.
    + intros [[[_ Hin] Hnd']|?]; [|done].
      by destruct (keys_live_or_dead es k Hin).
    + intros ?. by right.
  - intros k c Sc Hkid Hd.
    rewrite (node_agree c h0 h'); [by eapply Hv0|].
    destruct (btree_kid _ _ _ _ _ _ _ Hbt Hkid) as (nc & Hc & _ & _ & _ & _ & _ & Hcb & _).
    apply Hm'.
    + rewrite Hnx0. by eapply bounded_lookup_lt; [apply Hbt|].
    + intros [->|(kid & Hkid' & Hin & _ & Hy)]; [done|].
      apply Hkeep in Hkid'; [|done].
      destruct Hd as [_ Hd]. apply Hd.
      by rewrite <- (kids_fp_disjoint kids (k, (c, Sc)) kid _ Hndk Hkid Hkid'
                       (kid_fp_head _) Hy) in Hin.
Qed.
End object.

(** ** What [update] does to a proper tree *)

Lemma cleared_nil (D : string → Prop) `{∀ k, Decision (D k)} h kids' :
  cleared D h [] kids' → kids' = [].
Proof.
  intros [H1 H2]. destruct kids' as [|kid kids']; [done|exfalso].
  destruct (decide (D kid.1)) as [Hd|Hd].
  - destruct (proj1 (H2 kid Hd)) as (_ & _ & Sc & Hin).
    + by left.
    + by apply elem_of_nil in Hin.
  - assert (kid ∈ []) as Hin by (apply (H1 kid Hd); by left).
    by apply elem_of_nil in Hin.
Qed.

Lemma btree_lookup_kid h l b kids k c Sc :
  btree h l b kids → (k, (c, Sc)) ∈ kids → b_nodes (branch b h) !! k = Some c.
Proof.
  intros Hbt Hin.
  destruct (btree_inv _ _ _ _ Hbt) as (n & bc & Hl & Hv & Hb & Hcov & _).
  rewrite (branch_lookup _ _ _ Hb). apply Hcov. eauto.
Qed.

(** [update] with an object on a Node that holds no Branch yet. *)
Lemma update_object_fresh_spec exact isArray es h l S :
  NoDup es.*1 →
  Forall (λ kx : string * Value, is_empty kx.2 = false → update_post exact kx.2) es →
  tree h l S → (∀ b kids, S ≠ SBranch b kids) →
  let r := Node.update_branch isArray es.*1 l h in
  let h' := update_entries es r.1 r.2 in
  ∃ kids', r.1 = next h ∧ btree h' l (next h) kids' ∧
    (∀ y, y ∈ kids_fp kids' → next h ≤ y) ∧
    mods (λ y, y = l) (λ e, e = Fired (TNode l) ∨ next h ≤ ev_loc e) h h' ∧
    b_isArray (branch (next h) h') = isArray ∧
    b_keys (branch (next h) h') = live_keys es ∧
    (∀ kx : string * Value, kx ∈ es → is_empty kx.2 = false →
       ∃ c Sc, (kx.1, (c, Sc)) ∈ kids' ∧ holds exact h' c kx.2).
Proof.
  intros Hnd Hposts Ht HS r h'. unfold h', r. rewrite update_branch_unfold. cbn [fst snd].
  destruct (getOrCreateBranch_spec h l S Ht) as [(kids & -> & _)|(_ & Hb & Hbt1 & Hm1 & Hbr)].
  { by destruct (HS (Node.getOrCreateBranch l h).1 kids). }
  destruct (Node.getOrCreateBranch l h) as [b h1]. cbn [fst snd] in *. subst b.
  destruct (prepare_branch_spec isArray es.*1 h1 l (next h) [] Hbt1)
    as (kids0 & Hbt0 & Hcl0 & Hprov0 & Hm0 & Hnx0 & Hks0 & Ha0 & _).
  apply cleared_nil in Hcl0; [|apply _]. subst kids0.
  set (h0 := prepare_branch isArray es.*1 (next h) h1) in *.
  rewrite Hbr in Hks0. simpl in Hks0.
  destruct (update_entries_spec exact (λ _, false) es Hnd Hposts h0 l (next h) [] Hbt0)
    as (kids' & Hbt' & Hprov' & Hm' & Ha' & _ & Hks' & Hh' & _).
  { intros _ kid Hkid. by apply elem_of_nil in Hkid. }
  { intros kx _ ?. done. }
  set (h2 := update_entries es (next h) h0) in *.
  pose proof (mods_next _ _ _ _ Hm1) as Hnext1.
  exists kids'. split_and!; [done|done| | |by rewrite Ha'| |done].
  - intros y Hy. destruct (Hprov' _ Hy) as [Hy'|?]; [by apply elem_of_nil in Hy'|lia].
  - assert (mods (λ y, y = next h) (λ e, next h ≤ ev_loc e) h1 h2) as Hm2.
    { eapply mods_seq; [exact Hm0|exact Hm'| | | |].
      + intros y _ [->|(kid & Hkid & _)]; [done|]. by apply elem_of_nil in Hkid.
      + intros y _ [->|(kid & Hkid & _)]; [done|]. by apply elem_of_nil in Hkid.
      + intros e [[-> _]|(kid & Hkid & _)]; [done|]. by apply elem_of_nil in Hkid.
      + intros e [[-> _]|[(kid & Hkid & _)|?]]; [done|by apply elem_of_nil in Hkid|lia]. }
    eapply mods_seq; [exact Hm1|exact Hm2|done| |by left|by right].
    intros y Hy ->. lia.
  - rewrite Hks'; [by rewrite Hks0|]. intros k _. rewrite Hks0. apply not_elem_of_nil.
Qed.

(** [getOrCreateTopic] *)
Lemma getOrCreateTopic_spec h l S :
  tree h l S →
  let r := Node.getOrCreateTopic l h in
  tree r.2 l (STopic r.1) ∧
  (S = STopic r.1 ∨ r.1 = next h) ∧
  mods (λ y, y = l) (λ e, e = Fired (TNode l)) h r.2.
Proof.
  intros (Hbd & Hr & Hnd) r.
  destruct (rep_node _ _ _ Hr) as [n Hl].
  pose proof (bounded_lookup_lt _ _ _ Hbd Hl) as Hlt.
  assert ((∀ t, n_value n ≠ CTopic t) →
          r = (next h, Node.set l (CTopic (next h)) (alloc (OLeaf empty_leaf) h).2) →
          tree r.2 l (STopic r.1) ∧ (S = STopic r.1 ∨ r.1 = next h) ∧
          mods (λ y, y = l) (λ e, e = Fired (TNode l)) h r.2) as Hnew.
  { intros Hn ->. cbn [fst snd].
    set (h1 := (alloc (OLeaf empty_leaf) h).2).
    assert (mods (λ _, False) (λ _, False) h h1) as Hm1 by (by apply mods_alloc).
    assert (cells h1 !! l = Some (ONode n)) as Hl1.
    { unfold h1. simpl. rewrite lookup_insert_ne by lia. done. }
    pose proof (mods_node_set l n (CTopic (next h)) h1 (mods_bounded _ _ _ _ Hm1) Hl1
                  ltac:(done)) as Hm2.
    destruct (node_set_fields l n (CTopic (next h)) h1 Hl1 ltac:(done)) as (Hc2 & _).
    set (h2 := Node.set l (CTopic (next h)) h1) in *.
    split_and!; [|by right|].
    - split_and!; [apply Hm2| |].
      + eapply rep_topic; [by rewrite Hc2, lookup_insert_eq|done|].
        rewrite Hc2, lookup_insert_ne by lia. unfold h1. simpl. by rewrite lookup_insert_eq.
      + simpl. apply NoDup_cons. split; [|apply NoDup_singleton].
        rewrite list_elem_of_singleton. lia.
    - eapply mods_seq; [exact Hm1|exact Hm2|done|done|done|].
      intros e [-> _]. done. }
  unfold r, Node.getOrCreateTopic in *. rewrite (node_lookup _ _ _ Hl) in *.
  inversion Hr as [? n' Hl' Hn|? n' t' tc Hl' Hn Htc|? n' b' bc kids Hl' Hn Hb Hcov Hkids];
    subst; assert (n' = n) as -> by congruence; rewrite Hn in *.
  - apply Hnew; [done|done].
  - cbn [fst snd]. split_and!; [done|by left|by apply mods_refl].
  - apply Hnew; [done|done].
Qed.

Lemma NoDup_index_keys {A} (xs : list A) : NoDup (index_keys xs).
Proof.
  unfold index_keys. apply NoDup_alt. intros i j k Hi Hj.
  apply list_lookup_imap_Some in Hi as (x & _ & ->).
  apply list_lookup_imap_Some in Hj as (y & _ & Heq).
  by apply (inj pretty) in Heq.
Qed.

Lemma array_entries_elem (xs : list Value) k x : (k, x) ∈ array_entries xs → x ∈ xs.
Proof.
  intros Hx. apply elem_of_lookup_imap in Hx as (i & z & Heq & Hz). injection Heq as -> ->.
  by eapply list_elem_of_lookup_2.
Qed.

(** The structural arm, for either kind of object. *)
Lemma update_object_post exact isArray es h l S :
  NoDup es.*1 →
  Forall (λ kx : string * Value, is_empty kx.2 = false → update_post exact kx.2) es →
  tree h l S → (exact = true → ∀ b kids, S ≠ SBranch b kids) →
  let r := Node.update_branch isArray es.*1 l h in
  let h' := update_entries es r.1 r.2 in
  ∃ b kids', tree h' l (SBranch b kids') ∧
    (∀ y, y ∈ fp (SBranch b kids') → y ∈ fp S ∨ next h ≤ y) ∧
    mods (λ y, y ∈ l :: fp S) (λ e, ev_loc e ∈ l :: fp S ∨ next h ≤ ev_loc e) h h' ∧
    n_value (node l h') = CBranch b ∧
    b_isArray (branch b h') = isArray ∧
    key_rel exact (b_keys (branch b h')) (live_keys es) ∧
    Forall (λ kx : string * Value,
              is_empty kx.2 = false →
              ∃ c, b_nodes (branch b h') !! kx.1 = Some c ∧ holds exact h' c kx.2) es.
Proof.
  intros Hnd Hposts Ht Hex r h'.
  assert (∀ hh b kids', btree hh l b kids' → n_value (node l hh) = CBranch b) as Hval.
  { intros hh b kids' Hbt.
    destruct (btree_inv _ _ _ _ Hbt) as (n & bc & Hl & Hv & _).
    by rewrite (node_lookup _ _ _ Hl). }
  assert ((∃ b kids, S = SBranch b kids) ∨ ¬ ∃ b kids, S = SBranch b kids)
    as [(b & kids & ->)|HS].
  { destruct S; [right|right|left; eauto]; by intros (? & ? & ?). }
  - (* the Node holds a Branch *)
    assert (exact = false) as ->.
    { destruct exact; [|done]. by destruct (Hex eq_refl b kids). }
    unfold h', r. rewrite update_branch_unfold. cbn [fst snd].
    destruct (getOrCreateBranch_spec h l _ Ht) as [(kids1 & Heq & Hh)|(Hno & _)];
      [|by destruct (Hno b kids)].
    destruct (Node.getOrCreateBranch l h) as [b1 h1]. cbn [fst snd] in *.
    injection Heq as <- <-. subst h1.
    apply btree_tree in Ht.
    destruct (update_object_branch_spec (λ _, false) isArray es h l b kids Hnd Hposts Ht)
      as (kids0 & kids' & Hcl & Hbt' & Hprov & Hm & Ha & Hks & Hh' & _).
    { intros kx _ ?. done. }
    exists b, kids'. rewrite !fp_branch.
    split_and!; [by apply btree_tree| | |by eapply Hval|done|done|].
    + intros y Hy. apply elem_of_cons in Hy as [->|Hy]; [left; by left|].
      destruct (Hprov _ Hy); [left; by right|by right].
    + eapply mods_weaken; [exact Hm| |].
      * intros y _ [[->|(kid & Hkid & _ & ->)]|[->|(kid & Hkid & _ & _ & Hy)]].
        -- right. by left.
        -- right. right. apply elem_of_kids_fp. exists kid. split; [done|apply kid_fp_head].
        -- right. by left.
        -- right. right. apply elem_of_kids_fp. eauto.
      * intros e [[-> _]|[(kid & Hkid & _ & He)|[(kid & Hkid & _ & _ & Hy)|?]]].
        -- left. right. by left.
        -- left. right. right. apply elem_of_kids_fp. exists kid. split; [done|].
           destruct He as [[-> _]| ->]; apply kid_fp_head.
        -- left. right. right. apply elem_of_kids_fp. eauto.
        -- by right.
    + apply Forall_forall. intros kx Hkx Hne.
      destruct (Hh' kx Hkx Hne) as (c & Sc & Hkid & Hh).
      exists c. split; [by eapply btree_lookup_kid|done].
  - (* the Node holds something else *)
    destruct (update_object_fresh_spec exact isArray es h l S Hnd Hposts Ht)
      as (kids' & Hb & Hbt' & Hprov & Hm & Ha & Hks & Hh').
    { intros b kids ->. apply HS. eauto. }
    fold r in Hb. fold r h' in Hbt', Hm, Ha, Hks, Hh'.
    exists (next h), kids'. rewrite !fp_branch.
    split_and!; [by apply btree_tree| | |by eapply Hval|done| |].
    + intros y Hy. right. apply elem_of_cons in Hy as [->|Hy]; [done|by apply Hprov].
    + eapply mods_weaken; [exact Hm| |].
      * intros y _ ->. by left.
      * intros e [->|?]; [left; by left|by right].
    + rewrite Hks. by destruct exact.
    + apply Forall_forall. intros kx Hkx Hne.
      destruct (Hh' kx Hkx Hne) as (c & Sc & Hkid & Hh).
      exists c. split; [by eapply btree_lookup_kid|done].
Qed.

Theorem update_spec exact v : wf_value v → is_empty v = false → update_post exact v.
Proof.
  induction v as [| |a|xs IH|fs IH|c fs IH] using Value_ind'; intros Hwf Hne; try done.
  - (* an atom *)
    intros h l S Ht _. simpl.
    destruct (getOrCreateTopic_spec h l S Ht) as (Ht1 & Hcase & Hm1).
    destruct (Node.getOrCreateTopic l h) as [t h1]. cbn [fst snd] in *.
    destruct Ht1 as (Hbd1 & Hr1 & Hnd1).
    inversion Hr1 as [|? n ? tc Hl Hn Htc|]; subst.
    pose proof (mods_set_leaf t tc (Some a) h1 Hbd1 Htc) as Hm2.
    destruct (set_leaf_fields t tc (Some a) h1 Htc) as (Hc2 & _).
    set (h2 := Topic.set (TLeaf t) (XAtomic (Some a)) h1) in *.
    assert (l ≠ t) as Hlt.
    { apply NoDup_cons in Hnd1 as [Hx _]. intros ->. apply Hx. by left. }
    exists (STopic t). split_and!.
    + split_and!; [apply Hm2| |done].
      eapply rep_topic; [|done|].
      * rewrite Hc2, lookup_insert_ne by done. done.
      * by rewrite Hc2, lookup_insert_eq.
    + intros y Hy. apply list_elem_of_singleton in Hy as ->.
      destruct Hcase as [->| ->]; [left; by left|by right].
    + eapply mods_seq; [exact Hm1|exact Hm2| | | |].
      * intros y _ ->. by left.
      * intros y Hy ->. destruct Hcase as [->| ->]; [right; by left|lia].
      * intros e ->. left. by left.
      * intros e [-> _]. simpl. destruct Hcase as [->| ->]; [left; right; by left|].
        by right.
    + eapply holds_atomic.
      * rewrite (node_agree l h1 h2) by (by rewrite Hc2, lookup_insert_ne).
        by rewrite (node_lookup _ _ _ Hl).
      * unfold leaf. by rewrite Hc2, lookup_insert_eq.
  - (* an array *)
    inversion Hwf as [| | |? Hxs|]; subst.
    intros h l S Ht Hex. rewrite update_VArray.
    destruct (update_object_post exact true (array_entries xs) h l S)
      as (b & kids' & Ht' & Hprov & Hm & Hv & Ha & Hks & Hh); try done.
    + rewrite array_entries_fst. apply NoDup_index_keys.
    + apply Forall_forall. intros [k x] Hx Hnx. apply array_entries_elem in Hx.
      rewrite Forall_forall in IH, Hxs. apply IH; [done|by apply Hxs|done].
    + exists (SBranch b kids'). split_and!; [done|done|done|]. by eapply holds_array.
  - (* a record *)
    inversion Hwf as [| | | |? Hnd Hfs]; subst.
    intros h l S Ht Hex. rewrite update_VRecord.
    destruct (update_object_post exact false fs h l S)
      as (b & kids' & Ht' & Hprov & Hm & Hv & Ha & Hks & Hh); try done.
    + apply Forall_forall. intros [k x] Hx Hnx.
      rewrite Forall_forall in IH, Hfs. apply (IH _ Hx); [by apply (Hfs _ Hx)|done].
    + exists (SBranch b kids'). split_and!; [done|done|done|]. by eapply holds_record.
  - inversion Hwf.
Qed.

(** ** Reading back what was written *)











Lemma fresh_root_tree : tree fresh_root 0 SUndefined.
Proof.
  split_and!.
  - intros x Hx. unfold fresh_root. simpl in *. rewrite lookup_insert_ne by lia. done.
  - by eapply rep_undefined.
  - apply NoDup_singleton.
Qed.


(** ** Applying the same value twice *)

Lemma node_clear_same l h :
  n_value (node l h) = CUndefined →
  n_subscribers (node l h) ≠ [] ∨ n_detach (node l h) = None →
  Node.set l CUndefined h = h.
Proof.
  intros Hv Hd. unfold Node.set, Topic.set. cbn [Topic.get Topic.write_value].
  rewrite Hv. cbn [Topic.strict_eq]. rewrite bool_decide_eq_true_2 by done.
  assert (modify_node l
            (λ n, MkNode CUndefined (n_subscribers n) (n_detach n) (n_parent n)) h = h)
    as ->.
  { apply with_cells_id, alter_id. intros c Hc. unfold node in Hv. rewrite Hc in Hv.
    destruct c as [n| |]; try done. simpl in *. destruct n; simpl in *. congruence. }
  unfold Topic.tryDetach. cbn [Topic.detach Topic.subscribers].
  destruct Hd as [Hs| ->]; [|done].
  destruct (n_detach (node l h)); [|done].
  destruct (n_subscribers (node l h)); done.
Qed.

Lemma set_delete_idemp {A} `{EqDecision A} (x : A) (s : list A) :
  set_delete x (set_delete x s) = set_delete x s.
Proof.
  apply set_delete_id. unfold set_delete. rewrite list_elem_of_filter. by intros [? _].
Qed.

Lemma removeKey_twice k b h :
  (∀ c, b_nodes (branch b h) !! k = Some c →
        ∃ nc, cells h !! c = Some (ONode nc) ∧ n_detach nc = Some (k, b)) →
  Branch.removeKey k b (Branch.removeKey k b h) = Branch.removeKey k b h.
Proof.
  intros Hkid.
  destruct (cells h !! b) as [[| |bc]|] eqn:Hb.
  1,2,4: assert (Branch.removeKey k b h = h) as Hid;
    [unfold Branch.removeKey;
     assert (branch b h = empty_branch) as Hbr by (unfold branch; by rewrite Hb);
     assert (oset_delete k (b_keys (branch b h)) = b_keys (branch b h)) as ->
       by (by rewrite Hbr);
     rewrite set_keys_same, Hbr; done
    |by rewrite !Hid].
  rewrite (branch_lookup _ _ _ Hb) in Hkid.
  destruct (set_keys_fields b bc (oset_delete k (b_keys bc)) h Hb) as (Hc1 & _).
  set (h1 := Topic.set (TKeys b) (XKeys (oset_delete k (b_keys bc))) h) in *.
  assert (cells h1 !! b = Some (OBranch (with_keys (oset_delete k (b_keys bc)) bc))) as Hb1.
  { rewrite Hc1. apply lookup_insert_eq. }
  assert (Branch.removeKey k b h =
            match b_nodes bc !! k with
            | Some c => Node.set c CUndefined h1
            | None => h1
            end) as ->.
  { unfold Branch.removeKey. rewrite (branch_lookup _ _ _ Hb). fold h1.
    by rewrite (branch_lookup _ _ _ Hb1). }
  destruct (b_nodes bc !! k) as [c|] eqn:Hk.
  - destruct (Hkid c eq_refl) as (nc & Hc & Hdet).
    assert (c ≠ b) as Hcb by (intros ->; congruence).
    assert (cells h1 !! c = Some (ONode nc)) as Hc'.
    { rewrite Hc1. by rewrite lookup_insert_ne. }
    destruct (node_clear_fields c nc h1 Hc') as (Hc2 & _).
    set (h2 := Node.set c CUndefined h1) in *.
    rewrite Hdet in Hc2. cbn [from_option id fst snd] in Hc2.
    assert (cells h2 !! b =
              Some (OBranch ((if detaches nc then with_nodes (delete k) else id)
                               (with_keys (oset_delete k (b_keys bc)) bc)))) as Hb2.
    { rewrite Hc2. destruct (detaches nc).
      - rewrite lookup_alter_eq, lookup_insert_ne, Hb1 by done. done.
      - cbn [id]. by rewrite lookup_insert_ne, Hb1 by done. }
    unfold Branch.removeKey. rewrite (branch_lookup _ _ _ Hb2).
    assert (b_keys ((if detaches nc then with_nodes (delete k) else id)
                      (with_keys (oset_delete k (b_keys bc)) bc))
            = oset_delete k (b_keys bc)) as Hkeys by (by destruct (detaches nc)).
    rewrite Hkeys. unfold oset_delete. rewrite set_delete_idemp.
    assert (Topic.set (TKeys b) (XKeys (set_delete k (b_keys bc))) h2 = h2) as ->.
    { pose proof (set_keys_same b h2) as Hs. rewrite (branch_lookup _ _ _ Hb2) in Hs.
      rewrite Hkeys in Hs. apply Hs. }
    rewrite (branch_lookup _ _ _ Hb2).
    destruct (detaches nc) eqn:Hdt.
    + cbn [with_nodes with_keys b_nodes]. by rewrite lookup_delete_eq.
    + cbn [id with_keys b_nodes]. rewrite Hk.
      fold (Node.set c CUndefined h2). apply node_clear_same.
      * unfold h2. rewrite (node_after_clear c nc c h1 Hc'). by rewrite decide_True.
      * left. unfold h2. rewrite (node_after_clear c nc c h1 Hc'). rewrite decide_True by done.
        simpl. unfold detaches in Hdt. rewrite Hdet in Hdt.
        rewrite (bool_decide_eq_true_2 (is_Some _)) in Hdt by done.
        rewrite andb_true_r in Hdt. by apply bool_decide_eq_false in Hdt.
  - unfold Branch.removeKey. rewrite (branch_lookup _ _ _ Hb1).
    cbn [with_keys b_keys b_nodes]. unfold oset_delete. rewrite set_delete_idemp.
    assert (Topic.set (TKeys b) (XKeys (set_delete k (b_keys bc))) h1 = h1) as ->.
    { pose proof (set_keys_same b h1) as Hs. rewrite (branch_lookup _ _ _ Hb1) in Hs.
      apply Hs. }
    rewrite (branch_lookup _ _ _ Hb1). cbn [with_keys b_nodes]. by rewrite Hk.
Qed.

Lemma node_parent_removeKey k b l h :
  n_parent (node l (Branch.removeKey k b h)) = n_parent (node l h).
Proof.
  assert (∀ t v h, n_parent (node l (Topic.set t v h)) = n_parent (node l h)) as Hset.
  { clear. intros t v h.
    assert (∀ h1 h2 : Heap, n_parent (node l h1) = n_parent (node l h2) →
              n_parent (node l (Topic.tryDetach t h1)) = n_parent (node l h2)) as Hdet.
    { intros h1 h2 H12. unfold Topic.tryDetach.
      destruct (Topic.detach t h1) as [d|]; [|done].
      destruct (_ && _); [|done]. rewrite <- H12.
      unfold Topic.call_detach, node. simpl. rewrite lookup_alter.
      case_decide; [|done]. subst. by destruct (cells h1 !! d.2) as [[]|]. }
    assert (n_parent (node l (Topic.write_value t v h)) = n_parent (node l h)) as Hw.
    { destruct t, v; simpl; try done; unfold node; simpl; rewrite lookup_alter;
        case_decide; try done; subst;
        match goal with |- context [cells h !! ?x] => by destruct (cells h !! x) as [[]|] end. }
    unfold Topic.set. apply Hdet.
    destruct (Topic.strict_eq _ _); [done|].
    unfold Topic.notify_subscribers.
    destruct (notify_fold_fields (Topic.subscribers t (Topic.write_value t v h))
                (record (Fired t) (Topic.write_value t v h))) as (Hc & _).
    unfold node at 1. rewrite Hc. apply Hw. }
  unfold Branch.removeKey. destruct (b_nodes _ !! k); by rewrite ?Hset.
Qed.

Lemma update_empty_twice l h :
  linked h l → Node.update_empty l (Node.update_empty l h) = Node.update_empty l h.
Proof.
  unfold linked. intros Hl.
  destruct (n_parent (node l h)) as [[k b]|] eqn:Hp.
  - assert (Node.update_empty l h = Branch.removeKey k b h) as ->.
    { unfold Node.update_empty. by rewrite Hp. }
    unfold Node.update_empty. rewrite node_parent_removeKey, Hp.
    by apply removeKey_twice.
  - assert (Node.update_empty l h = Node.set l CUndefined h) as ->.
    { unfold Node.update_empty. by rewrite Hp. }
    destruct (cells h !! l) as [[n| |]|] eqn:Hc.
    2,3,4: assert (Node.set l CUndefined h = h) as Hid;
      [apply node_clear_same; unfold node; rewrite Hc; [done|by right]
      |rewrite !Hid; unfold Node.update_empty; rewrite Hp; by rewrite Hid].
    assert (node l (Node.set l CUndefined h) = with_value CUndefined n) as Hn.
    { rewrite (node_after_clear l n l h Hc). by rewrite decide_True. }
    rewrite (node_lookup _ _ _ Hc) in Hl, Hp.
    unfold Node.update_empty. rewrite Hn. simpl. rewrite Hp.
    apply node_clear_same; rewrite Hn; [done|by right].
Qed.

Lemma update_twice_stable h l S v :
  tree h l S → wf_value v → stable v →
  Node.update v l (Node.update v l h) = Node.update v l h.
Proof.
  intros Ht Hwf Hs.
  destruct (update_spec false v Hwf (stable_not_empty v Hs) h l S Ht)
    as (S' & _ & _ & _ & Hh); [done|].
  by apply holds_update_id.
Qed.

(** ** Updating a Node that already holds a Branch *)

Lemma entries_keys v : (entries v).*1 = object_keys v.
Proof. destruct v; try done. apply array_entries_fst. Qed.

Lemma update_on_branch v h l b kids :
  btree h l b kids → structural v →
  Node.update v l h =
  update_entries (entries v) b (prepare_branch (is_array v) (object_keys v) b h).
Proof.
  intros Hbt Hs. apply btree_tree in Hbt.
  destruct (getOrCreateBranch_spec h l _ Hbt) as [(kids1 & Heq & Hh)|(Hno & _)];
    [|by destruct (Hno b kids)].
  injection Heq as Hb _.
  destruct v as [| | |xs|fs|]; try done.
  - rewrite update_VArray, update_branch_unfold. cbn [fst snd].
    rewrite <- Hb, Hh. cbn [entries is_array object_keys]. by rewrite array_entries_fst.
  - rewrite update_VRecord, update_branch_unfold. cbn [fst snd].
    by rewrite <- Hb, Hh.
Qed.

Lemma wf_entries v :
  wf_value v → structural v →
  NoDup (entries v).*1 ∧
  Forall (λ kx : string * Value, is_empty kx.2 = false → update_post false kx.2) (entries v).
Proof.
  intros Hwf Hs. destruct v as [| | |xs|fs|]; try done; inversion Hwf as [| | |? Hx|? Hnd Hf]; subst.
  - split; [rewrite entries_keys; apply NoDup_index_keys|].
    apply Forall_forall. intros [k x] Hkx Hne. apply array_entries_elem in Hkx.
    rewrite Forall_forall in Hx. apply update_spec; [by apply Hx|done].
  - split; [done|]. apply Forall_forall. intros [k x] Hkx Hne.
    rewrite Forall_forall in Hf. apply update_spec; [by apply (Hf _ Hkx)|done].
Qed.

Lemma NoDup_fst_agree {A B} (l : list (A * B)) k x y :
  NoDup l.*1 → (k, x) ∈ l → (k, y) ∈ l → x = y.
Proof.
  induction l as [|[k' z] l IH]; intros Hnd Hx Hy; [by apply elem_of_nil in Hx|].
  rewrite fmap_cons in Hnd. apply NoDup_cons in Hnd as [Hk Hnd].
  apply elem_of_cons in Hx as [Hx|Hx], Hy as [Hy|Hy].
  - congruence.
  - injection Hx as -> ->. destruct Hk. apply list_elem_of_fmap. by exists (k', y).
  - injection Hy as -> ->. destruct Hk. apply list_elem_of_fmap. by exists (k', x).
  - by apply IH.
Qed.

Section structural.
Context (Q : string → bool).

Lemma update_structural_spec v h l b kids :
  wf_value v → structural v → btree h l b kids →
  quiet_ok false Q h b kids (entries v) →
  let D := dropped h b (object_keys v) in
  let h' := Node.update v l h in
  ∃ kids0 kids',
    cleared D h kids kids0 ∧
    btree h' l b kids' ∧
    mods (object_A Q h b kids (entries v)) (object_E Q h b kids (entries v)) h h' ∧
    b_isArray (branch b h') = is_array v ∧
    (∀ k, k ∈ b_keys (branch b h') ↔ k ∈ live_keys (entries v)) ∧
    (∀ kid : Kid, kid.1 ∉ object_keys v → kid ∈ kids' ↔ kid ∈ kids0) ∧
    (∀ k c Sc, (k, (c, Sc)) ∈ kids → D k → n_value (node c h') = CUndefined).
Proof.
  intros Hwf Hs Hbt Hq D h'. unfold h', D.
  rewrite (update_on_branch v h l b kids Hbt Hs).
  destruct (wf_entries v Hwf Hs) as [Hnd Hposts].
  rewrite <- entries_keys.
  destruct (update_object_branch_spec Q (is_array v) (entries v) h l b kids Hnd Hposts Hbt Hq)
    as (kids0 & kids' & Hcl & Hbt' & _ & Hm & Ha & Hks & _ & Hk & Hd).
  exists kids0, kids'. done.
Qed.
End structural.

Lemma kids_fp_lt h l b kids y : btree h l b kids → y ∈ kids_fp kids → y < next h.
Proof.
  intros Hbt Hy. apply btree_tree in Hbt. destruct Hbt as (Hbd & Hr & _).
  apply (rep_lt h l (SBranch b kids)); [done|done|].
  rewrite fp_branch. right. by right.
Qed.

Lemma kid_in_kids_fp (kids : list Kid) kid y : kid ∈ kids → y ∈ kid_fp kid → y ∈ kids_fp kids.
Proof. intros. apply elem_of_kids_fp. eauto. Qed.

(** *** A child whose sub-value did not change *)

Lemma update_keeps_child v h l b kids k x c Sc :
  wf_value v → structural v → btree h l b kids →
  (k, x) ∈ entries v → stable x →
  k ∈ b_keys (branch b h) → (k, (c, Sc)) ∈ kids → holds false h c x →
  let h' := Node.update v l h in
  (∀ y, y ∈ c :: fp Sc → cells h' !! y = cells h !! y) ∧
  (∃ evs, log h' = log h ++ evs ∧ Forall (λ e, ev_loc e ∉ c :: fp Sc) evs ∧
     ∀ s, s ∈ notified h' ↔
          s ∈ notified h ∨ ∃ t, Fired t ∈ evs ∧ s ∈ Topic.subscribers t h).
Proof.
  intros Hwf Hs Hbt Hkx Hst Hk Hkid Hh h'.
  destruct (wf_entries v Hwf Hs) as [Hnd _].
  destruct (btree_inv _ _ _ _ Hbt)
    as (n & bc & Hl & Hv & Hb & Hcov & Hkk & Hlb & Hbk & Hlk & Hndk).
  set (Q := λ k' : string, bool_decide (k' = k)).
  assert (quiet_ok false Q h b kids (entries v)) as Hq.
  { intros [k' x'] Hkx' HQ. apply bool_decide_eq_true in HQ. simpl in HQ. subst k'.
    assert (x' = x) as ->.
    { apply (NoDup_fst_agree (entries v) k x' x Hnd Hkx' Hkx). }
    split_and!; try done. by exists c, Sc. }
  destruct (update_structural_spec Q v h l b kids Hwf Hs Hbt Hq)
    as (kids0 & kids' & _ & _ & Hm & _).
  fold h' in Hm.
  assert (k ∈ (entries v).*1) as Hin.
  { apply list_elem_of_fmap. by exists (k, x). }
  assert (∀ (kid : Kid) y, kid ∈ kids → kid.1 ≠ k → y ∈ kid_fp kid → y ∉ c :: fp Sc) as Hother.
  { intros kid y Hkid' Hne Hy Hy'. apply Hne.
    by rewrite (kids_fp_disjoint kids kid (k, (c, Sc)) y Hndk Hkid' Hkid Hy Hy'). }
  split.
  - intros y Hy. apply (mods_frame _ _ _ _ Hm).
    { eapply kids_fp_lt; [done|]. by eapply kid_in_kids_fp. }
    intros [[->|(kid & Hkid' & [_ Hd] & ->)]|[->|(kid & Hkid' & _ & HQ & Hy')]].
    + apply Hbk. by eapply kid_in_kids_fp.
    + eapply Hother; [done| |apply kid_fp_head|done].
      intros Heq. apply Hd. by rewrite Heq.
    + apply Hbk. by eapply kid_in_kids_fp.
    + apply bool_decide_eq_false in HQ. by eapply Hother.
  - destruct (mods_log _ _ _ _ Hm) as (evs & Hlog & HE & Hnot).
    exists evs. split_and!; [done| |done].
    eapply Forall_impl; [exact HE|]. intros e He Hy.
    destruct He as [[-> _]|[(kid & Hkid' & [_ Hd] & He)|[(kid & Hkid' & _ & HQ & Hy')|Hfresh]]].
    + apply Hbk. by eapply kid_in_kids_fp.
    + eapply (Hother kid (ev_loc e)); [done| | |done].
      * intros Heq. apply Hd. by rewrite Heq.
      * destruct He as [[-> _]| ->]; apply kid_fp_head.
    + apply bool_decide_eq_false in HQ. by eapply Hother.
    + assert (ev_loc e < next h); [|lia].
      eapply kids_fp_lt; [done|]. by eapply kid_in_kids_fp.
Qed.

(** *** A child whose key the new value no longer has *)

Lemma update_drops_child v h l b kids k c Sc :
  wf_value v → structural v → btree h l b kids →
  (k, (c, Sc)) ∈ kids → k ∈ b_keys (branch b h) → k ∉ object_keys v →
  let h' := Node.update v l h in
  n_value (node c h') = CUndefined ∧
  (k ∉ b_keys (branch b h')) ∧
  b_nodes (branch b h') !! k =
    (if decide (n_subscribers (node c h) = []) then None else Some c) ∧
  (∀ y, y ∈ fp Sc → cells h' !! y = cells h !! y).
Proof.
  intros Hwf Hs Hbt Hkid Hk Hnew h'.
  destruct (btree_inv _ _ _ _ Hbt)
    as (n & bc & Hl & Hv & Hb & Hcov & Hkk & Hlb & Hbk & Hlk & Hndk).
  assert (quiet_ok false (λ _, false) h b kids (entries v)) as Hq by (by intros ? ? ?).
  destruct (update_structural_spec (λ _, false) v h l b kids Hwf Hs Hbt Hq)
    as (kids0 & kids' & Hcl & Hbt' & Hm & _ & Hks & Hkeep & Hd).
  fold h' in Hbt', Hm, Hks, Hd.
  assert (dropped h b (object_keys v) k) as HD by done.
  assert (∀ (kid : Kid) y, kid ∈ kids → kid.1 ≠ k → y ∈ kid_fp kid → y ∉ c :: fp Sc) as Hother.
  { intros kid y Hkid' Hne Hy Hy'. apply Hne.
    by rewrite (kids_fp_disjoint kids kid (k, (c, Sc)) y Hndk Hkid' Hkid Hy Hy'). }
  split_and!.
  - by eapply Hd.
  - rewrite Hks. unfold live_keys. intros Hin.
    apply list_elem_of_fmap in Hin as ([k' x] & -> & Hin).
    apply list_elem_of_filter in Hin as [_ Hin]. apply Hnew.
    rewrite <- entries_keys. apply list_elem_of_fmap. by exists (k', x).
  - destruct (btree_inv _ _ _ _ Hbt') as (n' & bc' & _ & _ & Hb' & Hcov' & _ & _ & _ & _ & Hnd').
    rewrite (branch_lookup _ _ _ Hb').
    assert (∀ c' S', (k, (c', S')) ∈ kids' ↔
              S' = SUndefined ∧ n_subscribers (node c h) ≠ [] ∧ c' = c) as Hiff.
    { intros c' S'. rewrite (Hkeep (k, (c', S'))) by done.
      rewrite (proj2 Hcl (k, (c', S'))) by done. simpl. split.
      - intros (-> & Hsub & Sc' & Hin).
        destruct (kid_unique _ _ _ _ _ _ _ Hcov Hndk Hkid Hin) as [-> _]. done.
      - intros (-> & Hsub & ->). split_and!; [done|done|by exists Sc]. }
    case_decide as Hsub.
    + destruct (b_nodes bc' !! k) as [c'|] eqn:Hlk'; [|done].
      apply Hcov' in Hlk' as [S' Hin]. apply Hiff in Hin as (_ & Hne & _). done.
    + apply Hcov'. exists SUndefined. by apply Hiff.
  - intros y Hy. apply (mods_frame _ _ _ _ Hm).
    { eapply kids_fp_lt; [done|]. eapply kid_in_kids_fp; [done|]. by right. }
    destruct (btree_kid _ _ _ _ _ _ _ Hbt Hkid) as (_ & _ & _ & _ & _ & Hndc & _).
    intros [[->|(kid & Hkid' & _ & ->)]|[->|(kid & Hkid' & Hin & _ & Hy')]].
    + apply Hbk. eapply kid_in_kids_fp; [done|]. by right.
    + assert (kid = (k, (c, Sc))) as ->.
      { eapply (kids_fp_disjoint kids); [done|done|done|apply kid_fp_head|by right]. }
      simpl in Hy. apply NoDup_cons in Hndc as [Hc _]. done.
    + apply Hbk. eapply kid_in_kids_fp; [done|]. by right.
    + eapply (Hother kid y); [done| |done|by right].
      intros Heq. apply Hnew. rewrite <- entries_keys. by rewrite <- Heq.
Qed.

(** *** Who is marked dirty besides the subscribers of the children *)

Lemma dangling_subscribers h t : bounded h → next h ≤ topic_loc t → Topic.subscribers t h = [].
Proof.
  intros Hbd Hlt. specialize (Hbd _ Hlt).
  destruct t; simpl in *; unfold node, leaf, branch; by rewrite Hbd.
Qed.

Lemma update_marks_outside v h l b kids s :
  wf_value v → structural v → btree h l b kids →
  (∀ t, topic_loc t ∈ kids_fp kids → s ∉ Topic.subscribers t h) →
  s ∈ notified (Node.update v l h) →
  s ∈ notified h ∨
  (s ∈ b_keys_subscribers (branch b h) ∧
   ((∃ k, k ∈ b_keys (branch b h) ∧ k ∉ object_keys v) ∨
    ∃ k x, (k, x) ∈ entries v ∧ (k ∉ b_keys (branch b h) ∨ is_empty x = true))).
Proof.
  intros Hwf Hs Hbt Hout Hin.
  assert (quiet_ok false (λ _, false) h b kids (entries v)) as Hq by (by intros ? ? ?).
  destruct (update_structural_spec (λ _, false) v h l b kids Hwf Hs Hbt Hq)
    as (kids0 & kids' & _ & _ & Hm & _).
  destruct (mods_log _ _ _ _ Hm) as (evs & Hlog & HE & Hnot).
  apply Hnot in Hin as [?|(t & Ht & Hsub)]; [by left|]. right.
  rewrite Forall_forall in HE. specialize (HE _ Ht).
  destruct HE as [[Heq Hwhy]|[(kid & Hkid & _ & He)|[(kid & Hkid & _ & _ & Hy)|Hfresh]]].
  - injection Heq as ->. split; [done|].
    destruct Hwhy as [[k [? ?]]|([k x] & Hkx & _ & Hor)];
      [left; exists k; by rewrite <- entries_keys|].
    right. by exists k, x.
  - exfalso. apply (Hout t); [|done]. eapply kid_in_kids_fp; [done|].
    destruct He as [[Heq _]|Heq]; [injection Heq as ->|done]; apply kid_fp_head.
  - exfalso. apply (Hout t); [|done]. by eapply kid_in_kids_fp.
  - exfalso. rewrite (dangling_subscribers h t) in Hsub; [by apply elem_of_nil in Hsub| |done].
    apply Hbt.
Qed.

Lemma update_marks_inside v h l S s :
  wf_value v → is_empty v = false → tree h l S →
  (∀ t, topic_loc t ∈ l :: fp S → s ∉ Topic.subscribers t h) →
  s ∈ notified (Node.update v l h) → s ∈ notified h.
Proof.
  intros Hwf Hne Ht Hout Hin.
  destruct (update_spec false v Hwf Hne h l S Ht) as (S' & _ & _ & Hm & _); [done|].
  destruct (mods_log _ _ _ _ Hm) as (evs & Hlog & HE & Hnot).
  apply Hnot in Hin as [?|(t & Hfired & Hsub)]; [done|]. exfalso.
  rewrite Forall_forall in HE. destruct (HE _ Hfired) as [Hloc|Hfresh].
  - by apply (Hout t).
  - rewrite (dangling_subscribers h t) in Hsub; [by apply elem_of_nil in Hsub| |done].
    apply Ht.
Qed.

(** ** Computing the shape of a store *)

Lemma shape_of_sound fuel h : ∀ l S, shape_of fuel h l = Some S → rep h l S.
Proof.
  induction fuel as [|fuel IH]; intros l S Hs; [done|]. simpl in Hs.
  destruct (cells h !! l) as [[n| |]|] eqn:Hl; try done.
  destruct (n_value n) as [|t|b] eqn:Hv.
  - injection Hs as <-. by eapply rep_undefined.
  - destruct (cells h !! t) as [[|c|]|] eqn:Ht; try done.
    injection Hs as <-. by eapply rep_topic.
  - destruct (cells h !! b) as [[| |bc]|] eqn:Hb; try done.
    apply bind_Some in Hs as (kids & Hkids & Hs). injection Hs as <-.
    apply mapM_Some in Hkids.
    assert (∀ kc kid, (if bool_decide (n_detach (node kc.2 h) = Some (kc.1, b) ∧
                                     n_parent (node kc.2 h) = Some (kc.1, b))
                      then Sc ← shape_of fuel h kc.2; Some (kc.1, (kc.2, Sc))
                      else None) = Some kid →
              kid.1 = kc.1 ∧ kid.2.1 = kc.2 ∧ kid_ok h b kid) as Hstep.
    { intros [k c] kid Hk. simpl in Hk. case_bool_decide as Hd; [|done].
      apply bind_Some in Hk as (Sc & HSc & Hk). injection Hk as <-. simpl.
      split_and!; try done. unfold kid_ok. simpl. destruct Hd. split_and!; try done.
      by apply IH. }
    eapply rep_branch_intro; try done.
    + intros k c. rewrite <- elem_of_map_to_list. split.
      * intros Hin. apply list_elem_of_lookup in Hin as [i Hi].
        destruct (Forall2_lookup_l _ _ _ _ _ Hkids Hi) as (kid & Hkid & Hf).
        apply Hstep in Hf as (Hk1 & Hk2 & _). destruct kid as [k' [c' Sc]]. simpl in *.
        subst. exists Sc. by eapply list_elem_of_lookup_2.
      * intros [Sc Hin]. apply list_elem_of_lookup in Hin as [i Hi].
        destruct (Forall2_lookup_r _ _ _ _ _ Hkids Hi) as ([k' c'] & Hkc & Hf).
        apply Hstep in Hf as (Hk1 & Hk2 & _). simpl in *. subst.
        by eapply list_elem_of_lookup_2.
    + apply Forall_forall. intros kid Hin. apply list_elem_of_lookup in Hin as [i Hi].
      destruct (Forall2_lookup_r _ _ _ _ _ Hkids Hi) as (kc & Hkc & Hf).
      by apply Hstep in Hf as (_ & _ & ?).
Qed.

Lemma tree_of_sound fuel h l S : tree_of fuel h l = Some S → tree h l S.
Proof.
  unfold tree_of. intros Ht. apply bind_Some in Ht as (S' & HS & Ht).
  destruct (forallb _ _ && _) eqn:Hc; [|done]. injection Ht as <-.
  apply andb_true_iff in Hc as [Hb Hnd]. apply bool_decide_eq_true in Hnd.
  split_and!; [|by eapply shape_of_sound|done].
  intros x Hx. destruct (cells h !! x) as [c|] eqn:Hc; [|done].
  apply elem_of_map_to_list in Hc.
  rewrite forallb_forall in Hb. apply list_elem_of_In in Hc. apply Hb in Hc.
  simpl in Hc. apply Nat.ltb_lt in Hc. lia.
Qed.

(** ** Validation *)







Lemma validate_wf v : wf_value v → validateStateInput v = Return ().
Proof.
  induction v as [| |a|xs IH|fs IH|c fs IH] using Value_ind';
    intros Hwf; inversion Hwf as [| | |? Hx|? Hnd Hf]; subst; try done.
  - simpl. clear Hwf. induction xs as [|x xs IHxs] using rev_ind; [done|].
    rewrite foldl_app. simpl. apply Forall_app in IH as [IH1 IH2], Hx as [Hx1 Hx2].
    rewrite IHxs by done. simpl.
    apply Forall_inv in IH2, Hx2. by apply IH2.
  - simpl. clear Hwf Hnd. induction fs as [|[k x] fs IHfs] using rev_ind; [done|].
    rewrite foldl_app. simpl. apply Forall_app in IH as [IH1 IH2], Hf as [Hf1 Hf2].
    rewrite IHfs by done. simpl.
    apply Forall_inv in IH2, Hf2. by apply IH2.
Qed.

(** ** null is undefined *)

Lemma update_entries_ext (es es' : list (string * Value)) n h :
  es.*1 = es'.*1 →
  Forall2 (λ kx kx' : string * Value, ∀ l h, Node.update kx.2 l h = Node.update kx'.2 l h)
          es es' →
  update_entries es n h = update_entries es' n h.
Proof.
  intros Hk Hall. revert h Hk. unfold update_entries.
  induction Hall as [|[k x] [k' x'] es es' Hx Hall IH]; intros h Hk; [done|].
  simpl in *. injection Hk as -> Hk.
  assert (Node.update_child (Node.update x) k' n h = Node.update_child (Node.update x') k' n h)
    as ->.
  { unfold Node.update_child. destruct (Branch.getOrCreateNode k' n h). apply Hx. }
  by apply IH.
Qed.

Lemma array_entries_fmap (f : Value → Value) xs :
  array_entries (f <$> xs) = prod_map id f <$> array_entries xs.
Proof.
  unfold array_entries. rewrite imap_fmap, fmap_imap. by apply imap_ext.
Qed.

Lemma update_null_undefined v : ∀ l h, Node.update v l h = Node.update (undefined_for_null v) l h.
Proof.
  induction v as [| |a|xs IH|fs IH|c fs IH] using Value_ind'; intros l h; try done.
  - cbn [undefined_for_null]. rewrite !update_VArray.
    rewrite array_entries_fmap. rewrite <- !list_fmap_compose.
    rewrite (list_fmap_ext (fst ∘ prod_map id undefined_for_null) fst (array_entries xs))
      by (by intros ? []).
    apply update_entries_ext.
    + rewrite <- list_fmap_compose. apply list_fmap_ext. by intros ? [].
    + apply Forall2_fmap_r, Forall_Forall2_diag, Forall_forall.
      intros [k x] Hx. simpl. apply array_entries_elem in Hx.
      rewrite Forall_forall in IH. by apply IH.
  - cbn [undefined_for_null]. rewrite !update_VRecord.
    rewrite <- !list_fmap_compose.
    rewrite (list_fmap_ext (fst ∘ prod_map id undefined_for_null) fst fs)
      by (by intros ? []).
    apply update_entries_ext.
    + rewrite <- list_fmap_compose. apply list_fmap_ext. by intros ? [].
    + apply Forall2_fmap_r, Forall_Forall2_diag, Forall_forall.
      intros [k x] Hx. simpl. rewrite Forall_forall in IH. by apply (IH _ Hx).
  - cbn [undefined_for_null].
    change (Node.update (VInstance c ?fs) l h) with (Node.update (VRecord fs) l h).
    rewrite !update_VRecord.
    rewrite <- !list_fmap_compose.
    rewrite (list_fmap_ext (fst ∘ prod_map id undefined_for_null) fst fs)
      by (by intros ? []).
    apply update_entries_ext.
    + rewrite <- list_fmap_compose. apply list_fmap_ext. by intros ? [].
    + apply Forall2_fmap_r, Forall_Forall2_diag, Forall_forall.
      intros [k x] Hx. simpl. rewrite Forall_forall in IH. by apply (IH _ Hx).
Qed.

Lemma validate_null_undefined v :
  validateStateInput v = validateStateInput (undefined_for_null v).
Proof.
  induction v as [| |a|xs IH|fs IH|c fs IH] using Value_ind'; try done.
  - simpl. generalize (Return ()) as r.
    induction xs as [|x xs IHxs]; intros r; [done|].
    apply Forall_cons in IH as [IH1 IH2]. simpl. rewrite IH1. by apply IHxs.
  - simpl. generalize (Return ()) as r.
    induction fs as [|[k x] fs IHfs]; intros r; [done|].
    apply Forall_cons in IH as [IH1 IH2]. simpl in *. rewrite IH1. by apply IHfs.
Qed.

(** ** createState *)




(** ** The detach callback of a child Node *)

Lemma detach_calls_app l (h h' : Heap) evs :
  log h' = log h ++ evs →
  detach_calls l h' = detach_calls l h + length (filter (λ e, e = Detached (TNode l)) evs).
Proof. intros Hl. unfold detach_calls. by rewrite Hl, filter_app, length_app. Qed.

Lemma tryDetach_node l n d h :
  cells h !! l = Some (ONode n) → n_detach n = Some d →
  let h' := Topic.tryDetach (TNode l) h in
  ∃ n', cells h' !! l = Some (ONode n') ∧ n' = n ∧
        log h' = log h ++
          (if bool_decide (n_value n = CUndefined) && bool_decide (n_subscribers n = [])
           then [Detached (TNode l)] else []).
Proof.
  intros Hl Hd h'. unfold h', Topic.tryDetach.
  cbn [Topic.detach Topic.subscribers Topic.get]. rewrite (node_lookup _ _ _ Hl), Hd.
  exists n. split_and!; [|done|].
  - destruct (_ && _); [|done]. unfold Topic.call_detach. destruct d as [k b]. simpl.
    rewrite lookup_alter. case_decide as Hdl; [|done]. subst b. by rewrite Hl.
  - destruct (n_subscribers n) as [|s ss], (n_value n); simpl; by rewrite ?app_nil_r.
Qed.

Lemma run_op_node l n d op h :
  cells h !! l = Some (ONode n) → n_detach n = Some d →
  let h' := run_op l op h in
  ∃ n', cells h' !! l = Some (ONode n') ∧ n_detach n' = Some d ∧
        (n_value n', n_subscribers n') = op_state op (n_value n, n_subscribers n) ∧
        detach_calls l h' = detach_calls l h +
          (if op_detaches op (n_value n, n_subscribers n) then 1 else 0).
Proof.
  intros Hl Hd h'. unfold h'. destruct op as [c|s|s]; cbn [run_op].
  - unfold Topic.set. cbn [Topic.get Topic.write_value].
    set (n1 := MkNode c (n_subscribers n) (n_detach n) (n_parent n)).
    set (h1 := modify_node l _ h).
    assert (cells h1 !! l = Some (ONode n1)) as Hl1.
    { unfold h1. simpl. by rewrite lookup_alter_eq, Hl. }
    assert (log h1 = log h) as Hlog1 by done.
    set (h2 := if Topic.strict_eq _ _ then h1 else Topic.notify_subscribers (TNode l) h1).
    assert (cells h2 !! l = Some (ONode n1) ∧
            ∃ evs, log h2 = log h ++ evs ∧
                   filter (λ e, e = Detached (TNode l)) evs = []) as (Hl2 & evs & Hlog2 & Hevs).
    { unfold h2. destruct (Topic.strict_eq _ _).
      - split; [done|]. exists []. by rewrite app_nil_r.
      - unfold Topic.notify_subscribers.
        destruct (notify_fold_fields (Topic.subscribers (TNode l) h1)
                    (record (Fired (TNode l)) h1)) as (Hc & _ & _ & Hlg & _).
        split; [by rewrite Hc|]. exists [Fired (TNode l)]. by rewrite Hlg. }
    destruct (tryDetach_node l n1 d h2 Hl2 Hd) as (n' & Hl' & -> & Hlog').
    exists n1. split_and!; [done|done|done|].
    rewrite (detach_calls_app l h _ (evs ++ _)) by (by rewrite Hlog', Hlog2, app_assoc).
    f_equal. rewrite filter_app, Hevs. cbn [op_detaches op_state fst snd n1 n_value n_subscribers].
    destruct (_ && _); [|done]. by rewrite ?app_nil_l, filter_cons_True.
  - unfold Topic.subscribe. cbn [Topic.write_subscribers].
    eexists. split_and!; [simpl; by rewrite lookup_alter_eq, Hl|done|done|].
    cbn [op_detaches]. unfold detach_calls. simpl. lia.
  - unfold Topic.unsubscribe. cbn [Topic.write_subscribers].
    set (n1 := MkNode (n_value n) (set_delete s (n_subscribers n)) (n_detach n) (n_parent n)).
    set (h1 := modify_node l _ h).
    assert (cells h1 !! l = Some (ONode n1)) as Hl1.
    { unfold h1. simpl. by rewrite lookup_alter_eq, Hl. }
    destruct (tryDetach_node l n1 d h1 Hl1 Hd) as (n' & Hl' & -> & Hlog').
    exists n1. split_and!; [done|done|done|].
    rewrite (detach_calls_app l h _ _ Hlog').
    f_equal. cbn [op_detaches op_state fst snd n1 n_value n_subscribers].
    destruct (_ && _); [|done]. by rewrite ?app_nil_l, filter_cons_True.
Qed.

(** ** Emptying the position at a path *)

Lemma read_empty_at fuel this h :
  empty_at (keys this) (root this) h → State.read (S fuel) this h = Return VUndefined.
Proof.
  unfold empty_at, State.read. destruct (Node.getNode _ _ _) as [n|]; [|done].
  simpl. by intros ->.
Qed.

Lemma update_empty_here h l S :
  tree h l S → attached h l S →
  let h' := Node.update_empty l h in
  bounded h' ∧ n_value (node l h') = CUndefined ∧
  (∀ y, y < next h → y ≠ l →
        (∀ k b, n_parent (node l h) = Some (k, b) → y ≠ b) →
        cells h' !! y = cells h !! y) ∧
  (∀ k b, n_parent (node l h) = Some (k, b) →
          (k ∉ b_keys (branch b h')) ∧
          (b_nodes (branch b h') !! k = Some l ∨ b_nodes (branch b h') !! k = None)).
Proof.
  intros (Hbd & Hr & Hnd) Hat h'. unfold attached in Hat.
  destruct (rep_node _ _ _ Hr) as [n Hl].
  unfold h', Node.update_empty. rewrite (node_lookup _ _ _ Hl) in *.
  destruct (n_parent n) as [[k b]|] eqn:Hp.
  - destruct Hat as (Hd & Hb & bc & Hbc & Hk).
    assert (l ≠ b) as Hlb by (intros ->; apply Hb; by left).
    unfold Branch.removeKey. rewrite (branch_lookup _ _ _ Hbc).
    pose proof (mods_set_keys b bc (oset_delete k (b_keys bc)) h Hbd Hbc) as Hm1.
    destruct (set_keys_fields b bc (oset_delete k (b_keys bc)) h Hbc) as (Hc1 & _).
    set (h1 := Topic.set (TKeys b) (XKeys (oset_delete k (b_keys bc))) h) in *.
    assert (cells h1 !! b = Some (OBranch (with_keys (oset_delete k (b_keys bc)) bc))) as Hb1.
    { rewrite Hc1. apply lookup_insert_eq. }
    assert (cells h1 !! l = Some (ONode n)) as Hl1.
    { rewrite Hc1. by rewrite lookup_insert_ne. }
    rewrite (branch_lookup _ _ _ Hb1). cbn [with_keys b_nodes]. rewrite Hk.
    fold (Node.set l CUndefined h1).
    pose proof (mods_node_clear l n h1 (mods_bounded _ _ _ _ Hm1) Hl1) as Hm2.
    destruct (node_clear_fields l n h1 Hl1) as (Hc2 & _).
    set (h2 := Node.set l CUndefined h1) in *.
    rewrite Hd in Hc2. cbn [from_option id fst snd] in Hc2.
    split_and!.
    + apply Hm2.
    + unfold h2. rewrite (node_after_clear l n l h1 Hl1). by rewrite decide_True.
    + intros y Hy Hyl Hyb. specialize (Hyb k b eq_refl).
      rewrite (mods_frame _ _ _ _ Hm2); [by apply (mods_frame _ _ _ _ Hm1)| |].
      * pose proof (mods_next _ _ _ _ Hm1). lia.
      * intros [?|(_ & k' & Hk')]; [done|]. rewrite Hd in Hk'. by injection Hk' as _ <-.
    + intros k' b' Heq. injection Heq as <- <-.
      assert (cells h2 !! b =
                Some (OBranch ((if detaches n then with_nodes (delete k) else id)
                                 (with_keys (oset_delete k (b_keys bc)) bc)))) as Hb2.
      { rewrite Hc2. destruct (detaches n).
        - rewrite lookup_alter_eq, lookup_insert_ne, Hb1 by done. done.
        - cbn [id]. by rewrite lookup_insert_ne, Hb1 by done. }
      rewrite (branch_lookup _ _ _ Hb2). split.
      * assert (b_keys ((if detaches n then with_nodes (delete k) else id)
                          (with_keys (oset_delete k (b_keys bc)) bc))
                = oset_delete k (b_keys bc)) as -> by (by destruct (detaches n)).
        unfold oset_delete, set_delete. rewrite list_elem_of_filter. by intros [? _].
      * destruct (detaches n).
        -- right. cbn [with_nodes b_nodes]. apply lookup_delete_eq.
        -- left. done.
  - pose proof (mods_node_clear l n h Hbd Hl) as Hm.
    split_and!.
    + apply Hm.
    + rewrite (node_after_clear l n l h Hl). by rewrite decide_True.
    + intros y Hy Hyl _. apply (mods_frame _ _ _ _ Hm); [done|].
      intros [?|(_ & k' & Hk')]; [done|]. by rewrite Hat in Hk'.
    + done.
Qed.

Lemma getOrCreateNode_cons k path l h :
  Node.getOrCreateNode (k :: path) l h =
  Node.getOrCreateNode path
    (Branch.getOrCreateNode k (Node.getOrCreateBranch l h).1 (Node.getOrCreateBranch l h).2).1
    (Branch.getOrCreateNode k (Node.getOrCreateBranch l h).1 (Node.getOrCreateBranch l h).2).2.
Proof.
  simpl. destruct (Node.getOrCreateBranch l h) as [b h1]. simpl.
  by destruct (Branch.getOrCreateNode k b h1).
Qed.

Lemma update_empty_at path :
  ∀ h l S, tree h l S → attached h l S →
  let r := Node.getOrCreateNode path l h in
  let h' := Node.update_empty r.1 r.2 in
  bounded h' ∧ empty_at path l h' ∧
  (∀ y, y < next h → y ∉ l :: fp S →
        (path = [] → ∀ k b, n_parent (node l h) = Some (k, b) → y ≠ b) →
        cells h' !! y = cells h !! y) ∧
  (∀ k b, n_parent (node l h) = Some (k, b) →
          b_nodes (branch b h') !! k = Some l ∨ b_nodes (branch b h') !! k = None) ∧
  (path = [] → ∀ k b, n_parent (node l h) = Some (k, b) → k ∉ b_keys (branch b h')) ∧
  (∀ p k, path = p ++ [k] → k ∉ State.readKeys (MkStateRef l p) h').
Proof.
  induction path as [|k path IH]; intros h l S Ht Hat r h'.
  - destruct (update_empty_here h l S Ht Hat) as (Hbd' & Hv & Hfr & Hpar).
    split_and!; [done|done| | | |].
    + intros y Hy Hyl Hyb. apply Hfr; [done| |by apply Hyb].
      intros ->. apply Hyl. by left.
    + intros k b Hp. by apply Hpar.
    + intros _ k b Hp. by apply Hpar.
    + intros p k Hp. by destruct p.
  - unfold h', r. rewrite getOrCreateNode_cons.
    (* the Branch of [l] *)
    pose proof (getOrCreateBranch_spec h l S Ht) as Hgb.
    destruct (Node.getOrCreateBranch l h) as [b h1]. cbn [fst snd] in Hgb |- *.
    assert (∃ kids, btree h1 l b kids ∧ next h ≤ next h1 ∧
              (∀ y, y ∈ b :: kids_fp kids → y ∈ fp S ∨ next h ≤ y) ∧
              (∀ y, y < next h → y ≠ l → cells h1 !! y = cells h !! y) ∧
              n_parent (node l h1) = n_parent (node l h)) as
      (kids & Hbt1 & Hn1 & Hprov1 & Hfr1 & Hp1).
    { destruct Hgb as [(kids & -> & ->)|(_ & -> & Hbt1 & Hm1 & _)].
      - exists kids. split_and!; [by apply btree_tree|lia| |done|done].
        intros y Hy. left. by rewrite fp_branch.
      - exists []. split_and!; [done|apply Hm1| | |].
        + intros y Hy. apply elem_of_cons in Hy as [->|Hy]; [by right|].
          by apply elem_of_nil in Hy.
        + intros y Hy Hyl. by apply (mods_frame _ _ _ _ Hm1).
        + destruct Ht as (_ & Hr & _). destruct (rep_node _ _ _ Hr) as [n Hl].
          destruct (mods_static _ _ _ _ Hm1 _ _ Hl) as (c' & Hc' & Hst).
          unfold node. rewrite Hc', Hl. destruct c' as [n'| |]; try done.
          by destruct Hst as (_ & _ & ->). }
    (* the child under [k] *)
    destruct (getOrCreateNode_spec k h1 l b kids Hbt1)
      as (Sc & kids1 & Hbt2 & Hkid & Hwhich & Hm2 & _ & _ & Hlk).
    destruct (Branch.getOrCreateNode k b h1) as [c h2]. cbn [fst snd] in *.
    destruct (btree_kid _ _ _ _ _ _ _ Hbt2 Hkid)
      as (nc & Hc & Hdc & Hpc & Hrc & Hndc & Hcl & Hcb & HlSc & HbSc).
    destruct (btree_inv _ _ _ _ Hbt2)
      as (n2 & bc2 & Hl2 & Hv2 & Hb2 & _ & _ & Hlb & _ & _ & _).
    assert (tree h2 c Sc) as Htc by (split_and!; [apply Hbt2|done|done]).
    assert (attached h2 c Sc) as Hatc.
    { unfold attached. rewrite (node_lookup _ _ _ Hc), Hpc.
      split_and!; [done| |].
      - intros Hin. apply elem_of_cons in Hin as [?|?]; done.
      - exists bc2. split; [done|]. by rewrite (branch_lookup _ _ _ Hb2) in Hlk. }
    destruct (IH h2 c Sc Htc Hatc) as (Hbd' & Hemp & Hfr & Hpar & Hkey & Hkeys).
    set (h3 := Node.update_empty (Node.getOrCreateNode path c h2).1
                                 (Node.getOrCreateNode path c h2).2) in *.
    assert (∀ y, y < next h → y ∉ l :: fp S → cells h3 !! y = cells h !! y) as Hframe.
    { intros y Hy Hyl.
      assert (y ≠ l) as Hne by (intros ->; apply Hyl; by left).
      assert (y ≠ b) as Hyb.
      { intros ->. destruct (Hprov1 b) as [?|?]; [by left| |lia]. apply Hyl. by right. }
      assert (y ∉ c :: fp Sc) as Hyc.
      { intros Hin.
        destruct Hwhich as [[Hold ->]|(_ & Hcn & -> & _)].
        - destruct (Hprov1 y) as [?|?]; [|by apply Hyl; right|lia].
          right. by eapply (kid_in_kids_fp kids (k, (c, Sc))).
        - simpl in Hcn. subst c. apply elem_of_cons in Hin as [->|Hin]; [lia|].
          by apply elem_of_nil in Hin. }
      rewrite Hfr; [| |done|].
      - rewrite (mods_frame _ _ _ _ Hm2); [by apply Hfr1| |done].
        lia.
      - pose proof (mods_next _ _ _ _ Hm2). lia.
      - intros _ k' b' Hpk. rewrite (node_lookup _ _ _ Hc), Hpc in Hpk.
        by injection Hpk as _ <-. }
    assert (cells h3 !! l = cells h2 !! l) as Hl3.
    { apply Hfr.
      - by eapply bounded_lookup_lt; [apply Hbt2|].
      - intros Hin. apply elem_of_cons in Hin as [?|?]; done.
      - intros _ k' b' Hpk. rewrite (node_lookup _ _ _ Hc), Hpc in Hpk.
        by injection Hpk as _ <-. }
    split_and!.
    + done.
    + unfold empty_at. cbn [Node.getNode].
      rewrite (node_agree l h2 h3 Hl3), (node_lookup _ _ _ Hl2), Hv2.
      destruct (Hpar k b) as [-> | ->]; [by rewrite (node_lookup _ _ _ Hc)| |done].
      apply Hemp.
    + intros y Hy Hyl _. by apply Hframe.
    + intros k0 b0 Hp0.
      destruct Ht as (Hbd & Hr & Hnd). destruct (rep_node _ _ _ Hr) as [n Hl].
      unfold attached in Hat. rewrite Hp0 in Hat.
      destruct Hat as (_ & Hb0 & bc0 & Hbc0 & Hk0).
      assert (cells h3 !! b0 = cells h !! b0) as Hb3.
      { apply Hframe; [by eapply bounded_lookup_lt|done]. }
      rewrite (branch_agree b0 h h3 Hb3), (branch_lookup _ _ _ Hbc0). by left.
    + done.
    + intros p k' Hp. unfold State.readKeys, State.content_at. cbn [keys root].
      destruct p as [|k1 p]; simpl in Hp.
      * injection Hp as -> ->. cbn [Node.getNode].
        rewrite (node_agree l h2 h3 Hl3), (node_lookup _ _ _ Hl2), Hv2.
        apply (Hkey eq_refl k' b). by rewrite (node_lookup _ _ _ Hc).
      * injection Hp as -> ->. cbn [Node.getNode].
        rewrite (node_agree l h2 h3 Hl3), (node_lookup _ _ _ Hl2), Hv2.
        destruct (Hpar k1 b) as [-> | ->]; [by rewrite (node_lookup _ _ _ Hc)| |].
        -- apply (Hkeys p k' eq_refl).
        -- apply not_elem_of_nil.
Qed.

(** ** What a flush leaves in place *)

Lemma cell_kept_refl c : cell_kept c c.
Proof. destruct c; simpl; auto. Qed.

Lemma keeps_same_cells h h' :
  bounded h → next h' = next h →
  (∀ y, match cells h !! y, cells h' !! y with
        | Some c, Some c' => cell_kept c c'
        | None, None => True
        | _, _ => False
        end) →
  keeps h h'.
Proof.
  intros Hbd Hn Hc. split.
  - intros y Hy. specialize (Hc y). rewrite Hn in Hy. rewrite (Hbd y Hy) in Hc.
    by destruct (cells h' !! y).
  - lia.
  - intros y n Hy. specialize (Hc y). rewrite Hy in Hc.
    destruct (cells h' !! y) as [[n'| |]|]; try done. by exists n'.
  - intros y c Hy. specialize (Hc y). rewrite Hy in Hc.
    destruct (cells h' !! y) as [[|c'|]|]; try done. by exists c'.
  - intros y bc Hy. specialize (Hc y). rewrite Hy in Hc.
    destruct (cells h' !! y) as [[| |bc']|]; try done. exists bc'.
    destruct Hc as (? & ? & Hk). split_and!; try done.
    intros k. destruct (Hk k); auto.
  - intros y c' Hy Hy'. specialize (Hc y). by rewrite Hy, Hy' in Hc.
Qed.

Lemma keeps_refl h : bounded h → keeps h h.
Proof.
  intros Hbd. apply keeps_same_cells; [done|done|].
  intros y. destruct (cells h !! y); [apply cell_kept_refl|done].
Qed.

Lemma keeps_trans h h' h'' : keeps h h' → keeps h' h'' → keeps h h''.
Proof.
  intros H1 H2. split.
  - apply H2.
  - pose proof (keeps_next _ _ H1). pose proof (keeps_next _ _ H2). lia.
  - intros y n Hy. destruct (keeps_node _ _ H1 _ _ Hy) as (n' & Hy' & Hv').
    destruct (keeps_node _ _ H2 _ _ Hy') as (n'' & Hy'' & Hv'').
    exists n''. split; [done|congruence].
  - intros y c Hy. destruct (keeps_leaf _ _ H1 _ _ Hy) as (c' & Hy' & Hv').
    destruct (keeps_leaf _ _ H2 _ _ Hy') as (c'' & Hy'' & Hv'').
    exists c''. split; [done|congruence].
  - intros y bc Hy.
    destruct (keeps_branch _ _ H1 _ _ Hy) as (bc' & Hy' & Hk' & Ha' & Hn').
    destruct (keeps_branch _ _ H2 _ _ Hy') as (bc'' & Hy'' & Hk'' & Ha'' & Hn'').
    exists bc''. split_and!; [done|congruence|congruence|].
    intros k. pose proof (keeps_next _ _ H1) as Hlt.
    destruct (Hn'' k) as [Heq|[?|(c & ? & ?)]]; [|by auto|].
    + rewrite Heq. destruct (Hn' k) as [?|[?|?]]; auto.
    + right. right. exists c. split; [done|lia].
  - intros y c'' Hy Hy''. destruct (cells h' !! y) as [c'|] eqn:Hy'.
    + destruct (keeps_new _ _ H1 _ _ Hy Hy') as (Hlt & n' & -> & Hv).
      destruct (keeps_node _ _ H2 _ _ Hy') as (n'' & Hyn & Hv'').
      split; [done|]. exists n''. split; [congruence|congruence].
    + destruct (keeps_new _ _ H2 _ _ Hy' Hy'') as (Hlt & Hn').
      pose proof (keeps_next _ _ H1). split; [lia|done].
Qed.

Lemma keeps_with_subs f h : bounded h → keeps h (with_subs f h).
Proof.
  intros Hbd. apply keeps_same_cells; [done|done|]. simpl.
  intros y. destruct (cells h !! y); [apply cell_kept_refl|done].
Qed.

Lemma keeps_with_notified f h : bounded h → keeps h (with_notified f h).
Proof.
  intros Hbd. apply keeps_same_cells; [done|done|]. simpl.
  intros y. destruct (cells h !! y); [apply cell_kept_refl|done].
Qed.

Lemma keeps_alter (f : Cell → Cell) x h h' :
  bounded h → next h' = next h → cells h' = alter f x (cells h) →
  (∀ c, cell_kept c (f c)) → keeps h h'.
Proof.
  intros Hbd Hn Hc Hf. apply keeps_same_cells; [done|done|].
  intros y. rewrite Hc, lookup_alter. case_decide as Hxy.
  - subst. destruct (cells h !! y); simpl; [apply Hf|done].
  - destruct (cells h !! y); [apply cell_kept_refl|done].
Qed.

Lemma keeps_write_subscribers t f h :
  bounded h → keeps h (Topic.write_subscribers t f h).
Proof.
  intros Hbd. destruct t as [l|l|b]; simpl;
    (eapply keeps_alter; [done|done|done|]); intros [n|c|bc]; simpl; auto.
Qed.

Lemma keeps_tryDetach t h : bounded h → keeps h (Topic.tryDetach t h).
Proof.
  intros Hbd. unfold Topic.tryDetach.
  destruct (Topic.detach t h) as [d|]; [|by apply keeps_refl].
  destruct (_ && _); [|by apply keeps_refl].
  eapply keeps_alter; [done|done|done|].
  intros [n|c|bc]; simpl; auto. split_and!; try done.
  intros k. destruct (decide (k = d.1)) as [->|Hne].
  - right. apply lookup_delete_eq.
  - left. by apply lookup_delete_ne.
Qed.

Lemma keeps_unsubscribe t s h : bounded h → keeps h (Topic.unsubscribe t s h).
Proof.
  intros Hbd. unfold Topic.unsubscribe.
  pose proof (keeps_write_subscribers t (set_delete s) h Hbd) as H1.
  eapply keeps_trans; [exact H1|]. apply keeps_tryDetach, H1.
Qed.

Lemma keeps_subscribe t s h : bounded h → keeps h (Topic.subscribe t s h).
Proof. apply keeps_write_subscribers. Qed.

Lemma keeps_foldl {A} (f : Heap → A → Heap) (xs : list A) :
  (∀ h x, bounded h → keeps h (f h x)) →
  ∀ h, bounded h → keeps h (foldl f h xs).
Proof.
  intros Hf. induction xs as [|x xs IH]; intros h Hbd; [by apply keeps_refl|].
  simpl. eapply keeps_trans; [by apply Hf|]. apply IH. by apply (keeps_bounded h), Hf.
Qed.

Lemma keeps_subscribe_all s h : bounded h → keeps h (subscribe_all s h).
Proof.
  intros Hbd. unfold subscribe_all.
  set (h1 := with_subs _ h).
  assert (keeps h h1) as H1 by (by apply keeps_with_subs).
  eapply keeps_trans; [exact H1|].
  apply keeps_foldl; [|apply H1]. intros. by apply keeps_subscribe.
Qed.

Lemma keeps_unsubscribe_all s h : bounded h → keeps h (unsubscribe_all s h).
Proof.
  intros Hbd. unfold unsubscribe_all.
  set (h1 := with_subs _ h).
  assert (keeps h h1) as H1 by (by apply keeps_with_subs).
  eapply keeps_trans; [exact H1|].
  apply keeps_foldl; [|apply H1]. intros. by apply keeps_unsubscribe.
Qed.

Lemma keeps_createVolatileNode k x h :
  bounded h → keeps h (Branch.createVolatileNode k x h).2.
Proof.
  intros Hbd.
  set (nc := MkNode CUndefined [] (Some (k, x)) (Some (k, x))).
  set (h' := (Branch.createVolatileNode k x h).2).
  assert (cells h' = alter (on_branch (with_nodes (insert k (next h)))) x
                           (<[next h := ONode nc]> (cells h))) as Hc by done.
  assert (next h' = Datatypes.S (next h)) as Hn by done.
  assert (∀ y c, cells h !! y = Some c →
            cells h' !! y = Some (if decide (y = x)
                                  then on_branch (with_nodes (insert k (next h))) c
                                  else c)) as Hold.
  { intros y c Hy. pose proof (bounded_lookup_lt _ _ _ Hbd Hy).
    rewrite Hc, lookup_alter. case_decide as Hxy.
    - subst. rewrite decide_True by done. by rewrite lookup_insert_ne, Hy by lia.
    - rewrite decide_False by done. by rewrite lookup_insert_ne, Hy by lia. }
  split.
  - intros y Hy. rewrite Hn in Hy. rewrite Hc. apply lookup_alter_None.
    rewrite lookup_insert_ne by lia. apply Hbd. lia.
  - lia.
  - intros y n Hy. rewrite (Hold _ _ Hy). exists n. by destruct (decide (y = x)).
  - intros y c Hy. rewrite (Hold _ _ Hy). exists c. by destruct (decide (y = x)).
  - intros y bc Hy. rewrite (Hold _ _ Hy). destruct (decide (y = x)) as [->|Hne].
    + simpl. eexists. split; [done|]. simpl. split_and!; try done. intros k'.
      destruct (decide (k' = k)) as [->|Hne].
      * right. right. exists (next h). by rewrite lookup_insert_eq.
      * left. by rewrite lookup_insert_ne.
    + exists bc. split_and!; auto.
  - intros y c' Hy. rewrite Hc, lookup_alter.
    destruct (decide (y = next h)) as [->|Hne].
    + intros Heq.
      assert (c' = ONode nc) as ->.
      { case_decide as Hx; [subst x; rewrite lookup_insert_eq in Heq; simpl in Heq|];
          rewrite ?lookup_insert_eq in Heq; congruence. }
      split; [done|]. by exists nc.
    + intros Heq. case_decide as Hx; [subst x|];
        rewrite lookup_insert_ne, Hy in Heq by done; done.
Qed.

Lemma keeps_getNodeAndTopics_from path :
  ∀ l topics h, bounded h → keeps h (Node.getNodeAndTopics_from path l topics h).2.
Proof.
  induction path as [|k path IH]; intros l topics h Hbd; [by apply keeps_refl|].
  cbn [Node.getNodeAndTopics_from].
  destruct (n_value (node l h)) as [|t|x]; try by apply keeps_refl.
  destruct (b_nodes (branch x h) !! k) as [c|].
  - by apply IH.
  - pose proof (keeps_createVolatileNode k x h Hbd) as H1.
    destruct (Branch.createVolatileNode k x h) as [c h1]. cbn [snd] in H1.
    eapply keeps_trans; [exact H1|]. apply IH, H1.
Qed.

Lemma keeps_produce fuel p this h : bounded h → keeps h (State.produce fuel p this h).2.
Proof.
  intros Hbd. unfold State.produce, Node.getNodeAndTopics.
  pose proof (keeps_getNodeAndTopics_from (keys this) (root this) [TNode (root this)] h Hbd)
    as H1.
  destruct (Node.getNodeAndTopics_from _ _ _ h) as [[n topics] h1]. cbn [snd] in H1.
  destruct p; [destruct n| |destruct (match n with Some _ => _ | None => _ end)..]; done.
Qed.

Lemma keeps_reaction fuel s h : bounded h → keeps h (State.reaction fuel s h).
Proof.
  intros Hbd. unfold State.reaction.
  pose proof (keeps_unsubscribe_all s h Hbd) as H1.
  set (h1 := unsubscribe_all s h) in *.
  destruct (s_reaction (subscriber s h1)) as [p this].
  pose proof (keeps_produce fuel p this h1 (keeps_bounded _ _ H1)) as H2.
  destruct (State.produce fuel p this h1) as [[v topics] h2]. cbn [snd] in H2.
  eapply keeps_trans; [exact H1|]. eapply keeps_trans; [exact H2|].
  pose proof (keeps_with_subs
                (alter (λ c, MkSubscriber (s_reaction c) (s_subscribed c) topics) s)
                h2 (keeps_bounded _ _ H2)) as H3.
  eapply keeps_trans; [exact H3|]. apply keeps_subscribe_all, H3.
Qed.

Lemma keeps_flush fuel h : bounded h → keeps h (State.flush fuel h).
Proof.
  intros Hbd. unfold State.flush.
  pose proof (keeps_with_notified (λ _, []) h Hbd) as H1.
  eapply keeps_trans; [exact H1|].
  apply keeps_foldl; [|apply H1]. intros h' s Hbd'.
  destruct (s_subscribed _); [by apply keeps_reaction|by apply keeps_refl].
Qed.

Lemma keeps_value h h' l :
  bounded h → keeps h h' → n_value (node l h') = n_value (node l h).
Proof.
  intros Hbd Hk. unfold node. destruct (cells h !! l) as [[n|c|bc]|] eqn:Hl.
  - by destruct (keeps_node _ _ Hk _ _ Hl) as (n' & -> & ->).
  - by destruct (keeps_leaf _ _ Hk _ _ Hl) as (c' & -> & _).
  - by destruct (keeps_branch _ _ Hk _ _ Hl) as (bc' & -> & _).
  - destruct (cells h' !! l) as [c'|] eqn:Hl'; [|done].
    by destruct (keeps_new _ _ Hk _ _ Hl Hl') as (_ & n' & -> & ->).
Qed.

Lemma keeps_nodes h h' x k :
  bounded h → keeps h h' →
  b_nodes (branch x h') !! k = b_nodes (branch x h) !! k ∨
  b_nodes (branch x h') !! k = None ∨
  ∃ c, b_nodes (branch x h') !! k = Some c ∧ next h ≤ c.
Proof.
  intros Hbd Hk. unfold branch. destruct (cells h !! x) as [[n|c|bc]|] eqn:Hx.
  - destruct (keeps_node _ _ Hk _ _ Hx) as (n' & -> & _). by left.
  - destruct (keeps_leaf _ _ Hk _ _ Hx) as (c' & -> & _). by left.
  - destruct (keeps_branch _ _ Hk _ _ Hx) as (bc' & -> & _ & _ & Hn). apply Hn.
  - destruct (cells h' !! x) as [c'|] eqn:Hx'; [|by left].
    destruct (keeps_new _ _ Hk _ _ Hx Hx') as (_ & n' & -> & _). by left.
Qed.

Lemma empty_at_dangling path c h : bounded h → next h ≤ c → empty_at path c h.
Proof.
  intros Hbd Hc. unfold empty_at.
  assert (n_value (node c h) = CUndefined) as Hv.
  { unfold node. by rewrite (Hbd c Hc). }
  destruct path as [|k path]; simpl; [done|]. by rewrite Hv.
Qed.

Lemma empty_at_keeps h h' :
  bounded h → keeps h h' → ∀ path l, empty_at path l h → empty_at path l h'.
Proof.
  intros Hbd Hk. induction path as [|k path IH]; intros l; unfold empty_at.
  - simpl. by rewrite (keeps_value h h' l Hbd Hk).
  - cbn [Node.getNode]. rewrite (keeps_value h h' l Hbd Hk).
    destruct (n_value (node l h)) as [|t|x]; try done.
    destruct (keeps_nodes h h' x k Hbd Hk) as [-> | [-> | (c & -> & Hc)]]; [|done|].
    + destruct (b_nodes (branch x h) !! k) as [c|]; [|done]. apply IH.
    + intros _. apply IH. by apply empty_at_dangling.
Qed.

Lemma keeps_keys h h' x :
  bounded h → keeps h h' → b_keys (branch x h') = b_keys (branch x h).
Proof.
  intros Hbd Hk. unfold branch. destruct (cells h !! x) as [[n|c|bc]|] eqn:Hx.
  - by destruct (keeps_node _ _ Hk _ _ Hx) as (n' & -> & _).
  - by destruct (keeps_leaf _ _ Hk _ _ Hx) as (c' & -> & _).
  - by destruct (keeps_branch _ _ Hk _ _ Hx) as (bc' & -> & -> & _).
  - destruct (cells h' !! x) as [c'|] eqn:Hx'; [|done].
    by destruct (keeps_new _ _ Hk _ _ Hx Hx') as (_ & n' & -> & _).
Qed.

Lemma readKeys_dangling p c h :
  bounded h → next h ≤ c → State.readKeys (MkStateRef c p) h = [].
Proof.
  intros Hbd Hc. unfold State.readKeys, State.content_at. cbn [keys root].
  assert (n_value (node c h) = CUndefined) as Hv.
  { unfold node. by rewrite (Hbd c Hc). }
  destruct p as [|k p]; simpl; by rewrite Hv.
Qed.

Lemma readKeys_keeps h h' :
  bounded h → keeps h h' →
  ∀ p l, State.readKeys (MkStateRef l p) h' = State.readKeys (MkStateRef l p) h ∨
         State.readKeys (MkStateRef l p) h' = [].
Proof.
  intros Hbd Hk. induction p as [|k p IH]; intros l.
  - unfold State.readKeys, State.content_at. cbn [keys root Node.getNode].
    rewrite (keeps_value h h' l Hbd Hk).
    destruct (n_value (node l h)) as [|t|x]; auto.
    left. by apply keeps_keys.
  - assert (∀ hh, State.readKeys (MkStateRef l (k :: p)) hh =
              match n_value (node l hh) with
              | CBranch x => match b_nodes (branch x hh) !! k with
                             | Some c => State.readKeys (MkStateRef c p) hh
                             | None => []
                             end
              | _ => []
              end) as Hunf.
    { intros hh. unfold State.readKeys, State.content_at. cbn [keys root Node.getNode].
      destruct (n_value (node l hh)) as [|t|x]; try done.
      by destruct (b_nodes (branch x hh) !! k). }
    rewrite !Hunf, (keeps_value h h' l Hbd Hk).
    destruct (n_value (node l h)) as [|t|x]; auto.
    destruct (keeps_nodes h h' x k Hbd Hk) as [-> | [-> | (c & -> & Hc)]]; [|by right|].
    + destruct (b_nodes (branch x h) !! k) as [c|]; auto.
    + right. destruct (IH c) as [-> | ->]; [|done]. by apply readKeys_dangling.
Qed.

(** After the facade's [update] with an empty value, nothing is stored at
    the path and the owning Branch has lost the key. *)
Lemma update_empty_read fuel fuel' path r S h :
  tree h r S → n_parent (node r h) = None → n_detach (node r h) = None →
  let st := MkStateRef r path in
  let h' := (State.update fuel VUndefined st h).2 in
  (State.update fuel VUndefined st h).1 = Return () ∧
  State.read (Datatypes.S fuel') st h' = Return VUndefined ∧
  (∀ p k, path = p ++ [k] → k ∉ State.readKeys (MkStateRef r p) h').
Proof.
  intros Ht Hp Hd st h'. unfold h', State.update, State.update_unflushed.
  cbn [validateStateInput st keys root].
  assert (attached h r S) as Hat by (unfold attached; by rewrite Hp).
  destruct (update_empty_at path h r S Ht Hat) as (Hbd' & Hemp & _ & _ & _ & Hkeys).
  destruct (Node.getOrCreateNode path r h) as [n h1]. cbn [fst snd] in *.
  change (Node.update VUndefined n h1) with (Node.update_empty n h1).
  pose proof (keeps_flush fuel _ Hbd') as Hk.
  split_and!; [done| |].
  - apply read_empty_at. cbn [keys root].
    by apply (empty_at_keeps (Node.update_empty n h1)).
  - intros p k Hpk.
    destruct (readKeys_keeps _ _ Hbd' Hk p r) as [-> | ->];
      [by apply Hkeys|apply not_elem_of_nil].
Qed.

(** * The properties *)

(** ** Round trip *)




(** ** Idempotence *)

(** C3, counterexample: the store holds [NaN] after a first [update(NaN)]
    and a component depends on it through [use()]; the second
    [update(NaN)] fires the leaf Topic and marks that subscriber dirty,
    since [NaN !== NaN]. *)
Lemma second_update_with_nan_notifies :
  let h2 := (State.update_unflushed (num nan) top nan_store).2 in
  notified nan_store = [] ∧ notified h2 = [nan_use.1.2] ∧
  log h2 = log nan_store ++ [Fired (TLeaf 1)].
Proof. by vm_compute. Qed.

(** C3, amended: on every proper tree, for every valid value [v] that
    contains no [undefined], no [null] and no [NaN], and for the empty
    value on a Node linked to its parent as [createChild] links it, the second of
    two successive [update]s with [v] leaves the whole store as the first
    left it: no Topic fires and no subscriber is marked dirty. *)
Theorem update_idempotent v h l S :
  wf_value v → tree h l S →
  stable v ∨ (is_empty v = true ∧ linked h l) →
  let h1 := Node.update v l h in
  let h2 := Node.update v l h1 in
  h2 = h1 ∧ log h2 = log h1 ∧ notified h2 = notified h1.
Proof.
  intros Hwf Ht Hv h1 h2.
  assert (h2 = h1) as ->; [|done].
  unfold h2, h1. destruct Hv as [Hs|[He Hl]].
  - by eapply update_twice_stable.
  - rewrite !(is_empty_update v) by done. by apply update_empty_twice.
Qed.

Lemma update_idempotent_witness :
  let h1 := Node.update stable_value 0 fresh_root in
  let h2 := Node.update stable_value 0 h1 in
  h2 = h1 ∧ log h2 = log h1 ∧ notified h2 = notified h1.
Proof.
  apply (update_idempotent stable_value fresh_root 0 SUndefined).
  - repeat constructor; set_solver.
  - apply fresh_root_tree.
  - left. repeat constructor.
Defined.

(** ** Validation *)



(** ** Removal *)

(** C5: after [createState({a: x, b: y})] with atoms [x] and [y],
    [removeKey("a")] leaves [readKeys() = ["b"]], [readSize() = 1] and
    [get("a").readKind()] the kind of an empty position (["undefined"] in
    the source); a kind is one of the four of [StateKind]. *)
Theorem removeKey_semantics (x y : Atomic) (fuel : nat) :
  let v := VRecord [("a", VAtomic x); ("b", VAtomic y)] in
  let h := (createState fuel v empty_heap).2 in
  let h' := State.removeKey fuel "a" top h in
  (createState fuel v empty_heap).1 = (Return (), top) ∧
  State.readKeys top h' = ["b"] ∧
  State.readSize top h' = 1 ∧
  State.readKind (State.get "a" top) h' = KUndefined ∧
  ∀ k : StateKind, k = KAtomic ∨ k = KArray ∨ k = KObject ∨ k = KUndefined.
Proof.
  split_and!; try by vm_compute.
  intros []; auto.
Qed.

(** ** Keys and size where there is no Branch *)

(** C9: when the path ends at a leaf, at an empty Node or nowhere (the
    content found is not a Branch), [readKeys()] is the empty array and
    [readSize()] is 0.  Both are functions of the store alone: they return
    no error and no new store. *)
Theorem keys_and_size_off_branch this h :
  (∀ b, State.content_at this h ≠ CBranch b) →
  State.readKeys this h = [] ∧ State.readSize this h = 0.
Proof.
  intros Hb. unfold State.readKeys, State.readSize.
  destruct (State.content_at this h) as [|t|b]; try done. by destruct (Hb b).
Qed.

Lemma keys_and_size_off_branch_witness :
  State.readKeys (State.get "zz" (State.get "b" top)) (store_of stable_value) = [] ∧
  State.readSize (State.get "zz" (State.get "b" top)) (store_of stable_value) = 0.
Proof.
  apply keys_and_size_off_branch. intros b. by vm_compute.
Defined.

(** ** The facade's update at a path that is there *)

Lemma update_unflushed_at v r path l h :
  wf_value v → Node.getOrCreateNode path r h = (l, h) →
  State.update_unflushed v (MkStateRef r path) h = (Return (), Node.update v l h).
Proof.
  intros Hwf Hp. unfold State.update_unflushed. cbn [keys root].
  by rewrite (validate_wf v Hwf), Hp.
Qed.

(** ** Locality *)

(** C2, counterexample: the sub-value under [a] is the same before and
    after, [NaN] in the first store and [{c: null}] in the second, and a
    Topic under [a] fires all the same (the leaf, as [NaN !== NaN]; the
    keys Topic, as [c] is added and removed again), marking dirty a
    subscriber that depends on that Topic alone. *)
Lemma unchanged_child_fires :
  (let h := nan_child_store in
   let h' := (State.update_unflushed (VRecord [("a", num nan); ("b", num 3)]) top h).2 in
   tree_of 9 h 0 = Some (SBranch 1 [("a", (2, STopic 3)); ("b", (4, STopic 5))]) ∧
   log h' = log h ++ [Fired (TLeaf 3)] ∧ notified h = [] ∧ notified h' = [7]) ∧
  (let h := null_child_store in
   let h' := (State.update_unflushed
                (VRecord [("a", VRecord [("c", VNull)]); ("b", num 3)]) top h).2 in
   tree_of 9 h 0 = Some (SBranch 1 [("a", (2, SBranch 3 [])); ("b", (5, STopic 6))]) ∧
   Fired (TKeys 3) ∈ drop (length (log h)) (log h') ∧ notified h = [] ∧ notified h' = [7]).
Proof.
  split; vm_compute; split_and!; try done. by left.
Qed.

(** C2, amended: in the store built from [{a: {x: 1, y: 2}, b: 3}] with a
    [use()] on each of [a.y], [a], [a.x] and [b], the update with
    [{a: {x: 1, y: 9}, b: 3}] marks dirty exactly the subscribers of [a.y]
    and of [a].  In general, when the facade's update writes a structural
    value [v] to a Node holding a Branch, and the child under [k] already
    holds the entry [x] of [v] at [k], where [x] contains no [undefined],
    no [null] and no [NaN], then no object of that child's subtree changes,
    no Topic of it fires, and the subscribers newly marked dirty are those
    of the Topics that fired elsewhere. *)
Theorem update_is_local :
  (let h' := (State.update_unflushed local_after top local_store).2 in
   notified local_store = [] ∧
   notified h' = [use_ay.1.2; use_a.1.2] ∧
   (use_ax.1.2 ∉ notified h') ∧ use_b.1.2 ∉ notified h') ∧
  ∀ v h r path l b kids k x c Sc,
    wf_value v → structural v →
    Node.getOrCreateNode path r h = (l, h) → btree h l b kids →
    (k, x) ∈ entries v → stable x →
    k ∈ b_keys (branch b h) → (k, (c, Sc)) ∈ kids → holds false h c x →
    let h' := (State.update_unflushed v (MkStateRef r path) h).2 in
    (∀ y, y ∈ c :: fp Sc → cells h' !! y = cells h !! y) ∧
    ∃ evs, log h' = log h ++ evs ∧ Forall (λ e, ev_loc e ∉ c :: fp Sc) evs ∧
      ∀ s, s ∈ notified h' ↔
           s ∈ notified h ∨ ∃ t, Fired t ∈ evs ∧ s ∈ Topic.subscribers t h.
Proof.
  split.
  - vm_compute. split_and!; try done.
    + intros H. repeat (apply elem_of_cons in H as [H|H]; [done|]). by apply elem_of_nil in H.
    + intros H. repeat (apply elem_of_cons in H as [H|H]; [done|]). by apply elem_of_nil in H.
  - intros v h r path l b kids k x c Sc Hwf Hs Hp Hbt Hkx Hst Hk Hkid Hh.
    rewrite (update_unflushed_at v r path l h Hwf Hp). cbn [snd].
    by eapply update_keeps_child.
Qed.

Lemma update_is_local_witness :
  let h' := (State.update_unflushed local_after top local_store).2 in
  (∀ y, y ∈ 8 :: fp (STopic 9) → cells h' !! y = cells local_store !! y) ∧
  ∃ evs, log h' = log local_store ++ evs ∧
    Forall (λ e, ev_loc e ∉ 8 :: fp (STopic 9)) evs ∧
    ∀ s, s ∈ notified h' ↔
         s ∈ notified local_store ∨
         ∃ t, Fired t ∈ evs ∧ s ∈ Topic.subscribers t local_store.
Proof.
  apply (proj2 update_is_local local_after local_store 0 [] 0 1 local_kids
           "b" (num 3) 8 (STopic 9)).
  - repeat constructor; set_solver.
  - done.
  - done.
  - apply btree_tree, (tree_of_sound 9). by vm_compute.
  - simpl. set_solver.
  - by constructor.
  - by vm_compute; set_solver.
  - unfold local_kids. set_solver.
  - by eapply (holds_atomic _ _ _ 9).
Defined.

(** ** Dropped children *)

(** C6, counterexample: [{a: {x: 1}, b: 2}] updated with [{b: 2}].  The
    Node of [a] is emptied, but the Node that was [a.x] still holds its leaf
    Topic and the leaf still holds 1: nothing below the dropped child is
    emptied. *)
Lemma dropped_child_keeps_descendants :
  let h := store_of drop_before in
  let h' := (State.update_unflushed drop_after top h).2 in
  State.read 9 (State.get "x" (State.get "a" top)) h = Return (num 1) ∧
  tree_of 9 h 0 = Some (SBranch 1 drop_kids) ∧
  n_value (node 2 h') = CUndefined ∧
  n_value (node 4 h') = CTopic 5 ∧
  t_value (leaf 5 h') = Some (ANumber 1).
Proof. by vm_compute. Qed.

(** C6, amended: when the facade's update writes a structural value to a
    Node holding a Branch, every child whose key is in the key set and not
    among the keys of the new value has its own content set to empty, its
    key is gone from the keys Topic, and it leaves the [nodes] map exactly
    when it has no subscriber; the objects below it are left as they
    were. *)
Theorem update_clears_dropped_child v h r path l b kids k c Sc :
  wf_value v → structural v →
  Node.getOrCreateNode path r h = (l, h) → btree h l b kids →
  (k, (c, Sc)) ∈ kids → k ∈ b_keys (branch b h) → k ∉ object_keys v →
  let h' := (State.update_unflushed v (MkStateRef r path) h).2 in
  n_value (node c h') = CUndefined ∧
  (k ∉ b_keys (branch b h')) ∧
  b_nodes (branch b h') !! k =
    (if decide (n_subscribers (node c h) = []) then None else Some c) ∧
  (∀ y, y ∈ fp Sc → cells h' !! y = cells h !! y).
Proof.
  intros Hwf Hs Hp Hbt Hkid Hk Hnew.
  rewrite (update_unflushed_at v r path l h Hwf Hp). cbn [snd].
  by eapply update_drops_child.
Qed.

Lemma update_clears_dropped_child_witness :
  let h := store_of drop_before in
  let h' := (State.update_unflushed drop_after top h).2 in
  n_value (node 2 h') = CUndefined ∧
  ("a" ∉ b_keys (branch 1 h')) ∧
  b_nodes (branch 1 h') !! "a" =
    (if decide (n_subscribers (node 2 h) = []) then None else Some 2) ∧
  (∀ y, y ∈ fp (SBranch 3 [("x", (4, STopic 5))]) → cells h' !! y = cells h !! y).
Proof.
  apply (update_clears_dropped_child drop_after (store_of drop_before) 0 [] 0 1 drop_kids).
  - repeat constructor; set_solver.
  - done.
  - done.
  - apply btree_tree, (tree_of_sound 9). by vm_compute.
  - unfold drop_kids. set_solver.
  - vm_compute. set_solver.
  - simpl. set_solver.
Defined.

(** ** useSize *)

(** C7, counterexample: a component calls [useSize()] on [["a", "b"]].
    After [removeKey("0")] the array has the one key ["1"]; the update with
    [["c"]] drops ["1"] and adds ["0"], so the size stays 1 and the
    subscriber is marked dirty.  Likewise the update of [["a", "b"]] with
    [["a", "b", null]] leaves the keys and the size as they were and marks
    the subscriber dirty. *)
Lemma size_subscriber_dirty_at_same_size :
  (let h := State.removeKey 9 "0" top size_store in
   let h' := (State.update_unflushed (VArray [str "c"]) top h).2 in
   State.readSize top h = 1 ∧ State.readSize top h' = 1 ∧
   State.read 9 top h = Return (VArray [str "b"]) ∧
   State.read 9 top h' = Return (VArray [str "c"]) ∧
   s_topics (subscriber size_sub h) = [TNode 0; TKeys 1] ∧
   notified h = [] ∧ notified h' = [size_sub]) ∧
  (let h := size_store in
   let h' := (State.update_unflushed (VArray [str "a"; str "b"; VNull]) top h).2 in
   State.readSize top h = 2 ∧ State.readSize top h' = 2 ∧
   State.readKeys top h' = State.readKeys top h ∧
   notified h = [] ∧ notified h' = [size_sub]).
Proof. by vm_compute. Qed.

(** C7, amended: let [s] be a subscriber with no subscription at the
    children of a Branch or below them (as after [useSize()] on the Node
    holding it).  When the facade's update writes a structural value [v] to
    that Node, [s] is newly marked dirty only if it is subscribed to the
    keys Topic and the update removes a key, adds a key or carries an empty
    entry; in particular not when [v] has the keys of the Branch and no
    empty entry, whatever the values under them.  And an update with a
    value that is not empty at a path that is there, on a part of the tree
    where [s] has no subscription (an element of the array), does not mark
    [s] dirty. *)
Theorem size_subscriber_dirty_on_key_change :
  (∀ v h r path l b kids s,
     wf_value v → structural v →
     Node.getOrCreateNode path r h = (l, h) → btree h l b kids →
     Forall (λ y, ¬ subscribed_at s h y) (kids_fp kids) →
     s ∉ notified h →
     let h' := (State.update_unflushed v (MkStateRef r path) h).2 in
     (s ∈ notified h' →
      s ∈ b_keys_subscribers (branch b h) ∧
      ((∃ k, k ∈ b_keys (branch b h) ∧ k ∉ object_keys v) ∨
       ∃ k x, (k, x) ∈ entries v ∧ (k ∉ b_keys (branch b h) ∨ is_empty x = true))) ∧
     ((∀ k, k ∈ b_keys (branch b h) ↔ k ∈ object_keys v) →
      Forall (λ kx : string * Value, is_empty kx.2 = false) (entries v) →
      s ∉ notified h')) ∧
  (∀ v h r path l S s,
     wf_value v → is_empty v = false →
     Node.getOrCreateNode path r h = (l, h) → tree h l S →
     Forall (λ y, ¬ subscribed_at s h y) (l :: fp S) →
     s ∉ notified h →
     s ∉ notified (State.update_unflushed v (MkStateRef r path) h).2).
Proof.
  assert (∀ s h (ys : list loc), Forall (λ y, ¬ subscribed_at s h y) ys →
            ∀ t, topic_loc t ∈ ys → s ∉ Topic.subscribers t h) as Hdeaf.
  { intros s h ys Hout t Ht Hsub. rewrite Forall_forall in Hout. apply (Hout _ Ht).
    unfold subscribed_at. destruct t; simpl in *; auto. }
  split.
  - intros v h r path l b kids s Hwf Hs Hp Hbt Hout Hn h'. unfold h'. clear h'.
    rewrite (update_unflushed_at v r path l h Hwf Hp). cbn [snd].
    set (h' := Node.update v l h).
    assert (s ∈ notified h' →
            s ∈ b_keys_subscribers (branch b h) ∧
            ((∃ k, k ∈ b_keys (branch b h) ∧ k ∉ object_keys v) ∨
             ∃ k x, (k, x) ∈ entries v ∧ (k ∉ b_keys (branch b h) ∨ is_empty x = true)))
      as Hdirty.
    { intros Hin.
      destruct (update_marks_outside v h l b kids s Hwf Hs Hbt (Hdeaf _ _ _ Hout) Hin)
        as [?|?]; done. }
    split; [done|].
    intros Hkeys Hne Hin.
    destruct (Hdirty Hin) as (_ & [(k & Hk & Hk')|(k & x & Hkx & Hor)]).
    + by apply Hk', Hkeys.
    + rewrite Forall_forall in Hne. specialize (Hne _ Hkx). simpl in Hne.
      destruct Hor as [Hk|He]; [|congruence].
      apply Hk, Hkeys. rewrite <- entries_keys. apply list_elem_of_fmap. by exists (k, x).
  - intros v h r path l S s Hwf Hne Hp Ht Hout Hn.
    rewrite (update_unflushed_at v r path l h Hwf Hp). cbn [snd].
    intros Hin. apply Hn.
    by apply (update_marks_inside v h l S s Hwf Hne Ht (Hdeaf _ _ _ Hout)).
Qed.

Lemma size_subscriber_dirty_on_key_change_witness :
  (let v := VArray [str "c"; str "d"] in
   let h' := (State.update_unflushed v top size_store).2 in
   (size_sub ∈ notified h' →
    size_sub ∈ b_keys_subscribers (branch 1 size_store) ∧
    ((∃ k, k ∈ b_keys (branch 1 size_store) ∧ k ∉ object_keys v) ∨
     ∃ k x, (k, x) ∈ entries v ∧ (k ∉ b_keys (branch 1 size_store) ∨ is_empty x = true))) ∧
   ((∀ k, k ∈ b_keys (branch 1 size_store) ↔ k ∈ object_keys v) →
    Forall (λ kx : string * Value, is_empty kx.2 = false) (entries v) →
    size_sub ∉ notified h')) ∧
  size_sub ∉ notified (State.update_unflushed (str "z") (State.get "1" top) size_store).2.
Proof.
  split.
  - apply (proj1 size_subscriber_dirty_on_key_change (VArray [str "c"; str "d"]) size_store
             0 [] 0 1 size_kids).
    + repeat constructor.
    + done.
    + done.
    + apply btree_tree, (tree_of_sound 9). by vm_compute.
    + vm_compute. repeat constructor; intros [H|[H|H]]; by apply elem_of_nil in H.
    + vm_compute. apply not_elem_of_nil.
  - apply (proj2 size_subscriber_dirty_on_key_change (str "z") size_store
             0 ["1"] 4 (STopic 5)).
    + constructor.
    + done.
    + by vm_compute.
    + apply (tree_of_sound 9). by vm_compute.
    + vm_compute. repeat constructor; intros [H|[H|H]]; by apply elem_of_nil in H.
    + vm_compute. apply not_elem_of_nil.
Defined.

(** ** Detach *)

(** C8, counterexample: on a child Node without value, a subscriber that
    comes and goes twice has the detach callback called twice, and so have
    two [set(undefined)] in a row. *)
Lemma detach_called_twice :
  cells child_store !! 2 = Some (ONode (MkNode CUndefined [] (Some ("k", 1)) (Some ("k", 1)))) ∧
  detach_calls 2 child_store = 0 ∧
  detach_calls 2 (run_ops 2 [OpSubscribe 9; OpUnsubscribe 9; OpSubscribe 9; OpUnsubscribe 9]
                          child_store) = 2 ∧
  detach_calls 2 (run_ops 2 [OpSet CUndefined; OpSet CUndefined] child_store) = 2.
Proof. by vm_compute. Qed.

(** C8, amended: for a Node with a detach callback and any sequence of
    [set], [subscribe] and [unsubscribe] on it, the callback is called once
    at each [set] and each [unsubscribe] that leaves the Node without
    subscriber and without value, and at no other step; [count_detaches]
    counts those steps from the value and the subscribers the Node starts
    with. *)
Theorem detach_called_at_each_empty_state l d ops h n :
  cells h !! l = Some (ONode n) → n_detach n = Some d →
  detach_calls l (run_ops l ops h) =
  detach_calls l h + count_detaches ops (n_value n, n_subscribers n).
Proof.
  revert h n. induction ops as [|op ops IH]; intros h n Hl Hd; [simpl; lia|].
  destruct (run_op_node l n d op h Hl Hd) as (n' & Hl' & Hd' & Hst & Hcalls).
  cbn [run_ops foldl count_detaches]. fold (run_ops l ops (run_op l op h)).
  rewrite (IH _ n' Hl' Hd'), Hcalls, Hst. lia.
Qed.

Lemma detach_called_at_each_empty_state_witness :
  detach_calls 2 (run_ops 2 [OpSubscribe 9; OpSet (CTopic 5); OpUnsubscribe 9; OpSet CUndefined]
                          child_store) =
  detach_calls 2 child_store +
  count_detaches [OpSubscribe 9; OpSet (CTopic 5); OpUnsubscribe 9; OpSet CUndefined]
                 (CUndefined, []).
Proof.
  apply (detach_called_at_each_empty_state 2 ("k", 1) _ child_store
           (MkNode CUndefined [] (Some ("k", 1)) (Some ("k", 1)))).
  - by vm_compute.
  - done.
Defined.

(** ** null *)

Lemma foldl_obind_stuck {A B} (f : A → B → Outcome A) (r : Outcome A) xs :
  (∀ a, r ≠ Return a) → foldl (λ r x, obind r (λ a, f a x)) r xs = r.
Proof.
  revert r. induction xs as [|x xs IH]; intros r Hr; [done|].
  simpl. destruct r as [a| |]; [by destruct (Hr a)|by apply IH..].
Qed.

Lemma foldl_obind_inv {A B} (P : A → Prop) (f : A → B → Outcome A) xs :
  (∀ a x a', P a → f a x = Return a' → P a') →
  ∀ a r, P a → foldl (λ r x, obind r (λ a, f a x)) (Return a) xs = Return r → P r.
Proof.
  intros Hf. induction xs as [|x xs IH]; intros a r Ha Hr; simpl in Hr.
  - by injection Hr as <-.
  - destruct (f a x) as [a'| |] eqn:Hfa.
    + eapply IH; [|done]. by eapply Hf.
    + by rewrite foldl_obind_stuck in Hr.
    + by rewrite foldl_obind_stuck in Hr.
Qed.

Lemma null_free_record fs :
  null_free (VRecord fs) = forallb (λ kx : string * Value, null_free kx.2) fs.
Proof. simpl. induction fs as [|[k x] fs IH]; [done|]. simpl. by rewrite IH. Qed.

Lemma extract_null_free fuel h : ∀ l v, Node.extractValue fuel l h = Return v → null_free v = true.
Proof.
  induction fuel as [|fuel IH]; intros l v Hv; [done|]. simpl in Hv.
  destruct (n_value (node l h)) as [|t|x].
  - by injection Hv as <-.
  - injection Hv as <-. by destruct (t_value (leaf t h)).
  - destruct (b_isArray (branch x h)).
    + match type of Hv with obind ?m _ = _ => destruct m as [r| |] eqn:Hr end; try done.
      simpl in Hv. injection Hv as <-. simpl.
      eapply (foldl_obind_inv (λ r, forallb null_free r = true)) in Hr; [done| |done].
      intros a k a' Ha Hk.
      destruct (b_nodes (branch x h) !! k) as [c|]; [|done].
      destruct (Node.extractValue fuel c h) as [w| |] eqn:Hw; try done.
      simpl in Hk. injection Hk as <-. rewrite forallb_app, Ha. simpl.
      by rewrite (IH _ _ Hw).
    + match type of Hv with obind ?m _ = _ => destruct m as [r| |] eqn:Hr end; try done.
      simpl in Hv. injection Hv as <-. rewrite null_free_record.
      eapply (foldl_obind_inv (λ r, forallb (λ kx : string * Value, null_free kx.2) r = true))
        in Hr; [done| |done].
      intros a k a' Ha Hk.
      destruct (b_nodes (branch x h) !! k) as [c|]; [|done].
      destruct (Node.extractValue fuel c h) as [w| |] eqn:Hw; try done.
      simpl in Hk. injection Hk as <-. rewrite forallb_app, Ha. simpl.
      by rewrite (IH _ _ Hw).
Qed.

(** C10: [update] does with a value what it does with the same value
    with [undefined] for every [null] in it, at the Node and through the
    facade; [read()] never returns a value with a [null] in it; and on a
    proper tree under a root, after the facade's [update(null)] at a path,
    which is the same as [update(undefined)], [read()] at that path
    returns [undefined] and the last key of the path is not among the
    [readKeys()] of the path before it. *)
Theorem null_is_undefined :
  (∀ v l h, Node.update v l h = Node.update (undefined_for_null v) l h) ∧
  (∀ fuel v this h,
     State.update fuel v this h = State.update fuel (undefined_for_null v) this h) ∧
  (∀ fuel this h v, State.read fuel this h = Return v → null_free v = true) ∧
  ∀ fuel fuel' path r S h,
    tree h r S → n_parent (node r h) = None → n_detach (node r h) = None →
    let st := MkStateRef r path in
    let h' := (State.update fuel VNull st h).2 in
    State.update fuel VNull st h = State.update fuel VUndefined st h ∧
    (State.update fuel VNull st h).1 = Return () ∧
    State.read (Datatypes.S fuel') st h' = Return VUndefined ∧
    (∀ p k, path = p ++ [k] → k ∉ State.readKeys (MkStateRef r p) h').
Proof.
  split_and!.
  - apply update_null_undefined.
  - intros fuel v this h. unfold State.update, State.update_unflushed.
    rewrite <- validate_null_undefined.
    destruct (validateStateInput v); try done.
    destruct (Node.getOrCreateNode (keys this) (root this) h) as [n h1].
    by rewrite <- update_null_undefined.
  - intros fuel this h v. unfold State.read.
    destruct (Node.getNode (keys this) (root this) h) as [n|].
    + apply extract_null_free.
    + by intros [= <-].
  - intros fuel fuel' path r S h Ht Hp Hd st h'. split; [done|].
    by apply (update_empty_read fuel fuel' path r S h).
Qed.

Lemma null_is_undefined_witness :
  let st := MkStateRef 0 ["a"; "b"] in
  let h' := (State.update 9 VNull st fresh_root).2 in
  State.update 9 VNull st fresh_root = State.update 9 VUndefined st fresh_root ∧
  (State.update 9 VNull st fresh_root).1 = Return () ∧
  State.read 1 st h' = Return VUndefined ∧
  (∀ p k, ["a"; "b"] = p ++ [k] → k ∉ State.readKeys (MkStateRef 0 p) h').
Proof.
  apply (proj2 (proj2 (proj2 null_is_undefined)) 9 0 ["a"; "b"] 0 SUndefined fresh_root).
  - apply fresh_root_tree.
  - done.
  - done.
Defined.

(** * Further properties *)

(** ** What validation accepts *)





(** ** removeKey where there is no such key *)

(** X2: [removeKey] of a key that the Branch has neither among its keys
    nor in its [nodes] map, or on a path that holds no Branch, leaves the
    whole store as it is: nothing fires and nobody is marked dirty. *)
Theorem removeKey_absent key this h :
  match State.content_at this h with
  | CBranch b => key ∉ b_keys (branch b h) ∧ b_nodes (branch b h) !! key = None
  | _ => True
  end →
  State.removeKey_unflushed key this h = h.
Proof.
  unfold State.removeKey_unflushed.
  destruct (State.content_at this h) as [| |b]; try done.
  intros [Hk Hn]. unfold Branch.removeKey, oset_delete.
  rewrite (set_delete_id key _ Hk), set_keys_same. by rewrite Hn.
Qed.

Lemma removeKey_absent_witness :
  State.removeKey_unflushed "zz" top (store_of stable_value) = store_of stable_value.
Proof.
  apply removeKey_absent. vm_compute. split; [|done].
  intros H. repeat (apply elem_of_cons in H as [H|H]; [done|]). by apply elem_of_nil in H.
Defined.

(** ** Replacing the tree under a child *)

Lemma btree_replace_kid E h1 h2 l b kids1 k c Sc Sc' :
  btree h1 l b kids1 → (k, (c, Sc)) ∈ kids1 →
  tree h2 c Sc' → grown h1 Sc Sc' →
  mods (λ y, y ∈ c :: fp Sc) E h1 h2 →
  btree h2 l b ((k, (c, Sc')) :: others k kids1).
Proof.
  intros Hbt1 Hin1 (Hbd2 & Hr2 & Hnd2) Hprov Hm2.
  destruct (btree_inv _ _ _ _ Hbt1)
    as (n1 & bc1 & Hl1 & Hv1 & Hb1 & Hcov1 & Hk1 & Hlb & Hbk1 & Hlk1 & Hnd1).
  destruct (btree_kid _ _ _ _ _ _ _ Hbt1 Hin1)
    as (nc & Hc1 & Hdet & Hpar & Hrc & Hndc & Hcl & Hcb & Hlc & Hbc).
  destruct Hbt1 as (Hbd1 & Hr1 & Hndt1).
  assert (∀ y, y ∈ l :: b :: kids_fp kids1 → y < next h1) as Hlt1.
  { intros y Hy. eapply (rep_lt h1 l (SBranch b kids1)); [done|done|].
    by rewrite fp_branch. }
  assert (∀ y, y ∉ c :: fp Sc → y < next h1 → cells h2 !! y = cells h1 !! y) as Hframe.
  { intros y Hy Hlt. by apply Hm2. }
  split_and!; [done| |].
  - eapply rep_branch_intro; [|exact Hv1| | |].
    + rewrite Hframe; [done| |apply Hlt1; by left].
      rewrite not_elem_of_cons. split; [done|done].
    + rewrite Hframe; [done| |apply Hlt1; right; by left].
      rewrite not_elem_of_cons. split; [done|done].
    + by eapply cover_replace.
    + apply Forall_cons. split.
      * destruct (mods_static _ _ _ _ Hm2 _ _ Hc1) as (c' & Hc' & Hst).
        destruct c' as [nc'| |]; try done. destruct Hst as (_ & Hd' & Hp').
        unfold kid_ok. simpl. rewrite (node_lookup _ _ _ Hc'). split_and!; congruence.
      * apply Forall_forall. intros kid Hkid.
        apply elem_of_others in Hkid as [Hne Hkid].
        rewrite Forall_forall in Hk1.
        eapply (kid_ok_mods _ _ h1 h2); [exact Hbd1|by apply Hk1|exact Hm2|].
        intros y Hy Hy'. apply Hne.
        assert (kid = (k, (c, Sc))) as ->; [|done].
        by eapply (kids_fp_disjoint kids1 _ _ y).
  - apply (NoDup_replace_kid bc1 kids1 k c Sc Sc' [l; b]); try done.
    intros y Hy. destruct (Hprov _ Hy) as [?|Hge]; [by left|right].
    split.
    + intros Hy'. assert (y < next h1); [|lia]. apply Hlt1.
      apply elem_of_cons in Hy' as [->|Hy']; [by left|].
      apply list_elem_of_singleton in Hy' as ->. right. by left.
    + intros Hy'. assert (y < next h1); [|lia]. apply Hlt1. right. by right.
Qed.

Lemma kids_fp_replace (kids : list Kid) k c Sc Sc' h y :
  (k, (c, Sc)) ∈ kids → grown h Sc Sc' →
  y ∈ kids_fp ((k, (c, Sc')) :: others k kids) → y ∈ kids_fp kids ∨ next h ≤ y.
Proof.
  intros Hin Hg Hy. rewrite kids_fp_cons in Hy. apply elem_of_app in Hy as [Hy|Hy].
  - unfold kid_fp in Hy. simpl in Hy. apply elem_of_cons in Hy as [->|Hy].
    + left. eapply kid_in_kids_fp; [done|]. by left.
    + destruct (Hg _ Hy) as [?|?]; [left|by right].
      eapply kid_in_kids_fp; [done|]. by right.
  - left. by apply elem_of_kids_fp_others in Hy.
Qed.

(** ** The walk of [getNode] in a proper tree *)

Lemma getNode_step h l b kids k path :
  rep h l (SBranch b kids) →
  Node.getNode (k :: path) l h =
    match b_nodes (branch b h) !! k with
    | Some c => Node.getNode path c h
    | None => None
    end.
Proof.
  intros Hr. destruct (rep_branch_inv _ _ _ _ Hr) as (n & bc & Hl & Hv & Hb & _).
  simpl. by rewrite (node_lookup _ _ _ Hl), Hv.
Qed.

Lemma getNode_leaf h l S k path :
  rep h l S → (∀ b kids, S ≠ SBranch b kids) → Node.getNode (k :: path) l h = None.
Proof.
  intros Hr HS. simpl. inversion Hr as [? n Hl Hv|? n t c Hl Hv|? n b]; subst.
  - by rewrite (node_lookup _ _ _ Hl), Hv.
  - by rewrite (node_lookup _ _ _ Hl), Hv.
  - by destruct (HS b kids).
Qed.

Lemma tree_kid h l b kids k c Sc :
  btree h l b kids → (k, (c, Sc)) ∈ kids → tree h c Sc.
Proof.
  intros Hbt Hin.
  destruct (btree_kid _ _ _ _ _ _ _ Hbt Hin) as (nc & _ & _ & _ & Hr & Hnd & _).
  split_and!; [apply Hbt|done|done].
Qed.

Lemma getNode_tree path : ∀ h l S n,
  tree h l S → Node.getNode path l h = Some n →
  ∃ Sn, tree h n Sn ∧ ∀ y, y ∈ n :: fp Sn → y ∈ l :: fp S.
Proof.
  induction path as [|k path IH]; intros h l S n Ht Hn.
  - injection Hn as <-. by exists S.
  - destruct S as [|t|b kids];
      [by rewrite (getNode_leaf h l _ k path (proj1 (proj2 Ht))) in Hn..|].
    rewrite (getNode_step h l b kids) in Hn by apply Ht.
    destruct (b_nodes (branch b h) !! k) as [c|] eqn:Hc; [|done].
    apply btree_tree in Ht.
    destruct (btree_inv _ _ _ _ Ht) as (n0 & bc & _ & _ & Hb & Hcov & _).
    rewrite (branch_lookup _ _ _ Hb) in Hc. apply Hcov in Hc as [Sc Hin].
    destruct (IH h c Sc n (tree_kid _ _ _ _ _ _ _ Ht Hin) Hn) as (Sn & Htn & Hsub).
    exists Sn. split; [done|]. intros y Hy. right. rewrite fp_branch. right.
    eapply kid_in_kids_fp; [done|]. by apply Hsub.
Qed.

Lemma getNode_agree path : ∀ h h' l S,
  tree h l S → (∀ y, y ∈ l :: fp S → cells h' !! y = cells h !! y) →
  Node.getNode path l h' = Node.getNode path l h.
Proof.
  induction path as [|k path IH]; intros h h' l S Ht Hfr; [done|].
  simpl. rewrite (node_agree l h h') by (apply Hfr; by left).
  destruct S as [|t|b kids].
  - destruct Ht as (_ & Hr & _). inversion Hr as [? n Hl Hv| |]; subst.
    by rewrite (node_lookup _ _ _ Hl), Hv.
  - destruct Ht as (_ & Hr & _). inversion Hr as [|? n ? c Hl Hv|]; subst.
    by rewrite (node_lookup _ _ _ Hl), Hv.
  - apply btree_tree in Ht.
    destruct (btree_inv _ _ _ _ Ht) as (n0 & bc & Hl & Hv & Hb & Hcov & _).
    rewrite (node_lookup _ _ _ Hl), Hv.
    rewrite (branch_agree b h h') by (apply Hfr; right; rewrite fp_branch; by left).
    rewrite (branch_lookup _ _ _ Hb).
    destruct (b_nodes bc !! k) as [c|] eqn:Hc; [|done].
    apply Hcov in Hc as [Sc Hin].
    apply (IH h h' c Sc (tree_kid _ _ _ _ _ _ _ Ht Hin)).
    intros y Hy. apply Hfr. right. rewrite fp_branch. right.
    by eapply kid_in_kids_fp.
Qed.

(** What the reads without tracking look at. *)
Lemma reads_agree h h' this S :
  tree h (root this) S → (∀ y, y ∈ root this :: fp S → cells h' !! y = cells h !! y) →
  State.content_at this h' = State.content_at this h ∧
  State.readKind this h' = State.readKind this h ∧
  State.readKeys this h' = State.readKeys this h ∧
  State.readSize this h' = State.readSize this h.
Proof.
  intros Ht Hfr. unfold State.readKind, State.readKeys, State.readSize, State.content_at.
  rewrite (getNode_agree (keys this) h h' (root this) S Ht Hfr).
  destruct (Node.getNode (keys this) (root this) h) as [n|] eqn:Hn; [|done].
  destruct (getNode_tree _ _ _ _ _ Ht Hn) as (Sn & (_ & Hrn & _) & Hsub).
  rewrite (node_agree n h h') by (apply Hfr, Hsub; by left).
  split; [done|].
  inversion Hrn as [? n0 Hl Hv|? n0 t c Hl Hv|? n0 b bc kids Hl Hv Hb]; subst;
    rewrite (node_lookup _ _ _ Hl), Hv; simpl; [done..|].
  rewrite (branch_agree b h h'); [done|].
  apply Hfr, Hsub. right. rewrite fp_branch. by left.
Qed.

Lemma content_step h l b kids k c p :
  rep h l (SBranch b kids) → b_nodes (branch b h) !! k = Some c →
  State.content_at (MkStateRef l (k :: p)) h = State.content_at (MkStateRef c p) h.
Proof.
  intros Hr Hc. unfold State.content_at. cbn [keys root].
  by rewrite (getNode_step h l b kids k p Hr), Hc.
Qed.

Lemma content_off_tree h l S k p :
  rep h l S → (∀ c Sc b kids, S = SBranch b kids → (k, (c, Sc)) ∉ kids) →
  State.content_at (MkStateRef l (k :: p)) h = CUndefined.
Proof.
  intros Hr HS. unfold State.content_at. cbn [keys root].
  destruct S as [|t|b kids]; [by rewrite (getNode_leaf h l _ k p Hr)..|].
  rewrite (getNode_step h l b kids k p Hr).
  destruct (rep_branch_inv _ _ _ _ Hr) as (n & bc & _ & _ & Hb & Hcov & _).
  rewrite (branch_lookup _ _ _ Hb).
  destruct (b_nodes bc !! k) as [c|] eqn:Hc; [|done].
  apply Hcov in Hc as [Sc Hin]. by destruct (HS c Sc b kids eq_refl).
Qed.

Lemma content_of_empty h c p :
  rep h c SUndefined → State.content_at (MkStateRef c p) h = CUndefined.
Proof.
  intros Hr. destruct p as [|k p].
  - unfold State.content_at. simpl. inversion Hr as [? n Hl Hv| |]; subst.
    by rewrite (node_lookup _ _ _ Hl).
  - by apply (content_off_tree h c SUndefined).
Qed.

Lemma grown_trans h h1 S S1 S2 :
  next h ≤ next h1 → grown h S S1 → grown h1 S1 S2 → grown h S S2.
Proof.
  intros Hn H1 H2 y Hy. destruct (H2 y Hy) as [?|?]; [by apply H1|right; lia].
Qed.

Lemma within_trans h h1 h2 l S S1 :
  grown h S S1 → within S l h h1 → within S1 l h1 h2 → within S l h h2.
Proof.
  intros Hg H1 H2. pose proof (mods_next _ _ _ _ H1) as Hn.
  eapply mods_seq; [exact H1|exact H2|done| |done|].
  - intros y Hy Hin. apply elem_of_cons in Hin as [->|Hin]; [by left|].
    destruct (Hg y Hin); [by right|lia].
  - intros e [Hin|?]; [|right; lia].
    apply elem_of_cons in Hin as [->|Hin]; [left; by left|].
    destruct (Hg _ Hin); [left; by right|by right].
Qed.

(** ** An operation at the Node a path leads to *)

Lemma within_at_node upd path :
  within_tree upd →
  ∀ h l S n, tree h l S → Node.getNode path l h = Some n →
  let h' := upd n h in
  ∃ S', tree h' l S' ∧ grown h S S' ∧ within S l h h' ∧
        Node.getNode path l h' = Some n ∧
        (∀ p q, path = p ++ q → q ≠ [] →
           State.content_at (MkStateRef l p) h' = State.content_at (MkStateRef l p) h ∧
           State.readKind (MkStateRef l p) h' = State.readKind (MkStateRef l p) h ∧
           State.readKeys (MkStateRef l p) h' = State.readKeys (MkStateRef l p) h).
Proof.
  intros Hupd. induction path as [|k path IH]; intros h l S n Ht Hn h'.
  - injection Hn as <-. destruct (Hupd h l S Ht) as (S' & Ht' & Hg & Hw).
    exists S'. split_and!; [done..|].
    intros p q Hp Hq. by destruct p, q.
  - destruct S as [|t|b kids];
      [by rewrite (getNode_leaf h l _ k path (proj1 (proj2 Ht))) in Hn..|].
    rewrite (getNode_step h l b kids) in Hn by apply Ht.
    destruct (b_nodes (branch b h) !! k) as [c|] eqn:Hc; [|done].
    apply btree_tree in Ht.
    destruct (btree_inv _ _ _ _ Ht) as (n0 & bc & Hl & Hv & Hb & Hcov & _ & Hlb & _).
    pose proof Hc as Hc0.
    rewrite (branch_lookup _ _ _ Hb) in Hc. apply Hcov in Hc as [Sc Hin].
    destruct (btree_kid _ _ _ _ _ _ _ Ht Hin)
      as (nc & Hcc & _ & _ & _ & _ & Hcl & Hcb & HlSc & HbSc).
    destruct (IH h c Sc n (tree_kid _ _ _ _ _ _ _ Ht Hin) Hn)
      as (Sc' & Htc' & Hg & Hw & Hgn & Hpre).
    fold h' in Htc', Hw, Hgn, Hpre.
    pose proof (btree_replace_kid _ h h' l b kids k c Sc Sc' Ht Hin Htc' Hg Hw) as Hbt'.
    assert (cells h' !! l = cells h !! l) as Hl'.
    { apply (mods_frame _ _ _ _ Hw).
      - by eapply bounded_lookup_lt; [apply Ht|].
      - intros Hy. apply elem_of_cons in Hy as [?|?]; done. }
    assert (cells h' !! b = cells h !! b) as Hb'.
    { apply (mods_frame _ _ _ _ Hw).
      - by eapply bounded_lookup_lt; [apply Ht|].
      - intros Hy. apply elem_of_cons in Hy as [?|?]; done. }
    assert (b_nodes (branch b h') !! k = Some c) as Hc'.
    { by rewrite (branch_agree b h h' Hb'). }
    exists (SBranch b ((k, (c, Sc')) :: others k kids)). split_and!.
    + by apply btree_tree.
    + intros y Hy. rewrite fp_branch in Hy |- *.
      apply elem_of_cons in Hy as [->|Hy]; [left; by left|].
      destruct (kids_fp_replace kids k c Sc Sc' h y Hin Hg Hy); [left; by right|by right].
    + eapply mods_weaken; [exact Hw| |].
      * intros y _ Hy. right. rewrite fp_branch. right. by eapply kid_in_kids_fp.
      * intros e [Hy|?]; [left|by right].
        right. rewrite fp_branch. right. by eapply kid_in_kids_fp.
    + rewrite (getNode_step h' l b _ k path) by apply Hbt'. by rewrite Hc'.
    + intros p q Hp Hq. destruct p as [|k' p]; simpl in Hp.
      * unfold State.readKind, State.readKeys, State.content_at. simpl.
        rewrite (node_agree l h h' Hl'), (node_lookup _ _ _ Hl), Hv. simpl.
        by rewrite (branch_agree b h h' Hb').
      * injection Hp as <- Hp.
        destruct (Hpre p q Hp Hq) as (Hco & Hki & Hke).
        unfold State.readKind, State.readKeys in *.
        rewrite (content_step h' l b _ k c p) by (apply Hbt' || done).
        rewrite (content_step h l b kids k c p) by (apply Ht || done).
        done.
Qed.

(** ** The walk of [getOrCreateNode] in a proper tree *)

Lemma getOrCreateNode_tree path :
  ∀ h l S, tree h l S →
  let r := Node.getOrCreateNode path l h in
  ∃ S1, tree r.2 l S1 ∧ grown h S S1 ∧ within S l h r.2 ∧
        Node.getNode path l r.2 = Some r.1 ∧
        n_value (node r.1 r.2) = State.content_at (MkStateRef l path) h ∧
        getStateKind (n_value (node r.1 r.2)) r.2 = State.readKind (MkStateRef l path) h ∧
        State.readKeys (MkStateRef r.1 []) r.2 = State.readKeys (MkStateRef l path) h ∧
        (∀ p k q, path = p ++ k :: q →
           State.readKeys (MkStateRef l p) r.2 =
             set_add k (State.readKeys (MkStateRef l p) h)) ∧
        (∀ p q, path = p ++ q → q ≠ [] →
           State.readKind (MkStateRef l p) r.2 =
             match State.readKind (MkStateRef l p) h with
             | KArray => KArray
             | _ => KObject
             end).
Proof.
  induction path as [|k path IH]; intros h l S Ht r.
  - exists S. split_and!; [done|by left|by apply mods_refl, Ht|done|done|done|done| |].
    + intros p k q Hp. by destruct p.
    + intros p q Hp Hq. by destruct p, q.
  - unfold r. rewrite getOrCreateNode_cons.
    pose proof (getOrCreateBranch_spec h l S Ht) as Hgb.
    destruct (Node.getOrCreateBranch l h) as [b h1]. cbn [fst snd] in Hgb |- *.
    assert (∃ kids, btree h1 l b kids ∧ grown h S (SBranch b kids) ∧ within S l h h1 ∧
              b_isArray (branch b h1) =
                match State.readKind (MkStateRef l []) h with
                | KArray => true
                | _ => false
                end ∧
              b_keys (branch b h1) = State.readKeys (MkStateRef l []) h ∧
              ((S = SBranch b kids ∧ h1 = h) ∨
               ((∀ b' kids', S ≠ SBranch b' kids') ∧ kids = [])))
      as (kids & Hbt1 & Hg1 & Hw1 & Ha1 & Hk1 & Hcase1).
    { destruct Hgb as [(kids & -> & ->)|(HS & -> & Hbt1 & Hm1 & Hbr)].
      - exists kids. apply btree_tree in Ht.
        destruct (btree_inv _ _ _ _ Ht) as (n0 & bc & Hl & Hv & _).
        unfold State.readKind, State.readKeys, State.content_at. simpl.
        rewrite (node_lookup _ _ _ Hl), Hv. simpl.
        split_and!; [done|by left|by apply mods_refl, Ht| |done|by left].
        by destruct (b_isArray _).
      - exists []. split_and!; [done| | | | |by right].
        + intros y Hy. rewrite fp_branch in Hy. right.
          apply elem_of_cons in Hy as [->|Hy]; [done|]. by apply elem_of_nil in Hy.
        + eapply mods_weaken; [exact Hm1| |].
          * intros y _ ->. by left.
          * intros e ->. left. by left.
        + rewrite Hbr. unfold State.readKind, State.content_at. simpl.
          destruct Ht as (_ & Hr & _).
          inversion Hr as [? n Hl Hv|? n t c Hl Hv|? n b']; subst;
            [by rewrite (node_lookup _ _ _ Hl), Hv..|].
          by destruct (HS b' kids).
        + rewrite Hbr. unfold State.readKeys, State.content_at. simpl.
          destruct Ht as (_ & Hr & _).
          inversion Hr as [? n Hl Hv|? n t c Hl Hv|? n b']; subst;
            [by rewrite (node_lookup _ _ _ Hl), Hv..|].
          by destruct (HS b' kids). }
    destruct (getOrCreateNode_spec k h1 l b kids Hbt1)
      as (Sc & kids1 & Hbt2 & Hkid & Hwhich & Hm2 & Hks2 & Ha2 & Hlk).
    destruct (Branch.getOrCreateNode k b h1) as [c h2]. cbn [fst snd] in *.
    pose proof (tree_kid _ _ _ _ _ _ _ Hbt2 Hkid) as Htc.
    destruct (IH h2 c Sc Htc) as (Sc' & Htc' & Hg & Hw & Hgn & Hval & Hkind & Hks & Hkeys & Hkinds).
    set (r3 := Node.getOrCreateNode path c h2) in *.
    pose proof (btree_replace_kid _ h2 r3.2 l b kids1 k c Sc Sc' Hbt2 Hkid Htc' Hg Hw) as Hbt3.
    destruct (btree_inv _ _ _ _ Hbt2) as (n2 & bc2 & Hl2 & Hv2 & Hb2 & Hcov2 & _ & Hlb & _).
    destruct (btree_kid _ _ _ _ _ _ _ Hbt2 Hkid)
      as (nc & Hcc & _ & _ & Hrc & _ & Hcl & Hcb & HlSc & HbSc).
    pose proof (mods_next _ _ _ _ Hw1) as Hn1.
    pose proof (mods_next _ _ _ _ Hm2) as Hn2.
    assert (cells r3.2 !! l = cells h2 !! l) as Hl3.
    { apply (mods_frame _ _ _ _ Hw).
      - by eapply bounded_lookup_lt; [apply Hbt2|].
      - intros Hy. apply elem_of_cons in Hy as [?|?]; done. }
    assert (cells r3.2 !! b = cells h2 !! b) as Hb3.
    { apply (mods_frame _ _ _ _ Hw).
      - by eapply bounded_lookup_lt; [apply Hbt2|].
      - intros Hy. apply elem_of_cons in Hy as [?|?]; done. }
    assert (b_nodes (branch b r3.2) !! k = Some c) as Hc3.
    { by rewrite (branch_agree b h2 r3.2 Hb3). }
    assert (grown h1 (SBranch b kids) (SBranch b kids1)) as Hg2.
    { intros y Hy. destruct Hwhich as [[_ ->]|(_ & _ & _ & ->)]; [by left|].
      rewrite fp_branch in Hy |- *. rewrite kids_fp_cons in Hy.
      apply elem_of_cons in Hy as [->|Hy]; [left; by left|].
      apply elem_of_app in Hy as [Hy|Hy]; [|left; by right].
      unfold kid_fp in Hy. simpl in Hy. apply list_elem_of_singleton in Hy as ->.
      by right. }
    assert (within (SBranch b kids) l h1 h2) as Hw2.
    { eapply mods_weaken; [exact Hm2| |].
      - intros y _ ->. right. rewrite fp_branch. by left.
      - intros e [-> _]. left. right. rewrite fp_branch. by left. }
    assert (grown h2 (SBranch b kids1) (SBranch b ((k, (c, Sc')) :: others k kids1))) as Hg3.
    { intros y Hy. rewrite fp_branch in Hy |- *.
      apply elem_of_cons in Hy as [->|Hy]; [left; by left|].
      destruct (kids_fp_replace kids1 k c Sc Sc' h2 y Hkid Hg Hy); [left; by right|by right]. }
    assert (within (SBranch b kids1) l h2 r3.2) as Hw3.
    { eapply mods_weaken; [exact Hw| |].
      - intros y _ Hy. right. rewrite fp_branch. right. by eapply kid_in_kids_fp.
      - intros e [Hy|?]; [left|by right].
        right. rewrite fp_branch. right. by eapply kid_in_kids_fp. }
    (* what is read below [c] is what was read below [k] *)
    assert (∀ p, State.content_at (MkStateRef c p) h2 = State.content_at (MkStateRef l (k :: p)) h ∧
                 State.readKind (MkStateRef c p) h2 = State.readKind (MkStateRef l (k :: p)) h ∧
                 State.readKeys (MkStateRef c p) h2 = State.readKeys (MkStateRef l (k :: p)) h)
      as Hdesc.
    { intros p. destruct Hwhich as [[Hold ->]|(Hnew & -> & -> & ->)].
      - destruct Hcase1 as [[-> ->]|[_ ->]]; [|by apply elem_of_nil in Hold].
        destruct (reads_agree h h2 (MkStateRef c p) Sc) as (Hco & Hki & Hke & _).
        { by eapply tree_kid. }
        { intros y Hy. apply (mods_frame _ _ _ _ Hm2).
          - eapply rep_lt; [apply Hbt1| |exact Hy].
            by destruct (btree_kid _ _ _ _ _ _ _ Hbt1 Hold) as (? & ? & ? & ? & ? & _).
          - intros ->. apply elem_of_cons in Hy as [?|?]; done. }
        rewrite Hco, Hki, Hke. unfold State.readKind, State.readKeys.
        by rewrite (content_step h l b kids k c p);
          [|apply Hbt1|by eapply btree_lookup_kid].
      - rewrite (content_of_empty h2 (next h1) p Hrc).
        assert (State.content_at (MkStateRef l (k :: p)) h = CUndefined) as Hu.
        { apply (content_off_tree h l S); [apply Ht|].
          intros c' Sc0 b' kids' -> Hin.
          destruct Hcase1 as [[[= <- <-] _]|[HS _]]; [|by destruct (HS b' kids')].
          by apply (Hnew _ Hin). }
        unfold State.readKind, State.readKeys. rewrite Hu. split; [done|].
        by rewrite (content_of_empty h2 (next h1) p Hrc). }
    exists (SBranch b ((k, (c, Sc')) :: others k kids1)). split_and!.
    + by apply btree_tree.
    + apply (grown_trans h h1 S (SBranch b kids)); [lia|done|].
      apply (grown_trans h1 h2 _ (SBranch b kids1)); [lia|done|done].
    + eapply within_trans; [exact Hg1|exact Hw1|].
      eapply within_trans; [exact Hg2|exact Hw2|exact Hw3].
    + rewrite (getNode_step r3.2 l b _ k path) by apply Hbt3. by rewrite Hc3.
    + rewrite Hval. apply Hdesc.
    + rewrite Hkind. apply Hdesc.
    + rewrite Hks. apply Hdesc.
    + intros p k' q Hp. destruct p as [|k0 p]; simpl in Hp.
      * injection Hp as <- Hp. unfold State.readKeys at 1. unfold State.content_at. simpl.
        rewrite (node_agree l h2 r3.2 Hl3), (node_lookup _ _ _ Hl2), Hv2.
        by rewrite (branch_agree b h2 r3.2 Hb3), Hks2, Hk1.
      * injection Hp as <- Hp. unfold State.readKeys at 1.
        rewrite (content_step r3.2 l b _ k c p) by (apply Hbt3 || done).
        fold (State.readKeys (MkStateRef c p) r3.2).
        rewrite (Hkeys p k' q Hp). by rewrite (proj2 (proj2 (Hdesc p))).
    + intros p q Hp Hq. destruct p as [|k0 p]; simpl in Hp.
      * unfold State.readKind at 1. unfold State.content_at. simpl.
        rewrite (node_agree l h2 r3.2 Hl3), (node_lookup _ _ _ Hl2), Hv2. simpl.
        rewrite (branch_agree b h2 r3.2 Hb3), Ha2, Ha1.
        by destruct (State.readKind (MkStateRef l []) h).
      * injection Hp as <- Hp. unfold State.readKind at 1.
        rewrite (content_step r3.2 l b _ k c p) by (apply Hbt3 || done).
        fold (State.readKind (MkStateRef c p) r3.2).
        rewrite (Hkinds p q Hp Hq). by rewrite (proj1 (proj2 (Hdesc p))).
Qed.

(** ** Operations that stay inside the tree *)

Lemma getOrCreateBranch_within h l S :
  tree h l S →
  let r := Node.getOrCreateBranch l h in
  ∃ kids, btree r.2 l r.1 kids ∧ grown h S (SBranch r.1 kids) ∧ within S l h r.2 ∧
          ((S = SBranch r.1 kids ∧ r.2 = h) ∨
           ((∀ b' kids', S ≠ SBranch b' kids') ∧ kids = [] ∧ branch r.1 r.2 = empty_branch)).
Proof.
  intros Ht r. destruct (getOrCreateBranch_spec h l S Ht) as
    [(kids & HS & Hh)|(HS & Hb & Hbt1 & Hm1 & Hbr)]; fold r in HS, Hh || fold r in Hb, Hbt1, Hm1, Hbr.
  - exists kids. rewrite Hh. rewrite HS in Ht.
    split_and!; [by apply btree_tree| |by apply mods_refl, Ht|by left].
    rewrite HS. by left.
  - exists []. split_and!; [done| | |by right].
    + intros y Hy. rewrite fp_branch in Hy. right.
      apply elem_of_cons in Hy as [->|Hy]; [by rewrite Hb|]. by apply elem_of_nil in Hy.
    + eapply mods_weaken; [exact Hm1| |].
      * intros y _ ->. by left.
      * intros e ->. left. by left.
Qed.

Lemma within_update v : wf_value v → is_empty v = false → within_tree (Node.update v).
Proof.
  intros Hwf Hne h l S Ht.
  destruct (update_spec false v Hwf Hne h l S Ht) as (S' & Ht' & Hg & Hm & _); [done|].
  by exists S'.
Qed.

Lemma within_update_under x k : wf_value x → within_tree (update_under x k).
Proof.
  intros Hwf h l S Ht. unfold update_under.
  destruct (getOrCreateBranch_within h l S Ht) as (kids & Hbt1 & Hg1 & Hw1 & _).
  destruct (Node.getOrCreateBranch l h) as [b h1]. cbn [fst snd] in *.
  destruct (update_child_spec false k x h1 l b kids) as (kids' & Hbt' & Hprov & Hm & _);
    [by intros; apply update_spec|done|done|].
  set (h' := Node.update_child (Node.update x) k b h1) in *.
  pose proof (mods_next _ _ _ _ Hw1) as Hn1.
  exists (SBranch b kids'). split_and!.
  - by apply btree_tree.
  - apply (grown_trans h h1 S (SBranch b kids)); [done|done|].
    intros y Hy. rewrite fp_branch in Hy |- *.
    apply elem_of_cons in Hy as [->|Hy]; [left; by left|].
    destruct (Hprov y Hy); [left; by right|by right].
  - eapply within_trans; [exact Hg1|exact Hw1|].
    eapply mods_weaken; [exact Hm| |].
    + intros y _ [->|(kid & Hkid & _ & Hy)]; right; rewrite fp_branch; [by left|right].
      by eapply kid_in_kids_fp.
    + intros e [[-> _]|[(kid & Hkid & _ & Hy)|?]]; [left|left|by right];
        right; rewrite fp_branch; [by left|right].
      by eapply kid_in_kids_fp.
Qed.



Lemma root_clear h l S :
  tree h l S → is_root l h →
  tree (Node.update_empty l h) l SUndefined ∧ within S l h (Node.update_empty l h) ∧
  n_value (node l (Node.update_empty l h)) = CUndefined.
Proof.
  intros (Hbd & Hr & Hnd) [Hp Hd]. unfold Node.update_empty. rewrite Hp.
  destruct (rep_node _ _ _ Hr) as [n Hl].
  pose proof (mods_node_clear l n h Hbd Hl) as Hm.
  rewrite (node_lookup _ _ _ Hl) in Hd.
  assert (detaches n = false) as Hdet.
  { unfold detaches. rewrite Hd. rewrite andb_false_iff. right.
    apply bool_decide_eq_false. by intros [? ?]. }
  assert (node l (Node.set l CUndefined h) = with_value CUndefined n) as Hn'.
  { rewrite (node_after_clear l n l h Hl). by rewrite decide_True. }
  split_and!.
  - split_and!; [apply Hm| |apply NoDup_singleton].
    destruct (mods_static _ _ _ _ Hm _ _ Hl) as (c' & Hc' & Hst).
    destruct c' as [n'| |]; try done.
    eapply rep_undefined; [done|].
    rewrite <- (node_lookup _ _ _ Hc'). by rewrite Hn'.
  - eapply mods_weaken; [exact Hm| |].
    + intros y _ [->|[Hf _]]; [by left|congruence].
    + intros e [[-> _]|[_ Hf]]; [left; by left|congruence].
  - by rewrite Hn'.
Qed.

Lemma getOrCreateNode_app p k : ∀ l h,
  Node.getOrCreateNode (p ++ [k]) l h =
  Branch.getOrCreateNode k
    (Node.getOrCreateBranch (Node.getOrCreateNode p l h).1 (Node.getOrCreateNode p l h).2).1
    (Node.getOrCreateBranch (Node.getOrCreateNode p l h).1 (Node.getOrCreateNode p l h).2).2.
Proof.
  induction p as [|k' p IH]; intros l h.
  - simpl. destruct (Node.getOrCreateBranch l h) as [b h1]. simpl.
    by destruct (Branch.getOrCreateNode k b h1).
  - rewrite <- app_comm_cons, !getOrCreateNode_cons. apply IH.
Qed.

Lemma update_at_snoc x p k l h :
  Node.update x (Node.getOrCreateNode (p ++ [k]) l h).1 (Node.getOrCreateNode (p ++ [k]) l h).2
  = update_under x k (Node.getOrCreateNode p l h).1 (Node.getOrCreateNode p l h).2.
Proof.
  rewrite getOrCreateNode_app. unfold update_under, Node.update_child.
  by destruct (Branch.getOrCreateNode k _ _).
Qed.

(** ** An operation at the end of a path *)

Lemma update_at_path upd path :
  within_tree upd →
  ∀ h l S, tree h l S →
  let r := Node.getOrCreateNode path l h in
  let h' := upd r.1 r.2 in
  ∃ S' Sn, tree h' l S' ∧ grown h S S' ∧ within S l h h' ∧
    Node.getNode path l h' = Some r.1 ∧
    tree r.2 r.1 Sn ∧ next h ≤ next r.2 ∧
    n_value (node r.1 r.2) = State.content_at (MkStateRef l path) h ∧
    getStateKind (n_value (node r.1 r.2)) r.2 = State.readKind (MkStateRef l path) h ∧
    State.readKeys (MkStateRef r.1 []) r.2 = State.readKeys (MkStateRef l path) h ∧
    (∀ p k q, path = p ++ k :: q →
       State.readKeys (MkStateRef l p) h' = set_add k (State.readKeys (MkStateRef l p) h)) ∧
    (∀ p q, path = p ++ q → q ≠ [] →
       State.readKind (MkStateRef l p) h' =
         match State.readKind (MkStateRef l p) h with
         | KArray => KArray
         | _ => KObject
         end).
Proof.
  intros Hupd h l S Ht r h'.
  destruct (getOrCreateNode_tree path h l S Ht)
    as (S1 & Ht1 & Hg1 & Hw1 & Hgn1 & Hval & Hkind & Hks & Hkeys & Hkinds).
  fold r in Ht1, Hw1, Hgn1, Hval, Hkind, Hks, Hkeys, Hkinds.
  destruct (within_at_node upd path Hupd r.2 l S1 r.1 Ht1 Hgn1)
    as (S' & Ht' & Hg & Hw & Hgn & Hpre).
  fold h' in Ht', Hw, Hgn, Hpre.
  destruct (getNode_tree path r.2 l S1 r.1 Ht1 Hgn1) as (Sn & Htn & _).
  pose proof (mods_next _ _ _ _ Hw1) as Hn1.
  exists S', Sn. split_and!; try done.
  - by apply (grown_trans h r.2 S S1).
  - by eapply within_trans.
  - intros p k q Hp. rewrite (proj2 (proj2 (Hpre p (k :: q) Hp ltac:(done)))).
    by apply (Hkeys p k q).
  - intros p q Hp Hq. rewrite (proj1 (proj2 (Hpre p q Hp Hq))). by apply (Hkinds p q).
Qed.

Lemma within_is_root S l h h' : tree h l S → within S l h h' → is_root l h → is_root l h'.
Proof.
  intros (_ & Hr & _) Hw [Hp Hd]. destruct (rep_node _ _ _ Hr) as [n Hl].
  destruct (mods_static _ _ _ _ Hw _ _ Hl) as (c' & Hc' & Hst).
  destruct c' as [n'| |]; try done. destruct Hst as (_ & Hd' & Hp').
  unfold is_root. rewrite (node_lookup _ _ _ Hl) in Hp, Hd.
  rewrite (node_lookup _ _ _ Hc'). split; congruence.
Qed.

Lemma update_unflushed_snd v this h :
  wf_value v →
  State.update_unflushed v this h =
    (Return (), Node.update v (Node.getOrCreateNode (keys this) (root this) h).1
                              (Node.getOrCreateNode (keys this) (root this) h).2).
Proof.
  intros Hwf. unfold State.update_unflushed. rewrite (validate_wf v Hwf).
  by destruct (Node.getOrCreateNode _ _ _).
Qed.

Lemma update_unflushed_tree v this h S :
  wf_value v → tree h (root this) S → is_root (root this) h →
  let h' := (State.update_unflushed v this h).2 in
  ∃ S', tree h' (root this) S' ∧ grown h S S' ∧ within S (root this) h h'.
Proof.
  intros Hwf Ht Hroot h'. unfold h'. rewrite (update_unflushed_snd v this h Hwf). cbn [snd].
  destruct this as [l path]. cbn [root keys] in *.
  destruct path as [|k path _] using rev_ind.
  - simpl. destruct (is_empty v) eqn:He.
    + rewrite (is_empty_update v l h He).
      destruct (root_clear h l S Ht Hroot) as (Ht' & Hw & _).
      exists SUndefined. split_and!; [done| |done]. intros y Hy. simpl in Hy. by apply elem_of_nil in Hy.
    + apply (within_update v Hwf He h l S Ht).
  - rewrite update_at_snoc.
    destruct (update_at_path (update_under v k) path (within_update_under v k Hwf) h l S Ht)
      as (S' & _ & Ht' & Hg & Hw & _).
    by exists S'.
Qed.

(** ** The facade's update at any path *)

Lemma is_root_attached h l S : is_root l h → attached h l S.
Proof. intros [Hp Hd]. unfold attached. by rewrite Hp. Qed.

Lemma stable_store_tree : tree (store_of stable_value) 0 stable_shape.
Proof. apply (tree_of_sound 9). by vm_compute. Qed.

Lemma holds_kind exact h l v :
  holds exact h l v → getStateKind (n_value (node l h)) h = kind_of v.
Proof.
  inversion 1 as [? t a Hv|? b xs Hv Ha|? b fs Hv Ha]; subst; rewrite Hv; simpl;
    [done|by rewrite Ha..].
Qed.

Lemma holds_keys exact h l v :
  holds exact h l v →
  key_rel exact (match n_value (node l h) with
                 | CBranch b => b_keys (branch b h)
                 | _ => []
                 end) (live_keys (entries v)).
Proof.
  inversion 1 as [? t a Hv|? b xs Hv Ha Hk|? b fs Hv Ha Hk]; subst; rewrite Hv; simpl;
    [|done..].
  by destruct exact.
Qed.

(** What [update] with a value that is not empty leaves at the end of the
    path. *)
Lemma update_unflushed_holds v this h S :
  wf_value v → is_empty v = false → tree h (root this) S →
  let h' := (State.update_unflushed v this h).2 in
  ∃ n, Node.getNode (keys this) (root this) h' = Some n ∧ holds false h' n v ∧
       ((∀ b, State.content_at this h ≠ CBranch b) → holds true h' n v).
Proof.
  intros Hwf Hne Ht h'. unfold h'. rewrite (update_unflushed_snd v this h Hwf). cbn [snd].
  destruct this as [l path]. cbn [root keys] in *.
  destruct (update_at_path (Node.update v) path (within_update v Hwf Hne) h l S Ht)
    as (S' & Sn & Ht' & _ & _ & Hgn & Htn & _ & Hval & _).
  set (r := Node.getOrCreateNode path l h) in *.
  exists r.1. split; [done|]. split.
  - by destruct (update_spec false v Hwf Hne r.2 r.1 Sn Htn) as (? & _ & _ & _ & Hh).
  - intros Hb.
    destruct (update_spec true v Hwf Hne r.2 r.1 Sn Htn) as (? & _ & _ & _ & Hh); [|done].
    intros _ b kids ->. destruct Htn as (_ & Hr & _).
    destruct (rep_branch_inv _ _ _ _ Hr) as (n & bc & Hl & Hv & _).
    apply (Hb b). by rewrite <- Hval, (node_lookup _ _ _ Hl).
Qed.

Lemma update_unflushed_empty v this h S :
  wf_value v → is_empty v = true → tree h (root this) S → is_root (root this) h →
  State.content_at this (State.update_unflushed v this h).2 = CUndefined.
Proof.
  intros Hwf He Ht Hroot. rewrite (update_unflushed_snd v this h Hwf). cbn [snd].
  rewrite (is_empty_update v _ _ He).
  destruct (update_empty_at (keys this) h (root this) S Ht (is_root_attached _ _ _ Hroot))
    as (_ & Hemp & _).
  unfold empty_at in Hemp. unfold State.content_at.
  by destruct (Node.getNode _ _ _).
Qed.

(** X3: in a store where the root heads a proper tree, the mutation of the
    facade's [update] with a valid value, at any path, leaves a proper tree
    under the root, made of objects of the old tree and of new ones, and
    leaves the root a root.  Every object outside the tree is unchanged, no
    subscriber record and no Topic's subscriber set changes, and each event
    logged is at an object of the old tree or at a new one. *)
Theorem update_keeps_root_tree v this h S :
  wf_value v → tree h (root this) S → is_root (root this) h →
  let h' := (State.update_unflushed v this h).2 in
  (State.update_unflushed v this h).1 = Return () ∧
  (∃ S', tree h' (root this) S' ∧ ∀ y, y ∈ fp S' → y ∈ fp S ∨ next h ≤ y) ∧
  is_root (root this) h' ∧
  (∀ y, y < next h → y ∉ root this :: fp S → cells h' !! y = cells h !! y) ∧
  subs h' = subs h ∧
  (∀ t, Topic.subscribers t h' = Topic.subscribers t h) ∧
  ∃ evs, log h' = log h ++ evs ∧
         Forall (λ e, ev_loc e ∈ root this :: fp S ∨ next h ≤ ev_loc e) evs.
Proof.
  intros Hwf Ht Hroot h'.
  destruct (update_unflushed_tree v this h S Hwf Ht Hroot) as (S' & Ht' & Hg & Hw).
  fold h' in Ht', Hw. split_and!.
  - by rewrite (update_unflushed_snd v this h Hwf).
  - by exists S'.
  - by apply (within_is_root S _ h h').
  - intros y Hy Hout. by apply (mods_frame _ _ _ _ Hw).
  - apply Hw.
  - intros t. by eapply mods_subscribers.
  - destruct (mods_log _ _ _ _ Hw) as (evs & Hlog & HE & _). by exists evs.
Qed.

Lemma update_keeps_root_tree_witness :
  let this := MkStateRef 0 ["a"; "z"] in
  let v := VRecord [("c", VNull)] in
  let h := store_of stable_value in
  let h' := (State.update_unflushed v this h).2 in
  (State.update_unflushed v this h).1 = Return () ∧
  (∃ S', tree h' 0 S' ∧ ∀ y, y ∈ fp S' → y ∈ fp stable_shape ∨ next h ≤ y) ∧
  is_root 0 h' ∧
  (∀ y, y < next h → y ∉ 0 :: fp stable_shape → cells h' !! y = cells h !! y) ∧
  subs h' = subs h ∧
  (∀ t, Topic.subscribers t h' = Topic.subscribers t h) ∧
  ∃ evs, log h' = log h ++ evs ∧
         Forall (λ e, ev_loc e ∈ 0 :: fp stable_shape ∨ next h ≤ ev_loc e) evs.
Proof.
  apply (update_keeps_root_tree (VRecord [("c", VNull)]) (MkStateRef 0 ["a"; "z"])
           (store_of stable_value) stable_shape).
  - repeat constructor; set_solver.
  - apply (tree_of_sound 9). by vm_compute.
  - by vm_compute.
Defined.



(** X5: after the facade's [update] with a valid value at any path, whatever
    was there before, [readKind()] at that path is the kind of the value and
    [readKeys()] has exactly the keys of its entries that are not empty; an
    atom is read back as it is.  Where no object or array was before, the
    keys come in the order of the value and [readSize()] is their number. *)
Theorem update_then_kind_and_keys v this h S :
  wf_value v → tree h (root this) S → is_root (root this) h →
  let h' := (State.update_unflushed v this h).2 in
  State.readKind this h' = kind_of v ∧
  (∀ k, k ∈ State.readKeys this h' ↔ k ∈ live_keys (entries v)) ∧
  (∀ a fuel, v = VAtomic a → State.read (Datatypes.S fuel) this h' = Return v) ∧
  ((∀ b, State.content_at this h ≠ CBranch b) →
   State.readKeys this h' = live_keys (entries v) ∧
   State.readSize this h' = length (live_keys (entries v))).
Proof.
  intros Hwf Ht Hroot h'. destruct (is_empty v) eqn:He.
  - pose proof (update_unflushed_empty v this h S Hwf He Ht Hroot) as Hc. fold h' in Hc.
    unfold State.readKind, State.readKeys, State.readSize. rewrite Hc.
    assert (live_keys (entries v) = []) as -> by (by destruct v).
    split_and!; [by destruct v|done|by intros a fuel ->|done].
  - destruct (update_unflushed_holds v this h S Hwf He Ht) as (n & Hn & Hh & Hex).
    fold h' in Hn, Hh, Hex.
    unfold State.readKind, State.readKeys, State.readSize, State.content_at, State.read.
    rewrite Hn. split_and!.
    + by eapply holds_kind.
    + apply (holds_keys false h' n v Hh).
    + intros a fuel ->. inversion Hh as [? t ? Hv Ha| |]; subst. simpl.
      by rewrite Hv, Ha.
    + intros Hb. pose proof (holds_keys true h' n v (Hex Hb)) as Hk. simpl in Hk.
      destruct (n_value (node n h')); by rewrite <- ?Hk.
Qed.

Lemma update_then_kind_and_keys_witness :
  let this := MkStateRef 0 ["a"] in
  let v := VRecord [("c", VNull); ("d", num 1)] in
  let h' := (State.update_unflushed v this (store_of stable_value)).2 in
  State.readKind this h' = kind_of v ∧
  (∀ k, k ∈ State.readKeys this h' ↔ k ∈ live_keys (entries v)) ∧
  (∀ a fuel, v = VAtomic a → State.read (Datatypes.S fuel) this h' = Return v) ∧
  ((∀ b, State.content_at this (store_of stable_value) ≠ CBranch b) →
   State.readKeys this h' = live_keys (entries v) ∧
   State.readSize this h' = length (live_keys (entries v))).
Proof.
  apply (update_then_kind_and_keys (VRecord [("c", VNull); ("d", num 1)])
           (MkStateRef 0 ["a"]) (store_of stable_value) stable_shape).
  - repeat constructor; set_solver.
  - apply (tree_of_sound 9). by vm_compute.
  - by vm_compute.
Defined.

(** ** The positions above an update *)

Lemma update_under_spec x k h l S :
  wf_value x → tree h l S →
  let h' := update_under x k l h in
  ∃ b, n_value (node l h') = CBranch b ∧
    b_isArray (branch b h') =
      match State.readKind (MkStateRef l []) h with KArray => true | _ => false end ∧
    b_keys (branch b h') =
      (if is_empty x then set_delete k else set_add k) (State.readKeys (MkStateRef l []) h).
Proof.
  intros Hwf Ht h'. unfold h', update_under. clear h'.
  destruct (getOrCreateBranch_within h l S Ht) as (kids & Hbt1 & _ & _ & Hcase).
  destruct (Node.getOrCreateBranch l h) as [b h1]. cbn [fst snd] in *.
  destruct (update_child_spec false k x h1 l b kids) as (kids' & Hbt' & _ & _ & Ha & Hks & _);
    [by intros; apply update_spec|done|done|].
  set (h' := Node.update_child (Node.update x) k b h1) in *.
  destruct (btree_inv _ _ _ _ Hbt') as (n' & bc' & Hl' & Hv' & _).
  exists b. rewrite (node_lookup _ _ _ Hl'), Ha, Hks. split; [done|].
  unfold State.readKind, State.readKeys, State.content_at. simpl.
  destruct Hcase as [[-> ->]|(HS & -> & Hbr)].
  - destruct (btree_inv _ _ _ _ Hbt1) as (n & bc & Hl & Hv & _).
    rewrite (node_lookup _ _ _ Hl), Hv. simpl. split; [|by destruct (is_empty x)].
    clear. by destruct (b_isArray (branch b h)).
  - rewrite Hbr. destruct Ht as (_ & Hr & _).
    inversion Hr as [? n Hl Hv|? n t c Hl Hv|? n b']; subst;
      [rewrite (node_lookup _ _ _ Hl), Hv; simpl; split; by destruct (is_empty x)..|].
    exfalso. by eapply HS.
Qed.

(** X6: the facade's [update] with a valid value at a path makes every
    position above the end of the path an object: it stays an array where
    it was one and is a plain object elsewhere, whatever was there.  At each
    of these positions the next key of the path is added at the end of the
    keys if it is not among them, the other keys keeping their place; only
    the last key of the path is removed instead when the value is empty. *)
Theorem update_makes_path v this h S :
  wf_value v → tree h (root this) S →
  let h' := (State.update_unflushed v this h).2 in
  ∀ p k q, keys this = p ++ k :: q →
    State.readKind (MkStateRef (root this) p) h' =
      match State.readKind (MkStateRef (root this) p) h with
      | KArray => KArray
      | _ => KObject
      end ∧
    State.readKeys (MkStateRef (root this) p) h' =
      (if is_empty v && bool_decide (q = []) then set_delete k else set_add k)
        (State.readKeys (MkStateRef (root this) p) h).
Proof.
  intros Hwf Ht h' p k q Hp. unfold h'. clear h'.
  rewrite (update_unflushed_snd v this h Hwf). cbn [snd].
  destruct this as [l path]. cbn [root keys] in *.
  induction path as [|k0 p0 _] using rev_ind; [by destruct p|].
  rewrite update_at_snoc.
  destruct (update_at_path (update_under v k0) p0 (within_update_under v k0 Hwf) h l S Ht)
    as (S' & Sn & Ht' & _ & _ & Hgn & Htn & _ & Hval & Hkind & Hks & Hkeys & Hkinds).
  set (r := Node.getOrCreateNode p0 l h) in *.
  set (h' := update_under v k0 r.1 r.2) in *.
  induction q as [|k1 q _] using rev_ind.
  - (* the position just above the end *)
    apply app_inj_tail in Hp as [<- <-].
    destruct (update_under_spec v k0 r.2 r.1 Sn Hwf Htn) as (b & Hv' & Ha' & Hk').
    fold h' in Hv', Ha', Hk'.
    unfold State.readKind at 1. unfold State.readKeys at 1. unfold State.content_at.
    cbn [keys root]. rewrite Hgn, Hv'. simpl. rewrite Ha', Hk', Hks.
    unfold State.readKind at 1. unfold State.content_at. cbn [keys root]. simpl.
    rewrite Hkind, andb_true_r. split; [|done].
    by destruct (State.readKind _ h).
  - (* a position further up *)
    rewrite app_comm_cons, app_assoc in Hp. apply app_inj_tail in Hp as [Hp <-].
    rewrite (Hkinds p (k :: q)), (Hkeys p k q); [|done..].
    split; [done|].
    assert (bool_decide (q ++ [k0] = []) = false) as ->.
    { apply bool_decide_eq_false. by destruct q. }
    by rewrite andb_false_r.
Qed.

Lemma update_makes_path_witness :
  let h := store_of stable_value in
  let h' := (State.update_unflushed VNull (MkStateRef 0 ["b"; "z"]) h).2 in
  State.readKind (MkStateRef 0 ["b"]) h' =
    match State.readKind (MkStateRef 0 ["b"]) h with
    | KArray => KArray
    | _ => KObject
    end ∧
  State.readKeys (MkStateRef 0 ["b"]) h' =
    (if is_empty VNull && bool_decide (@nil string = []) then set_delete "z" else set_add "z")
      (State.readKeys (MkStateRef 0 ["b"]) h).
Proof.
  apply (update_makes_path VNull (MkStateRef 0 ["b"; "z"]) (store_of stable_value) stable_shape
           (wf_null) stable_store_tree ["b"] "z" []).
  done.
Defined.

(** ** removeKey *)






(** ** Who [removeKey] marks dirty *)

Lemma set_delete_changes {A} `{EqDecision A} (x : A) (s : list A) :
  s ≠ set_delete x s ↔ x ∈ s.
Proof.
  split.
  - intros Hne. destruct (decide (x ∈ s)) as [|Hx]; [done|].
    by rewrite set_delete_id in Hne.
  - intros Hx Heq. rewrite Heq in Hx. apply elem_of_set_delete in Hx as [? _]. done.
Qed.

(** X8: in a store where the root heads a proper tree, [removeKey(key)] at
    a path that holds an object or array marks dirty, besides those already
    dirty, exactly the subscribers of its keys Topic when [key] is among
    the keys, and the subscribers of the child Node under [key] when that
    Node holds a value. *)
Theorem removeKey_notifies key this h S b :
  tree h (root this) S → State.content_at this h = CBranch b →
  let h' := State.removeKey_unflushed key this h in
  ∀ s, s ∈ notified h' ↔
       s ∈ notified h ∨
       (key ∈ State.readKeys this h ∧ s ∈ Topic.subscribers (TKeys b) h) ∨
       (∃ c, b_nodes (branch b h) !! key = Some c ∧
             n_value (node c h) ≠ CUndefined ∧ s ∈ Topic.subscribers (TNode c) h).
Proof.
  intros Ht Hb h' s. unfold h', State.removeKey_unflushed, State.readKeys. rewrite Hb.
  unfold State.content_at in Hb.
  destruct (Node.getNode (keys this) (root this) h) as [n|] eqn:Hn; [|done].
  destruct (getNode_tree _ h _ S n Ht Hn) as (Sn & Htn & _).
  assert (∃ kids, Sn = SBranch b kids) as [kids ->].
  { destruct Htn as (_ & Hr & _).
    inversion Hr as [? n0 Hl Hv|? n0 t c Hl Hv|? n0 b0 bc kids Hl Hv]; subst;
      rewrite (node_lookup _ _ _ Hl), Hv in Hb; try done.
    injection Hb as ->. by exists kids. }
  apply btree_tree in Htn.
  destruct (btree_inv _ _ _ _ Htn) as (n0 & bc & Hl0 & Hv0 & Hb0 & Hcov & _).
  unfold Branch.removeKey. simpl.
  destruct (set_keys_fields b bc (oset_delete key (b_keys (branch b h))) h Hb0)
    as (Hc1 & _ & _ & _ & Hnot1).
  set (h1 := Topic.set (TKeys b) _ h) in *.
  rewrite (branch_lookup _ _ _ Hb0) in *.
  assert (cells h1 !! b = Some (OBranch (with_keys (oset_delete key (b_keys bc)) bc))) as Hb1.
  { rewrite Hc1. apply lookup_insert_eq. }
  rewrite (branch_lookup _ _ _ Hb1). cbn [with_keys b_nodes].
  specialize (Hnot1 s). unfold oset_delete in Hnot1. rewrite set_delete_changes in Hnot1.
  destruct (b_nodes bc !! key) as [c|] eqn:Hc.
  - pose proof Hc as Hc0. apply Hcov in Hc as [Sc Hin].
    destruct (btree_kid _ _ _ _ _ _ _ Htn Hin) as (nc & Hcc & _ & _ & _ & _ & _ & Hcb & _).
    assert (cells h1 !! c = Some (ONode nc)) as Hcc1.
    { rewrite Hc1. by rewrite lookup_insert_ne. }
    destruct (node_clear_fields c nc h1 Hcc1) as (_ & _ & _ & _ & Hnot2).
    fold (Node.set c CUndefined h1). rewrite (Hnot2 s), Hnot1.
    simpl. split.
    + intros [[?|?]|?]; [by left|right; by left|right; right].
      exists c. by rewrite (node_lookup _ _ _ Hcc).
    + intros [?|[?|(c' & [= <-] & Hv)]]; [left; by left|left; by right|right].
      by rewrite (node_lookup _ _ _ Hcc) in Hv.
  - rewrite Hnot1. split.
    + intros [?|?]; [by left|right; by left].
    + intros [?|[?|(c' & ? & _)]]; [by left|by right|done].
Qed.

Lemma removeKey_notifies_witness :
  let this := MkStateRef 0 [] in
  let h' := State.removeKey_unflushed "0" this size_store in
  size_sub ∈ notified h' ↔
    size_sub ∈ notified size_store ∨
    ("0" ∈ State.readKeys this size_store ∧
     size_sub ∈ Topic.subscribers (TKeys 1) size_store) ∨
    (∃ c, b_nodes (branch 1 size_store) !! "0" = Some c ∧
          n_value (node c size_store) ≠ CUndefined ∧
          size_sub ∈ Topic.subscribers (TNode c) size_store).
Proof.
  apply (removeKey_notifies "0" (MkStateRef 0 []) size_store (SBranch 1 size_kids) 1).
  - apply (tree_of_sound 9). by vm_compute.
  - by vm_compute.
Defined.

(** ** createState *)

Lemma alloc_root h :
  bounded h →
  let h0 := (alloc (ONode empty_node) h).2 in
  tree h0 (next h) SUndefined ∧ is_root (next h) h0 ∧
  mods (λ _, False) (λ _, False) h h0 ∧ next h0 = Datatypes.S (next h) ∧
  notified h0 = notified h ∧
  ∀ t, topic_loc t = next h → Topic.subscribers t h0 = [].
Proof.
  intros Hbd h0.
  assert (cells h0 !! next h = Some (ONode empty_node)) as Hl.
  { unfold h0, alloc. simpl. apply lookup_insert_eq. }
  pose proof (mods_alloc (ONode empty_node) h Hbd eq_refl) as Hm. fold h0 in Hm.
  split_and!; [|by unfold is_root; rewrite (node_lookup _ _ _ Hl)|done|done|done|].
  - split_and!; [apply Hm|by eapply rep_undefined|apply NoDup_singleton].
  - intros t Ht. destruct t; simpl in Ht; subst; simpl;
      unfold node, leaf, branch; by rewrite Hl.
Qed.



(** ** Reads with tracking and reads without *)

Lemma createVolatileNode_node k x h :
  let r := Branch.createVolatileNode k x h in
  r.1 = next h ∧ n_value (node r.1 r.2) = CUndefined.
Proof.
  unfold Branch.createVolatileNode, Branch.createChild, alloc, Branch.set_node,
    modify_branch, with_cells, node. simpl. split; [done|].
  destruct (decide (x = next h)) as [->|Hne].
  - by rewrite lookup_alter_eq, lookup_insert_eq.
  - by rewrite lookup_alter_ne, lookup_insert_eq.
Qed.

(** The walk of [getNodeAndTopics] ends where the walk of [getNode] ends, in
    the same store; where [getNode] finds nothing it ends nowhere or at a
    Node without content. *)
Lemma getNodeAndTopics_from_getNode path : ∀ l topics h,
  let r := Node.getNodeAndTopics_from path l topics h in
  match Node.getNode path l h with
  | Some n => r.1.1 = Some n ∧ r.2 = h
  | None => match r.1.1 with
            | Some c => n_value (node c r.2) = CUndefined
            | None => True
            end
  end.
Proof.
  induction path as [|k path IH]; intros l topics h; [done|].
  cbn [Node.getNodeAndTopics_from Node.getNode].
  destruct (n_value (node l h)) as [|t|x]; [done..|].
  destruct (b_nodes (branch x h) !! k) as [c|] eqn:Hc; [apply IH|].
  destruct (createVolatileNode_node k x h) as [Hc1 Hv1].
  destruct (Branch.createVolatileNode k x h) as [c h1]. cbn [fst snd] in *.
  destruct path as [|k' path]; [done|].
  cbn [Node.getNodeAndTopics_from]. by rewrite Hv1.
Qed.

(** X10: what a tracked read hands to the component is what the read
    without tracking returns in the same store: [use()] gives the value of
    [read()] (for any positive step budget), [useKind()] that of
    [readKind()], [useKeys()] that of [readKeys()] and [useSize()] that of
    [readSize()]. *)
Theorem tracked_read_agrees fuel this h :
  (State.produce (Datatypes.S fuel) PUse this h).1.1
    = TrValue (State.read (Datatypes.S fuel) this h) ∧
  (State.produce fuel PUseKind this h).1.1 = TrKind (State.readKind this h) ∧
  (State.produce fuel PUseKeys this h).1.1 = TrKeys (State.readKeys this h) ∧
  (State.produce fuel PUseSize this h).1.1 = TrSize (State.readSize this h).
Proof.
  unfold State.produce, Node.getNodeAndTopics, State.read, State.readKind, State.readKeys,
    State.readSize, State.content_at.
  pose proof (getNodeAndTopics_from_getNode (keys this) (root this) [TNode (root this)] h) as Hw.
  destruct (Node.getNodeAndTopics_from _ _ _ h) as [[n topics] h1]. cbn [fst snd] in Hw.
  destruct (Node.getNode (keys this) (root this) h) as [m|].
  - destruct Hw as [-> ->]. split_and!; [done|done|by destruct (n_value _)..].
  - destruct n as [c|]; [|done]. rewrite Hw. split_and!; try done.
    simpl. by rewrite Hw.
Qed.

(** ** An array written over with an object of the same entries *)

Lemma holds_entries h l v :
  holds false h l v → stable v → structural v →
  ∃ b, n_value (node l h) = CBranch b ∧
       (∀ k, k ∈ b_keys (branch b h) ↔ k ∈ (entries v).*1) ∧
       Forall (λ kx : string * Value,
                 stable kx.2 ∧ kx.1 ∈ b_keys (branch b h) ∧
                 ∃ c, b_nodes (branch b h) !! kx.1 = Some c ∧ holds false h c kx.2)
              (entries v).
Proof.
  intros Hh Hs Hst.
  assert (Forall (λ kx : string * Value, stable kx.2) (entries v)) as Hse.
  { inversion Hs as [? Hsa|? Hsx|? Hsf]; subst; [done| |done].
    apply Forall_forall. intros [k x] Hx.
    apply elem_of_lookup_imap in Hx as (i & z & Heq & Hz). injection Heq as -> ->.
    rewrite Forall_forall in Hsx. apply Hsx. by eapply list_elem_of_lookup_2. }
  assert (live_keys (entries v) = (entries v).*1) as Hlive.
  { apply live_keys_all. eapply Forall_impl; [done|]. intros ?. apply stable_not_empty. }
  inversion Hh as [? t ? Hv Ht|? b ? Hv Ha Hk Hc|? b ? Hv Ha Hk Hc]; subst; [done|..];
    exists b; simpl in *; rewrite Hlive in Hk; (split_and!; [done|done|]);
    apply Forall_forall; intros kx Hx; rewrite Forall_forall in Hc, Hse;
    (split_and!; [by apply Hse|apply Hk; by apply (list_elem_of_fmap_2 fst) in Hx|]);
    apply (Hc _ Hx), stable_not_empty; by apply Hse.
Qed.

(** X11: when a Node of a proper tree holds a structural value [v] without
    [undefined], [null] or [NaN], the update with a structural value [w]
    that has the entries of [v] (the same array, or the array as an object
    with its indices as keys, or back) writes the array flag of the Branch
    and nothing else: no Topic fires and nobody is marked dirty, even when
    [readKind()] changes from array to object or back. *)
Theorem update_same_entries_is_silent v w h l S :
  tree h l S → holds false h l v → stable v → structural v →
  structural w → entries w = entries v →
  let h' := Node.update w l h in
  ∃ b, n_value (node l h) = CBranch b ∧
    h' = modify_branch b (λ c, MkBranch (is_array w) (b_keys c)
                                 (b_keys_subscribers c) (b_nodes c)) h ∧
    log h' = log h ∧ notified h' = notified h ∧
    State.readKind (MkStateRef l []) h = kind_of v ∧
    State.readKind (MkStateRef l []) h' = kind_of w.
Proof.
  intros Ht Hh Hs Hsv Hsw Hew h'.
  destruct (holds_entries h l v Hh Hs Hsv) as (b & Hv & Hk & Hc).
  exists b. split; [done|].
  set (h1 := modify_branch b (λ c, MkBranch (is_array w) (b_keys c)
                                     (b_keys_subscribers c) (b_nodes c)) h).
  assert (∃ kids, S = SBranch b kids) as [kids ->].
  { destruct Ht as (_ & Hr & _).
    inversion Hr as [? n0 Hl Hv0|? n0 t c Hl Hv0|? n0 b0 bc kids Hl Hv0]; subst;
      rewrite (node_lookup _ _ _ Hl), Hv0 in Hv; try done.
    injection Hv as ->. by exists kids. }
  apply btree_tree in Ht.
  destruct (btree_inv _ _ _ _ Ht) as (n0 & bc & Hl & _ & Hb & Hcov & _ & Hlb & _).
  assert (cells h1 = <[b := OBranch (with_isArray (is_array w) bc)]> (cells h)) as Hc1.
  { unfold h1, modify_branch, with_cells. simpl.
    rewrite <- (insert_id (cells h) b _ Hb) at 1. by rewrite alter_insert_eq. }
  assert (∀ y, y ≠ b → cells h1 !! y = cells h !! y) as Hfr.
  { intros y Hy. rewrite Hc1. by rewrite lookup_insert_ne. }
  assert (branch b h1 = with_isArray (is_array w) bc) as Hb1.
  { apply branch_lookup. rewrite Hc1. apply lookup_insert_eq. }
  assert (n_value (node l h1) = CBranch b) as Hv1.
  { by rewrite (node_agree l h h1) by (by apply Hfr). }
  assert (Node.update_branch (is_array w) (entries w).*1 l h = (b, h1)) as Hub.
  { unfold Node.update_branch, Node.getOrCreateBranch. rewrite Hv. fold h1.
    rewrite clear_dropped_same
      by (intros k; rewrite Hb1, Hew; simpl; rewrite <- (branch_lookup _ _ _ Hb); apply Hk).
    unfold oset_intersect. rewrite (filter_id _ (b_keys (branch b h1)))
      by (intros k; rewrite Hb1, Hew; simpl; rewrite <- (branch_lookup _ _ _ Hb); apply Hk).
    by rewrite set_keys_same. }
  assert (update_entries (entries w) b h1 = h1) as Hue.
  { apply update_entries_id. rewrite Hew. apply Forall_forall. intros [k x] Hx.
    rewrite Forall_forall in Hc. destruct (Hc _ Hx) as (Hsx & Hkx & c & Hcn & Hhc).
    simpl in *. rewrite (branch_lookup _ _ _ Hb) in Hcn, Hkx.
    exists c. rewrite Hb1. simpl. split_and!; [done|done|].
    apply holds_update_id; [|done].
    destruct (Hcov k c) as [[Sc Hin] _]; [done|].
    destruct (btree_kid _ _ _ _ _ _ _ Ht Hin) as (nc & _ & _ & _ & Hrc & _ & _ & Hcb & _ & HbSc).
    eapply holds_frame; [exact Hrc|done|].
    intros y Hy. apply Hfr. intros ->. apply elem_of_cons in Hy as [?|?]; done. }
  assert (h' = h1) as ->.
  { unfold h'. destruct w as [| |a|xs|fs|c fs]; try done.
    - rewrite update_VArray. change (array_entries xs) with (entries (VArray xs)).
      change true with (is_array (VArray xs)). by rewrite Hub.
    - rewrite update_VRecord. change fs with (entries (VRecord fs)).
      change false with (is_array (VRecord fs)). by rewrite Hub. }
  split_and!; try done.
  - unfold State.readKind, State.content_at. simpl. by eapply holds_kind.
  - unfold State.readKind, State.content_at. simpl. rewrite Hv1. simpl. rewrite Hb1. simpl.
    by destruct w.
Qed.

Lemma update_same_entries_is_silent_witness :
  let v := VArray [str "a"; str "b"] in
  let w := VRecord [("0", str "a"); ("1", str "b")] in
  let h := store_of v in
  let h' := Node.update w 0 h in
  ∃ b, n_value (node 0 h) = CBranch b ∧
    h' = modify_branch b (λ c, MkBranch (is_array w) (b_keys c)
                                 (b_keys_subscribers c) (b_nodes c)) h ∧
    log h' = log h ∧ notified h' = notified h ∧
    State.readKind (MkStateRef 0 []) h = kind_of v ∧
    State.readKind (MkStateRef 0 []) h' = kind_of w.
Proof.
  apply (update_same_entries_is_silent (VArray [str "a"; str "b"])
           (VRecord [("0", str "a"); ("1", str "b")])
           (store_of (VArray [str "a"; str "b"])) 0
           (SBranch 1 [("1", (4, STopic 5)); ("0", (2, STopic 3))])).
  - apply (tree_of_sound 9). by vm_compute.
  - eapply (holds_array _ _ _ 1); [done|done|by intros k; vm_compute|].
    repeat constructor; intros _; simpl.
    + exists 2. split; [done|]. by eapply (holds_atomic _ _ _ 3).
    + exists 4. split; [done|]. by eapply (holds_atomic _ _ _ 5).
  - repeat constructor.
  - done.
  - done.
  - done.
Defined.

(** ** What a flush never does *)

Lemma quiet_same h h' : notified h' = notified h → log h' = log h → quiet h h'.
Proof. intros Hn Hl. split; [done|]. exists []. by rewrite app_nil_r. Qed.

Lemma quiet_refl h : quiet h h.
Proof. by apply quiet_same. Qed.

Lemma quiet_trans h h' h'' : quiet h h' → quiet h' h'' → quiet h h''.
Proof.
  intros [Hn1 (e1 & Hl1 & He1)] [Hn2 (e2 & Hl2 & He2)]. split; [congruence|].
  exists (e1 ++ e2). rewrite Hl2, Hl1, app_assoc. split; [done|by apply Forall_app].
Qed.

Lemma quiet_write_subscribers t f h : quiet h (Topic.write_subscribers t f h).
Proof. by destruct t; apply quiet_same. Qed.

Lemma quiet_tryDetach t h : quiet h (Topic.tryDetach t h).
Proof.
  unfold Topic.tryDetach. destruct (Topic.detach t h) as [d|]; [|apply quiet_refl].
  destruct (_ && _); [|apply quiet_refl].
  split; [done|]. exists [Detached t]. split; [done|]. by constructor.
Qed.

Lemma quiet_foldl {A} (f : Heap → A → Heap) (xs : list A) :
  (∀ h x, quiet h (f h x)) → ∀ h, quiet h (foldl f h xs).
Proof.
  intros Hf. induction xs as [|x xs IH]; intros h; [apply quiet_refl|].
  simpl. eapply quiet_trans; [apply Hf|apply IH].
Qed.

Lemma quiet_subscribe_all s h : quiet h (subscribe_all s h).
Proof.
  unfold subscribe_all. eapply quiet_trans; [|apply quiet_foldl].
  - by apply quiet_same.
  - intros. apply quiet_write_subscribers.
Qed.

Lemma quiet_unsubscribe_all s h : quiet h (unsubscribe_all s h).
Proof.
  unfold unsubscribe_all. eapply quiet_trans; [|apply quiet_foldl].
  - by apply quiet_same.
  - intros h' t. unfold Topic.unsubscribe.
    eapply quiet_trans; [apply quiet_write_subscribers|apply quiet_tryDetach].
Qed.

Lemma quiet_getNodeAndTopics_from path :
  ∀ l topics h, quiet h (Node.getNodeAndTopics_from path l topics h).2.
Proof.
  induction path as [|k path IH]; intros l topics h; [apply quiet_refl|].
  cbn [Node.getNodeAndTopics_from].
  destruct (n_value (node l h)) as [|t|x]; try apply quiet_refl.
  destruct (b_nodes (branch x h) !! k) as [c|]; [apply IH|].
  eapply quiet_trans; [|apply IH]. by apply quiet_same.
Qed.

Lemma quiet_produce fuel p this h : quiet h (State.produce fuel p this h).2.
Proof.
  unfold State.produce, Node.getNodeAndTopics.
  pose proof (quiet_getNodeAndTopics_from (keys this) (root this) [TNode (root this)] h) as H1.
  destruct (Node.getNodeAndTopics_from _ _ _ h) as [[n topics] h1]. cbn [snd] in H1.
  destruct p; [destruct n| |destruct (match n with Some _ => _ | None => _ end)..]; done.
Qed.

Lemma quiet_reaction fuel s h : quiet h (State.reaction fuel s h).
Proof.
  unfold State.reaction.
  pose proof (quiet_unsubscribe_all s h) as H1.
  set (h1 := unsubscribe_all s h) in *.
  destruct (s_reaction (subscriber s h1)) as [p this].
  pose proof (quiet_produce fuel p this h1) as H2.
  destruct (State.produce fuel p this h1) as [[v topics] h2]. cbn [snd] in H2.
  eapply quiet_trans; [exact H1|]. eapply quiet_trans; [exact H2|].
  eapply quiet_trans; [|apply quiet_subscribe_all]. by apply quiet_same.
Qed.

Lemma keeps_leaf_value h h' t :
  bounded h → keeps h h' → t_value (leaf t h') = t_value (leaf t h).
Proof.
  intros Hbd Hk. unfold leaf. destruct (cells h !! t) as [[n|c|bc]|] eqn:Hl.
  - by destruct (keeps_node _ _ Hk _ _ Hl) as (n' & -> & _).
  - by destruct (keeps_leaf _ _ Hk _ _ Hl) as (c' & -> & ->).
  - by destruct (keeps_branch _ _ Hk _ _ Hl) as (bc' & -> & _).
  - destruct (cells h' !! t) as [c'|] eqn:Hl'; [|done].
    by destruct (keeps_new _ _ Hk _ _ Hl Hl') as (_ & n' & -> & _).
Qed.

Lemma keeps_isArray h h' x :
  bounded h → keeps h h' → b_isArray (branch x h') = b_isArray (branch x h).
Proof.
  intros Hbd Hk. unfold branch. destruct (cells h !! x) as [[n|c|bc]|] eqn:Hx.
  - by destruct (keeps_node _ _ Hk _ _ Hx) as (n' & -> & _).
  - by destruct (keeps_leaf _ _ Hk _ _ Hx) as (c' & -> & _).
  - by destruct (keeps_branch _ _ Hk _ _ Hx) as (bc' & -> & _ & -> & _).
  - destruct (cells h' !! x) as [c'|] eqn:Hx'; [|done].
    by destruct (keeps_new _ _ Hk _ _ Hx Hx') as (_ & n' & -> & _).
Qed.

Lemma dirty_store_bounded : bounded dirty_store.
Proof.
  apply (tree_of_sound 9 dirty_store 0 (SBranch 1 [("0", (2, STopic 3))])). by vm_compute.
Qed.

(** X12: a flush leaves nobody dirty and fires no Topic: the log grows by
    detach events alone.  It changes no Node's content, no leaf's atom, no
    Branch's keys and no array flag; what it changes are subscriber sets,
    subscriber records and [nodes] maps. *)
Theorem flush_is_quiet fuel h :
  bounded h →
  let h' := State.flush fuel h in
  notified h' = [] ∧
  (∃ evs, log h' = log h ++ evs ∧ Forall is_detached evs) ∧
  (∀ l, n_value (node l h') = n_value (node l h)) ∧
  (∀ t, t_value (leaf t h') = t_value (leaf t h)) ∧
  (∀ b, b_keys (branch b h') = b_keys (branch b h) ∧
        b_isArray (branch b h') = b_isArray (branch b h)).
Proof.
  intros Hbd h'.
  assert (quiet (with_notified (λ _, []) h) h') as [Hn Hl].
  { unfold h', State.flush. apply quiet_foldl. intros h1 s.
    destruct (s_subscribed _); [apply quiet_reaction|apply quiet_refl]. }
  pose proof (keeps_flush fuel h Hbd) as Hk. fold h' in Hk.
  split_and!; [done|done|..].
  - intros l. by apply keeps_value.
  - intros t. by apply keeps_leaf_value.
  - intros b. split; [by apply keeps_keys|by apply keeps_isArray].
Qed.

Lemma flush_is_quiet_witness :
  let h' := State.flush 9 dirty_store in
  notified h' = [] ∧
  (∃ evs, log h' = log dirty_store ++ evs ∧ Forall is_detached evs) ∧
  (∀ l, n_value (node l h') = n_value (node l dirty_store)) ∧
  (∀ t, t_value (leaf t h') = t_value (leaf t dirty_store)) ∧
  (∀ b, b_keys (branch b h') = b_keys (branch b dirty_store) ∧
        b_isArray (branch b h') = b_isArray (branch b dirty_store)).
Proof. apply (flush_is_quiet 9 dirty_store), dirty_store_bounded. Defined.

(** ** Soundness is kept by the writes *)

Lemma same_links_refl c : same_links c c.
Proof. by destruct c as [[n|t|b]|]. Qed.

Lemma same_links_node h h' y :
  same_links (cells h !! y) (cells h' !! y) →
  n_subscribers (node y h') = n_subscribers (node y h) ∧
  n_detach (node y h') = n_detach (node y h) ∧
  n_parent (node y h') = n_parent (node y h).
Proof.
  unfold node, same_links.
  destruct (cells h !! y) as [[n|t|b]|], (cells h' !! y) as [[n'|t'|b']|]; try done.
Qed.

Lemma same_links_branch h h' y :
  same_links (cells h !! y) (cells h' !! y) → b_nodes (branch y h') = b_nodes (branch y h).
Proof.
  unfold branch, same_links.
  destruct (cells h !! y) as [[n|t|b]|], (cells h' !! y) as [[n'|t'|b']|]; try done.
Qed.

Lemma sound_same h h' :
  sound h → next h' = next h → subs h' = subs h →
  (∀ y, same_links (cells h !! y) (cells h' !! y)) → sound h'.
Proof.
  intros Hs Hn Hsub Hc.
  assert (∀ d, slot d h' = slot d h) as Hslot.
  { intros d. unfold slot. by rewrite (same_links_branch h h' d.2 (Hc d.2)). }
  split.
  - intros x Hx. rewrite Hn in Hx. pose proof (sound_bounded h Hs x Hx) as Hx'.
    specialize (Hc x). rewrite Hx' in Hc. by destruct (cells h' !! x) as [[?|?|?]|].
  - intros c nc' Hc'. pose proof (Hc c) as Hcc. rewrite Hc' in Hcc.
    destruct (cells h !! c) as [[nc|?|?]|] eqn:Hc0; try done.
    destruct Hcc as (_ & -> & ->). by eapply sound_links.
  - intros b bc' k c Hb' Hk. pose proof (Hc b) as Hcb. rewrite Hb' in Hcb.
    destruct (cells h !! b) as [[?|?|bc]|] eqn:Hb0; try done. simpl in Hcb.
    rewrite Hcb in Hk.
    destruct (sound_nodes h Hs b bc k c Hb0 Hk) as (nc & Hcc & Hd).
    pose proof (Hc c) as Hc1. rewrite Hcc in Hc1.
    destruct (cells h' !! c) as [[nc'|?|?]|]; try done.
    destruct Hc1 as (_ & Hd' & _). exists nc'. split; [done|congruence].
  - intros c nc' d Hc' Hd Hsu. rewrite Hslot.
    pose proof (Hc c) as Hcc. rewrite Hc' in Hcc.
    destruct (cells h !! c) as [[nc|?|?]|] eqn:Hc0; try done.
    destruct Hcc as (Hs1 & Hd1 & _).
    eapply (sound_subscribed h Hs c nc); [done|congruence|congruence].
  - intros s sc c Hsc Hon Hin. rewrite Hsub in Hsc.
    rewrite (proj1 (same_links_node h h' c (Hc c))). by eapply sound_topics.
  - intros s sc Hsc. rewrite Hsub in Hsc.
    destruct (sound_roots h Hs s sc Hsc) as (n & Hr & Hd).
    pose proof (Hc (root (s_reaction sc).2)) as Hcr. rewrite Hr in Hcr.
    destruct (cells h' !! _) as [[n'|?|?]|]; try done.
    destruct Hcr as (_ & Hd' & _). exists n'. split; [done|congruence].
Qed.

Lemma safe_same h h' l :
  (∀ y, same_links (cells h !! y) (cells h' !! y)) → safe l h → safe l h'.
Proof.
  intros Hc. unfold safe, slot.
  destruct (same_links_node h h' l (Hc l)) as (_ & -> & _).
  destruct (n_detach (node l h)) as [d|]; [|done].
  by rewrite (same_links_branch h h' d.2 (Hc d.2)).
Qed.

Lemma same_links_alter (f : Cell → Cell) x (m : gmap loc Cell) :
  (∀ c, same_links (Some c) (Some (f c))) →
  ∀ y, same_links (m !! y) (alter f x m !! y).
Proof.
  intros Hf y. rewrite lookup_alter. case_decide; [|apply same_links_refl].
  subst. destruct (m !! y); [apply Hf|done].
Qed.

Lemma links_write_value t v h :
  ∀ y, same_links (cells h !! y) (cells (Topic.write_value t v h) !! y).
Proof.
  destruct t as [l|l|b], v as [c|a|ks]; try (intros; apply same_links_refl);
    apply same_links_alter; by intros [n|tc|bc].
Qed.

Lemma links_notify t h :
  cells (Topic.notify_subscribers t h) = cells h ∧
  next (Topic.notify_subscribers t h) = next h ∧
  subs (Topic.notify_subscribers t h) = subs h.
Proof.
  unfold Topic.notify_subscribers.
  generalize (Topic.subscribers t h). intros ss.
  assert (∀ h0, cells (foldl (λ h s, Subscriber.notify s h) h0 ss) = cells h0 ∧
                next (foldl (λ h s, Subscriber.notify s h) h0 ss) = next h0 ∧
                subs (foldl (λ h s, Subscriber.notify s h) h0 ss) = subs h0) as Hf.
  { induction ss as [|s ss IH]; intros h0; [done|]. simpl.
    destruct (IH (Subscriber.notify s h0)) as (-> & -> & ->). done. }
  apply (Hf (record (Fired t) h)).
Qed.

Lemma sound_call_detach l d h :
  sound h → n_detach (node l h) = Some d → n_subscribers (node l h) = [] → safe l h →
  sound (Topic.call_detach d h).
Proof.
  intros Hs Hd Hsu Hsafe. unfold safe in Hsafe. rewrite Hd in Hsafe.
  unfold Topic.call_detach, modify_branch, with_cells.
  set (f := on_branch (λ c, MkBranch (b_isArray c) (b_keys c) (b_keys_subscribers c)
                              (delete d.1 (b_nodes c)))).
  set (h' := MkHeap (alter f d.2 (cells h)) _ _ _ _).
  assert (∀ y, match cells h !! y with
               | Some c => cells h' !! y = Some (if decide (y = d.2) then f c else c)
               | None => cells h' !! y = None
               end) as Hy.
  { intros y. unfold h'. simpl. rewrite lookup_alter. case_decide as Hyd.
    - subst y. destruct (cells h !! d.2); [|done]. by rewrite decide_True.
    - destruct (cells h !! y); [|done]. by rewrite decide_False. }
  assert (∀ y n, cells h' !! y = Some (ONode n) ↔ cells h !! y = Some (ONode n)) as Hnode.
  { intros y n. specialize (Hy y). destruct (cells h !! y) as [c|]; [|by rewrite Hy].
    rewrite Hy. case_decide; [|done]. destruct c as [?|?|?]; simpl; split; congruence. }
  assert (∀ b k, b_nodes (branch b h') !! k =
                 if decide (b = d.2 ∧ k = d.1) then None else b_nodes (branch b h) !! k)
    as Hbr.
  { intros b k. unfold branch. specialize (Hy b).
    destruct (cells h !! b) as [c|]; rewrite Hy; [|by destruct (decide _)].
    destruct (decide (b = d.2)) as [->|Hne].
    - destruct c as [?|?|bc]; simpl; [by destruct (decide _)..|].
      destruct (decide (k = d.1)) as [->|Hk].
      + rewrite decide_True by done. apply lookup_delete_eq.
      + rewrite decide_False by (by intros [_ ?]). by apply lookup_delete_ne.
    - rewrite decide_False by (by intros [? _]). done. }
  split.
  - intros x Hx. specialize (Hy x). by rewrite (sound_bounded h Hs x Hx) in Hy.
  - intros c nc Hc. apply Hnode in Hc. by eapply sound_links.
  - intros b bc' k c Hb' Hk.
    assert (b_nodes (branch b h') !! k = Some c) as Hk'.
    { by rewrite (branch_lookup _ _ _ Hb'). }
    rewrite Hbr in Hk'. case_decide; [done|].
    assert (∃ bc, cells h !! b = Some (OBranch bc)) as [bc Hb].
    { unfold branch in Hk'. destruct (cells h !! b) as [[?|?|bc]|]; try done. by exists bc. }
    rewrite (branch_lookup _ _ _ Hb) in Hk'.
    destruct (sound_nodes h Hs b bc k c Hb Hk') as (nc & Hcc & Hdc).
    exists nc. split; [by apply Hnode|done].
  - intros c nc d' Hc Hd' Hsu'. apply Hnode in Hc.
    pose proof (sound_subscribed h Hs c nc d' Hc Hd' Hsu') as Hreg.
    unfold slot in *. rewrite Hbr. case_decide as Heq; [|done].
    destruct Heq as [Heq1 Heq2]. rewrite Heq1, Heq2 in Hreg.
    destruct Hsafe as [Hl|Hl]; [|congruence].
    assert (c = l) as -> by congruence.
    rewrite (node_lookup _ _ _ Hc) in Hsu. done.
  - intros s sc c Hsc Hon Hin.
    assert (node c h' = node c h) as ->; [|by eapply sound_topics].
    unfold node. specialize (Hy c). destruct (cells h !! c) as [cc|]; rewrite Hy; [|done].
    case_decide; [|done]. by destruct cc.
  - intros s sc Hsc. destruct (sound_roots h Hs s sc Hsc) as (n & Hr & Hdn).
    exists n. split; [by apply Hnode|done].
Qed.

Lemma sound_record e h : sound h → sound (record e h).
Proof. intros Hs. apply (sound_same h); [done|done|done|]. intros y. apply same_links_refl. Qed.

Lemma safe_record e l h : safe l h → safe l (record e h).
Proof. done. Qed.

Lemma sound_tryDetach t h :
  sound h → (∀ l, t = TNode l → safe l h) → sound (Topic.tryDetach t h).
Proof.
  intros Hs Hsafe. unfold Topic.tryDetach.
  destruct (Topic.detach t h) as [d|] eqn:Hd; [|done].
  destruct (_ && _) eqn:Hc; [|done].
  destruct t as [l| |]; try done. simpl in Hd.
  apply andb_true_iff in Hc as [Hlen _]. rewrite length_zero_nil in Hlen.
  apply bool_decide_eq_true in Hlen. simpl in Hlen.
  apply (sound_call_detach l); [by apply sound_record|done|done|].
  by apply safe_record, Hsafe.
Qed.

Lemma sound_set t v h :
  sound h → (∀ l, t = TNode l → safe l h) → sound (Topic.set t v h).
Proof.
  intros Hs Hsafe. unfold Topic.set.
  set (h1 := Topic.write_value t v h).
  assert (sound h1 ∧ ∀ l, t = TNode l → safe l h1) as [Hs1 Hsafe1].
  { split.
    - apply (sound_same h); [done|by destruct t, v|by destruct t, v|apply links_write_value].
    - intros l Hl. eapply safe_same; [apply links_write_value|by apply Hsafe]. }
  destruct (Topic.strict_eq _ _); [by apply sound_tryDetach|].
  destruct (links_notify t h1) as (Hc & Hn & Hsu).
  apply sound_tryDetach.
  - apply (sound_same h1); [done|done|done|]. intros y. rewrite Hc. apply same_links_refl.
  - intros l Hl. eapply (safe_same h1); [|by apply Hsafe1].
    intros y. rewrite Hc. apply same_links_refl.
Qed.

(** A Node given a Branch or a leaf Topic calls no detach callback. *)
Lemma sound_set_content l c h :
  sound h → c ≠ CUndefined → sound (Node.set l c h).
Proof.
  intros Hs Hc. unfold Node.set, Topic.set.
  set (h1 := Topic.write_value (TNode l) (XContent c) h).
  assert (sound h1) as Hs1.
  { apply (sound_same h); [done|done|done|apply links_write_value]. }
  assert (∀ h2, cells h2 = cells h1 → sound h2 → sound (Topic.tryDetach (TNode l) h2)) as Htd.
  { intros h2 Hc2 Hs2. unfold Topic.tryDetach.
    destruct (Topic.detach (TNode l) h2) as [d|] eqn:Hd; [|done].
    assert (Topic.is_undefined (Topic.get (TNode l) h2) = false) as ->;
      [|by rewrite andb_false_r].
    simpl in *. unfold node in *. rewrite Hc2 in *. unfold h1 in *. simpl in *.
    rewrite lookup_alter_eq in *.
    destruct (cells h !! l) as [[n|?|?]|]; simpl in *; try done. by destruct c. }
  destruct (Topic.strict_eq _ _); [by apply Htd|].
  destruct (links_notify (TNode l) h1) as (Hc1 & Hn & Hsu).
  apply Htd; [done|].
  apply (sound_same h1); [done|done|done|]. intros y. rewrite Hc1. apply same_links_refl.
Qed.

Lemma sound_alloc c h : sound h → new_cell c → sound (alloc c h).2.
Proof.
  intros Hs Hnew. unfold alloc. simpl.
  pose proof (sound_bounded h Hs) as Hbd.
  assert (cells h !! next h = None) as Hfresh by (by apply Hbd).
  assert (∀ y c0, cells h !! y = Some c0 → next h ≠ y) as Hold.
  { intros y c0 Hy <-. congruence. }
  assert (∀ b, b ≠ next h → branch b (MkHeap (<[next h := c]> (cells h)) (S (next h))
                                        (subs h) (notified h) (log h)) = branch b h) as Hbr.
  { intros b Hb. unfold branch. simpl. by rewrite lookup_insert_ne. }
  split.
  - intros x Hx. simpl in *. rewrite lookup_insert_ne by lia. apply Hbd. lia.
  - intros y nc Hy. simpl in *. destruct (decide (y = next h)) as [->|Hne].
    + rewrite lookup_insert_eq in Hy. injection Hy as ->. apply Hnew.
    + rewrite lookup_insert_ne in Hy by done. by eapply sound_links.
  - intros b bc k y Hb Hk. simpl in *. destruct (decide (b = next h)) as [->|Hne].
    + rewrite lookup_insert_eq in Hb. injection Hb as ->. simpl in Hnew.
      by rewrite Hnew in Hk.
    + rewrite lookup_insert_ne in Hb by done.
      destruct (sound_nodes h Hs b bc k y Hb Hk) as (nc & Hy & Hd).
      exists nc. split; [|done]. rewrite lookup_insert_ne; [done|]. by eapply Hold.
  - intros y nc d Hy Hd Hsu. simpl in Hy. destruct (decide (y = next h)) as [->|Hne].
    + rewrite lookup_insert_eq in Hy. injection Hy as ->. simpl in Hnew.
      by destruct Hnew as [? _].
    + rewrite lookup_insert_ne in Hy by done.
      pose proof (sound_subscribed h Hs y nc d Hy Hd Hsu) as Hreg.
      unfold slot in *. rewrite Hbr; [done|]. intros Heq.
      unfold branch in Hreg. by rewrite Heq, Hfresh in Hreg.
  - intros s sc y Hsc Hon Hin. simpl in Hsc.
    pose proof (sound_topics h Hs s sc y Hsc Hon Hin) as Hsub.
    unfold node in *. simpl. destruct (decide (y = next h)) as [->|Hne].
    + rewrite Hfresh in Hsub. by apply elem_of_nil in Hsub.
    + by rewrite lookup_insert_ne.
  - intros s sc Hsc. simpl in *. destruct (sound_roots h Hs s sc Hsc) as (n & Hr & Hdn).
    exists n. split; [|done]. rewrite lookup_insert_ne; [done|]. by eapply Hold.
Qed.

Lemma sound_set_node k c b nc h :
  sound h → cells h !! c = Some (ONode nc) → n_detach nc = Some (k, b) →
  b_nodes (branch b h) !! k = None →
  sound (Branch.set_node k c b h).
Proof.
  intros Hs Hc Hd Hnone. unfold Branch.set_node, modify_branch, with_cells.
  set (f := on_branch (λ c0, MkBranch (b_isArray c0) (b_keys c0) (b_keys_subscribers c0)
                               (<[k := c]> (b_nodes c0)))).
  set (h' := MkHeap (alter f b (cells h)) _ _ _ _).
  assert (∀ y, match cells h !! y with
               | Some c0 => cells h' !! y = Some (if decide (y = b) then f c0 else c0)
               | None => cells h' !! y = None
               end) as Hy.
  { intros y. unfold h'. simpl. rewrite lookup_alter. case_decide as Hyd.
    - subst y. destruct (cells h !! b); [|done]. by rewrite decide_True.
    - destruct (cells h !! y); [|done]. by rewrite decide_False. }
  assert (∀ y n, cells h' !! y = Some (ONode n) ↔ cells h !! y = Some (ONode n)) as Hnode.
  { intros y n. specialize (Hy y). destruct (cells h !! y) as [c0|]; [|by rewrite Hy].
    rewrite Hy. case_decide; [|done]. destruct c0 as [?|?|?]; simpl; split; congruence. }
  assert (∀ b0 k0 y, b_nodes (branch b0 h) !! k0 = Some y →
                     b_nodes (branch b0 h') !! k0 = Some y) as Hkeep.
  { intros b0 k0 y Hk0. specialize (Hy b0).
    destruct (decide (b0 = b)) as [->|Hb0].
    - unfold branch in *. destruct (cells h !! b) as [c0|]; [|done]. rewrite Hy.
      destruct c0 as [?|?|bc]; simpl in *; try done.
      rewrite lookup_insert_ne; [done|]. intros <-. congruence.
    - unfold branch in *. destruct (cells h !! b0) as [c0|]; [|done]. by rewrite Hy. }
  split.
  - intros x Hx. specialize (Hy x). by rewrite (sound_bounded h Hs x Hx) in Hy.
  - intros y n Hyn. apply Hnode in Hyn. by eapply sound_links.
  - intros b0 bc' k0 y Hb' Hk0. specialize (Hy b0).
    destruct (cells h !! b0) as [c0|] eqn:Hb0; [|congruence].
    rewrite Hy in Hb'. case_decide as Heq.
    + subst b0. destruct c0 as [?|?|bc]; simpl in Hb'; try done.
      injection Hb' as <-. simpl in Hk0.
      destruct (decide (k0 = k)) as [->|Hne].
      * rewrite lookup_insert_eq in Hk0. injection Hk0 as <-.
        exists nc. split; [by apply Hnode|done].
      * rewrite lookup_insert_ne in Hk0 by done.
        destruct (sound_nodes h Hs b bc k0 y Hb0 Hk0) as (ny & Hyy & Hdy).
        exists ny. split; [by apply Hnode|done].
    + injection Hb' as ->.
      destruct (sound_nodes h Hs b0 bc' k0 y Hb0 Hk0) as (ny & Hyy & Hdy).
      exists ny. split; [by apply Hnode|done].
  - intros y ny d Hyn Hdy Hsu. apply Hnode in Hyn.
    apply Hkeep. by eapply sound_subscribed.
  - intros s sc y Hsc Hon Hin.
    assert (node y h' = node y h) as ->; [|by eapply sound_topics].
    unfold node. specialize (Hy y). destruct (cells h !! y) as [cc|]; rewrite Hy; [|done].
    case_decide; [|done]. by destruct cc.
  - intros s sc Hsc. destruct (sound_roots h Hs s sc Hsc) as (n & Hr & Hdn).
    exists n. split; [by apply Hnode|done].
Qed.

(** ** Soundness is kept by [update] and [removeKey] *)

Lemma lookup_safe b k c h :
  sound h → b_nodes (branch b h) !! k = Some c →
  safe c h ∧ ∃ nc, cells h !! c = Some (ONode nc) ∧ n_detach nc = Some (k, b).
Proof.
  intros Hs Hk. unfold branch in Hk.
  destruct (cells h !! b) as [[?|?|bc]|] eqn:Hb; try done.
  destruct (sound_nodes h Hs b bc k c Hb Hk) as (nc & Hc & Hd).
  split; [|by exists nc].
  unfold safe, slot. rewrite (node_lookup _ _ _ Hc), Hd. left. simpl.
  by rewrite (branch_lookup _ _ _ Hb).
Qed.

Lemma sound_set_keys b ks h : sound h → sound (Topic.set (TKeys b) (XKeys ks) h).
Proof. intros Hs. by apply sound_set. Qed.

Lemma sound_set_leaf t a h : sound h → sound (Topic.set (TLeaf t) (XAtomic a) h).
Proof. intros Hs. by apply sound_set. Qed.

Lemma sound_clear c b k h :
  sound h → b_nodes (branch b h) !! k = Some c → sound (Node.set c CUndefined h).
Proof.
  intros Hs Hk. apply sound_set; [done|]. intros l [= <-].
  by destruct (lookup_safe b k c h Hs Hk).
Qed.

Lemma sound_removeKey k b h : sound h → sound (Branch.removeKey k b h).
Proof.
  intros Hs. unfold Branch.removeKey.
  pose proof (sound_set_keys b (oset_delete k (b_keys (branch b h))) h Hs) as Hs1.
  set (h1 := Topic.set (TKeys b) _ h) in *.
  destruct (b_nodes (branch b h1) !! k) as [c|] eqn:Hc; [|done].
  by apply (sound_clear c b k).
Qed.

Lemma sound_createChild k b h :
  sound h → b_nodes (branch b h) !! k = None →
  sound (Branch.set_node k (next h) b (Branch.createChild k b h).2).
Proof.
  intros Hs Hk. unfold Branch.createChild.
  set (nc := MkNode CUndefined [] (Some (k, b)) (Some (k, b))).
  pose proof (sound_alloc (ONode nc) h Hs) as Hs1.
  set (h1 := (alloc (ONode nc) h).2) in *.
  assert (cells h1 !! next h = Some (ONode nc)) as Hc by apply lookup_insert_eq.
  apply (sound_set_node k (next h) b nc); [by apply Hs1|done|done|].
  unfold branch in *. unfold h1, alloc. simpl.
  destruct (decide (b = next h)) as [->|Hne].
  - by rewrite lookup_insert_eq.
  - by rewrite lookup_insert_ne.
Qed.

Lemma sound_createVolatileNode k b h :
  sound h → b_nodes (branch b h) !! k = None →
  sound (Branch.createVolatileNode k b h).2.
Proof. intros Hs Hk. by apply sound_createChild. Qed.

Lemma sound_getOrCreateNode k b h : sound h → sound (Branch.getOrCreateNode k b h).2.
Proof.
  intros Hs. unfold Branch.getOrCreateNode.
  destruct (b_nodes (branch b h) !! k) as [c|] eqn:Hk.
  - destruct (oset_has _ _); [done|]. by apply sound_set_keys.
  - pose proof (sound_createChild k b h Hs Hk) as Hs1.
    destruct (Branch.createChild k b h) as [c h1] eqn:Hcc.
    assert (c = next h) as -> by (by injection Hcc as <- _).
    cbn [snd] in Hs1.
    destruct (oset_has _ _); [done|]. by apply sound_set_keys.
Qed.

Lemma sound_getOrCreateBranch l h : sound h → sound (Node.getOrCreateBranch l h).2.
Proof.
  intros Hs. unfold Node.getOrCreateBranch.
  destruct (n_value (node l h)) as [|t|b]; try done;
    apply sound_set_content; try done; by apply sound_alloc.
Qed.

Lemma sound_getOrCreateTopic l h : sound h → sound (Node.getOrCreateTopic l h).2.
Proof.
  intros Hs. unfold Node.getOrCreateTopic.
  destruct (n_value (node l h)) as [|t|b]; try done;
    apply sound_set_content; try done; by apply sound_alloc.
Qed.

Lemma sound_foldl {A} (f : Heap → A → Heap) (xs : list A) :
  (∀ h x, sound h → sound (f h x)) → ∀ h, sound h → sound (foldl f h xs).
Proof.
  intros Hf. induction xs as [|x xs IH]; intros h Hs; [done|].
  simpl. by apply IH, Hf.
Qed.

Lemma sound_update_branch isArray ks l h :
  sound h → sound (Node.update_branch isArray ks l h).2.
Proof.
  intros Hs. unfold Node.update_branch.
  pose proof (sound_getOrCreateBranch l h Hs) as Hs1.
  destruct (Node.getOrCreateBranch l h) as [n h1]. cbn [snd] in *.
  apply sound_set_keys. unfold Node.clear_dropped.
  apply sound_foldl.
  - intros h2 k Hs2. destruct (oset_has k ks); [done|].
    destruct (b_nodes (branch n h2) !! k) as [c|] eqn:Hc; [|done].
    by apply (sound_clear c n k).
  - apply (sound_same h1); [done|done|done|].
    apply same_links_alter. by intros [?|?|?].
Qed.

Lemma sound_update_empty l h : sound h → sound (Node.update_empty l h).
Proof.
  intros Hs. unfold Node.update_empty.
  destruct (n_parent (node l h)) as [[k b]|] eqn:Hp; [by apply sound_removeKey|].
  apply sound_set; [done|]. intros l' [= <-]. unfold safe.
  assert (n_detach (node l h) = None) as ->; [|done].
  unfold node in *. destruct (cells h !! l) as [[n|?|?]|] eqn:Hl; try done.
  by rewrite <- (sound_links h Hs l n Hl).
Qed.

Lemma sound_update_entries es n h :
  Forall (λ kx : string * Value, ∀ l h, sound h → sound (Node.update kx.2 l h)) es →
  sound h → sound (update_entries es n h).
Proof.
  intros Hes. unfold update_entries. revert h.
  induction Hes as [|[k x] es Hx _ IH]; intros h Hs; [done|].
  simpl. apply IH. unfold Node.update_child.
  pose proof (sound_getOrCreateNode k n h Hs) as Hs1.
  destruct (Branch.getOrCreateNode k n h) as [c h1]. by apply Hx.
Qed.

Lemma sound_update v : ∀ l h, sound h → sound (Node.update v l h).
Proof.
  induction v as [| |a|xs IH|fs IH|c fs IH] using Value_ind'; intros l h Hs.
  - by apply sound_update_empty.
  - by apply sound_update_empty.
  - simpl. pose proof (sound_getOrCreateTopic l h Hs) as Hs1.
    destruct (Node.getOrCreateTopic l h) as [t h1]. by apply sound_set_leaf.
  - rewrite update_VArray. apply sound_update_entries; [|by apply sound_update_branch].
    apply Forall_forall. intros [k x] Hx.
    apply elem_of_lookup_imap in Hx as (i & z & Heq & Hz). injection Heq as -> ->.
    rewrite Forall_forall in IH. apply IH. by eapply list_elem_of_lookup_2.
  - rewrite update_VRecord. apply sound_update_entries; [|by apply sound_update_branch].
    apply Forall_forall. intros [k x] Hx. rewrite Forall_forall in IH. apply (IH _ Hx).
  - change (Node.update (VInstance c fs) l h) with (Node.update (VRecord fs) l h).
    rewrite update_VRecord. apply sound_update_entries; [|by apply sound_update_branch].
    apply Forall_forall. intros [k x] Hx. rewrite Forall_forall in IH. apply (IH _ Hx).
Qed.

Lemma sound_getOrCreateNode_path path : ∀ l h, sound h → sound (Node.getOrCreateNode path l h).2.
Proof.
  induction path as [|k path IH]; intros l h Hs; [done|].
  rewrite getOrCreateNode_cons. apply IH.
  by apply sound_getOrCreateNode, sound_getOrCreateBranch.
Qed.

Lemma sound_update_unflushed v this h : sound h → sound (State.update_unflushed v this h).2.
Proof.
  intros Hs. unfold State.update_unflushed.
  destruct (validateStateInput v); [|done..].
  pose proof (sound_getOrCreateNode_path (keys this) (root this) h Hs) as Hs1.
  destruct (Node.getOrCreateNode _ _ _) as [n h1]. by apply sound_update.
Qed.


(** ** The subscriptions of a sound store *)

Lemma same_slots_refl c : same_slots c c.
Proof. by destruct c as [[n|t|b]|]. Qed.

Lemma same_slots_alter (f : Cell → Cell) x (m : gmap loc Cell) :
  (∀ c, same_slots (Some c) (Some (f c))) →
  ∀ y, same_slots (m !! y) (alter f x m !! y).
Proof.
  intros Hf y. rewrite lookup_alter. case_decide; [|apply same_slots_refl].
  subst. destruct (m !! y); [apply Hf|done].
Qed.

Lemma same_slots_branch h h' y :
  same_slots (cells h !! y) (cells h' !! y) → b_nodes (branch y h') = b_nodes (branch y h).
Proof.
  unfold branch, same_slots.
  destruct (cells h !! y) as [[n|t|b]|], (cells h' !! y) as [[n'|t'|b']|]; try done.
Qed.

Lemma same_slots_node h h' y :
  same_slots (cells h !! y) (cells h' !! y) →
  n_detach (node y h') = n_detach (node y h) ∧ n_value (node y h') = n_value (node y h).
Proof.
  unfold node, same_slots.
  destruct (cells h !! y) as [[n|t|b]|], (cells h' !! y) as [[n'|t'|b']|]; try done.
  by intros (-> & _ & ->).
Qed.

Lemma safe_slots h h' l :
  (∀ y, same_slots (cells h !! y) (cells h' !! y)) → safe l h → safe l h'.
Proof.
  intros Hc. unfold safe, slot.
  destruct (same_slots_node h h' l (Hc l)) as (-> & _).
  destruct (n_detach (node l h)) as [d|]; [|done].
  by rewrite (same_slots_branch h h' d.2 (Hc d.2)).
Qed.

Lemma slots_write_subscribers t f h :
  ∀ y, same_slots (cells h !! y) (cells (Topic.write_subscribers t f h) !! y).
Proof. destruct t as [l|l|b]; simpl; apply same_slots_alter; by intros [?|?|?]. Qed.

Lemma still_refl h : bounded h → still h h.
Proof. intros Hbd. split; [by apply keeps_refl|]. by intros x k c Hc _. Qed.

Lemma still_trans h h' h'' : bounded h → still h h' → still h' h'' → still h h''.
Proof.
  intros Hbd [Hk1 Hn1] [Hk2 Hn2]. split; [by eapply keeps_trans|].
  intros x k c Hc Hv. apply Hn2; [by apply Hn1|].
  by rewrite (keeps_value h h' c Hbd Hk1).
Qed.

Lemma still_same_nodes h h' :
  keeps h h' → (∀ x, b_nodes (branch x h') = b_nodes (branch x h)) → still h h'.
Proof. intros Hk Hn. split; [done|]. intros x k c Hc _. by rewrite Hn. Qed.

Lemma nodes_write_subscribers t f h x :
  b_nodes (branch x (Topic.write_subscribers t f h)) = b_nodes (branch x h).
Proof. apply same_slots_branch, slots_write_subscribers. Qed.

Lemma still_write_subscribers t f h : bounded h → still h (Topic.write_subscribers t f h).
Proof.
  intros Hbd. apply still_same_nodes; [by apply keeps_write_subscribers|].
  intros x. apply nodes_write_subscribers.
Qed.

Lemma slot_call_detach d d' h :
  slot d' (Topic.call_detach d h) = if decide (d' = d) then None else slot d' h.
Proof.
  unfold slot, Topic.call_detach, modify_branch, with_cells, branch. simpl.
  rewrite lookup_alter. destruct d as [k b], d' as [k' b']. simpl.
  destruct (decide (b = b')) as [->|Hb].
  - destruct (cells h !! b') as [[?|?|bc]|]; simpl.
    + by destruct (decide _).
    + by destruct (decide _).
    + destruct (decide (k' = k)) as [->|Hk].
      * rewrite decide_True by done. apply lookup_delete_eq.
      * rewrite decide_False by congruence. by apply lookup_delete_ne.
    + by destruct (decide _).
  - rewrite decide_False by congruence. done.
Qed.

Lemma node_call_detach d l h : node l (Topic.call_detach d h) = node l h.
Proof.
  unfold node, Topic.call_detach, modify_branch, with_cells. simpl.
  rewrite lookup_alter. case_decide; [|done]. subst.
  by destruct (cells h !! d.2) as [[?|?|?]|].
Qed.

Lemma safe_tryDetach t l h : safe l h → safe l (Topic.tryDetach t h).
Proof.
  unfold Topic.tryDetach. destruct (Topic.detach t h) as [d|]; [|done].
  destruct (_ && _); [|done]. unfold safe.
  rewrite node_call_detach. change (node l (record (Detached t) h)) with (node l h).
  destruct (n_detach (node l h)) as [d'|]; [|done].
  rewrite slot_call_detach. case_decide; [by right|done].
Qed.

Lemma safe_write_subscribers t f l h : safe l h → safe l (Topic.write_subscribers t f h).
Proof. apply safe_slots, slots_write_subscribers. Qed.

Lemma still_tryDetach t h :
  sound h → (∀ l, t = TNode l → safe l h) → still h (Topic.tryDetach t h).
Proof.
  intros Hs Hsafe. pose proof (sound_bounded h Hs) as Hbd.
  split; [by apply keeps_tryDetach|].
  intros x k c Hc Hv. unfold Topic.tryDetach.
  destruct (Topic.detach t h) as [d|] eqn:Hd; [|done].
  destruct (_ && _) eqn:Hcond; [|done].
  destruct t as [l| |]; try done. simpl in Hd.
  apply andb_true_iff in Hcond as [_ Hu]. simpl in Hu.
  change (b_nodes (branch x (Topic.call_detach d (record (Detached (TNode l)) h))) !! k)
    with (slot (k, x) (Topic.call_detach d (record (Detached (TNode l)) h))).
  rewrite slot_call_detach. case_decide as Heq; [|done]. subst d.
  specialize (Hsafe l eq_refl). unfold safe in Hsafe. rewrite Hd in Hsafe.
  unfold slot in Hsafe. simpl in Hsafe. rewrite Hc in Hsafe.
  destruct Hsafe as [[= ->]|?]; [|done].
  by destruct (n_value (node l h)).
Qed.

Lemma sound_write_delete t s h :
  sound h → muted s h → sound (Topic.write_subscribers t (set_delete s) h).
Proof.
  intros Hs Hm. destruct t as [l|l|b];
    [|apply (sound_same h); [done|done|done|];
      simpl; apply same_links_alter; by intros [?|?|?]..].
  simpl. unfold modify_node, with_cells.
  set (f := on_node (λ n, MkNode (n_value n) (set_delete s (n_subscribers n))
                            (n_detach n) (n_parent n))).
  set (h' := MkHeap (alter f l (cells h)) _ _ _ _).
  assert (∀ y, match cells h !! y with
               | Some c => cells h' !! y = Some (if decide (y = l) then f c else c)
               | None => cells h' !! y = None
               end) as Hy.
  { intros y. unfold h'. simpl. rewrite lookup_alter. case_decide as Hyd.
    - subst y. destruct (cells h !! l); [|done]. by rewrite decide_True.
    - destruct (cells h !! y); [|done]. by rewrite decide_False. }
  assert (∀ x, branch x h' = branch x h) as Hbr.
  { intros x. unfold branch. specialize (Hy x).
    destruct (cells h !! x) as [c|]; rewrite Hy; [|done].
    case_decide; [|done]. by destruct c. }
  assert (∀ y n', cells h' !! y = Some (ONode n') →
            ∃ n, cells h !! y = Some (ONode n) ∧ n_detach n' = n_detach n ∧
                 n_parent n' = n_parent n ∧
                 (∀ s', s' ∈ n_subscribers n' → s' ∈ n_subscribers n) ∧
                 (∀ s', s' ≠ s → s' ∈ n_subscribers n → s' ∈ n_subscribers n')) as Hnode.
  { intros y n' Hy'. specialize (Hy y).
    destruct (cells h !! y) as [c|]; [|congruence]. rewrite Hy in Hy'.
    case_decide.
    - destruct c as [n|?|?]; simpl in Hy'; try done. injection Hy' as <-.
      exists n. simpl. split_and!; try done.
      + intros s'. rewrite elem_of_set_delete. tauto.
      + intros s' ? ?. by apply elem_of_set_delete.
    - injection Hy' as ->. exists n'. done. }
  split.
  - intros x Hx. specialize (Hy x). by rewrite (sound_bounded h Hs x Hx) in Hy.
  - intros c nc' Hc. destruct (Hnode c nc' Hc) as (nc & Hc0 & -> & -> & _).
    by eapply sound_links.
  - intros b bc' k c Hb' Hk.
    assert (b_nodes (branch b h) !! k = Some c) as Hk0.
    { by rewrite <- Hbr, (branch_lookup _ _ _ Hb'). }
    destruct (lookup_safe b k c h Hs Hk0) as (_ & nc & Hc & Hd).
    specialize (Hy c). rewrite Hc in Hy. case_decide.
    + eexists. split; [exact Hy|done].
    + eexists. split; [exact Hy|done].
  - intros c nc' d Hc Hd Hsu. destruct (Hnode c nc' Hc) as (nc & Hc0 & Hd0 & _ & Hsub & _).
    unfold slot. rewrite Hbr.
    apply (sound_subscribed h Hs c nc d Hc0); [congruence|].
    destruct (n_subscribers nc') as [|s' ss] eqn:Hss; [done|].
    intros Hnil. specialize (Hsub s' ltac:(by left)). rewrite Hnil in Hsub.
    by apply elem_of_nil in Hsub.
  - intros s' sc c Hsc Hon Hin.
    assert (s' ≠ s) as Hne. { intros ->. by rewrite (Hm sc Hsc) in Hon. }
    pose proof (sound_topics h Hs s' sc c Hsc Hon Hin) as Hsub.
    unfold node in *. specialize (Hy c).
    destruct (cells h !! c) as [cc|]; rewrite Hy; [|done]. case_decide; [|done].
    destruct cc as [n|?|?]; simpl; try done. by apply elem_of_set_delete.
  - intros s' sc Hsc. destruct (sound_roots h Hs s' sc Hsc) as (n & Hr & Hdn).
    specialize (Hy (root (s_reaction sc).2)). rewrite Hr in Hy.
    destruct (decide _); (eexists; split; [exact Hy|done]).
Qed.

Lemma sound_subscribe t s h :
  sound h → (∀ c, t = TNode c → reg c h) → sound (Topic.subscribe t s h).
Proof.
  intros Hs Hreg. unfold Topic.subscribe. destruct t as [l|l|b];
    [|apply (sound_same h); [done|done|done|];
      simpl; apply same_links_alter; by intros [?|?|?]..].
  destruct (Hreg l eq_refl) as (nl & Hl & Hslot).
  simpl. unfold modify_node, with_cells.
  set (f := on_node (λ n, MkNode (n_value n) (set_add s (n_subscribers n))
                            (n_detach n) (n_parent n))).
  set (h' := MkHeap (alter f l (cells h)) _ _ _ _).
  assert (∀ y, match cells h !! y with
               | Some c => cells h' !! y = Some (if decide (y = l) then f c else c)
               | None => cells h' !! y = None
               end) as Hy.
  { intros y. unfold h'. simpl. rewrite lookup_alter. case_decide as Hyd.
    - subst y. destruct (cells h !! l); [|done]. by rewrite decide_True.
    - destruct (cells h !! y); [|done]. by rewrite decide_False. }
  assert (∀ x, branch x h' = branch x h) as Hbr.
  { intros x. unfold branch. specialize (Hy x).
    destruct (cells h !! x) as [c|]; rewrite Hy; [|done].
    case_decide; [|done]. by destruct c. }
  assert (∀ y n', cells h' !! y = Some (ONode n') →
            ∃ n, cells h !! y = Some (ONode n) ∧ n_detach n' = n_detach n ∧
                 n_parent n' = n_parent n ∧
                 (y ≠ l → n_subscribers n' = n_subscribers n)) as Hnode.
  { intros y n' Hy'. specialize (Hy y).
    destruct (cells h !! y) as [c|]; [|congruence]. rewrite Hy in Hy'.
    case_decide.
    - destruct c as [n|?|?]; simpl in Hy'; try done. injection Hy' as <-.
      exists n. by simpl.
    - injection Hy' as ->. exists n'. done. }
  split.
  - intros x Hx. specialize (Hy x). by rewrite (sound_bounded h Hs x Hx) in Hy.
  - intros c nc' Hc. destruct (Hnode c nc' Hc) as (nc & Hc0 & -> & -> & _).
    by eapply sound_links.
  - intros b bc' k c Hb' Hk.
    assert (b_nodes (branch b h) !! k = Some c) as Hk0.
    { by rewrite <- Hbr, (branch_lookup _ _ _ Hb'). }
    destruct (lookup_safe b k c h Hs Hk0) as (_ & nc & Hc & Hd).
    specialize (Hy c). rewrite Hc in Hy. case_decide.
    + eexists. split; [exact Hy|done].
    + eexists. split; [exact Hy|done].
  - intros c nc' d Hc Hd Hsu. destruct (Hnode c nc' Hc) as (nc & Hc0 & Hd0 & _ & Hsub).
    unfold slot. rewrite Hbr. destruct (decide (c = l)) as [->|Hne].
    + assert (nc = nl) as -> by congruence. rewrite <- Hd0, Hd in Hslot. done.
    + apply (sound_subscribed h Hs c nc d Hc0); [congruence|]. by rewrite <- Hsub.
  - intros s' sc c Hsc Hon Hin.
    pose proof (sound_topics h Hs s' sc c Hsc Hon Hin) as Hsub.
    unfold node in *. specialize (Hy c).
    destruct (cells h !! c) as [cc|]; rewrite Hy; [|done]. case_decide; [|done].
    destruct cc as [n|?|?]; simpl; try done. apply elem_of_set_add. by right.
  - intros s' sc Hsc. destruct (sound_roots h Hs s' sc Hsc) as (n & Hr & Hdn).
    specialize (Hy (root (s_reaction sc).2)). rewrite Hr in Hy.
    destruct (decide _); (eexists; split; [exact Hy|done]).
Qed.

(** ** A proper tree stays one *)

Lemma regrown_fp h h' b (kids : list Kid) (kid : Kid) y :
  sound h' → (∀ x, x ∈ kids_fp kids → x < next h) →
  b_nodes (branch b h') !! kid.1 = Some kid.2.1 →
  regrown h h' kids kid → y ∈ kid_fp kid →
  (y < next h ∧ ∃ Sc, (kid.1, (kid.2.1, Sc)) ∈ kids ∧ y ∈ kid_fp (kid.1, (kid.2.1, Sc))) ∨
  (next h ≤ y ∧ ∃ d, n_detach (node y h') = Some d ∧
     ((∃ Sc, (kid.1, (kid.2.1, Sc)) ∈ kids ∧ d.2 ∈ fp Sc) ∨ d = (kid.1, b))).
Proof.
  intros Hs Hlt Hk (Hr & Hnd & Hcase) Hy. destruct kid as [k [c Sc']]. simpl in *.
  unfold kid_fp in Hy. simpl in Hy.
  destruct Hcase as [(Hc & Sc & Hin & Hsp)|(Hc & ->)].
  - apply elem_of_cons in Hy as [->|Hy].
    + left. split; [done|]. exists Sc. split; [done|by left].
    + destruct (Hsp y Hy) as [[Hylt Hyin]|(Hyge & d & Hd & Hdin)].
      * left. split; [done|]. exists Sc. split; [done|by right].
      * right. split; [done|]. exists d. split; [done|]. left. by exists Sc.
  - simpl in Hy. apply list_elem_of_singleton in Hy as ->.
    right. split; [done|].
    destruct (lookup_safe b k c h' Hs Hk) as (_ & nc & Hcc & Hd).
    exists (k, b). rewrite (node_lookup _ _ _ Hcc). split; [done|by right].
Qed.

Lemma Forall2_same_keys {A B C} (P : A * B → A * C → Prop) es ks :
  Forall2 (λ e kid, kid.1 = e.1 ∧ P e kid) es ks → ks.*1 = es.*1.
Proof.
  induction 1 as [|e kid es ks [He _] _ IH]; [done|].
  rewrite !fmap_cons. by f_equal.
Qed.

Lemma keeps_rep h h' :
  bounded h → keeps h h' → sound h' →
  ∀ S l, rep h l S → NoDup (l :: fp S) →
  ∃ S', rep h' l S' ∧ NoDup (l :: fp S') ∧ sprung h h' S S'.
Proof.
  intros Hbd Hk Hs. induction S as [|t|b kids IH] using Shape_ind'; intros l Hr Hnd.
  - inversion Hr as [? n Hl Hv| |]; subst.
    destruct (keeps_node _ _ Hk _ _ Hl) as (n' & Hl' & Hv').
    exists SUndefined. split_and!; [eapply rep_undefined; [done|congruence]|done|].
    intros y Hy. by apply elem_of_nil in Hy.
  - inversion Hr as [|? n ? c Hl Hv Ht|]; subst.
    destruct (keeps_node _ _ Hk _ _ Hl) as (n' & Hl' & Hv').
    destruct (keeps_leaf _ _ Hk _ _ Ht) as (c' & Ht' & _).
    exists (STopic t). split_and!; [eapply rep_topic; [done|congruence|done]|done|].
    intros y Hy. left. split; [|done]. simpl in Hy. apply list_elem_of_singleton in Hy as ->.
    by eapply bounded_lookup_lt.
  - destruct (rep_branch_inv _ _ _ _ Hr) as (n & bc & Hl & Hv & Hb & Hcov & Hkids).
    rewrite fp_branch in Hnd.
    apply NoDup_cons in Hnd as [Hl1 Hnd]. apply NoDup_cons in Hnd as [Hb1 Hnd].
    rewrite not_elem_of_cons in Hl1. destruct Hl1 as [Hlb Hl1].
    destruct (keeps_node _ _ Hk _ _ Hl) as (n' & Hl' & Hv').
    destruct (keeps_branch _ _ Hk _ _ Hb) as (bc' & Hb' & _ & _ & Hnodes).
    assert (∀ x, x ∈ kids_fp kids → x < next h) as Hlt.
    { intros x Hx. eapply (rep_lt h l (SBranch b kids)); [done|done|].
      rewrite fp_branch. right. by right. }
    assert (l < next h) as Hllt by (by eapply bounded_lookup_lt).
    assert (b < next h) as Hblt by (by eapply bounded_lookup_lt).
    (* the children after the step *)
    assert (Forall (λ e : string * loc,
                      ∃ kid : Kid, kid.1 = e.1 ∧ kid.2.1 = e.2 ∧ regrown h h' kids kid)
                   (map_to_list (b_nodes bc'))) as Hall.
    { apply Forall_forall. intros [k c] He. apply elem_of_map_to_list in He.
      destruct (decide (c < next h)) as [Hc|Hc].
      - assert (b_nodes bc !! k = Some c) as Hold.
        { destruct (Hnodes k) as [Heq|[Hn|(c' & Hc' & Hge)]]; [congruence|congruence|].
          assert (c' = c) by congruence. lia. }
        apply Hcov in Hold as [Sc Hin].
        rewrite Forall_forall in IH, Hkids.
        destruct (Hkids _ Hin) as (_ & _ & Hrc). simpl in Hrc.
        destruct (IH _ Hin c Hrc) as (Sc' & Hrc' & Hndc' & Hsp).
        { by apply (kid_fp_NoDup kids (k, (c, Sc))). }
        exists (k, (c, Sc')). split_and!; [done|done|]. split_and!; [done|done|].
        left. split; [done|]. by exists Sc.
      - exists (k, (c, SUndefined)). split_and!; [done|done|].
        assert (next h ≤ c) as Hge by lia.
        assert (b_nodes (branch b h') !! k = Some c) as Hk'.
        { by rewrite (branch_lookup _ _ _ Hb'). }
        destruct (lookup_safe b k c h' Hs Hk') as (_ & nc & Hcc & Hd).
        destruct (keeps_new _ _ Hk c _ (Hbd c Hge) Hcc) as (_ & nc' & [= <-] & Hvc).
        split_and!; [by eapply rep_undefined|apply NoDup_singleton|by right]. }
    apply Forall_exists_Forall2_l in Hall as [kids' Hkids'].
    assert (kids'.*1 = (map_to_list (b_nodes bc')).*1) as Hfst.
    { by apply (Forall2_same_keys _ _ _ Hkids'). }
    assert (NoDup kids'.*1) as Hndk.
    { rewrite Hfst. apply NoDup_fst_map_to_list. }
    assert (∀ kid : Kid, kid ∈ kids' →
              b_nodes bc' !! kid.1 = Some kid.2.1 ∧ regrown h h' kids kid) as HF1.
    { intros kid Hkid. apply list_elem_of_lookup in Hkid as [i Hi].
      destruct (Forall2_lookup_r _ _ _ _ _ Hkids' Hi) as (e & He & Hk1 & Hk2 & Hg).
      split; [|done]. rewrite Hk1, Hk2. apply elem_of_map_to_list'.
      by eapply list_elem_of_lookup_2. }
    assert (∀ k c, b_nodes bc' !! k = Some c → ∃ Sc', (k, (c, Sc')) ∈ kids') as HF2.
    { intros k c Hkc. apply elem_of_map_to_list in Hkc.
      apply list_elem_of_lookup in Hkc as [i Hi].
      destruct (Forall2_lookup_l _ _ _ _ _ Hkids' Hi) as ([k' [c' Sc']] & Hki & Hk1 & Hk2 & _).
      simpl in *. subst. exists Sc'. by eapply list_elem_of_lookup_2. }
    assert (∀ kid : Kid, kid ∈ kids' → b_nodes (branch b h') !! kid.1 = Some kid.2.1) as Hreg.
    { intros kid Hkid. rewrite (branch_lookup _ _ _ Hb'). by apply HF1. }
    assert (∀ (kid : Kid) y, kid ∈ kids' → y ∈ kid_fp kid →
              (y < next h ∧ ∃ Sc, (kid.1, (kid.2.1, Sc)) ∈ kids ∧
                                  y ∈ kid_fp (kid.1, (kid.2.1, Sc))) ∨
              (next h ≤ y ∧ ∃ d, n_detach (node y h') = Some d ∧
                 ((∃ Sc, (kid.1, (kid.2.1, Sc)) ∈ kids ∧ d.2 ∈ fp Sc) ∨ d = (kid.1, b))))
      as Hown.
    { intros kid y Hkid Hy.
      apply (regrown_fp h h' b kids kid y Hs Hlt (Hreg _ Hkid)); [|done]. by apply HF1. }
    exists (SBranch b kids'). split_and!.
    + eapply rep_branch_intro; [done|congruence|done| |].
      * intros k c. split; [apply HF2|].
        intros [Sc' Hin]. by destruct (HF1 _ Hin) as [? _].
      * apply Forall_forall. intros kid Hkid.
        destruct (HF1 _ Hkid) as [Hkc (Hrk & _)].
        destruct (lookup_safe b kid.1 kid.2.1 h' Hs (Hreg _ Hkid)) as (_ & nc & Hcc & Hd).
        unfold kid_ok. rewrite (node_lookup _ _ _ Hcc).
        split_and!; [done| |done]. by rewrite (sound_links h' Hs _ _ Hcc).
    + rewrite fp_branch. apply NoDup_cons. split.
      { rewrite not_elem_of_cons. split; [done|].
        intros Hin. apply elem_of_kids_fp in Hin as (kid & Hkid & Hy).
        destruct (Hown kid l Hkid Hy) as [(_ & Sc & Hin & Hy')|(? & _)]; [|lia].
        apply Hl1. by eapply kid_in_kids_fp. }
      apply NoDup_cons. split.
      { intros Hin. apply elem_of_kids_fp in Hin as (kid & Hkid & Hy).
        destruct (Hown kid b Hkid Hy) as [(_ & Sc & Hin & Hy')|(? & _)]; [|lia].
        apply Hb1. by eapply kid_in_kids_fp. }
      apply NoDup_bind.
      * intros kid1 kid2 y H1 H2 Hy1 Hy2.
        assert (kid1.1 = kid2.1) as Hkey.
        { destruct (Hown kid1 y H1 Hy1) as [(Hy1lt & Sc1 & Hin1 & Hy1')|(Hy1ge & d1 & Hd1 & Hc1)],
                   (Hown kid2 y H2 Hy2) as [(Hy2lt & Sc2 & Hin2 & Hy2')|(Hy2ge & d2 & Hd2 & Hc2)];
            try lia.
          - by pose proof (kids_fp_disjoint kids _ _ y Hnd Hin1 Hin2 Hy1' Hy2') as [= ? _].
          - assert (d2 = d1) as -> by congruence.
            destruct Hc1 as [(Sc1 & Hin1 & Hp1)| ->], Hc2 as [(Sc2 & Hin2 & Hp2)|Heq2].
            + by pose proof (kids_fp_disjoint kids _ _ d1.2 Hnd Hin1 Hin2
                               ltac:(by right) ltac:(by right)) as [= ? _].
            + subst d1. simpl in Hp1. exfalso. apply Hb1.
              eapply kid_in_kids_fp; [exact Hin1|by right].
            + simpl in Hp2. exfalso. apply Hb1.
              eapply kid_in_kids_fp; [exact Hin2|by right].
            + by injection Heq2. }
        destruct kid1 as [k1 [c1 S1]], kid2 as [k2 [c2 S2]]. simpl in Hkey. subst k2.
        by rewrite (NoDup_fst_agree kids' k1 (c1, S1) (c2, S2) Hndk H1 H2).
      * intros kid Hkid. by destruct (HF1 _ Hkid) as (_ & _ & ? & _).
      * by eapply NoDup_fmap_1.
    + intros y Hy. rewrite fp_branch in Hy |- *.
      apply elem_of_cons in Hy as [->|Hy]; [left; split; [done|by left]|].
      apply elem_of_kids_fp in Hy as (kid & Hkid & Hy).
      destruct (Hown kid y Hkid Hy) as [(Hylt & Sc & Hin & Hy')|(Hyge & d & Hd & Hc)].
      * left. split; [done|]. right. by eapply kid_in_kids_fp.
      * right. split; [done|]. exists d. split; [done|].
        destruct Hc as [(Sc & Hin & Hp)| ->]; [|by left].
        right. eapply kid_in_kids_fp; [exact Hin|by right].
Qed.

Lemma keeps_tree h h' l S :
  tree h l S → keeps h h' → sound h' →
  ∃ S', tree h' l S' ∧ sprung h h' S S'.
Proof.
  intros (Hbd & Hr & Hnd) Hk Hs.
  destruct (keeps_rep h h' Hbd Hk Hs S l Hr Hnd) as (S' & Hr' & Hnd' & Hsp).
  exists S'. split; [|done]. split_and!; [by apply sound_bounded|done|done].
Qed.

(** ** Subscriber records *)

Lemma sound_subs g h :
  sound h →
  (∀ s sc, g (subs h) !! s = Some sc →
     (s_subscribed sc = true → ∀ c, TNode c ∈ s_topics sc → s ∈ n_subscribers (node c h)) ∧
     ∃ n, cells h !! root (s_reaction sc).2 = Some (ONode n) ∧ n_detach n = None) →
  sound (with_subs g h).
Proof.
  intros Hs Hg. split.
  - apply Hs.
  - apply Hs.
  - apply Hs.
  - apply Hs.
  - intros s sc c Hsc Hon Hin. by apply (proj1 (Hg s sc Hsc)).
  - intros s sc Hsc. by apply (proj2 (Hg s sc Hsc)).
Qed.

Lemma sound_mute s h :
  sound h →
  sound (with_subs (alter (λ c, MkSubscriber (s_reaction c) false (s_topics c)) s) h).
Proof.
  intros Hs. apply sound_subs; [done|]. intros s' sc' Hsc'.
  rewrite lookup_alter in Hsc'. case_decide; [subst s'|].
  - destruct (subs h !! s) as [sc|] eqn:Hsc; [|done]. simpl in Hsc'.
    injection Hsc' as <-. simpl. split; [done|]. by eapply sound_roots.
  - split; [|by eapply sound_roots].
    intros Hon c Hc. by apply (sound_topics h Hs s' sc' c).
Qed.

Lemma sound_set_topics s ts h : sound h → muted s h → sound (State.set_topics s ts h).
Proof.
  intros Hs Hm. apply sound_subs; [done|]. intros s' sc' Hsc'.
  rewrite lookup_alter in Hsc'. case_decide; [subst s'|].
  - destruct (subs h !! s) as [sc|] eqn:Hsc; [|done]. simpl in Hsc'.
    injection Hsc' as <-. simpl. split; [by rewrite (Hm sc Hsc)|].
    by eapply sound_roots.
  - split; [|by eapply sound_roots].
    intros Hon c Hc. by apply (sound_topics h Hs s' sc' c).
Qed.

Lemma sound_unmute s h :
  sound h →
  (∀ sc c, subs h !! s = Some sc → TNode c ∈ s_topics sc → s ∈ n_subscribers (node c h)) →
  sound (with_subs (alter (λ c, MkSubscriber (s_reaction c) true (s_topics c)) s) h).
Proof.
  intros Hs Hin. apply sound_subs; [done|]. intros s' sc' Hsc'.
  rewrite lookup_alter in Hsc'. case_decide; [subst s'|].
  - destruct (subs h !! s) as [sc|] eqn:Hsc; [|done]. simpl in Hsc'.
    injection Hsc' as <-. simpl. split; [|by eapply sound_roots].
    intros _ c Hc. by eapply Hin.
  - split; [|by eapply sound_roots].
    intros Hon c Hc. by apply (sound_topics h Hs s' sc' c).
Qed.

Lemma still_with_subs g h : bounded h → still h (with_subs g h).
Proof.
  intros Hbd. apply still_same_nodes; [by apply keeps_with_subs|done].
Qed.

Lemma subscribe_with_subs g s ts : ∀ h,
  foldl (λ h a, Topic.subscribe a s h) (with_subs g h) ts =
  with_subs g (foldl (λ h a, Topic.subscribe a s h) h ts).
Proof.
  induction ts as [|t ts IH]; intros h; [done|]. simpl. rewrite <- IH. f_equal.
  by destruct t.
Qed.

(** ** unsubscribe *)

Lemma subscribed_safe s sc l h :
  sound h → subs h !! s = Some sc → s_subscribed sc = true →
  TNode l ∈ s_topics sc → safe l h.
Proof.
  intros Hs Hsc Hon Hin. pose proof (sound_topics h Hs s sc l Hsc Hon Hin) as Hsub.
  unfold safe. unfold node in *.
  destruct (cells h !! l) as [[n|?|?]|] eqn:Hl; try done.
  destruct (n_detach n) as [d|] eqn:Hd; [|done]. left.
  apply (sound_subscribed h Hs l n d Hl Hd). intros Hnil. rewrite Hnil in Hsub.
  by apply elem_of_nil in Hsub.
Qed.

Lemma unsubscribe_loop s ts : ∀ h,
  sound h → muted s h → (∀ l, TNode l ∈ ts → safe l h) →
  let h' := foldl (λ h a, Topic.unsubscribe a s h) h ts in
  sound h' ∧ still h h' ∧ subs h' = subs h.
Proof.
  induction ts as [|t ts IH]; intros h Hs Hm Hsafe h'.
  - split_and!; [done|by apply still_refl, Hs|done].
  - unfold h'. simpl. unfold Topic.unsubscribe at 2.
    set (h1 := Topic.write_subscribers t (set_delete s) h).
    assert (sound h1) as Hs1 by (by apply sound_write_delete).
    assert (subs h1 = subs h) as Hsub1 by (by destruct t).
    assert (still h h1) as Hst1 by (by apply still_write_subscribers, Hs).
    set (h2 := Topic.tryDetach t h1).
    assert (∀ l, t = TNode l → safe l h1) as Hsafe1.
    { intros l ->. apply safe_write_subscribers, Hsafe. by left. }
    assert (sound h2) as Hs2 by (by apply sound_tryDetach).
    assert (subs h2 = subs h1) as Hsub2.
    { unfold h2, Topic.tryDetach. destruct (Topic.detach t h1); [|done].
      by destruct (_ && _). }
    assert (still h1 h2) as Hst2 by (by apply still_tryDetach).
    destruct (IH h2) as (Hs3 & Hst3 & Hsub3).
    + done.
    + intros sc Hsc. apply Hm. by rewrite <- Hsub1, <- Hsub2.
    + intros l Hl. apply safe_tryDetach, safe_write_subscribers, Hsafe. by right.
    + split_and!; [done| |by etrans; [exact Hsub3|etrans; [exact Hsub2|exact Hsub1]]].
      eapply still_trans; [apply Hs|exact Hst1|].
      eapply still_trans; [apply Hs1|exact Hst2|exact Hst3].
Qed.

Lemma unsubscribe_all_sound s sc h :
  sound h → subs h !! s = Some sc → s_subscribed sc = true →
  let h' := unsubscribe_all s h in
  sound h' ∧ still h h' ∧
  subs h' = <[s := MkSubscriber (s_reaction sc) false (s_topics sc)]> (subs h).
Proof.
  intros Hs Hsc Hon h'. unfold h', unsubscribe_all.
  set (g := alter (λ c, MkSubscriber (s_reaction c) false (s_topics c)) s).
  set (h1 := with_subs g h).
  assert (sound h1) as Hs1 by (by apply sound_mute).
  assert (subs h1 = <[s := MkSubscriber (s_reaction sc) false (s_topics sc)]> (subs h))
    as Hsubs1.
  { unfold h1, g. simpl. apply map_eq. intros s'.
    rewrite lookup_alter, lookup_insert. case_decide; [subst s'|done]. by rewrite Hsc. }
  assert (subs h1 !! s = Some (MkSubscriber (s_reaction sc) false (s_topics sc))) as Hsc1.
  { rewrite Hsubs1. apply lookup_insert_eq. }
  assert (muted s h1) as Hm1.
  { intros sc1 Hsc1'. rewrite Hsc1 in Hsc1'. by injection Hsc1' as <-. }
  assert (s_topics (subscriber s h1) = s_topics sc) as Hts.
  { unfold subscriber. by rewrite Hsc1. }
  rewrite Hts.
  destruct (unsubscribe_loop s (s_topics sc) h1 Hs1 Hm1) as (Hs2 & Hst2 & Hsub2).
  { intros l Hl. by apply (subscribed_safe s sc l h Hs Hsc Hon Hl). }
  split_and!.
  - done.
  - eapply still_trans; [apply Hs|by apply still_with_subs, Hs|done].
  - by rewrite Hsub2.
Qed.

(** ** Detach callbacks are never reassigned *)

Lemma fixed_same h h' :
  next h' = next h → (∀ l, n_detach (node l h') = n_detach (node l h)) → fixed h h'.
Proof. intros Hn Hd. split; [lia|]. intros l _. apply Hd. Qed.

Lemma fixed_refl h : fixed h h.
Proof. by apply fixed_same. Qed.

Lemma fixed_trans h h' h'' : fixed h h' → fixed h' h'' → fixed h h''.
Proof.
  intros [Hn1 Hd1] [Hn2 Hd2]. split; [lia|]. intros l Hl.
  rewrite Hd2 by lia. by apply Hd1.
Qed.

Lemma fixed_write_subscribers t f h : fixed h (Topic.write_subscribers t f h).
Proof.
  apply fixed_same; [by destruct t|]. intros l.
  apply (same_slots_node h _ l), slots_write_subscribers.
Qed.

Lemma fixed_tryDetach t h : fixed h (Topic.tryDetach t h).
Proof.
  unfold Topic.tryDetach. destruct (Topic.detach t h) as [d|]; [|apply fixed_refl].
  destruct (_ && _); [|apply fixed_refl].
  apply fixed_same; [done|]. intros l. by rewrite node_call_detach.
Qed.

Lemma fixed_foldl {A} (f : Heap → A → Heap) (xs : list A) :
  (∀ h x, fixed h (f h x)) → ∀ h, fixed h (foldl f h xs).
Proof.
  intros Hf. induction xs as [|x xs IH]; intros h; [apply fixed_refl|].
  simpl. eapply fixed_trans; [apply Hf|apply IH].
Qed.

Lemma fixed_subscribe_all s h : fixed h (subscribe_all s h).
Proof.
  unfold subscribe_all. eapply fixed_trans; [|apply fixed_foldl].
  - by apply fixed_same.
  - intros. apply fixed_write_subscribers.
Qed.

Lemma fixed_unsubscribe_all s h : fixed h (unsubscribe_all s h).
Proof.
  unfold unsubscribe_all. eapply fixed_trans; [|apply fixed_foldl].
  - by apply fixed_same.
  - intros h' t. unfold Topic.unsubscribe.
    eapply fixed_trans; [apply fixed_write_subscribers|apply fixed_tryDetach].
Qed.

Lemma fixed_createVolatileNode k x h : fixed h (Branch.createVolatileNode k x h).2.
Proof.
  split; [simpl; lia|]. intros l Hl.
  unfold Branch.createVolatileNode, Branch.createChild, alloc, Branch.set_node,
    modify_branch, with_cells, node. simpl.
  rewrite lookup_alter. case_decide as Hx.
  - subst x. rewrite lookup_insert_ne by lia. by destruct (cells h !! l) as [[?|?|?]|].
  - by rewrite lookup_insert_ne by lia.
Qed.

Lemma fixed_getNodeAndTopics_from path :
  ∀ l topics h, fixed h (Node.getNodeAndTopics_from path l topics h).2.
Proof.
  induction path as [|k path IH]; intros l topics h; [apply fixed_refl|].
  cbn [Node.getNodeAndTopics_from].
  destruct (n_value (node l h)) as [|t|x]; [apply fixed_refl..|].
  destruct (b_nodes (branch x h) !! k) as [c|]; [apply IH|].
  pose proof (fixed_createVolatileNode k x h) as H1.
  destruct (Branch.createVolatileNode k x h) as [c h1]. cbn [snd] in H1.
  eapply fixed_trans; [exact H1|apply IH].
Qed.

Lemma fixed_produce fuel p this h : fixed h (State.produce fuel p this h).2.
Proof.
  unfold State.produce, Node.getNodeAndTopics.
  pose proof (fixed_getNodeAndTopics_from (keys this) (root this) [TNode (root this)] h) as H1.
  destruct (Node.getNodeAndTopics_from _ _ _ h) as [[n topics] h1]. cbn [snd] in H1.
  destruct p; [by destruct n|done|by destruct (match n with Some _ => _ | None => _ end)..].
Qed.

Lemma fixed_reaction fuel s h : fixed h (State.reaction fuel s h).
Proof.
  unfold State.reaction.
  pose proof (fixed_unsubscribe_all s h) as H1.
  set (h1 := unsubscribe_all s h) in *.
  destruct (s_reaction (subscriber s h1)) as [p this].
  pose proof (fixed_produce fuel p this h1) as H2.
  destruct (State.produce fuel p this h1) as [[v topics] h2]. cbn [snd] in H2.
  eapply fixed_trans; [exact H1|]. eapply fixed_trans; [exact H2|].
  eapply fixed_trans; [|apply fixed_subscribe_all]. by apply fixed_same.
Qed.

Lemma fixed_flush fuel h : fixed h (State.flush fuel h).
Proof.
  unfold State.flush. eapply fixed_trans; [|apply fixed_foldl].
  - by apply fixed_same.
  - intros h' s. destruct (s_subscribed _); [apply fixed_reaction|apply fixed_refl].
Qed.

(** A root stays a root. *)
Lemma is_root_fixed r h h' :
  fixed h h' → sound h' → keeps h h' → (∃ n, cells h !! r = Some (ONode n)) → bounded h →
  is_root r h → is_root r h'.
Proof.
  intros [Hn Hd] Hs Hk [n Hr] Hbd [_ Hdet].
  assert (r < next h) as Hlt.
  { destruct (decide (r < next h)) as [|Hge]; [done|].
    rewrite (Hbd r) in Hr by lia. done. }
  destruct (keeps_node _ _ Hk _ _ Hr) as (n' & Hr' & _).
  specialize (Hd r Hlt). rewrite Hdet in Hd.
  rewrite (node_lookup _ _ _ Hr') in Hd.
  unfold is_root. rewrite (node_lookup _ _ _ Hr').
  by rewrite (sound_links h' Hs r n' Hr').
Qed.

(** ** The walk of a tracked read *)


Lemma createVolatileNode_sound k x bc h :
  sound h → cells h !! x = Some (OBranch bc) → b_nodes bc !! k = None →
  let r := Branch.createVolatileNode k x h in
  r.1 = next h ∧ sound r.2 ∧ still h r.2 ∧ subs r.2 = subs h ∧
  rep r.2 r.1 SUndefined ∧ reg r.1 r.2 ∧ (∀ c, reg c h → reg c r.2).
Proof.
  intros Hs Hx Hk r. pose proof (sound_bounded h Hs) as Hbd.
  set (nc := MkNode CUndefined [] (Some (k, x)) (Some (k, x))).
  set (h' := r.2).
  assert (cells h' = alter (on_branch (with_nodes (insert k (next h)))) x
                           (<[next h := ONode nc]> (cells h))) as Hc by done.
  assert (x ≠ next h) as Hxn.
  { intros ->. rewrite (Hbd (next h)) in Hx by lia. done. }
  assert (cells h' !! next h = Some (ONode nc)) as Hnew.
  { rewrite Hc, lookup_alter_ne by done. apply lookup_insert_eq. }
  assert (cells h' !! x = Some (OBranch (with_nodes (insert k (next h)) bc))) as Hx'.
  { rewrite Hc, lookup_alter_eq, lookup_insert_ne by done. by rewrite Hx. }
  assert (∀ y, y ≠ x → y ≠ next h → cells h' !! y = cells h !! y) as Hother.
  { intros y Hy1 Hy2. rewrite Hc, lookup_alter_ne by done. by apply lookup_insert_ne. }
  assert (∀ y j c, b_nodes (branch y h) !! j = Some c → b_nodes (branch y h') !! j = Some c)
    as Hnodes.
  { intros y j c Hj. destruct (decide (y = x)) as [->|Hy].
    - rewrite (branch_lookup _ _ _ Hx) in Hj. rewrite (branch_lookup _ _ _ Hx'). simpl.
      rewrite lookup_insert_ne; [done|]. intros ->. by rewrite Hk in Hj.
    - destruct (decide (y = next h)) as [->|Hy2].
      + unfold branch in Hj. rewrite (Hbd (next h)) in Hj by lia. done.
      + unfold branch in *. by rewrite Hother. }
  assert (sound h') as Hs'.
  { apply sound_createVolatileNode; [done|]. by rewrite (branch_lookup _ _ _ Hx). }
  split_and!.
  - done.
  - done.
  - split; [by apply keeps_createVolatileNode|]. intros y j c Hj _. by apply Hnodes.
  - done.
  - by apply (rep_undefined h' (next h) nc).
  - exists nc. split; [done|]. simpl. unfold slot. simpl.
    rewrite (branch_lookup _ _ _ Hx'). simpl. apply lookup_insert_eq.
  - intros c (n & Hcn & Hslot).
    assert (c ≠ x) as Hcx by (intros ->; by rewrite Hx in Hcn).
    assert (c ≠ next h) as Hcn'.
    { intros ->. rewrite (Hbd (next h)) in Hcn by lia. done. }
    exists n. split; [by rewrite Hother|].
    destruct (n_detach n) as [d|]; [|done]. by apply Hnodes.
Qed.

Lemma walk_sound path : ∀ l topics h S,
  sound h → rep h l S → (∀ c, TNode c ∈ topics → reg c h) →
  let r := Node.getNodeAndTopics_from path l topics h in
  sound r.2 ∧ still h r.2 ∧ subs r.2 = subs h ∧ (∀ c, TNode c ∈ r.1.2 → reg c r.2).
Proof.
  induction path as [|k path IH]; intros l topics h S Hs Hr Hreg;
    cbn [Node.getNodeAndTopics_from].
  - simpl. split_and!; [done|by apply still_refl, Hs|done|done].
  - inversion Hr as [l0 n Hl Hv|l0 n t c Hl Hv Ht|l0 n b bc kids Hl Hv Hb Hcov Hkids]; subst;
      rewrite (node_lookup _ _ _ Hl), Hv.
    1,2: simpl; split_and!; [done|by apply still_refl, Hs|done|done].
    rewrite (branch_lookup _ _ _ Hb).
    destruct (b_nodes bc !! k) as [c|] eqn:Hk.
    + destruct (proj1 (Hcov k c) Hk) as [Sc Hin].
      rewrite Forall_forall in Hkids. destruct (Hkids _ Hin) as (_ & _ & Hrc). simpl in Hrc.
      apply (IH c _ h Sc); [done|done|].
      intros c' Hc'. apply elem_of_app in Hc' as [Hc'|Hc']; [by apply Hreg|].
      apply list_elem_of_singleton in Hc'. injection Hc' as ->.
      assert (b_nodes (branch b h) !! k = Some c) as Hk'
        by (by rewrite (branch_lookup _ _ _ Hb)).
      destruct (lookup_safe b k c h Hs Hk') as [_ (nc & Hc & Hd)].
      exists nc. split; [done|]. by rewrite Hd.
    + destruct (createVolatileNode_sound k b bc h Hs Hb Hk)
        as (H1 & Hs1 & Hst1 & Hsub1 & Hr1 & Hreg1 & Hregs).
      destruct (Branch.createVolatileNode k b h) as [c h1]. simpl in *. subst c.
      destruct (IH (next h) (topics ++ [TNode (next h)]) h1 SUndefined Hs1 Hr1)
        as (Hs2 & Hst2 & Hsub2 & Hreg2).
      { intros c' Hc'. apply elem_of_app in Hc' as [Hc'|Hc']; [by apply Hregs, Hreg|].
        apply list_elem_of_singleton in Hc'. by injection Hc' as ->. }
      split_and!; [done| |by etrans|done].
      eapply still_trans; [apply Hs|exact Hst1|exact Hst2].
Qed.

Lemma collect_reg fuel : ∀ n h c,
  sound h → TNode c ∈ Node.collectTopicsInto fuel n h → reg c h.
Proof.
  induction fuel as [|fuel IH]; intros n h c Hs Hin; simpl in Hin;
    [by apply elem_of_nil in Hin|].
  destruct (n_value (node n h)) as [|t|x].
  - by apply elem_of_nil in Hin.
  - by apply list_elem_of_singleton in Hin.
  - apply elem_of_cons in Hin as [?|Hin]; [done|].
    apply list_elem_of_bind in Hin as ([k c'] & Hin & Hkc).
    apply elem_of_map_to_list in Hkc. simpl in Hin.
    apply elem_of_cons in Hin as [Heq|Hin]; [|by eapply IH].
    injection Heq as ->. destruct (lookup_safe x k c' h Hs Hkc) as [_ (nc & Hc & Hd)].
    exists nc. split; [done|]. by rewrite Hd.
Qed.

Lemma produce_sound fuel p this h S :
  sound h → rep h (root this) S → reg (root this) h →
  let r := State.produce fuel p this h in
  sound r.2 ∧ still h r.2 ∧ subs r.2 = subs h ∧ (∀ c, TNode c ∈ r.1.2 → reg c r.2).
Proof.
  intros Hs Hr Hreg. unfold State.produce, Node.getNodeAndTopics.
  pose proof (walk_sound (keys this) (root this) [TNode (root this)] h S Hs Hr) as Hw.
  destruct (Node.getNodeAndTopics_from _ _ _ h) as [[n topics] h1]. simpl in Hw.
  destruct Hw as (Hs1 & Hst1 & Hsub1 & Hreg1).
  { intros c Hc. apply list_elem_of_singleton in Hc. by injection Hc as ->. }
  assert (∀ b c, TNode c ∈ topics ++ [TKeys b] → reg c h1) as Hkeys.
  { intros b c Hc. apply elem_of_app in Hc as [Hc|Hc]; [by apply Hreg1|].
    by apply list_elem_of_singleton in Hc. }
  destruct p.
  - destruct n as [n|]; simpl; [|done]. split_and!; [done..|].
    intros c Hc. apply elem_of_app in Hc as [Hc|Hc]; [by apply Hreg1|by eapply collect_reg].
  - done.
  - destruct (match n with Some _ => _ | None => _ end); simpl; [done..|].
    split_and!; [done..|apply Hkeys].
  - destruct (match n with Some _ => _ | None => _ end); simpl; [done..|].
    split_and!; [done..|apply Hkeys].
Qed.

(** ** subscribe *)

Lemma reg_slots h h' c :
  (∀ y, same_slots (cells h !! y) (cells h' !! y)) → reg c h → reg c h'.
Proof.
  intros Hc (n & Hn & Hslot). pose proof (Hc c) as Hcc. rewrite Hn in Hcc.
  destruct (cells h' !! c) as [[n'|?|?]|] eqn:Hn'; try done.
  destruct Hcc as (Hd & _ & _). exists n'. split; [done|]. rewrite Hd.
  destruct (n_detach n) as [d|]; [|done]. unfold slot in *.
  by rewrite (same_slots_branch h h' d.2 (Hc d.2)).
Qed.

Lemma subscribers_subscribe t s c h :
  s ∈ n_subscribers (node c h) → s ∈ n_subscribers (node c (Topic.subscribe t s h)).
Proof.
  intros Hin. destruct t as [l|l|b]; unfold Topic.subscribe, node; simpl;
    rewrite lookup_alter; (case_decide; [subst|done]).
  - unfold node in Hin. destruct (cells h !! c) as [[n|?|?]|]; simpl; try done.
    unfold set_add. case_decide; [done|]. apply elem_of_app. by left.
  - unfold node in Hin. by destruct (cells h !! c) as [[n|?|?]|].
  - unfold node in Hin. by destruct (cells h !! c) as [[n|?|?]|].
Qed.

Lemma subscribers_subscribe_self s c h :
  reg c h → s ∈ n_subscribers (node c (Topic.subscribe (TNode c) s h)).
Proof.
  intros (n & Hn & _). unfold Topic.subscribe, node. simpl.
  rewrite lookup_alter_eq, Hn. simpl. unfold set_add. case_decide; [done|].
  apply elem_of_app. right. by apply list_elem_of_singleton.
Qed.

Lemma reg_subscribe_loop s ts c : ∀ h,
  reg c h → reg c (foldl (λ h a, Topic.subscribe a s h) h ts).
Proof.
  induction ts as [|t ts IH]; intros h Hc; [done|].
  simpl. apply IH. apply (reg_slots h); [apply slots_write_subscribers|done].
Qed.

Lemma subscribe_loop s ts : ∀ h,
  sound h → (∀ c, TNode c ∈ ts → reg c h) →
  let h' := foldl (λ h a, Topic.subscribe a s h) h ts in
  sound h' ∧ still h h' ∧ subs h' = subs h ∧
  (∀ c, s ∈ n_subscribers (node c h) → s ∈ n_subscribers (node c h')) ∧
  (∀ c, TNode c ∈ ts → s ∈ n_subscribers (node c h')).
Proof.
  induction ts as [|t ts IH]; intros h Hs Hreg h'.
  - split_and!; [done|by apply still_refl, Hs|done|done|].
    intros c Hc. by apply elem_of_nil in Hc.
  - unfold h'. simpl. set (h1 := Topic.subscribe t s h).
    assert (sound h1) as Hs1.
    { apply sound_subscribe; [done|]. intros c Heq. apply Hreg. rewrite Heq. by left. }
    assert (still h h1) as Hst1 by (apply still_write_subscribers, Hs).
    assert (subs h1 = subs h) as Hsub1 by (by destruct t).
    destruct (IH h1 Hs1) as (Hs2 & Hst2 & Hsub2 & Hmono & Hin).
    { intros c Hc. apply (reg_slots h); [apply slots_write_subscribers|].
      apply Hreg. by right. }
    split_and!; [done| |by etrans| |].
    + eapply still_trans; [apply Hs|exact Hst1|exact Hst2].
    + intros c Hc. by apply Hmono, subscribers_subscribe.
    + intros c Hc. apply elem_of_cons in Hc as [Heq|Hc]; [|by apply Hin].
      apply Hmono. unfold h1. rewrite <- Heq.
      apply subscribers_subscribe_self, Hreg. rewrite Heq. by left.
Qed.

Lemma subscribe_all_sound s sc h :
  sound h → subs h !! s = Some sc → (∀ c, TNode c ∈ s_topics sc → reg c h) →
  let h' := subscribe_all s h in
  sound h' ∧ still h h' ∧
  subs h' = <[s := MkSubscriber (s_reaction sc) true (s_topics sc)]> (subs h) ∧
  (∀ c, TNode c ∈ s_topics sc → s ∈ n_subscribers (node c h')) ∧
  (∀ c, reg c h → reg c h').
Proof.
  intros Hs Hsc Hreg h'. unfold h', subscribe_all.
  set (g := alter (λ c, MkSubscriber (s_reaction c) true (s_topics c)) s).
  assert (s_topics (subscriber s (with_subs g h)) = s_topics sc) as ->.
  { unfold subscriber, g. simpl. by rewrite lookup_alter_eq, Hsc. }
  rewrite subscribe_with_subs.
  destruct (subscribe_loop s (s_topics sc) h Hs Hreg) as (Hs2 & Hst2 & Hsub2 & _ & Hin).
  set (h2 := foldl (λ h a, Topic.subscribe a s h) h (s_topics sc)) in *.
  split_and!.
  - apply sound_unmute; [done|]. intros sc' c Hsc'. rewrite Hsub2, Hsc in Hsc'.
    injection Hsc' as <-. apply Hin.
  - eapply still_trans; [apply Hs|exact Hst2|]. apply still_with_subs, Hs2.
  - unfold g. simpl. rewrite Hsub2. apply map_eq. intros s'.
    rewrite lookup_alter, lookup_insert. case_decide; [subst s'|done]. by rewrite Hsc.
  - intros c Hc. by apply Hin.
  - intros c Hc. by apply (reg_subscribe_loop s (s_topics sc) c h).
Qed.

(** ** A reaction in the store of a state *)

Lemma rooted_reg r h : sound h → is_root r h → (∃ n, cells h !! r = Some (ONode n)) → reg r h.
Proof.
  intros Hs [_ Hd] [n Hn]. exists n. split; [done|].
  rewrite (node_lookup _ _ _ Hn) in Hd. by rewrite Hd.
Qed.

Lemma proper_step r h h' :
  proper r h → sound h' → still h h' → fixed h h' →
  (∀ s sc, subs h' !! s = Some sc → root (s_reaction sc).2 = r) →
  proper r h'.
Proof.
  intros (Hs & Hrt & Hroot & S & Ht) Hs' Hst Hfix Hrt'.
  pose proof (still_keeps _ _ Hst) as Hk.
  destruct (keeps_tree h h' r S Ht Hk Hs') as (S' & Ht' & _).
  split_and!; [done|done| |by exists S'].
  destruct Ht as (Hbd & Hr & _).
  apply (is_root_fixed r h h'); [done|done|done|by eapply rep_node|done|done].
Qed.

Lemma reaction_proper fuel s sc r h :
  proper r h → subs h !! s = Some sc → s_subscribed sc = true →
  let h' := State.reaction fuel s h in
  proper r h' ∧ still h h'.
Proof.
  intros Hp Hsc Hon h'. pose proof Hp as (Hs & Hrt & Hroot & S & Ht).
  pose proof (sound_bounded h Hs) as Hbd.
  unfold h', State.reaction.
  destruct (unsubscribe_all_sound s sc h Hs Hsc Hon) as (Hs1 & Hst1 & Hsubs1).
  pose proof (fixed_unsubscribe_all s h) as Hf1.
  set (h1 := unsubscribe_all s h) in *.
  assert (subs h1 !! s = Some (MkSubscriber (s_reaction sc) false (s_topics sc))) as Hsc1.
  { rewrite Hsubs1. apply lookup_insert_eq. }
  assert (proper r h1) as Hp1.
  { apply (proper_step r h); [done..|]. intros s' sc'. rewrite Hsubs1, lookup_insert.
    case_decide; [subst s'|apply Hrt]. intros [= <-]. simpl. by eapply Hrt. }
  destruct Hp1 as (_ & Hrt1 & Hroot1 & S1 & Ht1).
  assert (s_reaction (subscriber s h1) = s_reaction sc) as Hre.
  { unfold subscriber. by rewrite Hsc1. }
  rewrite Hre. destruct (s_reaction sc) as [p this] eqn:Hpt.
  assert (root this = r) as Hthis.
  { pose proof (Hrt s sc Hsc) as H0. by rewrite Hpt in H0. }
  pose proof Ht1 as (Hbd1 & Hr1 & _).
  destruct (produce_sound fuel p this h1 S1 Hs1) as (Hs2 & Hst2 & Hsub2 & Hreg2).
  { by rewrite Hthis. }
  { rewrite Hthis. apply rooted_reg; [done|done|by eapply rep_node]. }
  pose proof (fixed_produce fuel p this h1) as Hf2.
  destruct (State.produce fuel p this h1) as [[v topics] h2]. simpl in Hs2, Hst2, Hsub2, Hreg2, Hf2.
  assert (muted s h2) as Hm2.
  { intros sc2 Hsc2. rewrite Hsub2, Hsc1 in Hsc2. by injection Hsc2 as <-. }
  pose proof (sound_set_topics s topics h2 Hs2 Hm2) as Hs3.
  set (h3 := State.set_topics s topics h2) in *.
  assert (subs h3 !! s = Some (MkSubscriber (p, this) false topics)) as Hsc3.
  { unfold h3, State.set_topics. simpl. by rewrite lookup_alter_eq, Hsub2, Hsc1. }
  destruct (subscribe_all_sound s _ h3 Hs3 Hsc3) as (Hs4 & Hst4 & Hsub4 & _).
  { simpl. intros c Hc. by apply Hreg2. }
  assert (still h h3) as Hst3.
  { eapply still_trans; [done|exact Hst1|]. eapply still_trans; [done|exact Hst2|].
    apply still_with_subs, Hs2. }
  assert (still h (subscribe_all s h3)) as Hst.
  { eapply still_trans; [done|exact Hst3|exact Hst4]. }
  split; [|done].
  apply (proper_step r h); [done|done|done| |].
  - eapply fixed_trans; [exact Hf1|]. eapply fixed_trans; [exact Hf2|].
    eapply fixed_trans; [|apply fixed_subscribe_all]. by apply fixed_same.
  - intros s' sc'. rewrite Hsub4, lookup_insert. case_decide; [subst s'|].
    + by intros [= <-].
    + unfold h3, State.set_topics. simpl. rewrite lookup_alter_ne, Hsub2 by done.
      apply Hrt1.
Qed.

(** ** A flush in the store of a state *)

Lemma sound_with_notified f h : sound h → sound (with_notified f h).
Proof. intros Hs. apply (sound_same h); [done|done|done|]. intros y. apply same_links_refl. Qed.

Lemma flush_loop fuel r ss : ∀ h,
  proper r h →
  let h' := foldl (λ h s, if s_subscribed (subscriber s h)
                          then State.reaction fuel s h else h) h ss in
  proper r h' ∧ still h h'.
Proof.
  induction ss as [|s ss IH]; intros h Hp h'.
  - split; [done|]. apply still_refl, Hp.
  - unfold h'. simpl.
    set (h1 := if s_subscribed (subscriber s h) then State.reaction fuel s h else h).
    assert (proper r h1 ∧ still h h1) as [Hp1 Hst1].
    { unfold h1, subscriber. destruct (subs h !! s) as [sc|] eqn:Hsc; simpl.
      - destruct (s_subscribed sc) eqn:Hon; [by eapply reaction_proper|].
        split; [done|]. apply still_refl, Hp.
      - split; [done|]. apply still_refl, Hp. }
    destruct (IH h1 Hp1) as [Hp2 Hst2]. split; [done|].
    eapply still_trans; [apply Hp|exact Hst1|exact Hst2].
Qed.

Lemma flush_proper fuel r h :
  proper r h → proper r (State.flush fuel h) ∧ still h (State.flush fuel h).
Proof.
  intros Hp. pose proof Hp as (Hs & Hrt & Hroot & S & Ht).
  pose proof (sound_bounded h Hs) as Hbd.
  unfold State.flush. set (h0 := with_notified (λ _, []) h).
  assert (still h h0) as Hst0.
  { apply still_same_nodes; [by apply keeps_with_notified|done]. }
  assert (proper r h0) as Hp0.
  { apply (proper_step r h); [done|by apply sound_with_notified|done|by apply fixed_same|].
    apply Hrt. }
  destruct (flush_loop fuel r (notified h) h0 Hp0) as [Hp1 Hst1]. split; [done|].
  eapply still_trans; [done|exact Hst0|exact Hst1].
Qed.

(** ** What is read after a step that keeps the values *)









(** ** The facade keeps the store of a state proper *)

Lemma flush_notified fuel h : notified (State.flush fuel h) = [].
Proof.
  assert (quiet (with_notified (λ _, []) h) (State.flush fuel h)) as [Hn _]; [|done].
  unfold State.flush. apply quiet_foldl. intros h1 s.
  destruct (s_subscribed _); [apply quiet_reaction|apply quiet_refl].
Qed.

Lemma update_unflushed_proper v this h :
  wf_value v → proper (root this) h →
  proper (root this) (State.update_unflushed v this h).2.
Proof.
  intros Hwf (Hs & Hrt & Hroot & S & Ht).
  destruct (update_unflushed_tree v this h S Hwf Ht Hroot) as (S' & Ht' & _ & Hw).
  split_and!.
  - by apply sound_update_unflushed.
  - intros s sc. rewrite (mods_subs _ _ _ _ Hw). apply Hrt.
  - by apply (within_is_root S _ h _).
  - by exists S'.
Qed.

Lemma update_flushes fuel v this h :
  wf_value v →
  State.update fuel v this h =
    (Return (), State.flush fuel (State.update_unflushed v this h).2).
Proof.
  intros Hwf. unfold State.update. by rewrite (update_unflushed_snd v this h Hwf).
Qed.


Lemma createState_makes_proper fuel v h :
  wf_value v → sound h → subs h = ∅ →
  (createState fuel v h).1 = (Return (), MkStateRef (next h) []) ∧
  proper (next h) (createState fuel v h).2 ∧ notified (createState fuel v h).2 = [].
Proof.
  intros Hwf Hs Hsub. pose proof (sound_bounded h Hs) as Hbd. unfold createState.
  destruct (alloc_root h Hbd) as (Ht0 & Hroot0 & Hm0 & _).
  pose proof (sound_alloc (ONode empty_node) h Hs (conj eq_refl eq_refl)) as Hs0.
  assert (subs (alloc (ONode empty_node) h).2 = ∅) as Hsub0 by done.
  destruct (alloc (ONode empty_node) h) as [r h0] eqn:Ha.
  assert (r = next h) as -> by (by injection Ha as <- _).
  cbn [snd] in *.
  assert (proper (next h) h0) as Hp0.
  { split_and!; [done| |done|by exists SUndefined].
    intros s sc. by rewrite Hsub0, lookup_empty. }
  set (this := MkStateRef (next h) []).
  rewrite (update_flushes fuel v this h0 Hwf). cbn [fst snd].
  split_and!; [done| |apply flush_notified].
  apply (flush_proper fuel (next h)), (update_unflushed_proper v this h0 Hwf Hp0).
Qed.

(** ** The mount of a component *)



(** ** What a tracked read returns *)






(** ** The stores of the examples are proper *)

Lemma sound_empty_heap : sound empty_heap.
Proof.
  split; unfold empty_heap; simpl.
  - by intros x _.
  - intros c nc Hc. by rewrite lookup_empty in Hc.
  - intros b bc k c Hb. by rewrite lookup_empty in Hb.
  - intros c nc d Hc. by rewrite lookup_empty in Hc.
  - intros s sc c Hs. by rewrite lookup_empty in Hs.
  - intros s sc Hs. by rewrite lookup_empty in Hs.
Qed.





(** X13: [createState(v)] with a valid value, in a sound store that has no
    Subscriber yet (the empty store is one), returns a facade at a new root
    and leaves a store that is proper for this root: the store is sound
    (each entry of a [nodes] map is a Node whose detach callback and parent
    link name that entry; a child Node that has a subscriber is registered
    under its parent; a subscribed Subscriber is in the subscriber set of
    each Node it depends on), the root is a root, and it heads a proper
    tree.  Nobody is dirty afterwards. *)
Theorem createState_starts_proper fuel v h :
  wf_value v → sound h → subs h = ∅ →
  (createState fuel v h).1 = (Return (), MkStateRef (next h) []) ∧
  proper (next h) (createState fuel v h).2 ∧
  notified (createState fuel v h).2 = [].
Proof. apply createState_makes_proper. Qed.

Lemma createState_starts_proper_witness :
  (createState 9 nested_value empty_heap).1 = (Return (), MkStateRef 0 []) ∧
  proper 0 (createState 9 nested_value empty_heap).2 ∧
  notified (createState 9 nested_value empty_heap).2 = [].
Proof.
  apply (createState_starts_proper 9 nested_value empty_heap).
  - repeat constructor; set_solver.
  - apply sound_empty_heap.
  - done.
Defined.









(** ** Subscribing to the topics of a read *)















(** ** The walk of [update] leaves the atoms alone *)












(** ** A different atom marks the users dirty *)


(** ** The Subscriber records over a flush *)










(** ** Mount and unmount *)























